(* ===== verification/_CoqProject ===== *)
-Q . S2P
Prelude.v
Crates.v
Errors.v
Config.v
Command.v
Frame.v
Codec.v
CodecSpec.v
Runtime.v
SessionState.v
Stream.v
StreamSpec.v
Session.v
Loops.v
SessionSpec.v
SessionProps.v
Handshake.v
Delivery.v
LoopsSpec.v
LoopsProps.v
KeepAliveClock.v
Endpoint.v
EndpointSpec.v
EndpointMoves.v
Ownership.v
Arrival.v
Emission.v
EndpointInv.v
Duplex.v
DuplexSpec.v
DuplexInv.v
DuplexProps.v
DuplexDrain.v
Tests.v
TestsSession.v
