(* ===== verification/Prelude.v ===== *)
(** * smux: a verification development

    smux multiplexes many byte streams over one connection.  Its Rust sources are the
    files [src/src/*.rs]; this library models them and proves what they guarantee.

    ** The program

    - [config.rs], [error.rs], [command.rs], [frame.rs]: configuration, errors, the five
      commands (SYN opens a stream, FIN ends it, PSH carries data, NOP keeps alive, UPD
      announces a window) and the frame, a command with a stream identifier and data.
    - [codec.rs]: a frame is an 8-byte little-endian header (version, command, 16-bit
      length, 32-bit stream identifier) and its payload; [decode] is incremental.
    - [session.rs]: a session has a table of streams, a bounded channel of outgoing frames,
      a 16-slot queue of streams to accept, and three tasks: [recv_loop] decodes frames
      from the connection and dispatches them, [send_loop] encodes the frames of the
      channel, [keep_alive_loop] sends NOPs and closes a silent session.
    - [stream.rs]: the user's end of a stream.  Reading takes chunks from the stream's
      unbounded data channel, which the session fills; writing puts PSH frames into the
      session's frame channel; closing puts a FIN there.

    ** The files

    - Prelude.v (this file): machine integers as [Z] with their wrap-around, results
      ([Ok], [Err], [Panic]), tactics, lemmas on byte strings.
    - Crates.v, Runtime.v: code outside the repository.  [bytes], [flume],
      [tokio::sync::Notify], [tokio::io::ReadBuf], [tokio::time::interval] and
      [tokio_util::codec::Framed] are classes of operations ([BytesCrate], [FlumeCrate],
      ...) with classes of documented laws ([BytesLaws], ...) and reference instances that
      the witnesses compute with.  [DashMap] is any [FinMap] of stdpp.
    - Errors.v ([error.rs]), Config.v ([config.rs]), Command.v ([command.rs]), Frame.v
      ([frame.rs]), Codec.v ([codec.rs]): one definition per function, with its name or,
      where two functions of the crate share a name, with the type's name in front.
    - SessionState.v: [SessionState] of [session.rs], the cells a session shares with its
      streams (closed flag, token count, keep-alive flag and two notifiers).
    - Stream.v ([stream.rs]): the stream, and the store [Shared] of the objects that
      session and streams alias: session state, frame channel, data channels by number.
    - Session.v ([session.rs]): [Session] and [SessionInner], opening, accepting, closing,
      and the frame handlers.
    - Loops.v ([session.rs]): the three tasks, and [System], the session with its tasks.
    - CodecSpec.v, StreamSpec.v, SessionSpec.v, SessionProps.v, Handshake.v, Delivery.v,
      LoopsSpec.v, LoopsProps.v: specifications, lemmas and properties.
    - KeepAliveClock.v: the keep-alive loop against the clock.
    - Endpoint.v: an endpoint, a [System] with the streams its users hold and the calls
      they wait in; the operations ([Op]) of users, tasks and timers; [ep_run] executes
      one and records what it did as a history of events.
    - EndpointSpec.v: the abstract moves ([moves]) on views of endpoints;
      EndpointMoves.v: every operation is a sequence of moves.
    - Ownership.v, Arrival.v, Emission.v, EndpointInv.v: the invariants of an endpoint
      over its moves: which channel belongs to which stream, what has arrived for a
      reader, what has been sent for a stream, and all of it together ([ep_inv]).
    - Duplex.v: two endpoints and the connection between them, run by schedules
      ([dx_run]); DuplexSpec.v, DuplexInv.v: their joint invariant ([pair_inv]);
      DuplexProps.v, DuplexDrain.v: what a connection guarantees.
    - Tests.v, TestsSession.v: the unit tests of the crate as executable definitions.

    ** How code becomes definitions

    An [async fn] runs until an await whose future is not ready; what it keeps across the
    await is a value of a future type ([OpenFuture], [FrameFuture], [RecvTask], ...), and
    polling again is a function of that value.  Everything between two awaits is one step
    (races within such a stretch, which several threads allow, are not covered);
    steps of different tasks and users interleave in any order ([session_step] for the
    operations on a session, [system_step] for users, tasks and arriving bytes, [Op] for
    an endpoint and [Happens] for two of them).  The random choice of
    [select!] is an argument.  Errors are values; [Panic] is a panic.  The [send_async] of
    flume is polled: while the channel is full it is pending and leaves the channel as it
    is, and it is attempted again at the next poll (flume itself moves the message of a
    waiting send into the channel as soon as there is room; a poll at that moment has the
    same effect).  Rendezvous channels (capacity 0) are
    left unspecified by the laws.  Atomic accesses are single steps in program order.

    ** What is proved

    - Codec (CodecSpec.v): [decode] accepts exactly the wire format; encode and decode
      are inverse; the frames read do not depend on segmentation; no input panics; all
      outcomes of [encode]; the unguarded 16-bit length.
    - Streams (StreamSpec.v): outcomes of [poll_read] and [poll_write]; reads deliver the
      bytes in order and to the end; what a stream sends is data frames and then at most
      one FIN; lost bytes on empty reads, lost FIN on cancelled closes, a flag never set.
    - Sessions (SessionSpec.v, SessionProps.v): identifiers; the table invariant over
      every interleaving; the handlers refine an abstract session ([spec_frame]: a map
      from identifiers to the chunks not read yet); flow control never engages and nothing
      bounds the receive buffer; FIN and close.
    - Opening (Handshake.v): every outcome of [open_stream]; open at one end, accept at
      the other.
    - Delivery (Delivery.v): a write is fragmented without loss; streams are isolated;
      what is written at one end is read at the other, through fragmentation, the codec,
      any segmentation, interleaving with other streams, and the reader's buffers.
    - Tasks (LoopsSpec.v, LoopsProps.v): the receive loop dispatches exactly the frames
      of the connection, in order, and ends with it, when bytes not read yet are lost; the
      send loop writes exactly the frames of the channel, in order; an invariant of the
      running system; when keep-alive closes a session; what blocks the tasks and which
      close notifications they miss.
    - Time (KeepAliveClock.v): a silent session is closed at the deadline of the timeout,
      wherever the rounds before it have left the loop, if the pings that are due have room.
    - Connections (DuplexProps.v, DuplexDrain.v), for two compatible endpoints joined by a
      byte stream each way that may be cut anywhere, and every schedule of users, tasks and
      deliveries in which reads give room and the counters last (Limits): what a reader
      gets is a prefix of what the writer at the other end
      wrote; end of file means that it has everything; when nothing is on its way nothing
      is missing; a connection that is up can always be brought to that state by the tasks
      alone; the frames handled are the first frames sent, in order; no endpoint finds
      fault with the other's frames; frames are well typed and follow the grammar SYN,
      data, FIN; streams are opened by one side and registered once.
    - Tests: the unit tests of the crate pass on the model.

    ** Fuel

    [write_all] recurses on fuel, one poll per fragment: every successful write of a
    non-empty buffer takes off a full frame or all that is left ([write_all_fragments]
    proves that it then ends with success, when the frame channel has room for them).  [drain] uses the length of the buffer plus one: a
    frame takes at least its header.  [recv_run] counts steps of the receive loop;
    [recv_loop_drains] proves that one per frame and one more is enough.  [read_all] is
    structural on the list of the reader's buffers.

    ** Limits

    The properties of connections assume that a side has handled and delivered less than
    2^63 bytes in all (the token counter of [i64]) and opened less than 2^31 streams (the
    32-bit identifiers): [within_limits].  [usable] asks for a valid configuration whose
    frames fit the 16-bit length field and whose frame channel has room for a frame;
    without it frames cannot be sent ([encode_truncates_length],
    [tiny_frame_size_breaks_writes]).  Readers offer room ([roomy], [reads_give_room]);
    reads without room can lose bytes ([empty_read_discards_chunk]).  [reachable] bundles
    these conditions on how a state was reached; [stream_integrity], [eof_is_complete] and
    [resting_means_delivered] state them one by one.

    ** Not modelled

    [lib.rs] only re-exports.  The wakers' registration (only whether a poll woke its own
    task is kept), logging, memory orderings weaker than sequential consistency, and the
    transport itself, of which [Framed] keeps the undecoded bytes and the bytes written.
    The limited buffer of the duplex transport in the tests; [test_keep_alive_disabled],
    which asserts nothing; the integration tests, benchmarks and Go fixtures.

    ** Plan

    Next: keep-alive of two endpoints over time (that a live connection is not closed); a
    connection whose sides close and break, end to end; fairness, so that draining holds
    for every fair schedule. *)

From Stdlib Require Export ZArith Lia String.
From stdpp Require Export base decidable list option gmap fin_maps sets.
From coqutil Require Export Byte Word.LittleEndianList.

#[global] Open Scope Z_scope.

(** ** Machine integers

    Rust integers are values of [Z]; arithmetic that can leave the range of the
    type is followed by the wrap-around of that type.  [usize] is the 64-bit one. *)

Definition u16_MAX : Z := 2 ^ 16 - 1.
Definition u32_MAX : Z := 2 ^ 32 - 1.

Definition is_u8 (z : Z) : Prop := 0 <= z < 2 ^ 8.
Definition is_u32 (z : Z) : Prop := 0 <= z < 2 ^ 32.
Definition is_usize (z : Z) : Prop := 0 <= z < 2 ^ 64.
Definition is_i64 (z : Z) : Prop := - 2 ^ 63 <= z < 2 ^ 63.

(** [x as u16] and the wrapping arithmetic of [u32] and [i64]. *)
Definition as_u16 (z : Z) : Z := z mod 2 ^ 16.
Definition wrap_u32 (z : Z) : Z := z mod 2 ^ 32.
Definition as_i64 (z : Z) : Z := (z + 2 ^ 63) mod 2 ^ 64 - 2 ^ 63.

(** [usize::saturating_sub]. *)
Definition saturating_sub (a b : Z) : Z := Z.max 0 (a - b).

(** ** Byte containers

    A [Bytes], a [BytesMut] or a byte slice is represented by its contents. *)
Abbreviation bytes := (list byte).

Definition blen (b : bytes) : Z := Z.of_nat (length b).

#[export] Instance byte_eq_dec : EqDecision byte := Byte.byte_eq_dec.

#[global] Arguments le_split : simpl never.
#[global] Arguments le_combine : simpl never.

(** ** Results

    A call either returns a value ([Ok]), returns an error ([Err]) or panics. *)
Inductive result (E A : Type) : Type :=
| Ok (a : A)
| Err (e : E)
| Panic.
Arguments Ok {E A} a.
Arguments Err {E A} e.
Arguments Panic {E A}.

Definition result_bind {E A B} (r : result E A) (f : A -> result E B) : result E B :=
  match r with Ok a => f a | Err e => Err e | Panic => Panic end.

(** [Poll<T>] of the standard library's futures. *)
Inductive poll (A : Type) : Type :=
| Ready (a : A)
| Pending.
Arguments Ready {A} a.
Arguments Pending {A}.

Declare Scope smux_scope.
Delimit Scope smux_scope with smux.
#[global] Open Scope smux_scope.

(** [e ?; k] is Rust's [e?; k] on results that carry no state. *)
Notation "x <-? r ; k" := (result_bind r (fun x => k))
  (at level 100, r at next level, right associativity) : smux_scope.

(** ** Tactics *)

(** Split every [match]/[if] scrutinee in the goal, keeping its equation. *)
Ltac split_goal_match :=
  match goal with
  | |- context [match ?x with _ => _ end] =>
      lazymatch x with
      | context [match _ with _ => _ end] => fail
      | _ => destruct x eqn:?
      end
  end.

Ltac split_hyp_match :=
  match goal with
  | H : context [match ?x with _ => _ end] |- _ =>
      lazymatch x with
      | context [match _ with _ => _ end] => fail
      | _ => destruct x eqn:?
      end
  end.

(** Turn boolean comparisons of [Z] in the context into propositions. *)
Ltac zbool :=
  repeat match goal with
  | H : (_ <? _) = true |- _ => apply Z.ltb_lt in H
  | H : (_ <? _) = false |- _ => apply Z.ltb_ge in H
  | H : (_ <=? _) = true |- _ => apply Z.leb_le in H
  | H : (_ <=? _) = false |- _ => apply Z.leb_gt in H
  | H : (_ >? _) = true |- _ => rewrite Z.gtb_ltb in H; apply Z.ltb_lt in H
  | H : (_ >? _) = false |- _ => rewrite Z.gtb_ltb in H; apply Z.ltb_ge in H
  | H : (_ >=? _) = true |- _ => rewrite Z.geb_leb in H; apply Z.leb_le in H
  | H : (_ >=? _) = false |- _ => rewrite Z.geb_leb in H; apply Z.leb_gt in H
  | H : (_ =? _) = true |- _ => apply Z.eqb_eq in H
  | H : (_ =? _) = false |- _ => apply Z.eqb_neq in H
  | H : (_ && _)%bool = true |- _ => apply andb_true_iff in H as [? ?]
  | H : negb _ = true |- _ => apply negb_true_iff in H
  | H : negb _ = false |- _ => apply negb_false_iff in H
  end.

Create HintDb smux.

(** ** Lemmas on machine integers *)

Lemma as_u16_small z : 0 <= z <= u16_MAX -> as_u16 z = z.
Proof. intros H. apply Z.mod_small. unfold u16_MAX in H. lia. Qed.

Lemma as_u16_range z : 0 <= as_u16 z <= u16_MAX.
Proof. pose proof (Z.mod_pos_bound z (2 ^ 16)) as H. unfold as_u16, u16_MAX. lia. Qed.

Lemma as_i64_id z : is_i64 z -> as_i64 z = z.
Proof.
  intros H. unfold is_i64 in H. unfold as_i64. rewrite Z.mod_small; lia.
Qed.

(** Wrapping addition may be reduced once at the end. *)
Lemma as_i64_add_l a b : as_i64 (as_i64 a + b) = as_i64 (a + b).
Proof.
  unfold as_i64.
  replace ((a + 2 ^ 63) mod 2 ^ 64 - 2 ^ 63 + b + 2 ^ 63)
    with ((a + 2 ^ 63) mod 2 ^ 64 + b) by lia.
  rewrite Z.add_mod_idemp_l by lia. do 2 f_equal. lia.
Qed.

Lemma as_i64_add_r a b : as_i64 (a + as_i64 b) = as_i64 (a + b).
Proof. rewrite Z.add_comm, as_i64_add_l. f_equal. lia. Qed.

Lemma wrap_u32_small z : is_u32 z -> wrap_u32 z = z.
Proof. apply Z.mod_small. Qed.

Lemma wrap_u32_range z : is_u32 (wrap_u32 z).
Proof. apply Z.mod_pos_bound. lia. Qed.

(** ** Lemmas on byte strings *)

Lemma blen_nonneg b : 0 <= blen b.
Proof. unfold blen. lia. Qed.

Lemma blen_nil : blen [] = 0.
Proof. reflexivity. Qed.

Lemma blen_app a b : blen (a ++ b) = blen a + blen b.
Proof. unfold blen. rewrite length_app. lia. Qed.

Lemma blen_zero b : blen b = 0 -> b = [].
Proof. destruct b; [done|]. unfold blen. simpl. lia. Qed.

Lemma blen_take n b : 0 <= n <= blen b -> blen (take (Z.to_nat n) b) = n.
Proof. unfold blen. rewrite length_take. lia. Qed.

Lemma blen_drop n b : 0 <= n <= blen b -> blen (drop (Z.to_nat n) b) = blen b - n.
Proof. unfold blen. rewrite length_drop. lia. Qed.

#[export] Hint Resolve blen_nonneg as_u16_range wrap_u32_range : smux.
Create Rewrite HintDb smux_rw.
#[export] Hint Rewrite blen_nil blen_app : smux_rw.

Lemma le_combine_range bs n :
  length bs = n -> 0 <= le_combine bs < 2 ^ (Z.of_nat n * 8).
Proof.
  intros <-. pose proof (le_combine_bound bs) as H. by rewrite (Z.mul_comm 8) in H.
Qed.
