(* ===== verification/Crates.v ===== *)
(** * The external crates

    The library is written against [bytes], [flume], [tokio] and [dashmap].  Their
    code is not part of the repository, so each is an argument of the model: a
    class of the operations the library calls, and a class of the documented laws
    the theorems rely on.  Every class has a reference instance, which the
    witnesses of the theorems compute with.  ([DashMap] needs no class of its own:
    the session is parametrised over any [FinMap] of stdpp, see Session.v.) *)

From S2P Require Import Prelude.

(** ** The [bytes] crate: [Buf], [BufMut], [BytesMut::split_to]

    [None] is the documented panic of a read past the end. *)
Class BytesCrate : Type := {
  get_u8 : bytes -> option (Z * bytes);
  get_u16_le : bytes -> option (Z * bytes);
  get_u32_le : bytes -> option (Z * bytes);
  put_u8 : Z -> bytes -> bytes;
  put_u16_le : Z -> bytes -> bytes;
  put_u32_le : Z -> bytes -> bytes;
  put_slice : bytes -> bytes -> bytes;
  reserve : Z -> bytes -> bytes;
  split_to : Z -> bytes -> option (bytes * bytes);
  copy_from_slice : bytes -> bytes;
}.

Class BytesLaws (B : BytesCrate) : Prop := {
  get_u8_spec bs :
    get_u8 bs = match bs with
                | b0 :: rest => Some (byte.unsigned b0, rest)
                | _ => None
                end;
  get_u16_le_spec bs :
    get_u16_le bs = match bs with
                    | b0 :: b1 :: rest => Some (le_combine [b0; b1], rest)
                    | _ => None
                    end;
  get_u32_le_spec bs :
    get_u32_le bs = match bs with
                    | b0 :: b1 :: b2 :: b3 :: rest =>
                        Some (le_combine [b0; b1; b2; b3], rest)
                    | _ => None
                    end;
  put_u8_spec v dst : put_u8 v dst = dst ++ le_split 1 v;
  put_u16_le_spec v dst : put_u16_le v dst = dst ++ le_split 2 v;
  put_u32_le_spec v dst : put_u32_le v dst = dst ++ le_split 4 v;
  put_slice_spec src dst : put_slice src dst = dst ++ src;
  reserve_spec n dst : reserve n dst = dst;
  split_to_spec n bs :
    split_to n bs = if (0 <=? n) && (n <=? blen bs)
                    then Some (take (Z.to_nat n) bs, drop (Z.to_nat n) bs)
                    else None;
  copy_from_slice_spec bs : copy_from_slice bs = bs;
}.

#[export] Instance bytes_ref : BytesCrate := {|
  get_u8 bs := match bs with b0 :: rest => Some (byte.unsigned b0, rest) | _ => None end;
  get_u16_le bs :=
    match bs with b0 :: b1 :: rest => Some (le_combine [b0; b1], rest) | _ => None end;
  get_u32_le bs :=
    match bs with
    | b0 :: b1 :: b2 :: b3 :: rest => Some (le_combine [b0; b1; b2; b3], rest)
    | _ => None
    end;
  put_u8 v dst := dst ++ le_split 1 v;
  put_u16_le v dst := dst ++ le_split 2 v;
  put_u32_le v dst := dst ++ le_split 4 v;
  put_slice src dst := dst ++ src;
  reserve _ dst := dst;
  split_to n bs := if (0 <=? n) && (n <=? blen bs)
                   then Some (take (Z.to_nat n) bs, drop (Z.to_nat n) bs)
                   else None;
  copy_from_slice bs := bs;
|}.

#[export] Instance bytes_ref_laws : BytesLaws bytes_ref.
Proof. split; reflexivity. Qed.

(** The reads undo the writes, on any buffer, and a read that succeeds determines
    the bytes it consumed. *)
Section bytes_lemmas.
Context {B : BytesCrate} {BL : BytesLaws B}.

Lemma get_u8_split z rest : get_u8 (le_split 1 z ++ rest) = Some (z mod 2 ^ 8, rest).
Proof.
  rewrite get_u8_spec. simpl. f_equal. f_equal.
  rewrite <- le_combine_1. apply (le_combine_split 1 z).
Qed.

Lemma get_u16_le_split z rest :
  get_u16_le (le_split 2 z ++ rest) = Some (z mod 2 ^ 16, rest).
Proof.
  rewrite get_u16_le_spec. simpl. f_equal. f_equal. apply (le_combine_split 2 z).
Qed.

Lemma get_u32_le_split z rest :
  get_u32_le (le_split 4 z ++ rest) = Some (z mod 2 ^ 32, rest).
Proof.
  rewrite get_u32_le_spec. simpl. f_equal. f_equal. apply (le_combine_split 4 z).
Qed.

Lemma get_u8_inv bs z rest :
  get_u8 bs = Some (z, rest) -> bs = le_split 1 z ++ rest /\ is_u8 z.
Proof.
  rewrite get_u8_spec. destruct bs as [|b0 bs]; [done|]. intros [= <- <-].
  rewrite <- le_combine_1. rewrite (split_le_combine' [b0] 1 eq_refl). split; [done|].
  apply (le_combine_range [b0] 1). done.
Qed.

Lemma get_u16_le_inv bs z rest :
  get_u16_le bs = Some (z, rest) -> bs = le_split 2 z ++ rest /\ 0 <= z <= u16_MAX.
Proof.
  rewrite get_u16_le_spec. destruct bs as [|b0 [|b1 bs]]; try done. intros [= <- <-].
  rewrite (split_le_combine' [b0; b1] 2 eq_refl). split; [done|].
  pose proof (le_combine_range [b0; b1] 2 eq_refl). unfold u16_MAX. lia.
Qed.

Lemma get_u32_le_inv bs z rest :
  get_u32_le bs = Some (z, rest) -> bs = le_split 4 z ++ rest /\ is_u32 z.
Proof.
  rewrite get_u32_le_spec. destruct bs as [|b0 [|b1 [|b2 [|b3 bs]]]]; try done.
  intros [= <- <-].
  rewrite (split_le_combine' [b0; b1; b2; b3] 4 eq_refl). split; [done|].
  apply (le_combine_range [b0; b1; b2; b3] 4). done.
Qed.

(** The reads succeed when enough bytes are left. *)
Lemma get_u8_some bs : 1 <= blen bs -> is_Some (get_u8 bs).
Proof. rewrite get_u8_spec. destruct bs; [by rewrite blen_nil|eauto]. Qed.

Lemma get_u16_le_some bs : 2 <= blen bs -> is_Some (get_u16_le bs).
Proof.
  rewrite get_u16_le_spec. unfold blen.
  destruct bs as [|? [|? ?]]; simpl; try lia. eauto.
Qed.

Lemma get_u32_le_some bs : 4 <= blen bs -> is_Some (get_u32_le bs).
Proof.
  rewrite get_u32_le_spec. unfold blen.
  destruct bs as [|? [|? [|? [|? ?]]]]; simpl; try lia. eauto.
Qed.

Lemma split_to_app a b : split_to (blen a) (a ++ b) = Some (a, b).
Proof.
  rewrite split_to_spec, blen_app.
  pose proof (blen_nonneg a). pose proof (blen_nonneg b).
  rewrite !(proj2 (Z.leb_le _ _)) by lia. simpl. unfold blen. rewrite Nat2Z.id.
  by rewrite take_app_length, drop_app_length.
Qed.

End bytes_lemmas.

(** ** The [flume] crate

    A channel is a queue with a capacity and counts of live senders and receivers.
    [send_async] and [recv_async] are the result of polling the future once. *)
Inductive TrySendError : Type := TrySendFull | TrySendDisconnected.
Inductive TryRecvError : Type := TryRecvEmpty | TryRecvDisconnected.

Record ChanView (A : Type) : Type := mkChanView {
  queue : list A;
  capacity : option Z;
  senders : nat;
  receivers : nat;
}.
Arguments mkChanView {A} _ _ _ _.
Arguments queue {A} _.
Arguments capacity {A} _.
Arguments senders {A} _.
Arguments receivers {A} _.

(** There is room for one more message without a waiting receiver. *)
Definition has_room {A} (v : ChanView A) : bool :=
  match capacity v with None => true | Some c => Z.of_nat (length (queue v)) <? c end.

(** Full for certain: a channel of capacity 0 is a rendezvous, on which a send may
    still meet a waiting receiver, so that case is left open. *)
Definition surely_full {A} (v : ChanView A) : bool :=
  match capacity v with
  | None => false
  | Some c => (1 <=? c) && (c <=? Z.of_nat (length (queue v)))
  end.

Definition enqueue {A} (m : A) (v : ChanView A) : ChanView A :=
  mkChanView (queue v ++ [m]) (capacity v) (senders v) (receivers v).

Definition with_queue {A} (q : list A) (v : ChanView A) : ChanView A :=
  mkChanView q (capacity v) (senders v) (receivers v).

Class FlumeCrate : Type := {
  channel : Type -> Type;
  bounded : forall {A}, Z -> channel A;
  unbounded : forall {A}, channel A;
  sender_clone : forall {A}, channel A -> channel A;
  sender_drop : forall {A}, channel A -> channel A;
  receiver_drop : forall {A}, channel A -> channel A;
  try_send : forall {A}, A -> channel A -> result TrySendError unit * channel A;
  send_async : forall {A}, A -> channel A -> poll (result unit unit) * channel A;
  try_recv : forall {A}, channel A -> result TryRecvError A * channel A;
  recv_async : forall {A}, channel A -> poll (result unit A) * channel A;
}.

Class FlumeLaws (F : FlumeCrate) : Type := {
  view : forall {A}, channel A -> ChanView A;
  bounded_view A n : 0 <= n -> view (bounded (A := A) n) = mkChanView [] (Some n) 1 1;
  unbounded_view A : view (unbounded (A := A)) = mkChanView [] None 1 1;
  sender_clone_view A (c : channel A) :
    view (sender_clone c) =
      mkChanView (queue (view c)) (capacity (view c)) (S (senders (view c)))
        (receivers (view c));
  sender_drop_view A (c : channel A) :
    view (sender_drop c) =
      mkChanView (queue (view c)) (capacity (view c)) (pred (senders (view c)))
        (receivers (view c));
  (* what happens to messages nobody can receive any more is not observable *)
  receiver_drop_view A (c : channel A) :
    capacity (view (receiver_drop c)) = capacity (view c) /\
    senders (view (receiver_drop c)) = senders (view c) /\
    receivers (view (receiver_drop c)) = pred (receivers (view c));
  try_send_disconnected A (m : A) c :
    receivers (view c) = 0%nat ->
    (try_send m c).1 = Err TrySendDisconnected /\ view (try_send m c).2 = view c;
  try_send_ok A (m : A) c :
    receivers (view c) <> 0%nat -> has_room (view c) = true ->
    (try_send m c).1 = Ok tt /\ view (try_send m c).2 = enqueue m (view c);
  try_send_full A (m : A) c :
    receivers (view c) <> 0%nat -> surely_full (view c) = true ->
    (try_send m c).1 = Err TrySendFull /\ view (try_send m c).2 = view c;
  send_async_disconnected A (m : A) c :
    receivers (view c) = 0%nat ->
    (send_async m c).1 = Ready (Err tt) /\ view (send_async m c).2 = view c;
  send_async_ok A (m : A) c :
    receivers (view c) <> 0%nat -> has_room (view c) = true ->
    (send_async m c).1 = Ready (Ok tt) /\ view (send_async m c).2 = enqueue m (view c);
  send_async_pending A (m : A) c :
    receivers (view c) <> 0%nat -> surely_full (view c) = true ->
    (send_async m c).1 = Pending /\ view (send_async m c).2 = view c;
  try_recv_ok A (m : A) q c :
    queue (view c) = m :: q ->
    (try_recv c).1 = Ok m /\ view (try_recv c).2 = with_queue q (view c);
  try_recv_empty A (c : channel A) :
    queue (view c) = [] -> senders (view c) <> 0%nat ->
    (try_recv c).1 = Err TryRecvEmpty /\ view (try_recv c).2 = view c;
  try_recv_disconnected A (c : channel A) :
    queue (view c) = [] -> senders (view c) = 0%nat ->
    (try_recv c).1 = Err TryRecvDisconnected /\ view (try_recv c).2 = view c;
  recv_async_ok A (m : A) q c :
    queue (view c) = m :: q ->
    (recv_async c).1 = Ready (Ok m) /\ view (recv_async c).2 = with_queue q (view c);
  recv_async_empty A (c : channel A) :
    queue (view c) = [] -> senders (view c) <> 0%nat ->
    (recv_async c).1 = Pending /\ view (recv_async c).2 = view c;
  recv_async_disconnected A (c : channel A) :
    queue (view c) = [] -> senders (view c) = 0%nat ->
    (recv_async c).1 = Ready (Err tt) /\ view (recv_async c).2 = view c;
}.

#[export] Instance flume_ref : FlumeCrate := {|
  channel := ChanView;
  bounded _ n := mkChanView [] (Some n) 1 1;
  unbounded _ := mkChanView [] None 1 1;
  sender_clone _ c := mkChanView (queue c) (capacity c) (S (senders c)) (receivers c);
  sender_drop _ c := mkChanView (queue c) (capacity c) (pred (senders c)) (receivers c);
  receiver_drop _ c := mkChanView (queue c) (capacity c) (senders c) (pred (receivers c));
  try_send _ m c :=
    match receivers c with
    | O => (Err TrySendDisconnected, c)
    | S _ => if has_room c then (Ok tt, enqueue m c) else (Err TrySendFull, c)
    end;
  send_async _ m c :=
    match receivers c with
    | O => (Ready (Err tt), c)
    | S _ => if has_room c then (Ready (Ok tt), enqueue m c) else (Pending, c)
    end;
  try_recv _ c :=
    match queue c, senders c with
    | m :: q, _ => (Ok m, with_queue q c)
    | [], S _ => (Err TryRecvEmpty, c)
    | [], O => (Err TryRecvDisconnected, c)
    end;
  recv_async _ c :=
    match queue c, senders c with
    | m :: q, _ => (Ready (Ok m), with_queue q c)
    | [], S _ => (Pending, c)
    | [], O => (Ready (Err tt), c)
    end;
|}.

Lemma surely_full_no_room {A} (v : ChanView A) :
  surely_full v = true -> has_room v = false.
Proof.
  unfold surely_full, has_room. destruct (capacity v); [|done].
  intros H. zbool. apply Z.ltb_ge. lia.
Qed.

#[export] Instance flume_ref_laws : FlumeLaws flume_ref.
Proof.
  refine {| view A (c : @channel flume_ref A) := c |}; simpl; intros;
    repeat match goal with
    | H : surely_full _ = true |- _ => apply surely_full_no_room in H
    | H : ?x = _ |- context [match ?x with _ => _ end] => rewrite H
    | |- context [match ?x with O => _ | S _ => _ end] => destruct x
    end; done.
Defined.

(** ** [tokio::sync::Notify]

    [notified] creates a future; [notify_waiters] completes every future created
    before it and stores no permit for later ones, as the documentation of [Notify]
    says.  The laws phrase this with the number of [notify_waiters] calls so far. *)
Class NotifyCrate : Type := {
  notify : Type;
  notified_future : Type;
  notify_new : notify;
  notify_waiters : notify -> notify;
  notified : notify -> notified_future;
  is_notified : notify -> notified_future -> bool;
}.

Class NotifyLaws (N : NotifyCrate) : Type := {
  calls : notify -> nat;
  created_at : notified_future -> nat;
  calls_waiters n : calls (notify_waiters n) = S (calls n);
  created_at_notified n : created_at (notified n) = calls n;
  is_notified_spec n f : is_notified n f = (created_at f <? calls n)%nat;
}.

#[export] Instance notify_ref : NotifyCrate := {|
  notify := nat;
  notified_future := nat;
  notify_new := O;
  notify_waiters := S;
  notified n := n;
  is_notified n f := (f <? n)%nat;
|}.

#[export] Instance notify_ref_laws : NotifyLaws notify_ref.
Proof.
  refine {| calls (n : @notify notify_ref) := n;
            created_at (f : @notified_future notify_ref) := f |}; reflexivity.
Defined.

(** A future that was just created is not complete. *)
Lemma fresh_not_notified {N : NotifyCrate} {NL : NotifyLaws N} n :
  is_notified n (notified n) = false.
Proof. rewrite is_notified_spec, created_at_notified. apply Nat.ltb_irrefl. Qed.

(** ** [tokio::io::ReadBuf]

    The caller's buffer of a read; [None] is the documented panic of [put_slice]
    when the data does not fit. *)
Class ReadBufCrate : Type := {
  read_buf : Type;
  remaining : read_buf -> Z;
  rb_put_slice : bytes -> read_buf -> option read_buf;
}.

Class ReadBufLaws (R : ReadBufCrate) : Type := {
  filled : read_buf -> bytes;
  remaining_nonneg b : 0 <= remaining b;
  rb_put_slice_fits d b :
    blen d <= remaining b ->
    exists b', rb_put_slice d b = Some b' /\ filled b' = filled b ++ d /\
               remaining b' = remaining b - blen d;
  rb_put_slice_overflow d b : remaining b < blen d -> rb_put_slice d b = None;
}.

(** The reference buffer: what is filled, and the room left. *)
#[export] Instance read_buf_ref : ReadBufCrate := {|
  read_buf := bytes * nat;
  remaining b := Z.of_nat b.2;
  rb_put_slice d b :=
    if blen d <=? Z.of_nat b.2 then Some (b.1 ++ d, (b.2 - length d)%nat) else None;
|}.

#[export] Instance read_buf_ref_laws : ReadBufLaws read_buf_ref.
Proof.
  refine {| filled (b : @read_buf read_buf_ref) := b.1 |}; simpl.
  - lia.
  - intros d b H. rewrite (proj2 (Z.leb_le _ _) H). eexists. split; [done|].
    simpl. split; [done|]. unfold blen in *. lia.
  - intros d b H. rewrite (proj2 (Z.leb_gt _ _) H). done.
Defined.
