(* ===== verification/Errors.v ===== *)
(** * Errors: [src/src/error.rs]

    The error type of the library, its display strings (the [#[error("...")]]
    attributes) and [is_recoverable]. *)

From stdpp Require Import strings pretty.
From S2P Require Import Prelude.

(** The kinds of [std::io::Error] the library produces or inspects; every other
    kind of the standard library is [OtherKind]. *)
Inductive ErrorKind : Type :=
| WouldBlock
| Interrupted
| BrokenPipe
| UnexpectedEof
| OtherKind (code : Z).

#[export] Instance ErrorKind_eq_dec : EqDecision ErrorKind.
Proof. solve_decision. Defined.

(** [std::io::Error]: a kind and the text it displays as. *)
Record IoError : Type := mkIoError { kind : ErrorKind; io_message : string }.

#[export] Instance IoError_eq_dec : EqDecision IoError.
Proof. solve_decision. Defined.

Inductive SmuxError : Type :=
| Io (e : IoError)
| InvalidProtocol (version : Z)
| FrameTooLarge (size max : Z)
| SessionClosed
| StreamNotFound (id : Z)
| StreamAlreadyExists (id : Z)
| InvalidStreamId (id : Z)
| ConfigError (msg : string)
| InvalidFrame
| Timeout
| BufferOverflow
| ProtocolViolation (msg : string)
| InsufficientData.

#[export] Instance SmuxError_eq_dec : EqDecision SmuxError.
Proof. solve_decision. Defined.

(** [Result<T>] of the library. *)
Abbreviation Result := (result SmuxError).

Definition is_recoverable (e : SmuxError) : bool :=
  match e with
  | Io e => match kind e with WouldBlock | Interrupted => true | _ => false end
  | Timeout => true
  | BufferOverflow => true
  | SessionClosed | InvalidProtocol _ | ConfigError _ | ProtocolViolation _
  | InsufficientData => false
  | FrameTooLarge _ _ | StreamNotFound _ | StreamAlreadyExists _
  | InvalidStreamId _ | InvalidFrame => false
  end.

Definition error_to_string (e : SmuxError) : string :=
  match e with
  | Io e => "I/O error: " +:+ io_message e
  | InvalidProtocol v => "Invalid protocol version: " +:+ pretty v
  | FrameTooLarge size max =>
      "Frame too large: " +:+ pretty size +:+ " bytes (max: " +:+ pretty max +:+ ")"
  | SessionClosed => "Session closed"
  | StreamNotFound id => "Stream not found: " +:+ pretty id
  | StreamAlreadyExists id => "Stream already exists: " +:+ pretty id
  | InvalidStreamId id => "Invalid stream ID: " +:+ pretty id
  | ConfigError msg => "Configuration error: " +:+ msg
  | InvalidFrame => "Invalid frame format"
  | Timeout => "Connection timeout"
  | BufferOverflow => "Buffer overflow"
  | ProtocolViolation msg => "Protocol violation: " +:+ msg
  | InsufficientData => "Insufficient data for frame parsing"
  end.

(** The assertions of [test_error_display]. *)
Example display_invalid_protocol :
  error_to_string (InvalidProtocol 2) = "Invalid protocol version: 2"%string.
Proof. vm_compute. reflexivity. Qed.

Example display_frame_too_large :
  error_to_string (FrameTooLarge 1024 512)
  = "Frame too large: 1024 bytes (max: 512)"%string.
Proof. vm_compute. reflexivity. Qed.

