(* ===== verification/Config.v ===== *)
(** * Session configuration: [src/src/config.rs]

    [Config], its default, [validate], and the [ConfigBuilder].  A [Duration] is its
    number of nanoseconds; the builder is the configuration under construction. *)

From stdpp Require Import strings.
From S2P Require Import Prelude Errors.

Definition from_secs (s : Z) : Z := s * 10 ^ 9.
Definition from_millis (ms : Z) : Z := ms * 10 ^ 6.

Record Config : Type := mkConfig {
  version : Z;
  keep_alive_interval : Z;
  keep_alive_timeout : Z;
  max_frame_size : Z;
  max_receive_buffer : Z;
  max_receive_channel_buffer_size : Z;
  max_stream_buffer : Z;
  enable_keep_alive : bool;
}.

(** The ranges the Rust types give the fields. *)
Record config_typed (c : Config) : Prop := {
  typed_version : is_u8 (version c);
  typed_interval : 0 <= keep_alive_interval c;
  typed_timeout : 0 <= keep_alive_timeout c;
  typed_frame_size : is_usize (max_frame_size c);
  typed_receive_buffer : is_usize (max_receive_buffer c);
  typed_channel_size : is_usize (max_receive_channel_buffer_size c);
  typed_stream_buffer : is_usize (max_stream_buffer c);
}.

Definition config_default : Config := {|
  version := 1;
  keep_alive_interval := from_secs 10;
  keep_alive_timeout := from_secs 30;
  max_frame_size := 32 * 1024;
  max_receive_buffer := 4 * 1024 * 1024;
  max_receive_channel_buffer_size := 512;
  max_stream_buffer := 64 * 1024;
  enable_keep_alive := true;
|}.

Definition config_validate (c : Config) : Result unit :=
  if version c =? 0 then
    Err (ConfigError "Version cannot be 0")
  else if enable_keep_alive c && (keep_alive_timeout c <=? keep_alive_interval c) then
    Err (ConfigError "Keep-alive timeout must be greater than keep-alive interval")
  else if max_frame_size c =? 0 then
    Err (ConfigError "Max frame size cannot be 0")
  else if max_frame_size c >? 16 * 1024 * 1024 then
    Err (ConfigError "Max frame size cannot exceed 16MB")
  else if max_receive_buffer c <? max_frame_size c then
    Err (ConfigError "Max receive buffer must be at least as large as max frame size")
  else if max_stream_buffer c =? 0 then
    Err (ConfigError "Max stream buffer cannot be 0")
  else Ok tt.

(** ** ConfigBuilder *)
Module ConfigBuilder.
Record ConfigBuilder : Type := mkBuilder { config : Config }.

Definition new : ConfigBuilder := mkBuilder config_default.

Definition set_version (v : Z) (b : ConfigBuilder) : ConfigBuilder :=
  let c := config b in
  mkBuilder (mkConfig v (keep_alive_interval c) (keep_alive_timeout c)
    (max_frame_size c) (max_receive_buffer c) (max_receive_channel_buffer_size c)
    (max_stream_buffer c) (enable_keep_alive c)).

Definition set_keep_alive_interval (i : Z) (b : ConfigBuilder) : ConfigBuilder :=
  let c := config b in
  mkBuilder (mkConfig (version c) i (keep_alive_timeout c)
    (max_frame_size c) (max_receive_buffer c) (max_receive_channel_buffer_size c)
    (max_stream_buffer c) (enable_keep_alive c)).

Definition set_keep_alive_timeout (t : Z) (b : ConfigBuilder) : ConfigBuilder :=
  let c := config b in
  mkBuilder (mkConfig (version c) (keep_alive_interval c) t
    (max_frame_size c) (max_receive_buffer c) (max_receive_channel_buffer_size c)
    (max_stream_buffer c) (enable_keep_alive c)).

Definition set_max_frame_size (n : Z) (b : ConfigBuilder) : ConfigBuilder :=
  let c := config b in
  mkBuilder (mkConfig (version c) (keep_alive_interval c) (keep_alive_timeout c)
    n (max_receive_buffer c) (max_receive_channel_buffer_size c)
    (max_stream_buffer c) (enable_keep_alive c)).

Definition set_max_receive_buffer (n : Z) (b : ConfigBuilder) : ConfigBuilder :=
  let c := config b in
  mkBuilder (mkConfig (version c) (keep_alive_interval c) (keep_alive_timeout c)
    (max_frame_size c) n (max_receive_channel_buffer_size c)
    (max_stream_buffer c) (enable_keep_alive c)).

Definition set_max_receive_channel_buffer_size (n : Z) (b : ConfigBuilder)
    : ConfigBuilder :=
  let c := config b in
  mkBuilder (mkConfig (version c) (keep_alive_interval c) (keep_alive_timeout c)
    (max_frame_size c) (max_receive_buffer c) n
    (max_stream_buffer c) (enable_keep_alive c)).

Definition set_max_stream_buffer (n : Z) (b : ConfigBuilder) : ConfigBuilder :=
  let c := config b in
  mkBuilder (mkConfig (version c) (keep_alive_interval c) (keep_alive_timeout c)
    (max_frame_size c) (max_receive_buffer c) (max_receive_channel_buffer_size c)
    n (enable_keep_alive c)).

Definition set_enable_keep_alive (e : bool) (b : ConfigBuilder) : ConfigBuilder :=
  let c := config b in
  mkBuilder (mkConfig (version c) (keep_alive_interval c) (keep_alive_timeout c)
    (max_frame_size c) (max_receive_buffer c) (max_receive_channel_buffer_size c)
    (max_stream_buffer c) e).

Definition build (b : ConfigBuilder) : Result Config :=
  _ <-? config_validate (config b); Ok (config b).

Definition default : ConfigBuilder := new.
End ConfigBuilder.

(** ** What a valid configuration is *)
Record config_valid (c : Config) : Prop := {
  valid_version : version c <> 0;
  valid_keep_alive :
    enable_keep_alive c = true -> keep_alive_interval c < keep_alive_timeout c;
  valid_frame_nonzero : max_frame_size c <> 0;
  valid_frame_max : max_frame_size c <= 16 * 1024 * 1024;
  valid_receive_buffer : max_frame_size c <= max_receive_buffer c;
  valid_stream_buffer : max_stream_buffer c <> 0;
}.

Lemma config_validate_valid c : config_validate c = Ok tt <-> config_valid c.
Proof.
  unfold config_validate. split.
  - intros H. repeat split_hyp_match; try discriminate; zbool.
    split; try assumption; try lia.
    intros Hk. rewrite Hk in *. zbool. simpl in *. zbool. lia.
  - intros [Hv Hk Hz Hm Hr Hs].
    rewrite (proj2 (Z.eqb_neq _ _) Hv).
    destruct (enable_keep_alive c); simpl.
    + rewrite (proj2 (Z.leb_gt _ _) (Hk eq_refl)).
      rewrite (proj2 (Z.eqb_neq _ _) Hz), (proj2 (Z.eqb_neq _ _) Hs), Z.gtb_ltb.
      by rewrite !(proj2 (Z.ltb_ge _ _)).
    + rewrite (proj2 (Z.eqb_neq _ _) Hz), (proj2 (Z.eqb_neq _ _) Hs), Z.gtb_ltb.
      by rewrite !(proj2 (Z.ltb_ge _ _)).
Qed.

(** The builder builds exactly the valid configurations: [build] returns the
    configuration as it was set, if it is valid, and an error otherwise; it never
    changes a field. *)
Theorem build_iff_valid b c :
  ConfigBuilder.build b = Ok c <-> c = ConfigBuilder.config b /\ config_valid c.
Proof.
  unfold ConfigBuilder.build. rewrite <- config_validate_valid.
  destruct (config_validate (ConfigBuilder.config b)) as [[]|e|] eqn:E; simpl.
  - split; [by intros [= <-]|by intros [-> _]].
  - split; [done|]. intros [-> Hc]. by rewrite E in Hc.
  - split; [done|]. intros [-> Hc]. by rewrite E in Hc.
Qed.

Lemma config_validate_no_panic c : config_validate c <> Panic.
Proof. unfold config_validate. by repeat split_goal_match. Qed.

Lemma config_default_valid : config_valid config_default.
Proof. by apply config_validate_valid. Qed.

Lemma config_default_typed : config_typed config_default.
Proof. split; repeat split; vm_compute; congruence. Qed.

#[export] Hint Resolve config_default_valid config_default_typed : smux.
