(* ===== verification/Command.v ===== *)
(** * Commands: [src/src/command.rs]

    The frame commands and their one-byte wire codes. *)

From S2P Require Import Prelude Errors.

Inductive Command : Type :=
| Syn
| Fin
| Psh
| Nop
| Upd (consumed window : Z).

#[export] Instance Command_eq_dec : EqDecision Command.
Proof. solve_decision. Defined.

Definition SYN : Z := 0.
Definition FIN : Z := 1.
Definition PSH : Z := 2.
Definition NOP : Z := 3.
Definition UPD : Z := 4.

Definition from_byte (b : Z) : Result Command :=
  if b =? SYN then Ok Syn
  else if b =? FIN then Ok Fin
  else if b =? PSH then Ok Psh
  else if b =? NOP then Ok Nop
  else if b =? UPD then Ok (Upd 0 0)
  else Err InvalidFrame.

Definition to_byte (c : Command) : Z :=
  match c with
  | Syn => SYN
  | Fin => FIN
  | Psh => PSH
  | Nop => NOP
  | Upd _ _ => UPD
  end.

Definition is_control (c : Command) : bool :=
  match c with Syn | Fin | Nop | Upd _ _ => true | _ => false end.

Definition can_carry_data (c : Command) : bool :=
  match c with Psh => true | _ => false end.

Definition requires_v2 (c : Command) : bool :=
  match c with Upd _ _ => true | _ => false end.

Definition consumed (c : Command) : option Z :=
  match c with Upd n _ => Some n | _ => None end.

Definition window (c : Command) : option Z :=
  match c with Upd _ w => Some w | _ => None end.

(** The command without the fields that travel in the payload. *)
Definition command_kind (c : Command) : Command :=
  match c with Upd _ _ => Upd 0 0 | c => c end.

(** The ranges the [u32] fields give. *)
Definition command_typed (c : Command) : Prop :=
  match c with Upd n w => is_u32 n /\ is_u32 w | _ => True end.

Lemma to_byte_range c : 0 <= to_byte c <= 4.
Proof. destruct c; vm_compute; split; congruence. Qed.

Lemma from_to_byte c : from_byte (to_byte c) = Ok (command_kind c).
Proof. by destruct c. Qed.

Lemma from_byte_ok b c : from_byte b = Ok c -> b = to_byte c /\ c = command_kind c.
Proof.
  unfold from_byte. intros H. repeat split_hyp_match; simplify_eq; zbool; auto.
Qed.

Lemma from_byte_unknown b : b < 0 \/ 4 < b -> from_byte b = Err InvalidFrame.
Proof.
  intros Hb. unfold from_byte, SYN, FIN, PSH, NOP, UPD.
  by rewrite !(proj2 (Z.eqb_neq _ _)) by lia.
Qed.

Lemma from_byte_no_panic b : from_byte b <> Panic.
Proof. unfold from_byte. by repeat split_goal_match. Qed.

