(* ===== verification/Frame.v ===== *)
(** * Frames: [src/src/frame.rs]

    [Frame], its constructors, its size and its validation. *)

From stdpp Require Import strings.
From S2P Require Import Prelude Errors Config Command.

Definition HEADER_SIZE : Z := 8.

Record Frame : Type := mkFrame {
  frame_version : Z;
  cmd : Command;
  stream_id : Z;
  data : bytes;
}.

#[export] Instance Frame_eq_dec : EqDecision Frame.
Proof. solve_decision. Defined.

(** The ranges the Rust types give the fields. *)
Record frame_typed (f : Frame) : Prop := {
  typed_frame_version : is_u8 (frame_version f);
  typed_cmd : command_typed (cmd f);
  typed_stream_id : is_u32 (stream_id f);
}.

Definition frame_new (version : Z) (c : Command) (id : Z) (d : bytes) : Frame :=
  mkFrame version c id d.

Definition new_syn (version id : Z) : Frame := frame_new version Syn id [].
Definition new_fin (version id : Z) : Frame := frame_new version Fin id [].
Definition new_psh (version id : Z) (d : bytes) : Frame := frame_new version Psh id d.
Definition new_nop (version : Z) : Frame := frame_new version Nop 0 [].
Definition new_upd (version id consumed window : Z) : Frame :=
  frame_new version (Upd consumed window) id [].

Definition total_size (f : Frame) : Z := HEADER_SIZE + blen (data f).
Definition data_len (f : Frame) : Z := blen (data f).
Definition is_empty (f : Frame) : bool := bool_decide (data f = []).

Definition frame_consumed (f : Frame) : option Z := consumed (cmd f).
Definition frame_window (f : Frame) : option Z := window (cmd f).

Definition validate_stream_id (f : Frame) : Result unit :=
  match cmd f with
  | Nop => if negb (stream_id f =? 0) then Err (InvalidStreamId (stream_id f)) else Ok tt
  | _ => if stream_id f =? 0 then Err (InvalidStreamId (stream_id f)) else Ok tt
  end.

Definition validate (f : Frame) (config : Config) : Result unit :=
  if frame_version f =? 0 then Err (InvalidProtocol (frame_version f))
  else if requires_v2 (cmd f) && (frame_version f <? 2) then
    Err (ProtocolViolation "UPD command requires protocol version 2")
  else if total_size f >? max_frame_size config then
    Err (FrameTooLarge (total_size f) (max_frame_size config))
  else if is_control (cmd f) && negb (is_empty f) then
    Err (ProtocolViolation "Control frames cannot carry data")
  else
    _ <-? validate_stream_id f; Ok tt.

(** ** What a valid frame is *)
Record frame_valid (max : Z) (f : Frame) : Prop := {
  valid_frame_version : frame_version f <> 0;
  valid_upd_version : requires_v2 (cmd f) = true -> 2 <= frame_version f;
  valid_size : total_size f <= max;
  valid_control : is_control (cmd f) = true -> data f = [];
  valid_stream_id : cmd f = Nop <-> stream_id f = 0;
}.

Lemma is_empty_spec f : is_empty f = true <-> data f = [].
Proof. unfold is_empty. by rewrite bool_decide_eq_true. Qed.

Lemma validate_stream_id_spec f :
  validate_stream_id f = Ok tt <-> (cmd f = Nop <-> stream_id f = 0).
Proof.
  unfold validate_stream_id.
  destruct (cmd f); destruct (Z.eqb_spec (stream_id f) 0); simpl; intuition congruence.
Qed.

Lemma validate_valid f c :
  validate f c = Ok tt <-> frame_valid (max_frame_size c) f.
Proof.
  unfold validate. split.
  - intros H.
    destruct (frame_version f =? 0) eqn:?; [done|].
    destruct (requires_v2 (cmd f) && (frame_version f <? 2)) eqn:?; [done|].
    destruct (total_size f >? max_frame_size c) eqn:?; [done|].
    destruct (is_control (cmd f) && negb (is_empty f)) eqn:?; [done|].
    destruct (validate_stream_id f) as [[]| |] eqn:Hid; [|done..]. zbool.
    split.
    + done.
    + intros Hr. rewrite Hr in *. simpl in *. zbool. lia.
    + lia.
    + intros Hc. rewrite Hc in *. simpl in *. zbool. by apply is_empty_spec.
    + by apply validate_stream_id_spec.
  - intros [Hv Hu Hs Hc Hid].
    rewrite (proj2 (Z.eqb_neq _ _) Hv).
    replace (requires_v2 (cmd f) && (frame_version f <? 2)) with false.
    2:{ destruct (requires_v2 (cmd f)); [|done]. symmetry. apply Z.ltb_ge. auto. }
    rewrite Z.gtb_ltb, (proj2 (Z.ltb_ge _ _) Hs).
    replace (is_control (cmd f) && negb (is_empty f)) with false.
    2:{ destruct (is_control (cmd f)); [|done].
        by rewrite (proj2 (is_empty_spec f) (Hc eq_refl)). }
    by rewrite (proj2 (validate_stream_id_spec f) Hid).
Qed.

Lemma validate_no_panic f c : validate f c <> Panic.
Proof.
  unfold validate, validate_stream_id.
  by repeat (split_goal_match; simpl).
Qed.

(** Decide validity by running the code's check. *)
Lemma validate_dec f c : validate f c = Ok tt \/ exists e, validate f c = Err e.
Proof.
  pose proof (validate_no_panic f c). destruct (validate f c) as [[]| |]; eauto.
  done.
Qed.

(** The frames of the constructors. *)
Lemma new_syn_valid max v id :
  v <> 0 -> id <> 0 -> HEADER_SIZE <= max -> frame_valid max (new_syn v id).
Proof. by split; simpl; [..|split]. Qed.

Lemma new_fin_valid max v id :
  v <> 0 -> id <> 0 -> HEADER_SIZE <= max -> frame_valid max (new_fin v id).
Proof. by split; simpl; [..|split]. Qed.

Lemma new_nop_valid max v : v <> 0 -> HEADER_SIZE <= max -> frame_valid max (new_nop v).
Proof. by split; simpl. Qed.

Lemma new_psh_valid max v id d :
  v <> 0 -> id <> 0 -> HEADER_SIZE + blen d <= max -> frame_valid max (new_psh v id d).
Proof. by split; simpl; [..|split]. Qed.

#[export] Hint Resolve new_syn_valid new_fin_valid new_nop_valid new_psh_valid : smux.
