(* ===== verification/Codec.v ===== *)
(** * The codec: [src/src/codec.rs]

    Encoding of frames to bytes and incremental decoding of a byte buffer.  The
    buffer monad threads the [&mut BytesMut] of the code: an error keeps the buffer
    as it is when the error is raised. *)

From stdpp Require Import strings.
From S2P Require Import Prelude Crates Errors Config Command Frame.

Record Codec : Type := mkCodec {
  codec_config : Config;
  codec_max_frame_size : Z;
}.

Definition codec_new (config : Config) : Codec := mkCodec config (max_frame_size config).

(** ** The buffer monad *)
Definition bufm (A : Type) : Type := bytes -> Result A * bytes.

Definition bufm_ret {A} (a : A) : bufm A := fun b => (Ok a, b).

Definition bufm_bind {A C} (m : bufm A) (f : A -> bufm C) : bufm C := fun b =>
  match m b with
  | (Ok a, b') => f a b'
  | (Err e, b') => (Err e, b')
  | (Panic, b') => (Panic, b')
  end.

(** A result that does not touch the buffer. *)
Definition bufm_lift {A} (r : Result A) : bufm A := fun b => (r, b).

(** A read of the [bytes] crate, whose [None] is a panic. *)
Definition bufm_read {A} (get : bytes -> option (A * bytes)) : bufm A := fun b =>
  match get b with Some (a, b') => (Ok a, b') | None => (Panic, b) end.

Notation "x <-- m ; k" := (bufm_bind m (fun x => k))
  (at level 100, m at next level, right associativity) : smux_scope.

Section codec.
Context {B : BytesCrate}.

Definition decode_header : bufm (Z * Command * Z * Z) := fun src =>
  if blen src <? HEADER_SIZE then (Err InsufficientData, src)
  else
    (version <-- bufm_read get_u8;
     cmd_byte <-- bufm_read get_u8;
     length <-- bufm_read get_u16_le;
     stream_id <-- bufm_read get_u32_le;
     cmd <-- bufm_lift (from_byte cmd_byte);
     bufm_ret (version, cmd, stream_id, length)) src.

Definition encode_header (version : Z) (cmd : Command) (stream_id length : Z)
    (dst : bytes) : bytes :=
  let dst := put_u8 version dst in
  let dst := put_u8 (to_byte cmd) dst in
  let dst := put_u16_le length dst in
  put_u32_le stream_id dst.

Definition decode_upd_data (data : bytes) : Result (Z * Z) :=
  if negb (blen data =? 8) then
    Err (ProtocolViolation "UPD frame must have exactly 8 bytes of data")
  else
    ((consumed <-- bufm_read get_u32_le;
      window <-- bufm_read get_u32_le;
      bufm_ret (consumed, window)) data).1.

Definition encode_upd_data (consumed window : Z) : bytes :=
  let buf := put_u32_le consumed [] in
  put_u32_le window buf.

Definition decode (self : Codec) : bufm (option Frame) := fun src =>
  if blen src <? HEADER_SIZE then (Ok None, src)
  else
    (* the header is read from a clone of the buffer *)
    match (decode_header src).1 with
    | Panic => (Panic, src)
    | Err e => (Err e, src)
    | Ok (version, _cmd, _stream_id, length) =>
        let total_frame_size := HEADER_SIZE + length in
        if total_frame_size >? codec_max_frame_size self then
          (Err (FrameTooLarge total_frame_size (codec_max_frame_size self)), src)
        else if blen src <? total_frame_size then
          (Ok None, reserve (total_frame_size - blen src) src)
        else
          (header <-- decode_header;
           let '(_version, cmd, stream_id, length) := header in
           data <-- bufm_read (split_to length);
           final_cmd <-- bufm_lift
             (match cmd with
              | Upd _ _ =>
                  if version >=? 2
                  then (cw <-? decode_upd_data data; Ok (Upd cw.1 cw.2))
                  else Ok cmd
              | _ => Ok cmd
              end);
           let frame_data := match final_cmd with Upd _ _ => [] | _ => data end in
           let frame := frame_new version final_cmd stream_id frame_data in
           _ <-- bufm_lift (validate frame (codec_config self));
           bufm_ret (Some frame)) src
    end.

Definition encode (self : Codec) (frame : Frame) (dst : bytes) : Result unit * bytes :=
  match validate frame (codec_config self) with
  | Panic => (Panic, dst)
  | Err e => (Err e, dst)
  | Ok _ =>
      let '(data_to_encode, length) :=
        match cmd frame with
        | Upd consumed window =>
            if frame_version frame >=? 2 then
              let upd_data := encode_upd_data consumed window in
              (upd_data, as_u16 (blen upd_data))
            else (data frame, as_u16 (blen (data frame)))
        | _ => (data frame, as_u16 (blen (data frame)))
        end in
      let total_size := HEADER_SIZE + length in
      if total_size >? codec_max_frame_size self then
        (Err (FrameTooLarge total_size (codec_max_frame_size self)), dst)
      else
        let dst := reserve total_size dst in
        let dst := encode_header (frame_version frame) (cmd frame) (stream_id frame)
                     length dst in
        (Ok tt, put_slice data_to_encode dst)
  end.
End codec.

(** ** The wire format

    The bytes of a frame, written without the code: header, then the payload. *)
Definition raw_header (v cmd_byte len id : Z) : bytes :=
  le_split 1 v ++ le_split 1 cmd_byte ++ le_split 2 len ++ le_split 4 id.

Definition frame_payload (f : Frame) : bytes :=
  match cmd f with
  | Upd n w => le_split 4 n ++ le_split 4 w
  | _ => data f
  end.

Definition frame_bytes (f : Frame) : bytes :=
  raw_header (frame_version f) (to_byte (cmd f)) (blen (frame_payload f)) (stream_id f)
  ++ frame_payload f.

(** A frame the wire format can carry under a size limit. *)
Record encodable (max : Z) (f : Frame) : Prop := {
  enc_typed : frame_typed f;
  enc_valid : frame_valid max f;
  enc_length : blen (frame_payload f) <= u16_MAX;
  enc_size : HEADER_SIZE + blen (frame_payload f) <= max;
}.
