(* ===== verification/CodecSpec.v ===== *)
(** * What the codec guarantees

    [decode] and [encode] against the wire format of Codec.v: an encoded frame
    decodes to itself, [decode] accepts exactly the wire images of the frames the
    format can carry, and a byte stream decodes to the same frames however it is
    cut into reads. *)

From stdpp Require Import strings.
From S2P Require Import Prelude Crates Errors Config Command Frame Codec.

Section codec_spec.
Context {B : BytesCrate} {BL : BytesLaws B}.

(** ** The header *)
Lemma length_raw_header v cb len id : length (raw_header v cb len id) = 8%nat.
Proof. unfold raw_header. by rewrite !length_app, !length_le_split. Qed.

Lemma blen_raw_header v cb len id : blen (raw_header v cb len id) = HEADER_SIZE.
Proof. unfold blen. by rewrite length_raw_header. Qed.

Lemma decode_header_raw v cb len id rest :
  is_u8 v -> is_u8 cb -> 0 <= len <= u16_MAX -> is_u32 id ->
  decode_header (raw_header v cb len id ++ rest)
  = match from_byte cb with
    | Ok c => (Ok (v, c, id, len), rest)
    | Err e => (Err e, rest)
    | Panic => (Panic, rest)
    end.
Proof.
  intros Hv Hc Hl Hi. unfold decode_header.
  rewrite blen_app, blen_raw_header.
  rewrite (proj2 (Z.ltb_ge _ _)) by (pose proof (blen_nonneg rest); lia).
  unfold raw_header, bufm_bind, bufm_read, bufm_lift. rewrite <- !app_assoc.
  unfold u16_MAX in Hl.
  rewrite get_u8_split, get_u8_split, get_u16_le_split, get_u32_le_split.
  rewrite !Z.mod_small by (assumption || lia).
  by destruct (from_byte cb).
Qed.

Lemma header_split src :
  HEADER_SIZE <= blen src ->
  exists v cb len id rest, src = raw_header v cb len id ++ rest /\
    is_u8 v /\ is_u8 cb /\ 0 <= len <= u16_MAX /\ is_u32 id.
Proof.
  unfold HEADER_SIZE. intros H.
  destruct (get_u8_some src) as [[v s1] H1]; [lia|].
  apply get_u8_inv in H1 as [-> Hv]. rewrite blen_app in H.
  unfold blen in H at 1; rewrite length_le_split in H.
  destruct (get_u8_some s1) as [[cb s2] H2]; [lia|].
  apply get_u8_inv in H2 as [-> Hc]. rewrite blen_app in H.
  unfold blen in H at 1; rewrite length_le_split in H.
  destruct (get_u16_le_some s2) as [[len s3] H3]; [lia|].
  apply get_u16_le_inv in H3 as [-> Hl]. rewrite blen_app in H.
  unfold blen in H at 1; rewrite length_le_split in H.
  destruct (get_u32_le_some s3) as [[id s4] H4]; [lia|].
  apply get_u32_le_inv in H4 as [-> Hi].
  exists v, cb, len, id, s4. unfold raw_header. by rewrite <- !app_assoc.
Qed.

(** ** UPD payloads *)
Lemma decode_upd_data_ok n w :
  is_u32 n -> is_u32 w ->
  decode_upd_data (le_split 4 n ++ le_split 4 w) = Ok (n, w).
Proof.
  intros Hn Hw. unfold decode_upd_data, blen.
  rewrite length_app, !length_le_split.
  unfold bufm_bind, bufm_read. rewrite get_u32_le_split.
  rewrite <- (app_nil_r (le_split 4 w)), get_u32_le_split.
  simpl. unfold is_u32 in *. by rewrite !Z.mod_small.
Qed.

Lemma decode_upd_data_inv d n w :
  decode_upd_data d = Ok (n, w) ->
  d = le_split 4 n ++ le_split 4 w /\ is_u32 n /\ is_u32 w.
Proof.
  unfold decode_upd_data. destruct (blen d =? 8) eqn:E; [|done]. zbool. simpl.
  unfold bufm_bind, bufm_read.
  destruct (get_u32_le d) as [[n' d1]|] eqn:H1; [|done].
  apply get_u32_le_inv in H1 as [-> Hn].
  destruct (get_u32_le d1) as [[w' d2]|] eqn:H2; [|done].
  apply get_u32_le_inv in H2 as [-> Hw].
  intros [= <- <-]. rewrite !blen_app in E.
  unfold blen in E at 1 2; rewrite !length_le_split in E.
  rewrite (blen_zero d2) by lia. by rewrite app_nil_r.
Qed.

Lemma decode_upd_data_no_panic d : decode_upd_data d <> Panic.
Proof.
  unfold decode_upd_data. destruct (blen d =? 8) eqn:E; [|done]. zbool. simpl.
  unfold bufm_bind, bufm_read.
  destruct (get_u32_le_some d) as [[n d1] H1]; [lia|]. rewrite H1.
  apply get_u32_le_inv in H1 as [-> _].
  rewrite blen_app in E. unfold blen in E at 1; rewrite length_le_split in E.
  destruct (get_u32_le_some d1) as [[w d2] H2]; [lia|]. by rewrite H2.
Qed.

Lemma encode_upd_data_bytes n w : encode_upd_data n w = le_split 4 n ++ le_split 4 w.
Proof. unfold encode_upd_data. by rewrite !put_u32_le_spec. Qed.

(** ** Encoding *)
Lemma encode_header_bytes v c id len dst :
  encode_header v c id len dst = dst ++ raw_header v (to_byte c) len id.
Proof.
  unfold encode_header, raw_header.
  by rewrite put_u32_le_spec, put_u16_le_spec, !put_u8_spec, <- !app_assoc.
Qed.

(** The data [encode] writes and the length it writes in the header. *)
Lemma encode_eq cfg f dst :
  encode (codec_new cfg) f dst
  = match validate f cfg with
    | Panic => (Panic, dst)
    | Err e => (Err e, dst)
    | Ok _ =>
        let len := as_u16 (blen (frame_payload f)) in
        if HEADER_SIZE + len >? max_frame_size cfg
        then (Err (FrameTooLarge (HEADER_SIZE + len) (max_frame_size cfg)), dst)
        else (Ok tt, dst ++ raw_header (frame_version f) (to_byte (cmd f)) len
                            (stream_id f) ++ frame_payload f)
    end.
Proof.
  unfold encode. cbn [codec_new codec_config codec_max_frame_size].
  destruct (validate_dec f cfg) as [Hok|[e ->]]; [|done].
  rewrite Hok. apply validate_valid in Hok. unfold frame_payload.
  destruct (cmd f) eqn:Hc;
    try (rewrite reserve_spec, encode_header_bytes, put_slice_spec, <- app_assoc; done).
  assert (2 <= frame_version f) by (apply (valid_upd_version _ _ Hok); by rewrite Hc).
  rewrite Z.geb_leb, (proj2 (Z.leb_le 2 _)) by done.
  rewrite encode_upd_data_bytes, reserve_spec, encode_header_bytes, put_slice_spec.
  by rewrite <- app_assoc.
Qed.

Lemma encode_encodable cfg f dst :
  encodable (max_frame_size cfg) f ->
  encode (codec_new cfg) f dst = (Ok tt, dst ++ frame_bytes f).
Proof.
  intros [Ht Hv Hl Hs]. rewrite encode_eq, (proj2 (validate_valid f cfg) Hv).
  cbv zeta.
  rewrite as_u16_small by (pose proof (blen_nonneg (frame_payload f)); lia).
  by rewrite Z.gtb_ltb, (proj2 (Z.ltb_ge _ _) Hs).
Qed.

(** ** Decoding *)
Lemma blen_frame_bytes f : blen (frame_bytes f) = HEADER_SIZE + blen (frame_payload f).
Proof. unfold frame_bytes. by rewrite blen_app, blen_raw_header. Qed.

(** The payload the decoder turns into the final command and data. *)
Lemma command_kind_payload max f :
  frame_valid max f -> frame_typed f ->
  match command_kind (cmd f) with
  | Upd _ _ =>
      if frame_version f >=? 2
      then (cw <-? decode_upd_data (frame_payload f); Ok (Upd cw.1 cw.2))
      else Ok (command_kind (cmd f))
  | _ => Ok (command_kind (cmd f))
  end = Ok (cmd f).
Proof.
  intros Hv Ht. unfold frame_payload. destruct (cmd f) eqn:Hc; try done.
  assert (2 <= frame_version f) by (apply (valid_upd_version _ _ Hv); by rewrite Hc).
  rewrite Z.geb_leb, (proj2 (Z.leb_le 2 _)) by done.
  pose proof (typed_cmd _ Ht) as Hu. rewrite Hc in Hu. destruct Hu as [Hn Hw].
  cbn [command_kind]. by rewrite (decode_upd_data_ok _ _ Hn Hw).
Qed.

Lemma decode_frame_bytes cfg f rest :
  encodable (max_frame_size cfg) f ->
  decode (codec_new cfg) (frame_bytes f ++ rest) = (Ok (Some f), rest).
Proof.
  intros [Ht Hv Hl Hs]. pose proof (blen_nonneg (frame_payload f)) as Hp.
  pose proof (blen_nonneg rest) as Hr. unfold decode.
  cbn [codec_new codec_config codec_max_frame_size].
  rewrite blen_app, blen_frame_bytes, (proj2 (Z.ltb_ge _ _)) by lia.
  unfold bufm_bind at 1. unfold frame_bytes. rewrite <- !app_assoc.
  assert (Hh : decode_header (raw_header (frame_version f) (to_byte (cmd f))
                 (blen (frame_payload f)) (stream_id f) ++ frame_payload f ++ rest)
               = (Ok (frame_version f, command_kind (cmd f), stream_id f,
                      blen (frame_payload f)), frame_payload f ++ rest)).
  { rewrite decode_header_raw, from_to_byte; [done|..].
    - apply Ht.
    - pose proof (to_byte_range (cmd f)). unfold is_u8. lia.
    - lia.
    - apply Ht. }
  rewrite !Hh. cbn [fst]. rewrite Z.gtb_ltb, (proj2 (Z.ltb_ge _ _) Hs).
  rewrite (proj2 (Z.ltb_ge _ _)) by lia.
  unfold bufm_bind, bufm_read, bufm_lift. rewrite split_to_app.
  rewrite (command_kind_payload _ f Hv Ht).
  assert (Hf : frame_new (frame_version f) (cmd f) (stream_id f)
                 (match cmd f with Upd _ _ => [] | _ => frame_payload f end) = f).
  { destruct f as [v c i d]. unfold frame_new, frame_payload. simpl.
    destruct c; try done. f_equal. symmetry. by apply (valid_control _ _ Hv). }
  rewrite Hf. by rewrite (proj2 (validate_valid f cfg) Hv).
Qed.

(** [decode] on a buffer that holds a whole header, as one case analysis. *)
Definition decode_command (v : Z) (c : Command) (payload : bytes) : Result Command :=
  match c with
  | Upd _ _ =>
      if v >=? 2 then (cw <-? decode_upd_data payload; Ok (Upd cw.1 cw.2)) else Ok c
  | _ => Ok c
  end.

Definition decode_frame (cfg : Config) (v : Z) (c : Command) (id : Z) (payload : bytes)
    : Result Frame :=
  fc <-? decode_command v c payload;
  let f := frame_new v fc id (match fc with Upd _ _ => [] | _ => payload end) in
  _ <-? validate f cfg; Ok f.

Lemma decode_raw cfg v cb len id body :
  is_u8 v -> is_u8 cb -> 0 <= len <= u16_MAX -> is_u32 id ->
  let src := raw_header v cb len id ++ body in
  decode (codec_new cfg) src
  = match from_byte cb with
    | Panic => (Panic, src)
    | Err e => (Err e, src)
    | Ok c =>
        if HEADER_SIZE + len >? max_frame_size cfg
        then (Err (FrameTooLarge (HEADER_SIZE + len) (max_frame_size cfg)), src)
        else if blen body <? len then (Ok None, src)
        else match decode_frame cfg v c id (take (Z.to_nat len) body) with
             | Ok f => (Ok (Some f), drop (Z.to_nat len) body)
             | Err e => (Err e, drop (Z.to_nat len) body)
             | Panic => (Panic, drop (Z.to_nat len) body)
             end
    end.
Proof.
  intros Hv Hc Hl Hi src. unfold decode.
  cbn [codec_new codec_config codec_max_frame_size].
  pose proof (blen_nonneg body) as Hb.
  assert (Hsrc : blen src = HEADER_SIZE + blen body)
    by (unfold src; by rewrite blen_app, blen_raw_header).
  rewrite Hsrc, (proj2 (Z.ltb_ge _ HEADER_SIZE)) by lia.
  pose proof (decode_header_raw v cb len id body Hv Hc Hl Hi) as Hh. fold src in Hh.
  rewrite Hh. destruct (from_byte cb) as [c|e|] eqn:Hcb; cbn [fst]; try done.
  destruct (HEADER_SIZE + len >? max_frame_size cfg); [done|].
  destruct (Z.ltb_spec (blen body) len) as [Hlt|Hge].
  - rewrite (proj2 (Z.ltb_lt _ _)) by lia. by rewrite reserve_spec.
  - rewrite (proj2 (Z.ltb_ge _ _)) by lia.
    unfold bufm_bind, bufm_read, bufm_lift. rewrite Hh.
    rewrite <- (take_drop (Z.to_nat len) body) at 1.
    replace len with (blen (take (Z.to_nat len) body)) at 1 by (apply blen_take; lia).
    rewrite split_to_app. unfold decode_frame.
    change (match c with
            | Upd _ _ => if v >=? 2
                then (cw <-? decode_upd_data (take (Z.to_nat len) body);
                      Ok (Upd cw.1 cw.2))
                else Ok c
            | _ => Ok c end) with (decode_command v c (take (Z.to_nat len) body)).
    destruct (decode_command v c _) as [fc|e|]; simpl; try done.
    by destruct (validate _ cfg) as [[]| |].
Qed.

Lemma decode_short cfg src :
  blen src < HEADER_SIZE -> decode (codec_new cfg) src = (Ok None, src).
Proof. intros H. unfold decode. by rewrite (proj2 (Z.ltb_lt _ _) H). Qed.

Lemma decode_frame_no_panic cfg v c id d : decode_frame cfg v c id d <> Panic.
Proof.
  unfold decode_frame. assert (Hc : decode_command v c d <> Panic).
  { unfold decode_command. destruct c; try done. destruct (v >=? 2); [|done].
    pose proof (decode_upd_data_no_panic d). by destruct (decode_upd_data d). }
  destruct (decode_command v c d) as [fc|e|]; simpl; try done.
  destruct (validate_dec (frame_new v fc id
    (match fc with Upd _ _ => [] | _ => d end)) cfg) as [->|[e ->]]; done.
Qed.

(** A frame the decoder builds: its wire image is the header and payload read. *)
Lemma decode_frame_ok cfg v cb c id d f :
  from_byte cb = Ok c -> is_u8 v -> is_u32 id -> blen d <= u16_MAX ->
  HEADER_SIZE + blen d <= max_frame_size cfg ->
  decode_frame cfg v c id d = Ok f ->
  encodable (max_frame_size cfg) f /\ frame_bytes f = raw_header v cb (blen d) id ++ d.
Proof.
  intros Hcb Hv Hi Hl Hs. apply from_byte_ok in Hcb as [-> Hk].
  unfold decode_frame, decode_command.
  destruct c as [| | | |n w]; simpl;
    [ destruct (validate _ cfg) as [[]| |] eqn:Hval; simpl; [|done..];
      intros [= <-]; apply validate_valid in Hval; split; [|done];
      split; [by split|done..] ..|].
  destruct (v >=? 2) eqn:Hv2'; cbn [result_bind].
  - destruct (decode_upd_data d) as [[n' w']| |] eqn:Hd; cbn [result_bind]; [|done..].
    destruct (validate _ cfg) as [[]| |] eqn:Hval; cbn [result_bind]; [|done..].
    intros [= <-]. apply validate_valid in Hval.
    apply decode_upd_data_inv in Hd as (-> & Hn & Hw).
    split; [|done]. split; [by split|done..].
  - destruct (validate _ cfg) as [[]| |] eqn:Hval; cbn [result_bind]; [|done..].
    intros _. apply validate_valid in Hval.
    pose proof (valid_upd_version _ _ Hval eq_refl) as Hv2. simpl in Hv2. zbool. lia.
Qed.

Lemma decode_ok_inv cfg src f rest :
  decode (codec_new cfg) src = (Ok (Some f), rest) ->
  encodable (max_frame_size cfg) f /\ src = frame_bytes f ++ rest.
Proof.
  destruct (Z.lt_ge_cases (blen src) HEADER_SIZE) as [Hlt|Hge].
  { by rewrite decode_short. }
  destruct (header_split src Hge) as (v & cb & len & id & body & -> & Hv & Hc & Hl & Hi).
  rewrite decode_raw by done. destruct (from_byte cb) as [c| |] eqn:Hcb; try done.
  destruct (_ >? _) eqn:Hs; [done|]. destruct (_ <? _) eqn:Hb; [done|]. zbool.
  destruct (decode_frame _ _ _ _ _) as [f'| |] eqn:Hf; try done. intros [= -> <-].
  assert (Hlen : blen (take (Z.to_nat len) body) = len) by (apply blen_take; lia).
  destruct (decode_frame_ok cfg v cb c id (take (Z.to_nat len) body) f Hcb Hv Hi)
    as [He Hw]; [rewrite Hlen; lia..|done|].
  split; [done|]. by rewrite Hw, Hlen, <- app_assoc, take_drop.
Qed.

Lemma decode_none_inv cfg src rest :
  decode (codec_new cfg) src = (Ok None, rest) -> rest = src.
Proof.
  destruct (Z.lt_ge_cases (blen src) HEADER_SIZE) as [Hlt|Hge].
  { rewrite decode_short by done. by intros [= ->]. }
  destruct (header_split src Hge) as (v & cb & len & id & body & -> & Hv & Hc & Hl & Hi).
  rewrite decode_raw by done. intros H. repeat split_hyp_match; by simplify_eq.
Qed.

Lemma decode_total cfg src : (decode (codec_new cfg) src).1 <> Panic.
Proof.
  destruct (Z.lt_ge_cases (blen src) HEADER_SIZE) as [Hlt|Hge].
  { by rewrite decode_short. }
  destruct (header_split src Hge) as (v & cb & len & id & body & -> & Hv & Hc & Hl & Hi).
  rewrite decode_raw by done. pose proof (from_byte_no_panic cb).
  destruct (from_byte cb) as [c| |]; try done.
  pose proof (decode_frame_no_panic cfg v c id (take (Z.to_nat len) body)).
  repeat (split_goal_match; simpl; try done).
Qed.

(** A proper prefix of a frame is kept until the rest arrives. *)
Lemma decode_prefix cfg f p q :
  encodable (max_frame_size cfg) f -> frame_bytes f = p ++ q -> q <> [] ->
  decode (codec_new cfg) p = (Ok None, p).
Proof.
  intros [Ht Hv Hl Hs] Heq Hq.
  destruct (Z.lt_ge_cases (blen p) HEADER_SIZE) as [Hlt|Hge].
  { by apply decode_short. }
  pose proof (blen_frame_bytes f) as Hlen. rewrite Heq, blen_app in Hlen.
  assert (Hp : p = raw_header (frame_version f) (to_byte (cmd f))
                     (blen (frame_payload f)) (stream_id f) ++ drop 8 p).
  { rewrite <- (take_drop 8 p) at 1. f_equal.
    apply (f_equal (take 8)) in Heq. unfold frame_bytes in Heq.
    rewrite take_app_length' in Heq by (symmetry; apply length_raw_header).
    unfold blen, HEADER_SIZE in Hge. by rewrite take_app_le in Heq by lia. }
  rewrite Hp, decode_raw, from_to_byte; [|apply Ht| |pose proof (blen_nonneg
    (frame_payload f)); lia|apply Ht].
  2: { pose proof (to_byte_range (cmd f)). unfold is_u8. lia. }
  rewrite Z.gtb_ltb, (proj2 (Z.ltb_ge _ _) Hs).
  assert (0 < blen q) by (destruct q; [done|unfold blen; simpl; lia]).
  rewrite (proj2 (Z.ltb_lt _ _)); [done|].
  unfold blen, HEADER_SIZE in *. rewrite length_drop. lia.
Qed.

(** ** Streams of frames

    A reader calls [decode] until it asks for more bytes, keeps what is left in
    the buffer, and appends the next chunk it receives to it.  Every frame takes at
    least the header off the buffer, so the length of the buffer is fuel enough. *)
Fixpoint drain (c : Codec) (fuel : nat) (buf : bytes) : list Frame * Result unit * bytes :=
  match fuel with
  | O => ([], Ok tt, buf)
  | S fuel =>
      match decode c buf with
      | (Ok (Some f), rest) => let '(fs, r, b) := drain c fuel rest in (f :: fs, r, b)
      | (Ok None, rest) => ([], Ok tt, rest)
      | (Err e, rest) => ([], Err e, rest)
      | (Panic, rest) => ([], Panic, rest)
      end
  end.

Fixpoint read_chunks (c : Codec) (buf : bytes) (chunks : list bytes)
    : list Frame * Result unit * bytes :=
  match chunks with
  | [] => ([], Ok tt, buf)
  | chunk :: chunks =>
      match drain c (S (length (buf ++ chunk))) (buf ++ chunk) with
      | (fs, Ok _, b) =>
          let '(fs', r, b') := read_chunks c b chunks in (fs ++ fs', r, b')
      | res => res
      end
  end.

(** What is left in the buffer is not yet a whole frame. *)
Definition residue (fs : list Frame) (buf : bytes) : Prop :=
  match fs with [] => True | f :: _ => blen buf < blen (frame_bytes f) end.

Lemma residue_nil fs : residue fs [].
Proof.
  destruct fs as [|f fs]; [done|]. simpl. rewrite blen_nil, blen_frame_bytes.
  pose proof (blen_nonneg (frame_payload f)). unfold HEADER_SIZE. lia.
Qed.

Definition wire (fs : list Frame) : bytes := concat (map frame_bytes fs).

Lemma wire_cons f fs : wire (f :: fs) = frame_bytes f ++ wire fs.
Proof. reflexivity. Qed.

Lemma wire_app fs1 fs2 : wire (fs1 ++ fs2) = wire fs1 ++ wire fs2.
Proof. unfold wire. by rewrite map_app, concat_app. Qed.

(** Decoding a part [p] of a stream of frames: the next frame, if it is whole. *)
Lemma decode_stream cfg p q fs :
  Forall (encodable (max_frame_size cfg)) fs -> p ++ q = wire fs ->
  (exists f fs' p', fs = f :: fs' /\ decode (codec_new cfg) p = (Ok (Some f), p') /\
     p = frame_bytes f ++ p' /\ p' ++ q = wire fs') \/
  (decode (codec_new cfg) p = (Ok None, p) /\ residue fs p /\ (q = [] -> fs = [] /\ p = [])).
Proof.
  intros Hfs Heq. destruct Hfs as [|f fs Hf Hfs].
  { apply app_eq_nil in Heq as [-> ->]. right. by rewrite decode_short. }
  rewrite wire_cons in Heq.
  apply app_eq_inv in Heq as [(k & -> & Hk)|(k & Hp & Hk)].
  - left. exists f, fs, k. by rewrite decode_frame_bytes.
  - destruct k as [|b k].
    + rewrite app_nil_r in Hp. subst p. simpl in Hk. subst q. left. exists f, fs, [].
      by rewrite <- (app_nil_r (frame_bytes f)) at 1; rewrite decode_frame_bytes, app_nil_r.
    + right. rewrite (decode_prefix cfg f p (b :: k)) by done. split; [done|].
      split; [|by subst q]. unfold residue. rewrite Hp, blen_app. unfold blen. simpl. lia.
Qed.

Lemma drain_stream cfg fuel p q fs :
  Forall (encodable (max_frame_size cfg)) fs -> p ++ q = wire fs ->
  (length p < fuel)%nat ->
  exists fs1 fs2 p', fs = fs1 ++ fs2 /\ drain (codec_new cfg) fuel p = (fs1, Ok tt, p') /\
    p' ++ q = wire fs2 /\ residue fs2 p'.
Proof.
  revert p fs. induction fuel as [|fuel IH]; intros p fs Hfs Heq Hlen; [lia|].
  destruct (decode_stream cfg p q fs Hfs Heq)
    as [(f & fs' & k & -> & Hd & -> & Hw)|(Hd & Hr & _)]; cbn [drain]; rewrite Hd.
  - apply Forall_cons in Hfs as [_ Hfs].
    destruct (IH k fs') as (fs1 & fs2 & p' & -> & Hd' & Hw' & Hr'); [done..| |].
    { rewrite length_app in Hlen. pose proof (blen_frame_bytes f) as Hb.
      pose proof (blen_nonneg (frame_payload f)). unfold blen, HEADER_SIZE in *. lia. }
    exists (f :: fs1), fs2, p'. by rewrite Hd'.
  - exists [], fs, p. done.
Qed.

Lemma read_chunks_stream cfg buf chunks fs :
  Forall (encodable (max_frame_size cfg)) fs -> residue fs buf ->
  buf ++ concat chunks = wire fs ->
  read_chunks (codec_new cfg) buf chunks = (fs, Ok tt, []).
Proof.
  revert buf fs. induction chunks as [|chunk chunks IH]; intros buf fs Hfs Hr Heq.
  - simpl in *. rewrite app_nil_r in Heq. subst buf. destruct fs as [|f fs]; [done|].
    unfold residue in Hr. rewrite wire_cons, blen_app in Hr.
    pose proof (blen_nonneg (wire fs)). lia.
  - simpl in Heq. rewrite app_assoc in Heq. cbn [read_chunks].
    destruct (drain_stream cfg (S (length (buf ++ chunk))) _ _ _ Hfs Heq)
      as (fs1 & fs2 & p' & -> & -> & Hw & Hr'); [lia|].
    apply Forall_app in Hfs as [_ Hfs2]. by rewrite (IH p' fs2).
Qed.
End codec_spec.

(** ** Properties *)
Section codec_properties.
Context {B : BytesCrate} {BL : BytesLaws B}.

(** C5: [decode] accepts exactly the wire format.  It returns a frame and a
    remainder if and only if the buffer is the wire image of a frame the format can
    carry under [max_frame_size], followed by that remainder: no valid frame is
    refused, nothing else is accepted, and exactly the bytes of the frame are
    consumed. *)
Theorem decode_exact cfg src f rest :
  decode (codec_new cfg) src = (Ok (Some f), rest) <->
  encodable (max_frame_size cfg) f /\ src = frame_bytes f ++ rest.
Proof.
  split; [apply decode_ok_inv|]. intros [He ->]. by apply decode_frame_bytes.
Qed.

(** C14: encode/decode round trip: what [encode] appends for a frame whose payload
    fits the 16-bit length field decodes, whatever follows it in the buffer, to that
    frame, and leaves what follows. *)
Theorem encode_decode_roundtrip cfg f dst dst' rest :
  frame_typed f -> blen (data f) <= u16_MAX ->
  encode (codec_new cfg) f dst = (Ok tt, dst') ->
  exists enc, dst' = dst ++ enc /\
    decode (codec_new cfg) (enc ++ rest) = (Ok (Some f), rest).
Proof.
  intros Ht Hl. rewrite encode_eq.
  destruct (validate_dec f cfg) as [Hv|[e ->]]; [|done]. rewrite Hv. cbv zeta.
  apply validate_valid in Hv.
  assert (Hp : blen (frame_payload f) <= u16_MAX).
  { unfold frame_payload. by destruct (cmd f). }
  rewrite as_u16_small by (pose proof (blen_nonneg (frame_payload f)); lia).
  destruct (_ >? _) eqn:Hs; [done|]. zbool. intros [= <-].
  exists (frame_bytes f). split; [done|]. by apply decode_frame_bytes.
Qed.

(** C15: the frames read from a connection do not depend on how the byte stream is
    cut: for any sequence of chunks that together are the encodings of a list of
    frames, reading chunk by chunk yields exactly those frames in order, no error,
    and an empty buffer. *)
Theorem decode_any_segmentation cfg fs chunks :
  Forall (encodable (max_frame_size cfg)) fs -> concat chunks = wire fs ->
  read_chunks (codec_new cfg) [] chunks = (fs, Ok tt, []).
Proof.
  intros Hfs Heq. apply read_chunks_stream; [done|apply residue_nil|done].
Qed.

(** C37: [decode] is total and safe on arbitrary input: it never panics, whatever
    the bytes; when it asks for more bytes it has not consumed any; and it asks for
    more whenever the buffer is a proper prefix of a frame. *)
Theorem decode_safe cfg src :
  (decode (codec_new cfg) src).1 <> Panic /\
  ((decode (codec_new cfg) src).1 = Ok None -> (decode (codec_new cfg) src).2 = src) /\
  (forall f q, encodable (max_frame_size cfg) f -> frame_bytes f = src ++ q -> q <> [] ->
    decode (codec_new cfg) src = (Ok None, src)).
Proof.
  split; [apply decode_total|]. split.
  - destruct (decode _ src) as [r rest] eqn:E. simpl. intros ->.
    by eapply decode_none_inv.
  - intros f q Hf Heq Hq. by eapply decode_prefix.
Qed.

(** C38: every outcome of [encode].  It never panics, and succeeds exactly when the frame
    is valid and the size announced in the header, that of the header and of the payload's
    length modulo 2^16, is within the limit; then it appends the header and the payload.
    An invalid frame is refused with the error of [validate], and a valid one over the
    limit with [FrameTooLarge]; the output buffer is then untouched.  Only a window update
    whose eight bytes of payload do not fit the limit is refused that way: a valid SYN,
    FIN, NOP or PSH is always encoded. *)
Theorem encode_outcomes cfg f dst :
  let max := max_frame_size cfg in
  let len := as_u16 (blen (frame_payload f)) in
  (validate f cfg = Ok tt <-> frame_valid max f) /\
  ((exists dst', encode (codec_new cfg) f dst = (Ok tt, dst')) <->
     frame_valid max f /\ HEADER_SIZE + len <= max) /\
  (frame_valid max f -> HEADER_SIZE + len <= max ->
     encode (codec_new cfg) f dst
     = (Ok tt, dst ++ raw_header (frame_version f) (to_byte (cmd f)) len (stream_id f)
                   ++ frame_payload f)) /\
  (~ frame_valid max f ->
     exists e, validate f cfg = Err e /\ encode (codec_new cfg) f dst = (Err e, dst)) /\
  (frame_valid max f -> max < HEADER_SIZE + len ->
     encode (codec_new cfg) f dst = (Err (FrameTooLarge (HEADER_SIZE + len) max), dst) /\
     len = 8 /\ exists consumed window, cmd f = Upd consumed window).
Proof.
  cbv zeta. rewrite encode_eq. split; [apply validate_valid|].
  destruct (validate_dec f cfg) as [Hv|[e Hv]]; rewrite Hv; cbv zeta.
  2: { assert (Hno : ~ frame_valid (max_frame_size cfg) f)
         by (rewrite <- validate_valid; congruence).
       split; [split; [by intros [? ?]|by intros [? _]]|].
       split; [done|]. split; [by exists e|done]. }
  pose proof (proj1 (validate_valid _ _) Hv) as Hval.
  rewrite Z.gtb_ltb. destruct (Z.ltb_spec (max_frame_size cfg)
    (HEADER_SIZE + as_u16 (blen (frame_payload f)))) as [Hs|Hs].
  - split; [split; [by intros [? ?]|intros [_ ?]; lia]|].
    split; [intros _ ?; lia|]. split; [done|]. intros _ _. split; [done|].
    pose proof (valid_size _ _ Hval) as Hsz. unfold total_size in Hsz.
    unfold frame_payload in *. pose proof (blen_nonneg (data f)).
    pose proof (Z.mod_le (blen (data f)) (2 ^ 16)) as Hm.
    destruct (cmd f) as [| | | |n w]; unfold as_u16 in *; try lia.
    split; [|by exists n, w]. by rewrite blen_app; unfold blen; rewrite !length_le_split.
  - split; [split; [done|by eexists]|]. split; [done|]. split; [done|]. intros _ ?. lia.
Qed.

(** C40: the 16-bit length field is not guarded.  A valid PSH frame with more than
    65535 bytes of data, which [max_frame_size] up to 16MB allows, is encoded
    without an error, but its header announces the length modulo 2^16: the receiver
    decodes a shorter frame and is left with the rest of the data in its buffer, to be
    parsed as frame headers. *)
Theorem encode_truncates_length cfg v id d :
  is_u8 v -> is_u32 id -> validate (new_psh v id d) cfg = Ok tt -> u16_MAX < blen d ->
  exists enc, encode (codec_new cfg) (new_psh v id d) [] = (Ok tt, enc) /\
    let len := Z.to_nat (as_u16 (blen d)) in
    decode (codec_new cfg) enc = (Ok (Some (new_psh v id (take len d))), drop len d) /\
    drop len d <> [].
Proof.
  intros Hv Hi Hval Hl. pose proof (proj1 (validate_valid _ _) Hval) as Hfv.
  pose proof (valid_size _ _ Hfv) as Hs. unfold total_size in Hs. simpl in Hs.
  pose proof (as_u16_range (blen d)) as Hr.
  assert (Hlt : Z.of_nat (Z.to_nat (as_u16 (blen d))) < Z.of_nat (length d))
    by (unfold blen in *; lia).
  exists (raw_header v PSH (as_u16 (blen d)) id ++ d). rewrite encode_eq, Hval.
  cbv zeta. cbn [frame_payload new_psh frame_new cmd data frame_version stream_id to_byte].
  rewrite Z.gtb_ltb, (proj2 (Z.ltb_ge _ _)) by lia. split; [done|]. split.
  - set (len := Z.to_nat (as_u16 (blen d))).
    assert (Hlen : blen (take len d) = as_u16 (blen d)) by (apply blen_take; lia).
    assert (Hp : frame_payload (new_psh v id (take len d)) = take len d) by done.
    assert (Hw : raw_header v PSH (as_u16 (blen d)) id ++ d
                 = frame_bytes (new_psh v id (take len d)) ++ drop len d).
    { unfold frame_bytes. rewrite Hp, Hlen, <- app_assoc, take_drop. done. }
    rewrite Hw. apply decode_frame_bytes.
    split; [by split| |rewrite Hp; lia|rewrite Hp; lia].
    apply new_psh_valid; [apply (valid_frame_version _ _ Hfv)| |lia].
    intros Hz. by apply (proj2 (valid_stream_id _ _ Hfv)) in Hz.
  - intros Hd. apply (f_equal length) in Hd. rewrite length_drop in Hd. simpl in Hd. lia.
Qed.
End codec_properties.

(** ** Witnesses: the properties at concrete inputs *)
Definition sample_psh : Frame := new_psh 1 123 [Byte.x68; Byte.x69].
Definition sample_upd : Frame := new_upd 2 123 100 200.

(** A configuration whose frames may outgrow the length field. *)
Definition wide_config : Config :=
  mkConfig 1 (from_secs 10) (from_secs 30) (128 * 1024) (4 * 1024 * 1024) 512 (64 * 1024) true.

Lemma sample_psh_encodable : encodable (max_frame_size config_default) sample_psh.
Proof.
  split; [split|by apply (validate_valid _ config_default)|..];
    repeat split; vm_compute; congruence.
Qed.

Lemma sample_upd_encodable : encodable (max_frame_size config_default) sample_upd.
Proof.
  split; [split|by apply (validate_valid _ config_default)|..];
    repeat split; vm_compute; congruence.
Qed.

Lemma decode_exact_witness :
  decode (codec_new config_default) (frame_bytes sample_upd ++ [Byte.x01])
  = (Ok (Some sample_upd), [Byte.x01]).
Proof.
  apply (decode_exact config_default). split; [apply sample_upd_encodable|reflexivity].
Defined.

Lemma encode_decode_roundtrip_witness :
  exists enc, [Byte.xff] ++ frame_bytes sample_psh = [Byte.xff] ++ enc /\
    decode (codec_new config_default) (enc ++ [Byte.x01])
    = (Ok (Some sample_psh), [Byte.x01]).
Proof.
  apply (encode_decode_roundtrip config_default sample_psh [Byte.xff]).
  - apply sample_psh_encodable.
  - vm_compute. congruence.
  - vm_compute. reflexivity.
Defined.

Lemma decode_any_segmentation_witness :
  read_chunks (codec_new config_default) []
    [take 3 (frame_bytes sample_psh); drop 3 (frame_bytes sample_psh)
       ++ take 9 (frame_bytes sample_upd); drop 9 (frame_bytes sample_upd)]
  = ([sample_psh; sample_upd], Ok tt, []).
Proof.
  apply decode_any_segmentation.
  - repeat constructor; apply sample_psh_encodable || apply sample_upd_encodable.
  - vm_compute. reflexivity.
Defined.

Lemma decode_safe_witness :
  decode (codec_new config_default) (take 9 (frame_bytes sample_psh))
  = (Ok None, take 9 (frame_bytes sample_psh)).
Proof.
  apply (decode_safe config_default) with (f := sample_psh)
    (q := drop 9 (frame_bytes sample_psh)).
  - apply sample_psh_encodable.
  - symmetry. apply take_drop.
  - vm_compute. congruence.
Defined.

(** A window update a limit of twelve bytes cannot carry; and frames it can. *)
Definition twelve_config : Config :=
  mkConfig 2 (from_secs 10) (from_secs 30) 12 65536 512 65536 true.

Lemma encode_outcomes_witness :
  encode (codec_new config_default) sample_psh [] = (Ok tt, frame_bytes sample_psh) /\
  encode (codec_new twelve_config) (new_syn 1 3) [] = (Ok tt, frame_bytes (new_syn 1 3)) /\
  encode (codec_new twelve_config) (new_upd 2 3 5 7) [] = (Err (FrameTooLarge 16 12), []).
Proof.
  assert (Hv : forall cfg f, validate f cfg = Ok tt -> frame_valid (max_frame_size cfg) f)
    by (intros cfg f; apply validate_valid).
  split; [|split].
  - destruct (encode_outcomes config_default sample_psh []) as (_ & _ & Hok & _).
    apply Hok; [apply Hv; vm_compute; reflexivity|vm_compute; congruence].
  - destruct (encode_outcomes twelve_config (new_syn 1 3) []) as (_ & _ & Hok & _).
    apply Hok; [apply Hv; vm_compute; reflexivity|vm_compute; congruence].
  - destruct (encode_outcomes twelve_config (new_upd 2 3 5 7) []) as (_ & _ & _ & _ & Hno).
    apply Hno; [apply Hv; vm_compute; reflexivity|vm_compute; reflexivity].
Defined.

Lemma encode_truncates_length_witness :
  let d := repeat Byte.x00 65540 in
  exists enc, encode (codec_new wide_config) (new_psh 1 3 d) [] = (Ok tt, enc) /\
    let len := Z.to_nat (as_u16 (blen d)) in
    decode (codec_new wide_config) enc
    = (Ok (Some (new_psh 1 3 (take len d))), drop len d) /\ drop len d <> [].
Proof.
  intros d. apply encode_truncates_length;
    [split|split|..]; vm_compute; congruence || reflexivity.
Defined.
