(* ===== verification/Runtime.v ===== *)
(** * The runtime: [tokio::time::interval] and [tokio_util::codec::Framed]

    The tasks of a session run over a timer and over a transport framed by the codec.
    Neither is code of the repository, so, like the crates of Crates.v, each is a class
    of operations with a class of documented laws and a reference instance. *)

From stdpp Require Import strings.
From S2P Require Import Prelude Crates Errors Config Command Frame Codec.

(** ** [tokio::time::interval]

    Times are nanoseconds.  [interval period now] panics on a zero period; the first tick
    completes at once, and with the default [MissedTickBehavior::Burst] the next deadline
    is one period after the last. *)
Class IntervalCrate : Type := {
  timer : Type;
  interval : Z -> Z -> option timer;
  tick : Z -> timer -> bool * timer;
}.

Class IntervalLaws (T : IntervalCrate) : Type := {
  deadline : timer -> Z;
  period : timer -> Z;
  interval_zero now : interval 0 now = None;
  interval_start p now :
    0 < p -> exists i, interval p now = Some i /\ deadline i = now /\ period i = p;
  tick_ready now i :
    deadline i <= now ->
    (tick now i).1 = true /\ deadline (tick now i).2 = deadline i + period i /\
    period (tick now i).2 = period i;
  tick_pending now i : now < deadline i -> tick now i = (false, i);
}.

#[export] Instance interval_ref : IntervalCrate := {|
  timer := Z * Z;
  interval p now := if 0 <? p then Some (now, p) else None;
  tick now i := if i.1 <=? now then (true, (i.1 + i.2, i.2)) else (false, i);
|}.

#[export] Instance interval_ref_laws : IntervalLaws interval_ref.
Proof.
  refine {| deadline (i : @timer interval_ref) := i.1;
            period (i : @timer interval_ref) := i.2 |}; simpl.
  - done.
  - intros p now Hp. rewrite (proj2 (Z.ltb_lt _ _) Hp). by eexists.
  - intros now i Hi. by rewrite (proj2 (Z.leb_le _ _) Hi).
  - intros now i Hi. by rewrite (proj2 (Z.leb_gt _ _) Hi).
Defined.

(** ** [Framed], split

    The reading half decodes from its buffer and appends what the transport delivers to
    it; the writing half keeps the frame it was given until it is encoded into the
    outgoing bytes.  [poll_next] is [StreamExt::next] polled once; [start_send] and
    [poll_send] are the start and one poll of [SinkExt::send].  [deliver] is the other
    side of the transport: bytes arrive, and the connection may end behind them. *)
Record Reader : Type := mkReader {
  rd_codec : Codec;
  rd_buffer : bytes;
  rd_input : list bytes;
  rd_eof : bool;
}.

Definition with_buffer (b : bytes) (r : Reader) : Reader :=
  mkReader (rd_codec r) b (rd_input r) (rd_eof r).

(** The next chunk of the transport, behind what the buffer holds. *)
Definition received_chunk (r : Reader) : Reader :=
  match rd_input r with
  | [] => r
  | c :: cs => mkReader (rd_codec r) (rd_buffer r ++ c) cs (rd_eof r)
  end.

Record Writer : Type := mkWriter {
  wr_codec : Codec;
  wr_slot : option Frame;
  wr_out : bytes;
}.

Class FramedCrate : Type := {
  source : Type;
  poll_next : source -> poll (option (Result Frame)) * source;
  deliver : bytes -> bool -> source -> source;
  sink : Type;
  start_send : Frame -> sink -> sink;
  poll_send : sink -> poll (Result unit) * sink;
}.

Section framed.
Context {B : BytesCrate}.

(** What one poll of a send may do: nothing yet, or fail on the transport, before or
    after encoding; encode the frame of the slot, or fail to; and end when everything is
    flushed. *)
Inductive sends (w : Writer) : poll (Result unit) -> Writer -> Prop :=
| sends_wait : sends w Pending w
| sends_broken e : sends w (Ready (Err (Io e))) w
| sends_encoded f dst r :
    wr_slot w = Some f -> encode (wr_codec w) f (wr_out w) = (Ok tt, dst) ->
    r = Pending \/ r = Ready (Ok tt) \/ (exists e, r = Ready (Err (Io e))) ->
    sends w r (mkWriter (wr_codec w) None dst)
| sends_refused f e dst :
    wr_slot w = Some f -> encode (wr_codec w) f (wr_out w) = (Err e, dst) ->
    sends w (Ready (Err e)) (mkWriter (wr_codec w) None dst)
| sends_flushed : wr_slot w = None -> sends w (Ready (Ok tt)) w.

Class FramedLaws (D : FramedCrate) : Type := {
  reader : source -> Reader;
  writer : sink -> Writer;
  next_frame s f rest :
    decode (rd_codec (reader s)) (rd_buffer (reader s)) = (Ok (Some f), rest) ->
    (poll_next s).1 = Ready (Some (Ok f)) /\
    reader (poll_next s).2 = with_buffer rest (reader s);
  next_error s e rest :
    decode (rd_codec (reader s)) (rd_buffer (reader s)) = (Err e, rest) ->
    (poll_next s).1 = Ready (Some (Err e));
  (* no frame yet, and the transport has a chunk: as if it had been there *)
  next_more s c cs rest :
    decode (rd_codec (reader s)) (rd_buffer (reader s)) = (Ok None, rest) ->
    rd_input (reader s) = c :: cs ->
    exists s', reader s' = received_chunk (with_buffer rest (reader s)) /\
      poll_next s = poll_next s';
  next_wait s rest :
    decode (rd_codec (reader s)) (rd_buffer (reader s)) = (Ok None, rest) ->
    rd_input (reader s) = [] -> rd_eof (reader s) = false ->
    (poll_next s).1 = Pending /\ reader (poll_next s).2 = with_buffer rest (reader s);
  (* the transport has ended: between two frames, or within one *)
  next_end s :
    decode (rd_codec (reader s)) (rd_buffer (reader s)) = (Ok None, []) ->
    rd_input (reader s) = [] -> rd_eof (reader s) = true ->
    (poll_next s).1 = Ready None;
  next_cut s rest :
    decode (rd_codec (reader s)) (rd_buffer (reader s)) = (Ok None, rest) ->
    rest <> [] -> rd_input (reader s) = [] -> rd_eof (reader s) = true ->
    exists e, (poll_next s).1 = Ready (Some (Err (Io e)));
  deliver_reader c eof s :
    rd_eof (reader s) = false ->
    reader (deliver c eof s)
    = mkReader (rd_codec (reader s)) (rd_buffer (reader s)) (rd_input (reader s) ++ [c]) eof;
  start_send_writer f k :
    wr_slot (writer k) = None ->
    writer (start_send f k)
    = mkWriter (wr_codec (writer k)) (Some f) (wr_out (writer k));
  poll_send_writer k : sends (writer k) (poll_send k).1 (writer (poll_send k).2);
}.

(** The reference transport; its writing half may be stalled (nobody reads at the
    other end). *)
Fixpoint next_ref (codec : Codec) (buf : bytes) (input : list bytes) (eof : bool)
    : poll (option (Result Frame)) * Reader :=
  match decode codec buf with
  | (Ok (Some f), rest) => (Ready (Some (Ok f)), mkReader codec rest input eof)
  | (Err e, rest) => (Ready (Some (Err e)), mkReader codec rest input eof)
  | (Panic, rest) => (Ready (Some Panic), mkReader codec rest input eof)
  | (Ok None, rest) =>
      match input with
      | c :: cs => next_ref codec (rest ++ c) cs eof
      | [] =>
          (if negb eof then Pending
           else if bool_decide (rest = []) then Ready None
           else Ready (Some (Err (Io (mkIoError (OtherKind 0)
                                        "bytes remaining on stream")))),
           mkReader codec rest [] eof)
      end
  end.

Lemma next_ref_unfold codec buf input eof :
  next_ref codec buf input eof =
  match decode codec buf with
  | (Ok (Some f), rest) => (Ready (Some (Ok f)), mkReader codec rest input eof)
  | (Err e, rest) => (Ready (Some (Err e)), mkReader codec rest input eof)
  | (Panic, rest) => (Ready (Some Panic), mkReader codec rest input eof)
  | (Ok None, rest) =>
      match input with
      | c :: cs => next_ref codec (rest ++ c) cs eof
      | [] =>
          (if negb eof then Pending
           else if bool_decide (rest = []) then Ready None
           else Ready (Some (Err (Io (mkIoError (OtherKind 0)
                                        "bytes remaining on stream")))),
           mkReader codec rest [] eof)
      end
  end.
Proof. by destruct input. Qed.

Definition send_ref (w : Writer) : poll (Result unit) * Writer :=
  match wr_slot w with
  | None => (Ready (Ok tt), w)
  | Some f =>
      let '(r, dst) := encode (wr_codec w) f (wr_out w) in
      (Ready r, mkWriter (wr_codec w) None dst)
  end.

#[export] Instance framed_ref : FramedCrate := {|
  source := Reader;
  poll_next s := next_ref (rd_codec s) (rd_buffer s) (rd_input s) (rd_eof s);
  deliver c eof s :=
    if rd_eof s then s else mkReader (rd_codec s) (rd_buffer s) (rd_input s ++ [c]) eof;
  sink := Writer * bool;
  start_send f k := (mkWriter (wr_codec k.1) (Some f) (wr_out k.1), k.2);
  poll_send k :=
    if k.2 then (Pending, k) else let '(r, w) := send_ref k.1 in (r, (w, false));
|}.

Lemma encode_no_panic codec f dst : (encode codec f dst).1 <> Panic.
Proof.
  unfold encode. assert (Hv : validate f (codec_config codec) <> Panic).
  { unfold validate, validate_stream_id. repeat (split_goal_match; try done). }
  destruct (validate f (codec_config codec)); try done.
  repeat (split_goal_match; simpl; try done).
Qed.

Lemma send_ref_sends w : sends w (send_ref w).1 (send_ref w).2.
Proof.
  unfold send_ref. destruct (wr_slot w) as [f|] eqn:Hf; [|by apply sends_flushed].
  pose proof (encode_no_panic (wr_codec w) f (wr_out w)) as Hp.
  destruct (encode _ _ _) as [[[]|e|] dst] eqn:He; simpl in *; try done.
  - apply (sends_encoded w f); auto.
  - by apply (sends_refused w f).
Qed.

#[export] Instance framed_ref_laws : FramedLaws framed_ref.
Proof.
  refine {| reader (s : @source framed_ref) := s;
            writer (k : @sink framed_ref) := k.1 |}; simpl.
  - intros s f rest H. by rewrite next_ref_unfold, H.
  - intros s e rest H. by rewrite next_ref_unfold, H.
  - intros s c cs rest H Hi. eexists. split; [done|].
    rewrite next_ref_unfold, H. unfold received_chunk. simpl. rewrite Hi. done.
  - intros s rest H Hi He. rewrite next_ref_unfold, H, Hi, He. simpl.
    unfold with_buffer. by rewrite Hi, He.
  - intros s H Hi He. by rewrite next_ref_unfold, H, Hi, He.
  - intros s rest H Hr Hi He. rewrite next_ref_unfold, H, Hi, He. simpl.
    rewrite bool_decide_false by done. eauto.
  - by intros c eof s ->.
  - done.
  - intros [w [|]]; simpl; [apply sends_wait|].
    pose proof (send_ref_sends w) as Hs. by destruct (send_ref w).
Defined.
End framed.
