(* ===== verification/SessionState.v ===== *)
(** * The state shared by a session and its streams: [src/src/session.rs], [SessionState]

    Every field of [SessionState] is behind an [Arc], and [Clone] copies the [Arc]s:
    all clones are the same cells, so one record per session models them.  Each
    operation is one atomic access (or two in a row, as in the code). *)

From S2P Require Import Prelude Crates.

Section session_state.
Context {N : NotifyCrate}.

Record SessionState : Type := mkSessionState {
  die : notify;
  closed : bool;
  tokens : Z;
  tokens_returned : notify;
  data_received : bool;
}.

Definition session_state_new (buffer_size : Z) : SessionState := {|
  die := notify_new;
  closed := false;
  tokens := as_i64 buffer_size;
  tokens_returned := notify_new;
  data_received := true;
|}.

Definition is_closed (s : SessionState) : bool := closed s.

Definition close_notifier (s : SessionState) : notify := die s.

(** [closed.swap(true)], then [notify_waiters] if it was open. *)
Definition state_close (s : SessionState) : SessionState :=
  if negb (closed s) then
    mkSessionState (notify_waiters (die s)) true (tokens s) (tokens_returned s)
      (data_received s)
  else s.

Definition return_tokens (count : Z) (s : SessionState) : SessionState :=
  mkSessionState (die s) (closed s) (as_i64 (tokens s + as_i64 count))
    (notify_waiters (tokens_returned s)) (data_received s).

Definition get_tokens (s : SessionState) : Z := tokens s.

Definition take_tokens (count : Z) (s : SessionState) : Z * SessionState :=
  let s' := mkSessionState (die s) (closed s) (as_i64 (tokens s - as_i64 count))
              (tokens_returned s) (data_received s) in
  (get_tokens s', s').

Definition tokens_returned_notifier (s : SessionState) : notify := tokens_returned s.

Definition mark_data_received (s : SessionState) : SessionState :=
  mkSessionState (die s) (closed s) (tokens s) (tokens_returned s) true.

(** [data_received.swap(false)]: the previous value. *)
Definition check_and_reset_data_received (s : SessionState) : bool * SessionState :=
  (data_received s,
   mkSessionState (die s) (closed s) (tokens s) (tokens_returned s) false).

(** ** Lemmas *)
Lemma state_close_closed s : closed (state_close s) = true.
Proof. unfold state_close. by destruct (closed s) eqn:E. Qed.

Lemma state_close_idempotent s : state_close (state_close s) = state_close s.
Proof. unfold state_close at 1. by rewrite state_close_closed. Qed.

Lemma state_close_tokens s : tokens (state_close s) = tokens s.
Proof. unfold state_close. by destruct (closed s). Qed.

(** Returning in two parts or at once leaves the same count. *)
Lemma return_tokens_tokens n s : tokens (return_tokens n s) = as_i64 (tokens s + n).
Proof. simpl. apply as_i64_add_r. Qed.

End session_state.

#[export] Hint Resolve state_close_closed : smux.
