(* ===== verification/Stream.v ===== *)
(** * Streams: [src/src/stream.rs]

    A [Stream] is the user's handle: it owns its two close flags and the unread part
    of the last chunk, and shares with the session the outgoing frame channel, the
    session state and its data channel.  The shared objects are in [Shared]: the data
    channels are a store indexed by a channel number, whose sending end is held by the
    session ([StreamState]) and whose receiving end is held by the stream.

    [is_read_closed] and [is_write_closed] are created by [Stream::new] with
    [Arc::new] and never cloned, so they are fields of the stream; the
    [is_read_closed] cell of the session's [StreamState] is a different cell. *)

From stdpp Require Import strings.
From S2P Require Import Prelude Crates Errors Config Command Frame SessionState.

Section stream.
Context {B : BytesCrate} {F : FlumeCrate} {N : NotifyCrate} {R : ReadBufCrate}.

Record Shared : Type := mkShared {
  sh_state : SessionState;
  sh_frames : channel Frame;
  sh_data : gmap nat (channel bytes);
  sh_next : nat;
}.

Record Stream : Type := mkStream {
  st_stream_id : Z;
  st_data_rx : nat;
  st_current_chunk : option bytes;
  st_is_read_closed : bool;
  st_is_write_closed : bool;
  st_config : Config;
}.

(** Field updates. *)
Definition set_state (s : SessionState) (sh : Shared) : Shared :=
  mkShared s (sh_frames sh) (sh_data sh) (sh_next sh).
Definition set_frames (c : channel Frame) (sh : Shared) : Shared :=
  mkShared (sh_state sh) c (sh_data sh) (sh_next sh).
Definition set_data_channel (k : nat) (c : channel bytes) (sh : Shared) : Shared :=
  mkShared (sh_state sh) (sh_frames sh) (<[k := c]> (sh_data sh)) (sh_next sh).
Definition set_chunk (c : option bytes) (st : Stream) : Stream :=
  mkStream (st_stream_id st) (st_data_rx st) c (st_is_read_closed st)
    (st_is_write_closed st) (st_config st).
Definition set_write_closed (st : Stream) : Stream :=
  mkStream (st_stream_id st) (st_data_rx st) (st_current_chunk st)
    (st_is_read_closed st) true (st_config st).

(** [flume::unbounded()] for a new stream. *)
Definition new_data_channel (sh : Shared) : nat * Shared :=
  (sh_next sh,
   mkShared (sh_state sh) (sh_frames sh) (<[sh_next sh := unbounded]> (sh_data sh))
     (S (sh_next sh))).

(** A channel by its number; the store never loses one. *)
Definition data_channel (k : nat) (sh : Shared) : channel bytes :=
  default unbounded (sh_data sh !! k).

Definition clone_frame_tx (sh : Shared) : Shared :=
  set_frames (sender_clone (sh_frames sh)) sh.

Definition stream_new (id : Z) (data_rx : nat) (config : Config) : Stream := {|
  st_stream_id := id;
  st_data_rx := data_rx;
  st_current_chunk := None;
  st_is_read_closed := false;
  st_is_write_closed := false;
  st_config := config;
|}.

Definition is_read_closed (st : Stream) : bool := st_is_read_closed st.
Definition is_write_closed (st : Stream) : bool := st_is_write_closed st.
Definition stream_is_closed (st : Stream) : bool :=
  is_read_closed st && is_write_closed st.

Definition session_closed_error : IoError := mkIoError BrokenPipe "Session is closed".
Definition write_closed_error : IoError :=
  mkIoError BrokenPipe "Stream is closed for writing".

(** ** [Stream::close]

    Before its first poll, or waiting in [send_async] for room. *)
Inductive CloseFuture : Type :=
| CloseStart
| CloseSending (fin : Frame)
| CloseDone.

Definition close_send (fin : Frame) (sh : Shared)
    : poll (Result unit) * CloseFuture * Shared :=
  let '(r, c) := send_async fin (sh_frames sh) in
  match r with
  | Pending => (Pending, CloseSending fin, set_frames c sh)
  | Ready (Ok _) => (Ready (Ok tt), CloseDone, set_frames c sh)
  | Ready (Err _) => (Ready (Err SessionClosed), CloseDone, set_frames c sh)
  | Ready Panic => (Ready Panic, CloseDone, set_frames c sh)
  end.

Definition close_poll (fut : CloseFuture) (st : Stream) (sh : Shared)
    : poll (Result unit) * CloseFuture * Stream * Shared :=
  match fut with
  | CloseStart =>
      if negb (st_is_write_closed st) then
        let fin_frame := new_fin 1 (st_stream_id st) in
        let '(r, fut, sh) := close_send fin_frame sh in
        (r, fut, set_write_closed st, sh)
      else (Ready (Ok tt), CloseDone, st, sh)
  | CloseSending fin =>
      let '(r, fut, sh) := close_send fin sh in (r, fut, st, sh)
  | CloseDone => (Ready Panic, CloseDone, st, sh)
  end.

(** ** [AsyncRead]

    A poll returns its result, whether it woke the task's own waker, the caller's
    buffer, the stream and the shared state. *)
Record ReadPoll : Type := mkReadPoll {
  rp_result : poll (result IoError unit);
  rp_woken : bool;
  rp_buf : read_buf;
  rp_stream : Stream;
  rp_shared : Shared;
}.

(** [chunk.split_to(to_copy)], [buf.put_slice], [return_tokens(to_copy)]. *)
Definition copy_out (to_copy : Z) (chunk : bytes) (buf : read_buf) (sh : Shared)
    : option (bytes * read_buf * Shared) :=
  match split_to to_copy chunk with
  | None => None
  | Some (data, chunk) =>
      match rb_put_slice data buf with
      | None => None
      | Some buf => Some (chunk, buf, set_state (return_tokens to_copy (sh_state sh)) sh)
      end
  end.

(** The second half of [poll_read]: receive a chunk from the session. *)
Definition poll_read_channel (st : Stream) (sh : Shared) (buf : read_buf) : ReadPoll :=
  let '(r, c) := try_recv (data_channel (st_data_rx st) sh) in
  let sh := set_data_channel (st_data_rx st) c sh in
  match r with
  | Ok chunk =>
      let to_copy := Z.min (blen chunk) (remaining buf) in
      if to_copy >? 0 then
        match copy_out to_copy chunk buf sh with
        | None => mkReadPoll (Ready Panic) false buf st sh
        | Some (chunk, buf, sh) =>
            let st := if bool_decide (chunk = []) then st else set_chunk (Some chunk) st in
            mkReadPoll (Ready (Ok tt)) false buf st sh
        end
      else mkReadPoll (Ready (Ok tt)) false buf (set_chunk (Some chunk) st) sh
  | Err TryRecvDisconnected => mkReadPoll (Ready (Ok tt)) false buf st sh
  | Err TryRecvEmpty =>
      if st_is_read_closed st then mkReadPoll (Ready (Ok tt)) false buf st sh
      else mkReadPoll Pending true buf st sh
  | Panic => mkReadPoll (Ready Panic) false buf st sh
  end.

Definition poll_read (st : Stream) (sh : Shared) (buf : read_buf) : ReadPoll :=
  if st_is_read_closed st then mkReadPoll (Ready (Ok tt)) false buf st sh
  else if is_closed (sh_state sh) then
    mkReadPoll (Ready (Err session_closed_error)) false buf st sh
  else
    match st_current_chunk st with
    | Some chunk =>
        let to_copy := Z.min (blen chunk) (remaining buf) in
        if to_copy >? 0 then
          match copy_out to_copy chunk buf sh with
          | None => mkReadPoll (Ready Panic) false buf st sh
          | Some (chunk, buf, sh) =>
              let st := set_chunk (if bool_decide (chunk = []) then None else Some chunk) st in
              mkReadPoll (Ready (Ok tt)) false buf st sh
          end
        else poll_read_channel st sh buf
    | None => poll_read_channel st sh buf
    end.

(** ** [AsyncWrite] *)
Record WritePoll (A : Type) : Type := mkWritePoll {
  wp_result : poll (result IoError A);
  wp_woken : bool;
  wp_stream : Stream;
  wp_shared : Shared;
}.
#[global] Arguments mkWritePoll {A} _ _ _ _.
#[global] Arguments wp_result {A} _.
#[global] Arguments wp_woken {A} _.
#[global] Arguments wp_stream {A} _.
#[global] Arguments wp_shared {A} _.

Definition poll_write (st : Stream) (sh : Shared) (buf : bytes) : WritePoll Z :=
  if is_closed (sh_state sh) then
    mkWritePoll (Ready (Err session_closed_error)) false st sh
  else if st_is_write_closed st then
    mkWritePoll (Ready (Err write_closed_error)) false st sh
  else if bool_decide (buf = []) then mkWritePoll (Ready (Ok 0)) false st sh
  else
    let max_frame_size := max_frame_size (st_config st) in
    let max_payload_size := saturating_sub max_frame_size HEADER_SIZE in
    let chunk_size := Z.min (blen buf) max_payload_size in
    let data := copy_from_slice (take (Z.to_nat chunk_size) buf) in
    let psh_frame := new_psh 1 (st_stream_id st) data in
    let '(r, c) := try_send psh_frame (sh_frames sh) in
    let sh := set_frames c sh in
    match r with
    | Ok _ => mkWritePoll (Ready (Ok chunk_size)) false st sh
    | Err TrySendFull => mkWritePoll Pending true st sh
    | Err TrySendDisconnected =>
        mkWritePoll (Ready (Err session_closed_error)) false st sh
    | Panic => mkWritePoll (Ready Panic) false st sh
    end.

Definition poll_flush (st : Stream) (sh : Shared) : WritePoll unit :=
  mkWritePoll (Ready (Ok tt)) false st sh.

Definition poll_shutdown (st : Stream) (sh : Shared) : WritePoll unit :=
  if st_is_write_closed st then mkWritePoll (Ready (Ok tt)) false st sh
  else
    let fin_frame := new_fin 1 (st_stream_id st) in
    let '(r, c) := try_send fin_frame (sh_frames sh) in
    let sh := set_frames c sh in
    match r with
    | Ok _ => mkWritePoll (Ready (Ok tt)) false (set_write_closed st) sh
    | Err TrySendFull => mkWritePoll Pending true st sh
    | Err TrySendDisconnected =>
        mkWritePoll (Ready (Ok tt)) false (set_write_closed st) sh
    | Panic => mkWritePoll (Ready Panic) false st sh
    end.

(** ** [Drop]

    The FIN of the [Drop] implementation, then the fields: the clone of the frame
    sender and the data receiver go away. *)
Definition stream_drop (st : Stream) (sh : Shared) : Shared :=
  let sh :=
    if negb (st_is_write_closed st) then
      let fin_frame := new_fin 1 (st_stream_id st) in
      let '(_, c) := try_send fin_frame (sh_frames sh) in
      set_frames c sh
    else sh in
  let sh := set_frames (sender_drop (sh_frames sh)) sh in
  set_data_channel (st_data_rx st)
    (receiver_drop (data_channel (st_data_rx st) sh)) sh.
End stream.
