(* ===== verification/StreamSpec.v ===== *)
(** * What a stream guarantees

    Reads deliver the bytes of the stream in order, without loss and up to the end of
    the stream; writes hand the longest prefix that fits a frame to the session; FIN
    is the last frame of a stream and is sent at most once. *)

From stdpp Require Import strings.
From S2P Require Import Prelude Crates Errors Config Command Frame Codec SessionState Stream.

Section stream_spec.
Context {B : BytesCrate} {BL : BytesLaws B}.
Context {F : FlumeCrate} {FL : FlumeLaws F}.
Context {N : NotifyCrate} {NL : NotifyLaws N}.
Context {R : ReadBufCrate} {RL : ReadBufLaws R}.

(** ** The shared store *)
Lemma data_channel_set k c sh : data_channel k (set_data_channel k c sh) = c.
Proof. unfold data_channel. simpl. by rewrite lookup_insert_eq. Qed.

Lemma data_channel_set_ne k k' c sh :
  k <> k' -> data_channel k' (set_data_channel k c sh) = data_channel k' sh.
Proof. intros H. unfold data_channel. simpl. by rewrite lookup_insert_ne. Qed.

Lemma data_channel_set_state k s sh : data_channel k (set_state s sh) = data_channel k sh.
Proof. done. Qed.

(** ** What a stream still has to read *)
Definition pending_chunks (st : Stream) (sh : Shared) : list bytes :=
  queue (view (data_channel (st_data_rx st) sh)).

Definition unread (st : Stream) (sh : Shared) : bytes :=
  default [] (st_current_chunk st) ++ concat (pending_chunks st sh).

Definition peer_open (st : Stream) (sh : Shared) : Prop :=
  senders (view (data_channel (st_data_rx st) sh)) <> 0%nat.

(** No empty chunk is ever buffered. *)
Record readable (st : Stream) (sh : Shared) : Prop := {
  readable_chunk : st_current_chunk st <> Some [];
  readable_queue : Forall (fun c => c <> []) (pending_chunks st sh);
}.

(** The stream can be read: the session is open and the (never set) local flag is
    off. *)
Definition read_open (st : Stream) (sh : Shared) : Prop :=
  st_is_read_closed st = false /\ closed (sh_state sh) = false.

(** ** Copying out of a chunk *)
Lemma copy_out_spec n chunk buf sh :
  0 <= n -> n <= blen chunk -> n <= remaining buf ->
  exists buf', copy_out n chunk buf sh
    = Some (drop (Z.to_nat n) chunk, buf',
            set_state (return_tokens n (sh_state sh)) sh) /\
    filled buf' = filled buf ++ take (Z.to_nat n) chunk /\
    remaining buf' = remaining buf - n.
Proof.
  intros H0 Hc Hb. unfold copy_out. rewrite split_to_spec.
  rewrite !(proj2 (Z.leb_le _ _)) by lia. simpl.
  assert (Hlen : blen (take (Z.to_nat n) chunk) = n) by (by apply blen_take).
  destruct (rb_put_slice_fits (take (Z.to_nat n) chunk) buf) as (buf' & -> & Hf & Hr);
    [lia|].
  exists buf'. rewrite Hlen in Hr. done.
Qed.

(** The result of a read that delivers [d]. *)
Record delivers (st : Stream) (sh : Shared) (buf : read_buf) (d : bytes)
    (p : ReadPoll) : Prop := {
  del_result : rp_result p = Ready (Ok tt);
  del_filled : filled (rp_buf p) = filled buf ++ d;
  del_remaining : remaining (rp_buf p) = remaining buf - blen d;
  del_unread : unread st sh = d ++ unread (rp_stream p) (rp_shared p);
  del_tokens :
    tokens (sh_state (rp_shared p)) = as_i64 (tokens (sh_state sh) + blen d);
  del_frames : sh_frames (rp_shared p) = sh_frames sh;
  del_readable : readable (rp_stream p) (rp_shared p);
  del_open : read_open (rp_stream p) (rp_shared p);
  del_peer : peer_open (rp_stream p) (rp_shared p) <-> peer_open st sh;
  del_rx : st_data_rx (rp_stream p) = st_data_rx st;
}.

Lemma drop_nonempty_chunk n (c : bytes) :
  (if bool_decide (drop n c = []) then None else Some (drop n c)) <> Some [] /\
  default [] (if bool_decide (drop n c = []) then None else Some (drop n c)) = drop n c.
Proof. case_bool_decide as E; [by rewrite E|]. split; [congruence|done]. Qed.

Lemma poll_read_chunk st sh buf c :
  read_open st sh -> readable st sh -> 0 < remaining buf ->
  st_current_chunk st = Some c ->
  let n := Z.min (blen c) (remaining buf) in
  0 < n /\ delivers st sh buf (take (Z.to_nat n) c) (poll_read st sh buf).
Proof.
  intros [Hr Hc] [Hne Hq] Hbuf Hchunk n. unfold poll_read.
  rewrite Hr. unfold is_closed. rewrite Hc, Hchunk.
  assert (0 < blen c).
  { destruct c; [by rewrite Hchunk in Hne|]. unfold blen. simpl. lia. }
  assert (Hn : 0 < n) by lia. split; [done|]. fold n.
  rewrite Z.gtb_ltb, (proj2 (Z.ltb_lt _ _) Hn).
  destruct (copy_out_spec n c buf sh) as (buf' & -> & Hf & Hrem); [lia..|].
  destruct (drop_nonempty_chunk (Z.to_nat n) c) as [Hd Hdef].
  split; simpl; try done.
  - by rewrite blen_take by lia.
  - unfold unread, pending_chunks. simpl. rewrite Hchunk, data_channel_set_state, Hdef.
    simpl. by rewrite app_assoc, take_drop.
  - rewrite blen_take by lia. by rewrite as_i64_add_r.
Qed.

Lemma poll_read_no_chunk st sh buf :
  read_open st sh -> st_current_chunk st = None ->
  poll_read st sh buf = poll_read_channel st sh buf.
Proof. intros [Hr Hc] Hn. unfold poll_read, is_closed. by rewrite Hr, Hc, Hn. Qed.

Lemma poll_read_queue st sh buf c q :
  read_open st sh -> readable st sh -> 0 < remaining buf ->
  st_current_chunk st = None -> pending_chunks st sh = c :: q ->
  let n := Z.min (blen c) (remaining buf) in
  0 < n /\ delivers st sh buf (take (Z.to_nat n) c) (poll_read st sh buf).
Proof.
  intros Hopen [Hne Hq] Hbuf Hchunk Hpend n. rewrite poll_read_no_chunk by done.
  unfold poll_read_channel. destruct Hopen as [Hr Hc].
  destruct (try_recv_ok _ _ _ _ Hpend) as [Ht Hv].
  destruct (try_recv _) as [r ch] eqn:E. simpl in Ht, Hv. subst r.
  rewrite Hpend in Hq. apply Forall_cons in Hq as [Hc0 Hq].
  assert (0 < blen c) by (destruct c; [done|]; unfold blen; simpl; lia).
  assert (Hn : 0 < n) by lia. split; [done|]. fold n.
  rewrite Z.gtb_ltb, (proj2 (Z.ltb_lt _ _) Hn).
  set (sh' := set_data_channel (st_data_rx st) ch sh).
  destruct (copy_out_spec n c buf sh') as (buf' & -> & Hf & Hrem); [lia..|].
  assert (Hpend' : forall s st', st_data_rx st' = st_data_rx st ->
            pending_chunks st' (set_state s sh') = q).
  { intros s st' Hrx. unfold pending_chunks. rewrite Hrx, data_channel_set_state.
    unfold sh'. by rewrite data_channel_set, Hv. }
  assert (Hrx' : st_data_rx (if bool_decide (drop (Z.to_nat n) c = []) then st
            else set_chunk (Some (drop (Z.to_nat n) c)) st) = st_data_rx st)
    by (by case_bool_decide).
  split; simpl; try done.
  - by rewrite blen_take by lia.
  - unfold unread. rewrite Hchunk, Hpend, Hpend' by done. simpl.
    rewrite <- (take_drop (Z.to_nat n) c) at 1. rewrite <- app_assoc. f_equal.
    case_bool_decide as Ed; [by rewrite Ed, Hchunk|done].
  - rewrite blen_take by lia. by rewrite as_i64_add_r.
  - split; [case_bool_decide; [by rewrite Hchunk|simpl; congruence]|].
    by rewrite Hpend'.
  - split; simpl; [by case_bool_decide|done].
  - unfold peer_open. rewrite Hrx', data_channel_set_state. unfold sh'.
    by rewrite data_channel_set, Hv.
Qed.

Lemma poll_read_empty st sh buf :
  read_open st sh -> st_current_chunk st = None -> pending_chunks st sh = [] ->
  peer_open st sh ->
  let p := poll_read st sh buf in
  rp_result p = Pending /\ rp_woken p = true /\ rp_buf p = buf /\ rp_stream p = st /\
  sh_state (rp_shared p) = sh_state sh /\
  view (data_channel (st_data_rx st) (rp_shared p))
    = view (data_channel (st_data_rx st) sh).
Proof.
  intros Hopen Hchunk Hpend Hpeer. cbv zeta. rewrite poll_read_no_chunk by done.
  unfold poll_read_channel. destruct Hopen as [Hr Hc].
  destruct (try_recv_empty _ _ Hpend Hpeer) as [Ht Hv].
  destruct (try_recv _) as [r ch] eqn:E. simpl in Ht, Hv. subst r. rewrite Hr. simpl.
  by rewrite data_channel_set.
Qed.

Lemma poll_read_eof st sh buf :
  read_open st sh -> st_current_chunk st = None -> pending_chunks st sh = [] ->
  ~ peer_open st sh ->
  let p := poll_read st sh buf in
  rp_result p = Ready (Ok tt) /\ rp_buf p = buf /\ rp_stream p = st /\
  sh_state (rp_shared p) = sh_state sh.
Proof.
  intros Hopen Hchunk Hpend Hpeer. cbv zeta. rewrite poll_read_no_chunk by done.
  unfold poll_read_channel.
  assert (Hs : senders (view (data_channel (st_data_rx st) sh)) = 0%nat)
    by (unfold peer_open in Hpeer; lia).
  destruct (try_recv_disconnected _ _ Hpend Hs) as [Ht Hv].
  destruct (try_recv _) as [r ch] eqn:E. simpl in Ht, Hv. by subst r.
Qed.

(** The data of a read with room in the buffer is the non-empty prefix of the
    unread bytes, at most one chunk of it. *)
Lemma poll_read_delivers st sh buf :
  read_open st sh -> readable st sh -> 0 < remaining buf -> unread st sh <> [] ->
  exists d, d <> [] /\ blen d <= remaining buf /\
    delivers st sh buf d (poll_read st sh buf).
Proof.
  intros Hopen Hread Hbuf Hun.
  assert (Hgo : forall c n, n = Z.min (blen c) (remaining buf) -> 0 < n ->
            take (Z.to_nat n) c <> [] /\ blen (take (Z.to_nat n) c) <= remaining buf).
  { intros c n -> Hn. rewrite blen_take by lia. split; [|lia].
    intros Ht. apply (f_equal blen) in Ht. rewrite blen_take, blen_nil in Ht; lia. }
  destruct (st_current_chunk st) as [c|] eqn:Hc.
  - destruct (poll_read_chunk st sh buf c) as [Hn Hd]; [done..|].
    destruct (Hgo c _ eq_refl Hn). eauto.
  - destruct (pending_chunks st sh) as [|c q] eqn:Hp.
    { unfold unread in Hun. by rewrite Hc, Hp in Hun. }
    destruct (poll_read_queue st sh buf c q) as [Hn Hd]; [done..|].
    destruct (Hgo c _ eq_refl Hn). eauto.
Qed.

Lemma unread_nil st sh :
  readable st sh -> unread st sh = [] ->
  st_current_chunk st = None /\ pending_chunks st sh = [].
Proof.
  intros [Hne Hq] Hun. unfold unread in Hun. apply app_eq_nil in Hun as [Hc Hp].
  split.
  - destruct (st_current_chunk st); simpl in Hc; by subst.
  - destruct Hq; [done|]. by apply app_eq_nil in Hp as [? ?].
Qed.
End stream_spec.

(** ** Reading a stream with a sequence of buffers *)
Section reading.
Context {B : BytesCrate} {BL : BytesLaws B}.
Context {F : FlumeCrate} {FL : FlumeLaws F}.
Context {N : NotifyCrate} {NL : NotifyLaws N}.
Context {R : ReadBufCrate} {RL : ReadBufLaws R}.

(** Poll once with each buffer; the buffers come back as the polls leave them. *)
Fixpoint read_all (bufs : list read_buf) (st : Stream) (sh : Shared)
    : list read_buf * Stream * Shared :=
  match bufs with
  | [] => ([], st, sh)
  | buf :: bufs =>
      let p := poll_read st sh buf in
      let '(out, st', sh') := read_all bufs (rp_stream p) (rp_shared p) in
      (rp_buf p :: out, st', sh')
  end.

Definition fresh_buf (buf : read_buf) : Prop := filled buf = [] /\ 0 < remaining buf.

Definition received (bufs : list read_buf) : bytes := concat (map filled bufs).

Lemma poll_read_progress st sh buf :
  read_open st sh -> readable st sh -> fresh_buf buf ->
  let p := poll_read st sh buf in
  read_open (rp_stream p) (rp_shared p) /\ readable (rp_stream p) (rp_shared p) /\
  (peer_open (rp_stream p) (rp_shared p) <-> peer_open st sh) /\
  unread st sh = filled (rp_buf p) ++ unread (rp_stream p) (rp_shared p) /\
  (unread st sh <> [] -> filled (rp_buf p) <> []).
Proof.
  intros Hopen Hread [Hfill Hrem] p. subst p.
  destruct (decide (unread st sh = [])) as [Hun|Hun].
  - destruct (unread_nil _ _ Hread Hun) as [Hc Hp].
    set (p := poll_read st sh buf).
    assert (Hcase : rp_buf p = buf /\ rp_stream p = st /\
              sh_state (rp_shared p) = sh_state sh /\
              view (data_channel (st_data_rx st) (rp_shared p))
                = view (data_channel (st_data_rx st) sh)).
    { unfold p. rewrite poll_read_no_chunk by done. unfold poll_read_channel.
      destruct Hopen as [Hr _].
      destruct (decide (peer_open st sh)) as [Hpeer|Hpeer].
      - destruct (try_recv_empty _ _ Hp Hpeer) as [Ht Hv].
        destruct (try_recv _) as [r ch]. simpl in Ht, Hv. subst r. rewrite Hr. simpl.
        by rewrite data_channel_set.
      - assert (Hs : senders (view (data_channel (st_data_rx st) sh)) = 0%nat)
          by (unfold peer_open in Hpeer; lia).
        destruct (try_recv_disconnected _ _ Hp Hs) as [Ht Hv].
        destruct (try_recv _) as [r ch]. simpl in Ht, Hv. subst r. simpl.
        by rewrite data_channel_set. }
    destruct Hcase as (-> & -> & Hs & Hv).
    unfold read_open, peer_open, unread, pending_chunks. rewrite Hs, Hv, Hfill.
    destruct Hread as [Hne Hq]. repeat split; try apply Hopen; try done.
    unfold pending_chunks. by rewrite Hv.
  - destruct (poll_read_delivers st sh buf Hopen Hread Hrem Hun) as (d & Hd & _ & D).
    destruct D. rewrite del_filled0, Hfill. repeat split; try apply del_open0;
      try apply del_readable0; try apply del_peer0; done.
Qed.

Lemma read_all_spec bufs st sh :
  Forall fresh_buf bufs -> read_open st sh -> readable st sh ->
  let '(out, st', sh') := read_all bufs st sh in
  unread st sh = received out ++ unread st' sh' /\
  read_open st' sh' /\ readable st' sh' /\ (peer_open st' sh' <-> peer_open st sh) /\
  (unread st' sh' = [] \/ Z.of_nat (length bufs) <= blen (received out)).
Proof.
  intros Hbufs. revert st sh. induction Hbufs as [|buf bufs Hbuf _ IH];
    intros st sh Hopen Hread.
  { simpl. repeat split; try done; try apply Hopen; try apply Hread. by right. }
  simpl. destruct (poll_read_progress st sh buf Hopen Hread Hbuf)
    as (Ho & Hr & Hp & Hu & Hne).
  specialize (IH _ _ Ho Hr).
  destruct (read_all bufs _ _) as [[out st'] sh'] eqn:E.
  destruct IH as (Hu' & Ho' & Hr' & Hp' & Hend).
  rewrite Hu, Hu'. unfold received in *. simpl. rewrite app_assoc.
  do 4 (split; [done || by rewrite Hp'|]).
  destruct Hend as [Hend|Hend]; [by left|].
  destruct (decide (unread st sh = [])) as [Hun|Hun].
  - left. rewrite Hun in Hu. symmetry in Hu. apply app_eq_nil in Hu as [_ Hu].
    rewrite Hu in Hu'. symmetry in Hu'. by apply app_eq_nil in Hu' as [_ ?].
  - right. rewrite blen_app. specialize (Hne Hun).
    assert (0 < blen (filled (rp_buf (poll_read st sh buf)))).
    { destruct (filled _); [done|]. unfold blen. simpl. lia. }
    lia.
Qed.

(** With at least as many reads as bytes, everything is delivered. *)
Lemma read_all_everything bufs st sh :
  Forall fresh_buf bufs -> read_open st sh -> readable st sh ->
  blen (unread st sh) <= Z.of_nat (length bufs) ->
  received (read_all bufs st sh).1.1 = unread st sh.
Proof.
  intros Hbufs Hopen Hread Hlen. pose proof (read_all_spec bufs st sh Hbufs Hopen Hread) as Hr.
  destruct (read_all bufs st sh) as [[out st'] sh']. destruct Hr as (Hu & _ & _ & _ & Hend).
  cbn [fst]. destruct Hend as [Hend|Hend]; [by rewrite Hu, Hend, app_nil_r|].
  rewrite Hu, blen_app in Hlen. pose proof (blen_nonneg (unread st' sh')).
  by rewrite Hu, (blen_zero (unread st' sh')), app_nil_r by lia.
Qed.
End reading.

(** ** Writing *)
Section writing.
Context {B : BytesCrate} {BL : BytesLaws B}.
Context {F : FlumeCrate} {FL : FlumeLaws F}.
Context {N : NotifyCrate} {R : ReadBufCrate}.

(** What [poll_write] puts in a frame. *)
Definition write_size (st : Stream) (buf : bytes) : Z :=
  Z.min (blen buf) (saturating_sub (max_frame_size (st_config st)) HEADER_SIZE).

Definition write_frame (st : Stream) (buf : bytes) : Frame :=
  new_psh 1 (st_stream_id st) (take (Z.to_nat (write_size st buf)) buf).

Lemma write_size_range st buf : 0 <= write_size st buf <= blen buf.
Proof. unfold write_size, saturating_sub. pose proof (blen_nonneg buf). lia. Qed.

Definition write_open (st : Stream) (sh : Shared) : Prop :=
  closed (sh_state sh) = false /\ st_is_write_closed st = false.

(** Past its guards, [poll_write] is one [try_send]. *)
Lemma poll_write_send st sh buf :
  write_open st sh -> buf <> [] ->
  poll_write st sh buf =
    let '(r, c) := try_send (write_frame st buf) (sh_frames sh) in
    let sh := set_frames c sh in
    match r with
    | Ok _ => mkWritePoll (Ready (Ok (write_size st buf))) false st sh
    | Err TrySendFull => mkWritePoll Pending true st sh
    | Err TrySendDisconnected =>
        mkWritePoll (Ready (Err session_closed_error)) false st sh
    | Panic => mkWritePoll (Ready Panic) false st sh
    end.
Proof.
  intros [Hc Hw] Hb. unfold poll_write, is_closed. rewrite Hc, Hw.
  rewrite bool_decide_eq_false_2 by done. by rewrite copy_from_slice_spec.
Qed.

(** A written frame is one the codec carries. *)
Lemma write_frame_encodable st buf :
  buf <> [] -> is_u32 (st_stream_id st) -> st_stream_id st <> 0 ->
  HEADER_SIZE < max_frame_size (st_config st) <= HEADER_SIZE + u16_MAX ->
  0 < write_size st buf /\
  encodable (max_frame_size (st_config st)) (write_frame st buf).
Proof.
  intros Hb Hi H0 Hm. pose proof (write_size_range st buf) as Hr.
  assert (0 < blen buf) by (destruct buf; [done|]; unfold blen; simpl; lia).
  assert (Hn : 0 < write_size st buf <= max_frame_size (st_config st) - HEADER_SIZE)
    by (unfold write_size, saturating_sub in *; lia).
  split; [lia|].
  assert (Hp : frame_payload (write_frame st buf)
               = take (Z.to_nat (write_size st buf)) buf) by done.
  split; [by split| |rewrite Hp, blen_take; lia|rewrite Hp, blen_take; lia].
  apply new_psh_valid; [done|done|rewrite blen_take; lia].
Qed.

(** A send either appends the frame or leaves the queue, when the channel is not a
    rendezvous. *)
Definition buffered {A} (c : channel A) : Prop :=
  match capacity (view c) with Some n => 1 <= n | None => True end.

Lemma has_room_or_full {A} (c : channel A) :
  buffered c -> has_room (view c) = true \/ surely_full (view c) = true.
Proof.
  unfold buffered, has_room, surely_full. destruct (capacity (view c)) as [n|]; [|auto].
  intros Hn. destruct (Z.ltb_spec (Z.of_nat (length (queue (view c)))) n); [by left|].
  right. apply andb_true_iff. split; apply Z.leb_le; lia.
Qed.

Lemma try_send_cases {A} (m : A) c :
  buffered c ->
  let v := view (try_send m c).2 in
  ((try_send m c).1 = Ok tt /\ v = enqueue m (view c)) \/
  ((try_send m c).1 = Err TrySendFull /\ v = view c) \/
  ((try_send m c).1 = Err TrySendDisconnected /\ v = view c).
Proof.
  intros Hb. cbv zeta. destruct (decide (receivers (view c) = 0%nat)) as [Hr|Hr].
  - pose proof (try_send_disconnected _ m c Hr). tauto.
  - destruct (has_room_or_full c Hb) as [H|H].
    + pose proof (try_send_ok _ m c Hr H). tauto.
    + pose proof (try_send_full _ m c Hr H). tauto.
Qed.

Lemma send_async_cases {A} (m : A) c :
  buffered c ->
  let v := view (send_async m c).2 in
  ((send_async m c).1 = Ready (Ok tt) /\ v = enqueue m (view c)) \/
  ((send_async m c).1 = Pending /\ v = view c) \/
  ((send_async m c).1 = Ready (Err tt) /\ v = view c).
Proof.
  intros Hb. cbv zeta. destruct (decide (receivers (view c) = 0%nat)) as [Hr|Hr].
  - pose proof (send_async_disconnected _ m c Hr). tauto.
  - destruct (has_room_or_full c Hb) as [H|H].
    + pose proof (send_async_ok _ m c Hr H). tauto.
    + pose proof (send_async_pending _ m c Hr H). tauto.
Qed.
End writing.

(** ** The frames a stream sends over its life

    A stream and its user: the user polls reads, writes and shutdown, starts, polls or
    drops the future of [close], and finally drops the stream; between two steps the
    rest of the session changes the shared state in any way.  A step is labelled with
    the frames it appends to the frame channel. *)
Section lifetime.
Context {B : BytesCrate} {BL : BytesLaws B}.
Context {F : FlumeCrate} {FL : FlumeLaws F}.
Context {N : NotifyCrate} {R : ReadBufCrate}.

Record Life : Type := mkLife {
  life_stream : Stream;
  life_close : option CloseFuture;
  life_dropped : bool;
  life_shared : Shared;
}.

(** The close future is kept while it is pending. *)
Definition keep_future (r : poll (Result unit)) (fut : CloseFuture) : option CloseFuture :=
  match r with Pending => Some fut | Ready _ => None end.

Inductive life_op : Life -> Life -> Prop :=
| life_read st sh buf :
    let p := poll_read st sh buf in
    life_op (mkLife st None false sh) (mkLife (rp_stream p) None false (rp_shared p))
| life_write st sh buf :
    let p := poll_write st sh buf in
    life_op (mkLife st None false sh) (mkLife (wp_stream p) None false (wp_shared p))
| life_shutdown st sh :
    let p := poll_shutdown st sh in
    life_op (mkLife st None false sh) (mkLife (wp_stream p) None false (wp_shared p))
| life_close_start st sh r fut st' sh' :
    close_poll CloseStart st sh = (r, fut, st', sh') ->
    life_op (mkLife st None false sh) (mkLife st' (keep_future r fut) false sh')
| life_close_poll st sh fut r fut' st' sh' :
    close_poll fut st sh = (r, fut', st', sh') ->
    life_op (mkLife st (Some fut) false sh) (mkLife st' (keep_future r fut') false sh')
| life_close_cancel st sh fut :
    life_op (mkLife st (Some fut) false sh) (mkLife st None false sh)
| life_drop st sh :
    life_op (mkLife st None false sh) (mkLife (set_write_closed st) None true
                                          (stream_drop st sh)).

Inductive life_step : Life -> list Frame -> Life -> Prop :=
| step_op s s' fs :
    buffered (sh_frames (life_shared s)) -> life_op s s' ->
    queue (view (sh_frames (life_shared s')))
      = queue (view (sh_frames (life_shared s))) ++ fs ->
    life_step s fs s'
| step_env st fut d sh sh' :
    life_step (mkLife st fut d sh) [] (mkLife st fut d sh').

Inductive life_trace (s : Life) : list Frame -> Life -> Prop :=
| trace_nil : life_trace s [] s
| trace_step s1 s2 tr fs :
    life_trace s tr s1 -> life_step s1 fs s2 -> life_trace s (tr ++ fs) s2.

(** ** The phases of a stream *)
Definition life_id (s : Life) : Z := st_stream_id (life_stream s).
Definition life_closed (s : Life) : bool := st_is_write_closed (life_stream s).

Definition is_data_frame (id : Z) (f : Frame) : Prop :=
  exists d, f = new_psh 1 id d.

(** A pending close waits to send the FIN of a stream already marked closed. *)
Definition close_ok (s : Life) : Prop :=
  match life_close s with
  | None => True
  | Some (CloseSending f) => f = new_fin 1 (life_id s) /\ life_closed s = true
  | Some _ => False
  end.

Inductive emits (s s' : Life) : list Frame -> Prop :=
| emits_nothing :
    (life_closed s = true -> life_closed s' = true) ->
    (life_close s = None -> life_closed s = true -> life_close s' = None) ->
    emits s s' []
| emits_data f :
    is_data_frame (life_id s) f -> life_closed s = false -> emits s s' [f]
| emits_fin :
    (life_closed s = false \/ life_close s <> None) ->
    life_closed s' = true -> life_close s' = None ->
    emits s s' [new_fin 1 (life_id s)].

Lemma poll_read_unwritten st sh buf :
  let p := poll_read st sh buf in
  sh_frames (rp_shared p) = sh_frames sh /\
  st_stream_id (rp_stream p) = st_stream_id st /\
  st_is_write_closed (rp_stream p) = st_is_write_closed st /\
  st_is_read_closed (rp_stream p) = st_is_read_closed st.
Proof.
  cbv zeta. unfold poll_read, poll_read_channel, copy_out.
  repeat (split_goal_match; simplify_eq; simpl; try done).
Qed.

Lemma close_send_cases fin sh :
  buffered (sh_frames sh) ->
  let '(r, fut, sh') := close_send fin sh in
  (fut = CloseDone /\ r = Ready (Ok tt) /\
   view (sh_frames sh') = enqueue fin (view (sh_frames sh))) \/
  (fut = CloseSending fin /\ r = Pending /\ view (sh_frames sh') = view (sh_frames sh)) \/
  (fut = CloseDone /\ r = Ready (Err SessionClosed) /\
   view (sh_frames sh') = view (sh_frames sh)).
Proof.
  intros Hb. unfold close_send.
  destruct (send_async_cases fin _ Hb) as [[Hr Hv]|[[Hr Hv]|[Hr Hv]]];
    destruct (send_async fin _) as [r c]; simpl in Hr, Hv; subst r; simpl; auto.
Qed.

Lemma queue_same {A} (v v' : ChanView A) fs :
  v' = v -> queue v' = queue v ++ fs -> fs = [].
Proof.
  intros -> H. rewrite <- (app_nil_r (queue v)) in H at 1. by apply app_inv_head in H.
Qed.

Lemma queue_enqueue {A} (v v' : ChanView A) m fs :
  v' = enqueue m v -> queue v' = queue v ++ fs -> fs = [m].
Proof. intros -> H. simpl in H. by apply app_inv_head in H. Qed.

Definition emits_well (s s' : Life) (fs : list Frame) : Prop :=
  emits s s' fs /\ close_ok s' /\ life_id s' = life_id s.

Lemma life_write_emits st sh buf fs :
  let p := poll_write st sh buf in
  let s := mkLife st None false sh in
  let s' := mkLife (wp_stream p) None false (wp_shared p) in
  buffered (sh_frames sh) ->
  queue (view (sh_frames (wp_shared p))) = queue (view (sh_frames sh)) ++ fs ->
  emits_well s s' fs.
Proof.
  intros p s s' Hb. subst p s s'.
  assert (Hnone : forall r w,
    queue (view (sh_frames sh)) = queue (view (sh_frames sh)) ++ fs ->
    poll_write st sh buf = mkWritePoll r w st sh ->
    emits_well (mkLife st None false sh)
      (mkLife (wp_stream (poll_write st sh buf)) None false
         (wp_shared (poll_write st sh buf))) fs).
  { intros r w Hq ->. rewrite (queue_same _ _ _ eq_refl Hq). by split; [constructor|]. }
  destruct (closed (sh_state sh)) eqn:Hc.
  { unfold poll_write at 1. unfold is_closed. rewrite Hc. intros Hq.
    eapply Hnone; [done|]. unfold poll_write, is_closed. by rewrite Hc. }
  destruct (st_is_write_closed st) eqn:Hw.
  { unfold poll_write at 1. unfold is_closed. rewrite Hc, Hw. intros Hq.
    eapply Hnone; [done|]. unfold poll_write, is_closed. by rewrite Hc, Hw. }
  destruct (decide (buf = [])) as [->|Hbuf].
  { unfold poll_write at 1. unfold is_closed. rewrite Hc, Hw. intros Hq.
    eapply Hnone; [done|]. unfold poll_write, is_closed. by rewrite Hc, Hw. }
  clear Hnone. rewrite poll_write_send by done.
  destruct (try_send_cases (write_frame st buf) _ Hb) as [[Hr Hv]|[[Hr Hv]|[Hr Hv]]];
    destruct (try_send _ _) as [r c]; simpl in Hr, Hv; subst r; simpl; intros Hq.
  - rewrite (queue_enqueue _ _ _ _ Hv Hq). split; [|done].
    apply emits_data; [by eexists|done].
  - rewrite (queue_same _ _ _ Hv Hq). by split; [constructor|].
  - rewrite (queue_same _ _ _ Hv Hq). by split; [constructor|].
Qed.

Lemma life_shutdown_emits st sh fs :
  let p := poll_shutdown st sh in
  let s := mkLife st None false sh in
  let s' := mkLife (wp_stream p) None false (wp_shared p) in
  buffered (sh_frames sh) ->
  queue (view (sh_frames (wp_shared p))) = queue (view (sh_frames sh)) ++ fs ->
  emits_well s s' fs.
Proof.
  intros p s s' Hb. subst p s s'. unfold poll_shutdown.
  destruct (st_is_write_closed st) eqn:Hw.
  { simpl. intros Hq. rewrite (queue_same _ _ _ eq_refl Hq). by split; [constructor|]. }
  destruct (try_send_cases (new_fin 1 (st_stream_id st)) _ Hb)
    as [[Hr Hv]|[[Hr Hv]|[Hr Hv]]];
    destruct (try_send _ _) as [r c]; simpl in Hr, Hv; subst r; simpl; intros Hq.
  - rewrite (queue_enqueue _ _ _ _ Hv Hq). split; [|done].
    apply (emits_fin (mkLife st None false sh)); simpl; auto.
  - rewrite (queue_same _ _ _ Hv Hq). by split; [constructor|].
  - rewrite (queue_same _ _ _ Hv Hq). by split; [constructor|].
Qed.

Lemma life_close_start_emits st sh r fut st' sh' fs :
  close_poll CloseStart st sh = (r, fut, st', sh') ->
  buffered (sh_frames sh) ->
  queue (view (sh_frames sh')) = queue (view (sh_frames sh)) ++ fs ->
  emits_well (mkLife st None false sh) (mkLife st' (keep_future r fut) false sh') fs.
Proof.
  unfold close_poll. destruct (st_is_write_closed st) eqn:Hw; simpl.
  { intros [= <- <- <- <-] Hb Hq. rewrite (queue_same _ _ _ eq_refl Hq).
    by split; [constructor|]. }
  intros Heq Hb Hq. pose proof (close_send_cases (new_fin 1 (st_stream_id st)) sh Hb) as Hs.
  destruct (close_send _ sh) as [[r0 fut0] sh0]. injection Heq as <- <- <- <-.
  destruct Hs as [(-> & -> & Hv)|[(-> & -> & Hv)|(-> & -> & Hv)]]; simpl.
  - rewrite (queue_enqueue _ _ _ _ Hv Hq). split; [|done].
    apply (emits_fin (mkLife st None false sh)); simpl; auto.
  - rewrite (queue_same _ _ _ Hv Hq). split; [|done].
    constructor; unfold life_closed; simpl; congruence.
  - rewrite (queue_same _ _ _ Hv Hq). split; [|done]. by constructor.
Qed.

Lemma life_close_poll_emits st sh fut r fut' st' sh' fs :
  close_ok (mkLife st (Some fut) false sh) ->
  close_poll fut st sh = (r, fut', st', sh') ->
  buffered (sh_frames sh) ->
  queue (view (sh_frames sh')) = queue (view (sh_frames sh)) ++ fs ->
  emits_well (mkLife st (Some fut) false sh) (mkLife st' (keep_future r fut') false sh') fs.
Proof.
  destruct fut as [|fin|]; simpl; try done.
  unfold close_ok; simpl. intros [-> Hw] Heq Hb Hq.
  pose proof (close_send_cases (new_fin 1 (st_stream_id st)) sh Hb) as Hs.
  unfold life_id in Heq. simpl in Heq.
  destruct (close_send _ sh) as [[r0 fut0] sh0]. injection Heq as <- <- <- <-.
  destruct Hs as [(-> & -> & Hv)|[(-> & -> & Hv)|(-> & -> & Hv)]]; simpl.
  - rewrite (queue_enqueue _ _ _ _ Hv Hq). split; [|done].
    by apply (emits_fin (mkLife st (Some _) false sh)); simpl; auto.
  - rewrite (queue_same _ _ _ Hv Hq). by split; [constructor|].
  - rewrite (queue_same _ _ _ Hv Hq). by split; [constructor|].
Qed.

Lemma stream_drop_frames st sh :
  queue (view (sh_frames (stream_drop st sh)))
  = queue (view (if st_is_write_closed st then sh_frames sh
                 else (try_send (new_fin 1 (st_stream_id st)) (sh_frames sh)).2)).
Proof.
  unfold stream_drop. destruct (st_is_write_closed st); simpl.
  - by rewrite sender_drop_view.
  - destruct (try_send _ _) as [r c]. simpl. by rewrite sender_drop_view.
Qed.

Lemma life_drop_emits st sh fs :
  buffered (sh_frames sh) ->
  queue (view (sh_frames (stream_drop st sh))) = queue (view (sh_frames sh)) ++ fs ->
  emits_well (mkLife st None false sh)
    (mkLife (set_write_closed st) None true (stream_drop st sh)) fs.
Proof.
  intros Hb. rewrite stream_drop_frames.
  destruct (st_is_write_closed st) eqn:Hw.
  { intros Hq. rewrite (queue_same _ _ _ eq_refl Hq). by split; [constructor|]. }
  destruct (try_send_cases (new_fin 1 (st_stream_id st)) _ Hb)
    as [[Hr Hv]|[[Hr Hv]|[Hr Hv]]]; intros Hq.
  - rewrite (queue_enqueue _ _ _ _ Hv Hq). split; [|done].
    apply (emits_fin (mkLife st None false sh)); simpl; auto.
  - rewrite (queue_same _ _ _ Hv Hq). by split; [constructor|].
  - rewrite (queue_same _ _ _ Hv Hq). by split; [constructor|].
Qed.

Lemma life_op_emits s s' fs :
  close_ok s -> buffered (sh_frames (life_shared s)) -> life_op s s' ->
  queue (view (sh_frames (life_shared s')))
    = queue (view (sh_frames (life_shared s))) ++ fs ->
  emits_well s s' fs.
Proof.
  intros Hok Hb Hop. destruct Hop; simpl in *.
  - destruct (poll_read_unwritten st sh buf) as (Hf & Hi & Hw & _). intros Hq.
    fold p in Hf, Hi, Hw. rewrite Hf in Hq. rewrite (queue_same _ _ _ eq_refl Hq).
    split; [|by split]. constructor; unfold life_closed; simpl; congruence.
  - by apply life_write_emits.
  - by apply life_shutdown_emits.
  - by apply life_close_start_emits.
  - by eapply life_close_poll_emits.
  - intros Hq. rewrite (queue_same _ _ _ eq_refl Hq). by split; [constructor|].
  - by apply life_drop_emits.
Qed.

Lemma life_trace_frames s tr s' :
  life_closed s = false -> life_close s = None -> life_trace s tr s' ->
  life_id s' = life_id s /\ close_ok s' /\
  ((Forall (is_data_frame (life_id s)) tr) \/
   (exists ps, Forall (is_data_frame (life_id s)) ps /\
      tr = ps ++ [new_fin 1 (life_id s)] /\ life_closed s' = true /\
      life_close s' = None)).
Proof.
  intros Hc Hcl Htr. induction Htr as [|s1 s2 tr fs Htr (Hid & Hok & IH) Hstep].
  { split; [done|]. unfold close_ok. rewrite Hcl. auto. }
  destruct Hstep as [s1 s2 fs Hb Hop Hq|st fut d sh sh'].
  2: { rewrite app_nil_r. auto. }
  destruct (life_op_emits s1 s2 fs Hok Hb Hop Hq) as (He & Hok2 & Hid2).
  split; [congruence|]. split; [done|].
  destruct IH as [Hps|(ps & Hps & -> & Hc1 & Hcl1)].
  - inversion He as [? ?|f Hf ?|? ? ?]; subst fs.
    + left. by rewrite app_nil_r.
    + left. rewrite Hid in Hf. apply Forall_app. auto.
    + right. exists tr. rewrite Hid. auto.
  - right. exists ps. inversion He as [Hk Hk2|f Hf Hn|[Hn|Hn] ? ?]; subst fs.
    + rewrite app_nil_r. auto.
    + congruence.
    + congruence.
    + congruence.
Qed.
End lifetime.

(** ** Properties *)
Section stream_properties.
Context {B : BytesCrate} {BL : BytesLaws B}.
Context {F : FlumeCrate} {FL : FlumeLaws F}.
Context {N : NotifyCrate} {NL : NotifyLaws N}.
Context {R : ReadBufCrate} {RL : ReadBufLaws R}.

(** C29: every outcome of [poll_read] with room in the buffer.  On a closed session
    it fails with [BrokenPipe], even when data is still buffered.  Otherwise, if
    there are unread bytes, it delivers a non-empty prefix of them that fits the
    buffer and returns exactly that many tokens to the session; if there are none and
    the peer has not sent FIN, it returns [Pending] having woken its own task, so the
    task is polled again; if there are none and the peer has sent FIN, it reports end
    of file and leaves the buffer alone. *)
Theorem poll_read_outcomes st sh buf :
  st_is_read_closed st = false -> readable st sh -> 0 < remaining buf ->
  let p := poll_read st sh buf in
  (closed (sh_state sh) = true ->
    p = mkReadPoll (Ready (Err session_closed_error)) false buf st sh) /\
  (closed (sh_state sh) = false -> unread st sh <> [] ->
    exists d, d <> [] /\ blen d <= remaining buf /\ delivers st sh buf d p) /\
  (closed (sh_state sh) = false -> unread st sh = [] ->
    rp_buf p = buf /\ rp_stream p = st /\ sh_state (rp_shared p) = sh_state sh /\
    (peer_open st sh -> rp_result p = Pending /\ rp_woken p = true) /\
    (~ peer_open st sh -> rp_result p = Ready (Ok tt))).
Proof.
  intros Hr Hread Hbuf p. subst p. split.
  { intros Hc. unfold poll_read, is_closed. by rewrite Hr, Hc. }
  split; intros Hc Hun; assert (Hopen : read_open st sh) by done.
  { by apply poll_read_delivers. }
  destruct (unread_nil _ _ Hread Hun) as [Hch Hp].
  destruct (decide (peer_open st sh)) as [Hpeer|Hpeer].
  - destruct (poll_read_empty st sh buf) as (? & ? & ? & ? & ? & _); tauto.
  - destruct (poll_read_eof st sh buf) as (? & ? & ? & ?); tauto.
Qed.

(** C17: reads that give room deliver the stream in order and without loss, duplication or
    reordering, while the session is open: polling with any sequence of non-empty
    buffers, what the buffers received followed by what is still unread is what was unread
    before.  Reads also make progress: after at least as many polls as there are unread
    bytes, everything has been delivered. *)
Theorem reads_in_order bufs st sh :
  Forall fresh_buf bufs -> read_open st sh -> readable st sh ->
  let '(out, st', sh') := read_all bufs st sh in
  unread st sh = received out ++ unread st' sh' /\
  (blen (unread st sh) <= Z.of_nat (length bufs) -> received out = unread st sh).
Proof.
  intros Hbufs Hopen Hread. pose proof (read_all_spec bufs st sh Hbufs Hopen Hread) as H.
  pose proof (read_all_everything bufs st sh Hbufs Hopen Hread) as Hall.
  destruct (read_all bufs st sh) as [[out st'] sh']. by destruct H as (Hu & _).
Qed.

(** C34: end of file comes after the last byte: once the peer has sent FIN, polling
    with enough non-empty buffers delivers every byte that was buffered, and every
    further read reports end of file. *)
Theorem read_to_eof bufs st sh buf :
  Forall fresh_buf bufs -> fresh_buf buf -> read_open st sh -> readable st sh ->
  ~ peer_open st sh -> blen (unread st sh) <= Z.of_nat (length bufs) ->
  let '(out, st', sh') := read_all bufs st sh in
  received out = unread st sh /\
  rp_result (poll_read st' sh' buf) = Ready (Ok tt) /\
  filled (rp_buf (poll_read st' sh' buf)) = [].
Proof.
  intros Hbufs Hbuf Hopen Hread Hpeer Hlen.
  pose proof (read_all_spec bufs st sh Hbufs Hopen Hread) as H.
  destruct (read_all bufs st sh) as [[out st'] sh'].
  destruct H as (Hu & Ho & Hr & Hp & Hend).
  assert (Hun : unread st' sh' = []).
  { destruct Hend as [Hend|Hend]; [done|]. apply blen_zero.
    rewrite Hu, blen_app in Hlen. pose proof (blen_nonneg (unread st' sh')). lia. }
  split; [by rewrite Hu, Hun, app_nil_r|].
  destruct (unread_nil _ _ Hr Hun) as [Hch Hq].
  destruct (poll_read_eof st' sh' buf) as (-> & -> & _); [done..|tauto|].
  split; [done|apply Hbuf].
Qed.

(** A read with an empty buffer can lose data: if part of a chunk is waiting and
    another chunk is queued, polling with no room in the buffer reports success,
    discards the waiting part for good (it is neither delivered nor unread any more),
    and never returns its tokens. *)
Theorem empty_read_discards_chunk st sh buf c d q :
  read_open st sh -> remaining buf = 0 ->
  st_current_chunk st = Some c -> pending_chunks st sh = d :: q ->
  let p := poll_read st sh buf in
  rp_result p = Ready (Ok tt) /\ rp_buf p = buf /\
  unread st sh = c ++ unread (rp_stream p) (rp_shared p) /\
  sh_state (rp_shared p) = sh_state sh.
Proof.
  intros [Hr Hc] Hbuf Hch Hp. cbv zeta. unfold poll_read, is_closed.
  rewrite Hr, Hc, Hch, Hbuf. rewrite (Z.min_r (blen c) 0) by apply blen_nonneg. simpl.
  unfold poll_read_channel. destruct (try_recv_ok _ _ _ _ Hp) as [Ht Hv].
  destruct (try_recv _) as [r ch]. simpl in Ht, Hv. subst r.
  rewrite Hbuf, (Z.min_r (blen d) 0) by apply blen_nonneg. simpl.
  split; [done|]. split; [done|]. split; [|done].
  unfold unread, pending_chunks in *. rewrite Hch, Hp. simpl.
  by rewrite data_channel_set, Hv.
Qed.

(** C30: every outcome of [poll_write].  In a closed session it fails with [BrokenPipe]
    and on a stream that is shut down for writing with the stream's own error, and nothing
    changes.  Otherwise an empty write succeeds without a frame, and of any other buffer
    the longest prefix that fits a frame is offered to the frame channel as one PSH frame
    of the stream: if there is room, that frame is appended and the length of the prefix is
    returned; if the channel is full, nothing is sent and the task has been woken to retry;
    if the send loop is gone, it fails with [BrokenPipe].  The stream itself never changes,
    and nothing of the session but the frame channel does.  When the frame size is usable
    (more than the header, and no more than a header and 65535 bytes) the prefix is not
    empty and the frame is one the codec can carry. *)
Theorem poll_write_outcomes st sh buf :
  let p := poll_write st sh buf in
  let v := view (sh_frames sh) in
  let v' := view (sh_frames (wp_shared p)) in
  (is_closed (sh_state sh) = true ->
    p = mkWritePoll (Ready (Err session_closed_error)) false st sh) /\
  (is_closed (sh_state sh) = false -> st_is_write_closed st = true ->
    p = mkWritePoll (Ready (Err write_closed_error)) false st sh) /\
  (write_open st sh -> buf = [] -> p = mkWritePoll (Ready (Ok 0)) false st sh) /\
  (write_open st sh -> buf <> [] -> receivers v <> 0%nat -> has_room v = true ->
    wp_result p = Ready (Ok (write_size st buf)) /\ wp_woken p = false /\
    v' = enqueue (write_frame st buf) v) /\
  (write_open st sh -> buf <> [] -> receivers v <> 0%nat -> surely_full v = true ->
    wp_result p = Pending /\ wp_woken p = true /\ v' = v) /\
  (write_open st sh -> buf <> [] -> receivers v = 0%nat ->
    wp_result p = Ready (Err session_closed_error) /\ wp_woken p = false /\ v' = v) /\
  wp_stream p = st /\ wp_shared p = set_frames (sh_frames (wp_shared p)) sh /\
  (buf <> [] -> is_u32 (st_stream_id st) -> st_stream_id st <> 0 ->
    HEADER_SIZE < max_frame_size (st_config st) <= HEADER_SIZE + u16_MAX ->
    0 < write_size st buf /\
    encodable (max_frame_size (st_config st)) (write_frame st buf)).
Proof.
  cbv zeta. split; [intros Hc; unfold poll_write; by rewrite Hc|].
  split; [intros Hc Hw; unfold poll_write; by rewrite Hc, Hw|].
  split; [intros [Hc Hw] ->; unfold poll_write, is_closed; by rewrite Hc, Hw|].
  split.
  { intros Ho Hb Hr Hroom. rewrite poll_write_send by done.
    destruct (try_send_ok _ (write_frame st buf) _ Hr Hroom) as [Ht Hv].
    destruct (try_send _ _) as [r c]. simpl in *. by subst r. }
  split.
  { intros Ho Hb Hr Hroom. rewrite poll_write_send by done.
    destruct (try_send_full _ (write_frame st buf) _ Hr Hroom) as [Ht Hv].
    destruct (try_send _ _) as [r c]. simpl in *. by subst r. }
  split.
  { intros Ho Hb Hr. rewrite poll_write_send by done.
    destruct (try_send_disconnected _ (write_frame st buf) _ Hr) as [Ht Hv].
    destruct (try_send _ _) as [r c]. simpl in *. by subst r. }
  split; [unfold poll_write; repeat (split_goal_match; simpl; try done)|].
  split; [|intros; by apply write_frame_encodable].
  unfold poll_write. repeat (split_goal_match; simpl; try done); by destruct sh.
Qed.

(** C20: FIN is last and sent at most once.  Over the whole life of a stream, under
    any interleaving of reads, writes, shutdowns, closes (started, polled or
    cancelled) and the final drop with arbitrary changes by the rest of the session,
    the frames the stream sends are PSH frames of that stream followed by at most one
    FIN of that stream, after which it sends nothing. *)
Theorem stream_frames_then_fin st sh tr s' :
  st_is_write_closed st = false ->
  life_trace (mkLife st None false sh) tr s' ->
  exists ps fin, tr = ps ++ fin /\
    Forall (is_data_frame (st_stream_id st)) ps /\
    (fin = [] \/ fin = [new_fin 1 (st_stream_id st)] /\ life_closed s' = true).
Proof.
  intros Hw Htr.
  destruct (life_trace_frames (mkLife st None false sh) tr s' Hw eq_refl Htr)
    as (_ & _ & [Hps|(ps & Hps & -> & Hc & _)]).
  - exists tr, []. rewrite app_nil_r. auto.
  - exists ps, [new_fin 1 (st_stream_id st)]. auto.
Qed.

(** No operation of a stream ever sets its [is_read_closed] flag, so in every
    state a new stream reaches, also after the peer's FIN and after its own close,
    [is_read_closed()] and [is_closed()] are false. *)
Theorem stream_never_reads_closed id rx cfg sh tr s' :
  life_trace (mkLife (stream_new id rx cfg) None false sh) tr s' ->
  is_read_closed (life_stream s') = false /\ stream_is_closed (life_stream s') = false.
Proof.
  intros Htr. unfold stream_is_closed. cut (is_read_closed (life_stream s') = false).
  { intros ->. done. }
  unfold is_read_closed.
  remember (mkLife (stream_new id rx cfg) None false sh) as s eqn:Es.
  induction Htr as [|s1 s2 tr fs Htr IH Hstep]; [by subst|].
  destruct Hstep as [s1 s2 fs _ Hop _|]; [|done].
  destruct Hop as [st sh0 buf|st sh0 buf|st sh0|st sh0 r fut st' sh' Hcl
                  |st sh0 fut r fut' st' sh' Hcl| |]; simpl in *; try done.
  - pose proof (poll_read_unwritten st sh0 buf) as (_ & _ & _ & Hrc).
    unfold p. by rewrite Hrc.
  - unfold p, poll_write. repeat (split_goal_match; simpl; try done).
  - unfold p, poll_shutdown. repeat (split_goal_match; simpl; try done).
  - repeat (split_hyp_match; simplify_eq; try done).
  - destruct fut; simpl in Hcl; simplify_eq; try done;
      repeat (split_hyp_match; simplify_eq; try done).
Qed.

(** [close] is not cancel safe: it marks the stream closed before the FIN is
    sent, so if its future is dropped while it waits for room in the frame channel,
    the FIN is lost: a later [close], [shutdown] or the drop of the stream sends
    none either. *)
Theorem cancelled_close_loses_fin st sh :
  st_is_write_closed st = false ->
  receivers (view (sh_frames sh)) <> 0%nat -> surely_full (view (sh_frames sh)) = true ->
  exists fut st' sh', close_poll CloseStart st sh = (Pending, fut, st', sh') /\
    forall sh'',
      close_poll CloseStart st' sh'' = (Ready (Ok tt), CloseDone, st', sh'') /\
      poll_shutdown st' sh'' = mkWritePoll (Ready (Ok tt)) false st' sh'' /\
      queue (view (sh_frames (stream_drop st' sh''))) = queue (view (sh_frames sh'')).
Proof.
  intros Hw Hr Hfull. unfold close_poll, close_send. rewrite Hw. simpl.
  destruct (send_async_pending _ (new_fin 1 (st_stream_id st)) _ Hr Hfull) as [Hs _].
  destruct (send_async _ _) as [r c]. simpl in Hs. subst r.
  do 3 eexists. split; [done|]. intros sh''. split; [done|]. split; [done|].
  simpl. by rewrite sender_drop_view.
Qed.
End stream_properties.

(** ** Witnesses: the properties at concrete inputs *)
Definition b3 : bytes := [Byte.x61; Byte.x62; Byte.x63].
Definition b2 : bytes := [Byte.x64; Byte.x65].

(** A frame channel of one slot holding [q], a data channel 0 holding [chunks] with [n]
    senders left. *)
Definition sample_shared (q : list Frame) (chunks : list bytes) (n : nat) : Shared :=
  mkShared (session_state_new 65536) (mkChanView q (Some 1) 1 1)
    {[ 0%nat := mkChanView chunks None n 1 ]} 1.

Definition sample_stream (c : option bytes) : Stream :=
  set_chunk c (stream_new 123 0 config_default).

Definition empty_buf (n : nat) : @read_buf read_buf_ref := ([], n).

Lemma sample_readable c q chunks n :
  c <> Some [] -> Forall (fun c => c <> []) chunks ->
  readable (sample_stream c) (sample_shared q chunks n).
Proof. by split. Qed.

Lemma poll_read_outcomes_witness :
  exists d, d <> [] /\ blen d <= 2 /\
    delivers (sample_stream None) (sample_shared [] [b3; b2] 1) (empty_buf 2) d
      (poll_read (sample_stream None) (sample_shared [] [b3; b2] 1) (empty_buf 2)).
Proof.
  apply (poll_read_outcomes (sample_stream None) (sample_shared [] [b3; b2] 1) (empty_buf 2)).
  - reflexivity.
  - apply sample_readable; [done|]. by repeat constructor.
  - reflexivity.
  - reflexivity.
  - vm_compute. congruence.
Defined.

Lemma reads_in_order_witness :
  received (read_all (repeat (empty_buf 2) 5) (sample_stream (Some b2))
              (sample_shared [] [b3] 1)).1.1 = b2 ++ b3.
Proof.
  generalize (reads_in_order (repeat (empty_buf 2) 5) (sample_stream (Some b2))
                (sample_shared [] [b3] 1)).
  destruct (read_all _ _ _) as [[out st'] sh']. intros H. apply H.
  - repeat constructor.
  - by split.
  - apply sample_readable; [done|]. by repeat constructor.
  - vm_compute. congruence.
Defined.

Lemma read_to_eof_witness :
  received (read_all (repeat (empty_buf 2) 5) (sample_stream (Some b2))
              (sample_shared [] [b3] 0)).1.1 = b2 ++ b3.
Proof.
  generalize (read_to_eof (repeat (empty_buf 2) 5) (sample_stream (Some b2))
                (sample_shared [] [b3] 0) (empty_buf 4)).
  destruct (read_all _ _ _) as [[out st'] sh']. intros H. apply H.
  - repeat constructor.
  - by split.
  - by split.
  - apply sample_readable; [done|]. by repeat constructor.
  - intros Hp. by apply Hp.
  - vm_compute. congruence.
Defined.

Lemma empty_read_discards_chunk_witness :
  let p := poll_read (sample_stream (Some b3)) (sample_shared [] [b2] 1) (empty_buf 0) in
  rp_result p = Ready (Ok tt) /\ b3 ++ b2 = b3 ++ unread (rp_stream p) (rp_shared p).
Proof.
  intros p.
  destruct (empty_read_discards_chunk (sample_stream (Some b3)) (sample_shared [] [b2] 1)
              (empty_buf 0) b3 b2 []) as (Hr & _ & Hu & _);
    [by split|reflexivity..|].
  split; [exact Hr|exact Hu].
Defined.

(** The sample stream, shut down for writing. *)
Definition sample_shut_down : Stream :=
  wp_stream (poll_shutdown (sample_stream None) (sample_shared [] [] 1)).

(** The sample session, closed. *)
Definition sample_closed_shared : Shared :=
  mkShared (state_close (sh_state (sample_shared [] [] 1)))
    (sh_frames (sample_shared [] [] 1)) (sh_data (sample_shared [] [] 1)) 1.

Lemma poll_write_outcomes_witness :
  wp_result (poll_write (sample_stream None) (sample_shared [] [] 1) b3) = Ready (Ok 3) /\
  wp_result (poll_write sample_shut_down (sample_shared [] [] 1) b3)
    = Ready (Err write_closed_error) /\
  wp_result (poll_write (sample_stream None) sample_closed_shared b3)
    = Ready (Err session_closed_error).
Proof.
  split; [|split].
  - apply (poll_write_outcomes (sample_stream None) (sample_shared [] [] 1) b3);
      vm_compute; congruence || reflexivity || by split.
  - destruct (poll_write_outcomes sample_shut_down (sample_shared [] [] 1) b3)
      as (_ & Hw & _). rewrite Hw; vm_compute; reflexivity.
  - destruct (poll_write_outcomes (sample_stream None) sample_closed_shared b3)
      as (Hc & _). rewrite Hc; vm_compute; reflexivity.
Defined.

Lemma stream_frames_then_fin_witness :
  let p := poll_write (sample_stream None) (sample_shared [] [] 1) b3 in
  exists ps fin, [new_psh 1 123 b3] = ps ++ fin /\ Forall (is_data_frame 123) ps /\
    (fin = [] \/ fin = [new_fin 1 123] /\
     life_closed (mkLife (wp_stream p) None false (wp_shared p)) = true).
Proof.
  intros p.
  apply (stream_frames_then_fin (sample_stream None) (sample_shared [] [] 1)
           [new_psh 1 123 b3] (mkLife (wp_stream p) None false (wp_shared p))).
  - reflexivity.
  - eapply (trace_step _ _ _ []); [apply trace_nil|]. apply step_op.
    + vm_compute. congruence.
    + apply (life_write (sample_stream None) (sample_shared [] [] 1) b3).
    + reflexivity.
Defined.

Lemma stream_never_reads_closed_witness :
  stream_is_closed
    (wp_stream (poll_shutdown (stream_new 123 0 config_default) (sample_shared [] [] 0)))
  = false.
Proof.
  set (p := poll_shutdown (stream_new 123 0 config_default) (sample_shared [] [] 0)).
  apply (stream_never_reads_closed 123 0 config_default (sample_shared [] [] 0)
           [new_fin 1 123] (mkLife (wp_stream p) None false (wp_shared p))).
  eapply (trace_step _ _ _ []); [apply trace_nil|]. apply step_op.
  - vm_compute. congruence.
  - apply (life_shutdown (stream_new 123 0 config_default) (sample_shared [] [] 0)).
  - reflexivity.
Defined.

Lemma cancelled_close_loses_fin_witness :
  exists fut st' sh',
    close_poll CloseStart (sample_stream None) (sample_shared [new_nop 1] [] 1)
    = (Pending, fut, st', sh') /\
    queue (view (sh_frames (stream_drop st' (sample_shared [] [] 1)))) = [].
Proof.
  destruct (cancelled_close_loses_fin (sample_stream None) (sample_shared [new_nop 1] [] 1))
    as (fut & st' & sh' & Hc & Hl); [reflexivity|vm_compute; congruence|reflexivity|].
  exists fut, st', sh'. split; [exact Hc|]. apply (Hl (sample_shared [] [] 1)).
Defined.
