(* ===== verification/Session.v ===== *)
(** * Sessions: [src/src/session.rs], [Session] and [SessionInner]

    The stream table, stream identifiers, opening, accepting and closing, and the
    handlers of incoming frames.  The table ([DashMap<u32, StreamState>]) is any
    [FinMap Z M] of stdpp.

    An [async fn] runs until an await whose future is not ready; what it keeps across
    that await is a value of a future type ([OpenFuture], [AcceptFuture],
    [FrameFuture]), and polling again continues from there.  Everything between two
    awaits is one step of the task. *)

From stdpp Require Import strings.
From S2P Require Import Prelude Crates Errors Config Command Frame SessionState Stream.

Section session.
Context {B : BytesCrate} {F : FlumeCrate} {N : NotifyCrate}.
Context {M : Type -> Type} `{FinMap Z M}.

(** The session's half of a stream: the sender of the data channel, and a
    [is_read_closed] cell of its own (see Stream.v). *)
Record StreamState : Type := mkStreamState {
  ss_data_tx : nat;
  ss_is_read_closed : bool;
}.

(** [SessionInner]. [Clone for Session] copies the [Arc]: all clones are this value. *)
Record Session : Type := mkSession {
  s_streams : M StreamState;
  s_config : Config;
  s_incoming : channel Stream;
  s_next_stream_id : Z;
  s_is_client : bool;
  s_shared : Shared;
}.

(** Field updates. *)
Definition set_streams (m : M StreamState) (s : Session) : Session :=
  mkSession m (s_config s) (s_incoming s) (s_next_stream_id s) (s_is_client s)
    (s_shared s).
Definition set_incoming (c : channel Stream) (s : Session) : Session :=
  mkSession (s_streams s) (s_config s) c (s_next_stream_id s) (s_is_client s)
    (s_shared s).
Definition set_next_stream_id (n : Z) (s : Session) : Session :=
  mkSession (s_streams s) (s_config s) (s_incoming s) n (s_is_client s) (s_shared s).
Definition set_shared (sh : Shared) (s : Session) : Session :=
  mkSession (s_streams s) (s_config s) (s_incoming s) (s_next_stream_id s)
    (s_is_client s) sh.
Definition session_state (s : Session) : SessionState := sh_state (s_shared s).
Definition update_state (f : SessionState -> SessionState) (s : Session) : Session :=
  set_shared (set_state (f (session_state s)) (s_shared s)) s.

(** [Session::new], without the tasks it spawns. *)
Definition session_new (config : Config) (is_client : bool) : Session := {|
  s_streams := ∅;
  s_config := config;
  s_incoming := bounded 16;
  s_next_stream_id := if is_client then 1 else 2;
  s_is_client := is_client;
  s_shared := {|
    sh_state := session_state_new (max_receive_buffer config);
    sh_frames := bounded (max_receive_channel_buffer_size config);
    sh_data := ∅;
    sh_next := 0;
  |};
|}.

Definition session_client (config : Config) : Session := session_new config true.
Definition session_server (config : Config) : Session := session_new config false.

(** ** Stream identifiers *)
Definition next_stream_id (s : Session) : Result Z * Session :=
  let current := s_next_stream_id s in
  let s := set_next_stream_id (wrap_u32 (current + 2)) s in
  if current >? u32_MAX - 2 then
    (Err (ProtocolViolation "Stream ID overflow - session should be restarted"), s)
  else (Ok current, s).

Definition validate_peer_stream_id (s : Session) (stream_id : Z) : Result unit :=
  if stream_id =? 0 then Err (InvalidStreamId stream_id)
  else
    let expected_parity := if s_is_client s then 0 else 1 in
    let actual_parity := stream_id mod 2 in
    if negb (actual_parity =? expected_parity) then Err (InvalidStreamId stream_id)
    else Ok tt.

(** ** Opening, accepting, closing *)
Inductive OpenFuture : Type :=
| OpenStart
| OpenSending (stream : Stream) (syn : Frame)
| OpenDone.

(** The [send_async] of the SYN frame; on an error the new stream is dropped. *)
Definition open_send (stream : Stream) (syn_frame : Frame) (s : Session)
    : poll (Result Stream) * OpenFuture * Session :=
  let '(r, c) := send_async syn_frame (sh_frames (s_shared s)) in
  let s := set_shared (set_frames c (s_shared s)) s in
  match r with
  | Pending => (Pending, OpenSending stream syn_frame, s)
  | Ready (Ok _) => (Ready (Ok stream), OpenDone, s)
  | Ready (Err _) =>
      (Ready (Err SessionClosed), OpenDone,
       set_shared (stream_drop stream (s_shared s)) s)
  | Ready Panic => (Ready Panic, OpenDone, s)
  end.

(** Dropping an entry of the table drops its sender of the data channel. *)
Definition drop_entry (entry : option StreamState) (s : Session) : Session :=
  match entry with
  | Some stream_state =>
      let k := ss_data_tx stream_state in
      set_shared (set_data_channel k (sender_drop (data_channel k (s_shared s)))
                    (s_shared s)) s
  | None => s
  end.

(** [streams.insert], which drops the entry it replaces, and [streams.remove]. *)
Definition insert_stream (id : Z) (stream_state : StreamState) (s : Session) : Session :=
  drop_entry (s_streams s !! id)
    (set_streams (<[id := stream_state]> (s_streams s)) s).
Definition remove_stream (id : Z) (s : Session) : Session :=
  drop_entry (s_streams s !! id) (set_streams (delete id (s_streams s)) s).

(** A new stream of the session: its data channel, its two halves, its entry. *)
Definition register_stream (stream_id : Z) (s : Session) : Stream * Session :=
  let '(data_ch, sh) := new_data_channel (s_shared s) in
  let stream_state := mkStreamState data_ch false in
  let sh := clone_frame_tx sh in
  let stream := stream_new stream_id data_ch (s_config s) in
  (stream, insert_stream stream_id stream_state (set_shared sh s)).

Definition open_stream (fut : OpenFuture) (s : Session)
    : poll (Result Stream) * OpenFuture * Session :=
  match fut with
  | OpenStart =>
      if is_closed (session_state s) then (Ready (Err SessionClosed), OpenDone, s)
      else
        match next_stream_id s with
        | (Err e, s) => (Ready (Err e), OpenDone, s)
        | (Panic, s) => (Ready Panic, OpenDone, s)
        | (Ok stream_id, s) =>
            let '(stream, s) := register_stream stream_id s in
            let syn_frame := new_syn (version (s_config s)) stream_id in
            open_send stream syn_frame s
        end
  | OpenSending stream syn_frame => open_send stream syn_frame s
  | OpenDone => (Ready Panic, OpenDone, s)
  end.

Inductive AcceptFuture : Type :=
| AcceptStart
| AcceptWaiting (close : notified_future)
| AcceptDone.

(** [tokio::select!] polls its branches in a random order: [close_first] is the
    outcome of that choice. *)
Definition accept_select (close_first : bool) (close : notified_future) (s : Session)
    : poll (Result Stream) * AcceptFuture * Session :=
  let closing := is_notified (close_notifier (session_state s)) close in
  if close_first && closing then (Ready (Err SessionClosed), AcceptDone, s)
  else
    let '(r, c) := recv_async (s_incoming s) in
    let s := set_incoming c s in
    match r with
    | Ready (Ok stream) => (Ready (Ok stream), AcceptDone, s)
    | Ready (Err _) => (Ready (Err SessionClosed), AcceptDone, s)
    | Ready Panic => (Ready Panic, AcceptDone, s)
    | Pending =>
        if closing then (Ready (Err SessionClosed), AcceptDone, s)
        else (Pending, AcceptWaiting close, s)
    end.

Definition accept_stream (close_first : bool) (fut : AcceptFuture) (s : Session)
    : poll (Result Stream) * AcceptFuture * Session :=
  match fut with
  | AcceptStart =>
      if is_closed (session_state s) then (Ready (Err SessionClosed), AcceptDone, s)
      else accept_select close_first (notified (close_notifier (session_state s))) s
  | AcceptWaiting close => accept_select close_first close s
  | AcceptDone => (Ready Panic, AcceptDone, s)
  end.

Definition session_close (s : Session) : Result unit * Session :=
  (Ok tt, update_state state_close s).

Definition session_is_closed (s : Session) : bool := is_closed (session_state s).

(** ** Incoming frames *)
Inductive FrameFuture : Type :=
| SynSending (stream : Stream)
| PshWaiting (frame : Frame) (returned close : notified_future)
| PshSending (frame : Frame) (data_tx : nat).

(** A handler is done with a result, or awaits. *)
Inductive Handling : Type :=
| Done (r : Result unit)
| Await (fut : FrameFuture).

Definition syn_send (stream : Stream) (s : Session) : Handling * Session :=
  let '(r, c) := send_async stream (s_incoming s) in
  let s := set_incoming c s in
  match r with
  | Pending => (Await (SynSending stream), s)
  | Ready (Ok _) => (Done (Ok tt), s)
  | Ready (Err _) =>
      (* the stream comes back with the error and is dropped with it *)
      let s := set_shared (stream_drop stream (s_shared s)) s in
      (Done (Err SessionClosed), remove_stream (st_stream_id stream) s)
  | Ready Panic => (Done Panic, s)
  end.

Definition handle_syn_frame (frame : Frame) (s : Session) : Handling * Session :=
  let id := stream_id frame in
  match validate_peer_stream_id s id with
  | Err e => (Done (Err e), s)
  | Panic => (Done Panic, s)
  | Ok _ =>
      match s_streams s !! id with
      | Some _ => (Done (Err (StreamAlreadyExists id)), s)
      | None =>
          let '(stream, s) := register_stream id s in
          syn_send stream s
      end
  end.

(** [streams.remove], the store to the removed entry's flag, and the drop of its
    sender, which closes the data channel. *)
Definition handle_fin_frame (frame : Frame) (s : Session) : Handling * Session :=
  let id := stream_id frame in
  match s_streams s !! id with
  | Some stream_state =>
      let s := set_streams (delete id (s_streams s)) s in
      let stream_state := mkStreamState (ss_data_tx stream_state) true in
      (Done (Ok tt), drop_entry (Some stream_state) s)
  | None => (Done (Ok tt), s)
  end.

(** The [send_async] to the data channel; when the receiver is gone the entry is
    removed, and its sender with it. *)
Definition psh_send (frame : Frame) (k : nat) (s : Session) : Handling * Session :=
  let '(r, c) := send_async (data frame) (data_channel k (s_shared s)) in
  let s := set_shared (set_data_channel k c (s_shared s)) s in
  match r with
  | Pending => (Await (PshSending frame k), s)
  | Ready (Ok _) => (Done (Ok tt), s)
  | Ready (Err _) =>
      let s := update_state (return_tokens (data_len frame)) s in
      (Done (Ok tt), remove_stream (stream_id frame) s)
  | Ready Panic => (Done Panic, s)
  end.

Definition psh_process (frame : Frame) (s : Session) : Handling * Session :=
  match s_streams s !! stream_id frame with
  | Some stream_state => psh_send frame (ss_data_tx stream_state) s
  | None => (Done (Ok tt), update_state (return_tokens (data_len frame)) s)
  end.

(** One round of the token loop: a future of [Notify] is never ready when it has
    just been created, so a round without tokens ends in the [select!]. *)
Definition psh_loop (frame : Frame) (s : Session) : Handling * Session :=
  let current_tokens := get_tokens (session_state s) in
  if current_tokens >? 0 then psh_process frame s
  else
    let s := update_state (fun st => (take_tokens (data_len frame) st).2) s in
    (Await (PshWaiting frame
       (notified (tokens_returned_notifier (session_state s)))
       (notified (close_notifier (session_state s)))), s).

Definition handle_psh_frame (frame : Frame) (s : Session) : Handling * Session :=
  if data_len frame =? 0 then (Done (Ok tt), s) else psh_loop frame s.

(** The [select!] of the token loop, with its random order. *)
Definition psh_select (close_first : bool) (frame : Frame)
    (returned close : notified_future) (s : Session) : Handling * Session :=
  let tokens_back := is_notified (tokens_returned_notifier (session_state s)) returned in
  let closing := is_notified (close_notifier (session_state s)) close in
  let on_close := (Done (Ok tt), update_state (return_tokens (data_len frame)) s) in
  if close_first && closing then on_close
  else if tokens_back then psh_loop frame s
  else if closing then on_close
  else (Await (PshWaiting frame returned close), s).

Definition handle_upd_frame (frame : Frame) (s : Session) : Handling * Session :=
  (Done (Ok tt), s).

Definition handle_frame (frame : Frame) (s : Session) : Handling * Session :=
  match cmd frame with
  | Syn => handle_syn_frame frame s
  | Fin => handle_fin_frame frame s
  | Psh => handle_psh_frame frame s
  | Upd _ _ => handle_upd_frame frame s
  | Nop => (Done (Ok tt), s)
  end.

(** Polling a handler that awaits. *)
Definition resume_frame (close_first : bool) (fut : FrameFuture) (s : Session)
    : Handling * Session :=
  match fut with
  | SynSending stream => syn_send stream s
  | PshWaiting frame returned close => psh_select close_first frame returned close s
  | PshSending frame k => psh_send frame k s
  end.
End session.

Arguments Session {F N} M.
