(* ===== verification/Loops.v ===== *)
(** * The tasks of a session: [recv_loop], [send_loop], [keep_alive_loop]

    The three tasks [Session::new] spawns.  A task is the point where it waits: at the
    top of its loop, in its [select!] with the [notified()] future that [select!] has
    created, or in an await inside a branch.  A step runs the task from one such point
    to the next; steps of different tasks and of the user interleave.  Logging is left
    out. *)

From stdpp Require Import strings.
From S2P Require Import Prelude Crates Errors Config Command Frame Codec Runtime.
From S2P Require Import SessionState Stream Session.

Section loops.
Context {B : BytesCrate} {F : FlumeCrate} {N : NotifyCrate}.
Context {D : FramedCrate} {T : IntervalCrate}.
Context {M : Type -> Type} `{FinMap Z M}.
Implicit Types s : Session M.

(** ** [recv_loop] *)
Inductive RecvTask : Type :=
| RecvLoop
| RecvSelect (close : notified_future)
| RecvHandling (fut : FrameFuture)
| RecvDone
| RecvPanicked.

(** After the loop: [inner.state.close()]. *)
Definition recv_exit s (src : source) : RecvTask * Session M * source :=
  (RecvDone, update_state state_close s, src).

(** An error of a handler is logged, and the loop goes on. *)
Definition recv_handled (h : Handling) : RecvTask :=
  match h with
  | Done Panic => RecvPanicked
  | Done _ => RecvLoop
  | Await fut => RecvHandling fut
  end.

Definition recv_select (close_first : bool) (close : notified_future) s (src : source)
    : RecvTask * Session M * source :=
  let closing := is_notified (close_notifier (session_state s)) close in
  if close_first && closing then recv_exit s src
  else
    let '(frame_result, src) := poll_next src in
    match frame_result with
    | Ready (Some (Ok frame)) =>
        let s := update_state mark_data_received s in
        let '(h, s) := handle_frame frame s in
        (recv_handled h, s, src)
    | Ready (Some (Err _)) => recv_exit s src
    | Ready (Some Panic) => (RecvPanicked, s, src)
    | Ready None => recv_exit s src
    | Pending => if closing then recv_exit s src else (RecvSelect close, s, src)
    end.

Definition recv_step (close_first : bool) (task : RecvTask) s (src : source)
    : RecvTask * Session M * source :=
  match task with
  | RecvLoop =>
      recv_select close_first (notified (close_notifier (session_state s))) s src
  | RecvSelect close => recv_select close_first close s src
  | RecvHandling fut =>
      let '(h, s) := resume_frame close_first fut s in (recv_handled h, s, src)
  | RecvDone | RecvPanicked => (task, s, src)
  end.

(** ** [send_loop] *)
Inductive SendTask : Type :=
| SendLoop
| SendSelect (close : notified_future)
| SendSending
| SendDone
| SendPanicked.

(** After the loop: [inner.state.close()]; the receiver of the frame channel is
    dropped when the function returns. *)
Definition drop_frame_rx s : Session M :=
  set_shared (set_frames (receiver_drop (sh_frames (s_shared s))) (s_shared s)) s.

Definition send_exit s (k : sink) : SendTask * Session M * sink :=
  (SendDone, drop_frame_rx (update_state state_close s), k).

(** One poll of [sink.send(frame)]. *)
Definition send_poll s (k : sink) : SendTask * Session M * sink :=
  let '(r, k) := poll_send k in
  match r with
  | Pending => (SendSending, s, k)
  | Ready (Ok _) => (SendLoop, s, k)
  | Ready (Err _) => send_exit s k
  | Ready Panic => (SendPanicked, drop_frame_rx s, k)
  end.

Definition send_select (close_first : bool) (close : notified_future) s (k : sink)
    : SendTask * Session M * sink :=
  let closing := is_notified (close_notifier (session_state s)) close in
  if close_first && closing then send_exit s k
  else
    let '(result, c) := recv_async (sh_frames (s_shared s)) in
    let s := set_shared (set_frames c (s_shared s)) s in
    match result with
    | Ready (Ok frame) => send_poll s (start_send frame k)
    | Ready (Err _) => send_exit s k
    | Ready Panic => (SendPanicked, drop_frame_rx s, k)
    | Pending => if closing then send_exit s k else (SendSelect close, s, k)
    end.

Definition send_step (close_first : bool) (task : SendTask) s (k : sink)
    : SendTask * Session M * sink :=
  match task with
  | SendLoop =>
      send_select close_first (notified (close_notifier (session_state s))) s k
  | SendSelect close => send_select close_first close s k
  | SendSending => send_poll s k
  | SendDone | SendPanicked => (task, s, k)
  end.

(** ** [keep_alive_loop] *)
Inductive KeepAliveTask : Type :=
| KeepAliveStart
| KeepAliveLoop (ping_interval timeout_interval : timer)
| KeepAliveSelect (ping_interval timeout_interval : timer) (close : notified_future)
| KeepAlivePing (ping_interval timeout_interval : timer) (nop_frame : Frame)
| KeepAliveDone
| KeepAlivePanicked.

Definition keep_alive_start (now : Z) s : KeepAliveTask :=
  if negb (enable_keep_alive (s_config s)) then KeepAliveDone
  else
    match interval (keep_alive_interval (s_config s)) now with
    | None => KeepAlivePanicked
    | Some ping_interval =>
        match interval (keep_alive_timeout (s_config s)) now with
        | None => KeepAlivePanicked
        | Some timeout_interval => KeepAliveLoop ping_interval timeout_interval
        end
    end.

(** The branch of [ping_interval.tick()]: send a NOP. *)
Definition keep_alive_ping (ping timeout : timer) (nop_frame : Frame) s
    : KeepAliveTask * Session M :=
  let '(r, c) := send_async nop_frame (sh_frames (s_shared s)) in
  let s := set_shared (set_frames c (s_shared s)) s in
  match r with
  | Pending => (KeepAlivePing ping timeout nop_frame, s)
  | Ready (Ok _) => (KeepAliveLoop ping timeout, s)
  | Ready (Err _) => (KeepAliveDone, s)
  | Ready Panic => (KeepAlivePanicked, s)
  end.

(** The branch of [timeout_interval.tick()]. *)
Definition keep_alive_timeout_tick (ping timeout : timer) s : KeepAliveTask * Session M :=
  let '(received, st) := check_and_reset_data_received (session_state s) in
  let s := update_state (fun _ => st) s in
  if negb received then
    let available_tokens := get_tokens (session_state s) in
    if available_tokens >? 0 then (KeepAliveDone, update_state state_close s)
    else (KeepAliveLoop ping timeout, s)
  else (KeepAliveLoop ping timeout, s).

(** [select!] starts at a random branch and goes round. *)
Inductive Branch : Type := PingBranch | TimeoutBranch | CloseBranch.

Definition branch_order (start : Branch) : list Branch :=
  match start with
  | PingBranch => [PingBranch; TimeoutBranch; CloseBranch]
  | TimeoutBranch => [TimeoutBranch; CloseBranch; PingBranch]
  | CloseBranch => [CloseBranch; PingBranch; TimeoutBranch]
  end.

Fixpoint keep_alive_select (order : list Branch) (now : Z) (ping timeout : timer)
    (close : notified_future) s : KeepAliveTask * Session M :=
  match order with
  | [] => (KeepAliveSelect ping timeout close, s)
  | PingBranch :: order =>
      let '(ready, ping) := tick now ping in
      if ready then keep_alive_ping ping timeout (new_nop (version (s_config s))) s
      else keep_alive_select order now ping timeout close s
  | TimeoutBranch :: order =>
      let '(ready, timeout) := tick now timeout in
      if ready then keep_alive_timeout_tick ping timeout s
      else keep_alive_select order now ping timeout close s
  | CloseBranch :: order =>
      if is_notified (close_notifier (session_state s)) close then (KeepAliveDone, s)
      else keep_alive_select order now ping timeout close s
  end.

Definition keep_alive_step (start : Branch) (now : Z) (task : KeepAliveTask) s
    : KeepAliveTask * Session M :=
  match task with
  | KeepAliveStart => (keep_alive_start now s, s)
  | KeepAliveLoop ping timeout =>
      keep_alive_select (branch_order start) now ping timeout
        (notified (close_notifier (session_state s))) s
  | KeepAliveSelect ping timeout close =>
      keep_alive_select (branch_order start) now ping timeout close s
  | KeepAlivePing ping timeout nop_frame => keep_alive_ping ping timeout nop_frame s
  | KeepAliveDone | KeepAlivePanicked => (task, s)
  end.

(** ** The running session

    [Session::new] with the tasks it spawns.  Only [keep_alive_loop] reads the clock. *)
Record System : Type := mkSystem {
  sys_session : Session M;
  sys_recv : RecvTask;
  sys_source : source;
  sys_send : SendTask;
  sys_sink : sink;
  sys_keep_alive : KeepAliveTask;
}.

Definition system_new (config : Config) (is_client : bool) (src : source) (k : sink)
    : System := {|
  sys_session := session_new config is_client;
  sys_recv := RecvLoop;
  sys_source := src;
  sys_send := SendLoop;
  sys_sink := k;
  sys_keep_alive := KeepAliveStart;
|}.

Definition with_session s (y : System) : System :=
  mkSystem s (sys_recv y) (sys_source y) (sys_send y) (sys_sink y) (sys_keep_alive y).

Definition with_source (src : source) (y : System) : System :=
  mkSystem (sys_session y) (sys_recv y) src (sys_send y) (sys_sink y) (sys_keep_alive y).

Definition run_recv (close_first : bool) (y : System) : System :=
  let '(task, s, src) := recv_step close_first (sys_recv y) (sys_session y) (sys_source y) in
  mkSystem s task src (sys_send y) (sys_sink y) (sys_keep_alive y).

Definition run_send (close_first : bool) (y : System) : System :=
  let '(task, s, k) := send_step close_first (sys_send y) (sys_session y) (sys_sink y) in
  mkSystem s (sys_recv y) (sys_source y) task k (sys_keep_alive y).

Definition run_keep_alive (start : Branch) (now : Z) (y : System) : System :=
  let '(task, s) := keep_alive_step start now (sys_keep_alive y) (sys_session y) in
  mkSystem s (sys_recv y) (sys_source y) (sys_send y) (sys_sink y) task.
End loops.

Arguments System {F N D T} M.
