(* ===== verification/SessionSpec.v ===== *)
(** * What a session guarantees

    Stream identifiers, the well-formedness of the stream table, the dispatch of
    incoming frames as a refinement of an abstract session, and flow control. *)

From stdpp Require Import strings.
From S2P Require Import Prelude Crates Errors Config Command Frame SessionState Stream.
From S2P Require Import StreamSpec Session.

(** ** Stream identifiers *)
Section identifiers.
Context {B : BytesCrate} {F : FlumeCrate} {N : NotifyCrate}.
Context {M : Type -> Type} `{FinMap Z M}.

Definition initial_id (is_client : bool) : Z := if is_client then 1 else 2.

(** The session after [k] calls of [next_stream_id]. *)
Fixpoint after_ids (k : nat) (s : Session M) : Session M :=
  match k with O => s | S k => (next_stream_id (after_ids k s)).2 end.

(** The result of call number [k], counting from 0. *)
Definition nth_id (k : nat) (s : Session M) : Result Z :=
  (next_stream_id (after_ids k s)).1.

Lemma next_stream_id_state (s : Session M) :
  (next_stream_id s).2 = set_next_stream_id (wrap_u32 (s_next_stream_id s + 2)) s.
Proof. unfold next_stream_id. by destruct (_ >? _). Qed.

Lemma after_ids_next k (s : Session M) :
  is_u32 (s_next_stream_id s) ->
  s_next_stream_id (after_ids k s) = wrap_u32 (s_next_stream_id s + 2 * Z.of_nat k).
Proof.
  intros Hs. induction k as [|k IH].
  { simpl. rewrite Z.add_0_r. by rewrite wrap_u32_small. }
  cbn [after_ids]. rewrite next_stream_id_state. simpl. rewrite IH.
  unfold wrap_u32. rewrite Z.add_mod_idemp_l by lia. f_equal. lia.
Qed.

Lemma nth_id_eq k (s : Session M) :
  is_u32 (s_next_stream_id s) ->
  let n := wrap_u32 (s_next_stream_id s + 2 * Z.of_nat k) in
  nth_id k s =
    if n >? u32_MAX - 2
    then Err (ProtocolViolation "Stream ID overflow - session should be restarted")
    else Ok n.
Proof.
  intros Hs. cbv zeta. rewrite <- after_ids_next by done. unfold nth_id, next_stream_id.
  by destruct (_ >? _).
Qed.

Lemma initial_id_u32 c : is_u32 (initial_id c).
Proof. destruct c; vm_compute; split; congruence. Qed.

Lemma validate_peer_ok (s : Session M) id :
  validate_peer_stream_id s id = Ok tt <->
  id <> 0 /\ id mod 2 = (if s_is_client s then 0 else 1).
Proof.
  unfold validate_peer_stream_id.
  destruct (Z.eqb_spec id 0); [split; [done|tauto]|].
  destruct (Z.eqb_spec (id mod 2) (if s_is_client s then 0 else 1)); simpl; [done|].
  split; [done|tauto].
Qed.

Lemma validate_peer_cases (s : Session M) id :
  validate_peer_stream_id s id = Ok tt \/
  validate_peer_stream_id s id = Err (InvalidStreamId id).
Proof. unfold validate_peer_stream_id. repeat (split_goal_match; auto). Qed.
End identifiers.

Section identifier_properties.
Context {B : BytesCrate} {F : FlumeCrate} {N : NotifyCrate}.
Context {M : Type -> Type} `{FinMap Z M}.

(** C27: until the identifiers run out, a session hands out fresh ones that its peer
    accepts: call number [k] returns the initial identifier (1 for a client, 2 for a
    server) plus [2k], so all calls return different identifiers, and a session of the
    other role validates each of them, while the session itself would refuse them. *)
Theorem stream_ids_fresh cfg peer_cfg role k :
  initial_id role + 2 * Z.of_nat k <= u32_MAX - 2 ->
  let id := initial_id role + 2 * Z.of_nat k in
  nth_id k (session_new (M := M) cfg role) = Ok id /\
  validate_peer_stream_id (session_new (M := M) peer_cfg (negb role)) id = Ok tt /\
  validate_peer_stream_id (session_new (M := M) cfg role) id = Err (InvalidStreamId id).
Proof.
  intros Hle id. assert (Hinit : s_next_stream_id (session_new (M := M) cfg role)
                                 = initial_id role) by (by destruct role).
  assert (Hid : is_u32 id) by (unfold id, is_u32, u32_MAX, initial_id in *;
                               destruct role; lia).
  split.
  { rewrite nth_id_eq; rewrite Hinit; [|apply initial_id_u32].
    fold id. rewrite wrap_u32_small by done.
    rewrite Z.gtb_ltb, (proj2 (Z.ltb_ge _ _)) by lia. done. }
  assert (Hpar : id mod 2 = if role then 1 else 0).
  { unfold id, initial_id. destruct role; rewrite (Z.mul_comm 2), Z.mod_add; done. }
  assert (Hnz : id <> 0) by (unfold id, initial_id; destruct role; lia).
  split.
  { apply validate_peer_ok. split; [done|]. simpl. rewrite Hpar. by destruct role. }
  destruct (validate_peer_cases (session_new (M := M) cfg role) id) as [Hv|Hv]; [|done].
  apply validate_peer_ok in Hv as [_ Hv]. simpl in Hv. rewrite Hpar in Hv.
  by destruct role.
Qed.

(** The overflow check does not stick.  After 2^31 - 1 identifiers (2^31 - 2 on a server) a
    call fails with the overflow error, but the counter has wrapped around, so the next call
    succeeds again: a server returns identifier 0, which no peer accepts, and a client
    returns identifier 1, which was its first. *)
Theorem stream_ids_wrap_around cfg role :
  exists k, Z.of_nat k = 2 ^ 31 - initial_id role /\
    nth_id k (session_new (M := M) cfg role)
      = Err (ProtocolViolation "Stream ID overflow - session should be restarted") /\
    nth_id (S k) (session_new (M := M) cfg role) = Ok (if role then 1 else 0) /\
    validate_peer_stream_id (session_new (M := M) cfg (negb role)) 0
      = Err (InvalidStreamId 0).
Proof.
  assert (Hinit : s_next_stream_id (session_new (M := M) cfg role) = initial_id role)
    by (by destruct role).
  exists (Z.to_nat (2 ^ 31 - initial_id role)).
  assert (H0r : 0 <= 2 ^ 31 - initial_id role) by (by destruct role).
  split; [by rewrite Z2Nat.id|].
  split; [|split; [|done]]; rewrite nth_id_eq; rewrite Hinit; try apply initial_id_u32.
  - rewrite Z2Nat.id by done. by destruct role.
  - rewrite Nat2Z.inj_succ, Z2Nat.id by done. by destruct role.
Qed.
End identifier_properties.

(** ** The stream table *)
Section table.
Context {B : BytesCrate} {BL : BytesLaws B}.
Context {F : FlumeCrate} {FL : FlumeLaws F} {N : NotifyCrate}.
Context {M : Type -> Type} `{FinMap Z M}.
Implicit Types s : Session M.

(** The data channel number [k] of a session. *)
Definition chan (s : Session M) (k : nat) : ChanView bytes :=
  view (data_channel k (s_shared s)).

Record session_wf (s : Session M) : Prop := {
  (* every entry has its own channel, which exists *)
  wf_alloc id e : s_streams s !! id = Some e -> (ss_data_tx e < sh_next (s_shared s))%nat;
  wf_inj id id' e e' :
    s_streams s !! id = Some e -> s_streams s !! id' = Some e' ->
    ss_data_tx e = ss_data_tx e' -> id = id';
  (* the entry owns its only sender; data channels are unbounded *)
  wf_sender id e : s_streams s !! id = Some e -> senders (chan s (ss_data_tx e)) = 1%nat;
  wf_unbounded id e : s_streams s !! id = Some e -> capacity (chan s (ss_data_tx e)) = None;
  (* the flag of an entry is off as long as it is in the table *)
  wf_flag id e : s_streams s !! id = Some e -> ss_is_read_closed e = false;
  (* the session keeps the receiver of its accept queue *)
  wf_incoming : receivers (view (s_incoming s)) <> 0%nat;
  wf_accept_queue : capacity (view (s_incoming s)) = Some 16;
}.

(** What has arrived for an open stream and has not been taken by its reader. *)
Definition inbox (s : Session M) (id : Z) : option (list bytes) :=
  (fun e => queue (chan s (ss_data_tx e))) <$> s_streams s !! id.

Lemma session_new_wf cfg role : session_wf (session_new cfg role).
Proof.
  assert (He : forall id, s_streams (session_new (M := M) cfg role) !! id = None)
    by (intros id; apply lookup_empty).
  split; try (intros id ?; rewrite He; done); try (intros id id' ? ?; rewrite He; done);
    simpl; rewrite bounded_view by lia; simpl; congruence.
Qed.

Lemma chan_set_ne s k k' c :
  k <> k' ->
  chan (set_shared (set_data_channel k c (s_shared s)) s) k' = chan s k'.
Proof. intros Hk. unfold chan. simpl. by rewrite data_channel_set_ne. Qed.

Lemma chan_set s k c :
  chan (set_shared (set_data_channel k c (s_shared s)) s) k = view c.
Proof. unfold chan. simpl. by rewrite data_channel_set. Qed.

(** *** Dropping and removing entries *)
Lemma drop_entry_chan e s k :
  chan (drop_entry e s) k =
    match e with
    | Some e' => if decide (ss_data_tx e' = k) then
        mkChanView (queue (chan s k)) (capacity (chan s k)) (pred (senders (chan s k)))
          (receivers (chan s k)) else chan s k
    | None => chan s k
    end.
Proof.
  destruct e as [e|]; [|done]. simpl. case_decide as Hk.
  - subst k. rewrite chan_set. by rewrite sender_drop_view.
  - by apply chan_set_ne.
Qed.

Lemma drop_entry_queue e s k : queue (chan (drop_entry e s) k) = queue (chan s k).
Proof. rewrite drop_entry_chan. destruct e; [|done]. by case_decide. Qed.

Lemma drop_entry_streams e s : s_streams (drop_entry e s) = s_streams s.
Proof. by destruct e. Qed.

Lemma drop_entry_incoming e s : s_incoming (drop_entry e s) = s_incoming s.
Proof. by destruct e. Qed.

Lemma drop_entry_next e s : sh_next (s_shared (drop_entry e s)) = sh_next (s_shared s).
Proof. by destruct e. Qed.

Lemma inbox_drop_entry e s id : inbox (drop_entry e s) id = inbox s id.
Proof.
  unfold inbox. rewrite drop_entry_streams. destruct (s_streams s !! id); [|done].
  simpl. by rewrite drop_entry_queue.
Qed.

(** A table without entry [id], after its channel lost its sender. *)
Lemma delete_drop_wf s id e e' :
  session_wf s -> s_streams s !! id = Some e -> ss_data_tx e' = ss_data_tx e ->
  session_wf (drop_entry (Some e') (set_streams (delete id (s_streams s)) s)).
Proof.
  intros Hwf He Htx.
  assert (Hlk : forall i x, delete id (s_streams s) !! i = Some x ->
            i <> id /\ s_streams s !! i = Some x /\ ss_data_tx e' <> ss_data_tx x).
  { intros i x Hx. apply lookup_delete_Some in Hx as [Hne Hx]. split; [done|].
    split; [done|]. rewrite Htx. intros Heq. apply Hne. by eapply wf_inj. }
  split; rewrite ?drop_entry_streams, ?drop_entry_incoming, ?drop_entry_next; simpl.
  - intros i x Hx. apply Hlk in Hx as (_ & Hx & _). by eapply wf_alloc.
  - intros i i' x x' Hx Hx'. apply Hlk in Hx as (_ & Hx & _).
    apply Hlk in Hx' as (_ & Hx' & _). by eapply wf_inj.
  - intros i x Hx. apply Hlk in Hx as (_ & Hx & Hd).
    change (senders (chan (drop_entry (Some e') (set_streams (delete id (s_streams s)) s))
              (ss_data_tx x)) = 1%nat).
    rewrite drop_entry_chan, decide_False by done. by apply (wf_sender s Hwf i).
  - intros i x Hx. apply Hlk in Hx as (_ & Hx & Hd).
    change (capacity (chan (drop_entry (Some e') (set_streams (delete id (s_streams s)) s))
              (ss_data_tx x)) = None).
    rewrite drop_entry_chan, decide_False by done. by apply (wf_unbounded s Hwf i).
  - intros i x Hx. apply Hlk in Hx as (_ & Hx & _). by eapply wf_flag.
  - by apply wf_incoming.
  - by apply wf_accept_queue.
Qed.

Lemma inbox_delete s id i :
  inbox (set_streams (delete id (s_streams s)) s) i
  = if decide (i = id) then None else inbox s i.
Proof.
  unfold inbox. simpl. case_decide as Hi.
  - subst. by rewrite lookup_delete_eq.
  - by rewrite lookup_delete_ne by done.
Qed.

Lemma remove_stream_wf s id : session_wf s -> session_wf (remove_stream id s).
Proof.
  intros Hwf. unfold remove_stream. destruct (s_streams s !! id) as [e|] eqn:He.
  - by eapply delete_drop_wf.
  - simpl. rewrite delete_id by done. by destruct s.
Qed.

Lemma inbox_remove s id i :
  inbox (remove_stream id s) i = if decide (i = id) then None else inbox s i.
Proof. unfold remove_stream. by rewrite inbox_drop_entry, inbox_delete. Qed.

(** *** Registering a stream *)
Definition with_channel (s : Session M) : Session M :=
  set_shared (clone_frame_tx (new_data_channel (s_shared s)).2) s.

Lemma register_stream_eq id s :
  register_stream id s
  = (stream_new id (sh_next (s_shared s)) (s_config s),
     insert_stream id (mkStreamState (sh_next (s_shared s)) false) (with_channel s)).
Proof. done. Qed.

Lemma with_channel_chan s k :
  chan (with_channel s) k
  = if decide (k = sh_next (s_shared s)) then mkChanView [] None 1 1 else chan s k.
Proof.
  unfold chan, data_channel. simpl. case_decide as Hk.
  - subst k. by rewrite lookup_insert_eq; simpl; rewrite unbounded_view.
  - by rewrite lookup_insert_ne by done.
Qed.

(** What the new session looks like: the entry is fresh, the others keep theirs. *)
Lemma registered_chan id s i e :
  session_wf s -> s_streams (register_stream id s).2 !! i = Some e ->
  (i = id /\ e = mkStreamState (sh_next (s_shared s)) false /\
     chan (register_stream id s).2 (ss_data_tx e) = mkChanView [] None 1 1) \/
  (i <> id /\ s_streams s !! i = Some e /\
     chan (register_stream id s).2 (ss_data_tx e) = chan s (ss_data_tx e)).
Proof.
  intros Hwf. rewrite register_stream_eq. unfold insert_stream.
  cbn [snd]. rewrite drop_entry_streams. simpl. rewrite drop_entry_chan.
  intros Hi. apply lookup_insert_Some in Hi as [[<- <-]|[Hne Hi]].
  - left. split; [done|]. split; [done|]. simpl.
    assert (Hc : chan (set_streams (<[id:=mkStreamState (sh_next (s_shared s)) false]>
                    (s_streams s)) (with_channel s)) (sh_next (s_shared s))
                 = mkChanView [] None 1 1).
    { change (chan (with_channel s) (sh_next (s_shared s)) = mkChanView [] None 1 1).
      by rewrite with_channel_chan, decide_True. }
    destruct (s_streams s !! id) as [old|] eqn:Hold; [|done].
    pose proof (wf_alloc s Hwf id old Hold). by rewrite decide_False by lia.
  - right. split; [done|]. split; [done|].
    assert (Hc : chan (set_streams (<[id:=mkStreamState (sh_next (s_shared s)) false]>
                    (s_streams s)) (with_channel s)) (ss_data_tx e)
                 = chan s (ss_data_tx e)).
    { change (chan (with_channel s) (ss_data_tx e) = chan s (ss_data_tx e)).
      pose proof (wf_alloc s Hwf i e Hi). by rewrite with_channel_chan, decide_False by lia. }
    destruct (s_streams s !! id) as [old|] eqn:Hold; [|done].
    rewrite decide_False; [done|]. intros Heq. apply Hne. by eapply wf_inj.
Qed.

Lemma register_shared id s :
  sh_next (s_shared (register_stream id s).2) = S (sh_next (s_shared s)) /\
  s_incoming (register_stream id s).2 = s_incoming s /\
  sh_state (s_shared (register_stream id s).2) = sh_state (s_shared s).
Proof.
  rewrite register_stream_eq. unfold insert_stream. simpl.
  by destruct (s_streams s !! id).
Qed.

Lemma register_wf id s : session_wf s -> session_wf (register_stream id s).2.
Proof.
  intros Hwf. pose proof (register_shared id s) as (Hn & Hinc & _).
  split; rewrite ?Hn, ?Hinc; try apply Hwf; intros i.
  - intros e Hi. apply registered_chan in Hi as [(_ & -> & _)|(_ & Hi & _)];
      [simpl; lia| |done]. pose proof (wf_alloc s Hwf i e Hi). lia.
  - intros i' e e' Hi Hi' Heq.
    apply registered_chan in Hi as [(-> & -> & _)|(_ & Hi & _)]; [| |done];
    apply registered_chan in Hi' as [(-> & -> & _)|(_ & Hi' & _)]; try done;
      simpl in Heq.
    + pose proof (wf_alloc s Hwf i' e' Hi'). lia.
    + pose proof (wf_alloc s Hwf i e Hi). lia.
    + by eapply (wf_inj s Hwf).
  - intros e Hi. apply registered_chan in Hi as [(_ & _ & ->)|(_ & Hi & ->)]; [done| |done].
    by apply (wf_sender s Hwf i).
  - intros e Hi. apply registered_chan in Hi as [(_ & _ & ->)|(_ & Hi & ->)]; [done| |done].
    by apply (wf_unbounded s Hwf i).
  - intros e Hi. apply registered_chan in Hi as [(_ & -> & _)|(_ & Hi & _)]; [done| |done].
    by apply (wf_flag s Hwf i).
Qed.

Lemma inbox_register id s i :
  session_wf s ->
  inbox (register_stream id s).2 i = if decide (i = id) then Some [] else inbox s i.
Proof.
  intros Hwf. unfold inbox.
  destruct (s_streams (register_stream id s).2 !! i) as [e|] eqn:Hi.
  - destruct (registered_chan id s i e Hwf Hi) as [(-> & -> & Hc)|(Hne & Hi' & Hc)].
    + rewrite decide_True by done. unfold fmap, option_fmap, option_map.
      by rewrite Hc.
    + rewrite decide_False by done. rewrite Hi'. unfold fmap, option_fmap, option_map.
      by rewrite Hc.
  - rewrite register_stream_eq in Hi. unfold insert_stream in Hi.
    simpl in Hi. rewrite drop_entry_streams in Hi. simpl in Hi.
    apply lookup_insert_None in Hi as [Hi Hne].
    rewrite decide_False by congruence. by rewrite Hi.
Qed.
End table.

(** ** Dispatch of incoming frames, abstractly

    The abstract session is, for each stream identifier, the chunks that arrived for an
    open stream and were not taken yet.  [live] tells whether the reader of the stream
    the frame is for still exists. *)
Section abstract_session.
Definition inboxes : Type := Z -> option (list bytes).

Definition set_inbox (id : Z) (v : option (list bytes)) (a : inboxes) : inboxes :=
  fun i => if decide (i = id) then v else a i.

(** The identifiers a session of this role accepts from its peer. *)
Definition peer_id (is_client : bool) (id : Z) : bool :=
  negb (id =? 0) && (id mod 2 =? (if is_client then 0 else 1)).

Definition spec_frame (is_client live : bool) (f : Frame) (a : inboxes) : inboxes :=
  let id := stream_id f in
  match cmd f with
  | Syn => if peer_id is_client id then
             match a id with None => set_inbox id (Some []) a | Some _ => a end
           else a
  | Fin => set_inbox id None a
  | Psh => match a id, data f with
           | None, _ | _, [] => a
           | Some q, d => set_inbox id (if live then Some (q ++ [d]) else None) a
           end
  | Nop | Upd _ _ => a
  end.

Definition spec_result (is_client : bool) (f : Frame) (a : inboxes) : Result unit :=
  let id := stream_id f in
  match cmd f with
  | Syn => if peer_id is_client id then
             match a id with
             | None => Ok tt
             | Some _ => Err (StreamAlreadyExists id)
             end
           else Err (InvalidStreamId id)
  | _ => Ok tt
  end.

(** Only the stream a frame is for can change, and equal abstract sessions stay
    equal. *)
Lemma spec_frame_other c l f a i : i <> stream_id f -> spec_frame c l f a i = a i.
Proof.
  intros Hi. unfold spec_frame, set_inbox.
  repeat (split_goal_match; simplify_eq; try done).
Qed.

#[export] Instance spec_frame_proper c l f :
  Proper (pointwise_relation Z eq ==> pointwise_relation Z eq) (spec_frame c l f).
Proof.
  intros a a' Ha i. unfold spec_frame, set_inbox. rewrite (Ha (stream_id f)).
  repeat (split_goal_match; simplify_eq; try done); apply Ha.
Qed.
End abstract_session.

Section dispatch.
Context {B : BytesCrate} {BL : BytesLaws B}.
Context {F : FlumeCrate} {FL : FlumeLaws F} {N : NotifyCrate}.
Context {M : Type -> Type} `{FinMap Z M}.
Implicit Types s : Session M.

Definition reader_alive (s : Session M) (id : Z) : bool :=
  match s_streams s !! id with
  | Some e => negb (Nat.eqb (receivers (chan s (ss_data_tx e))) 0)
  | None => true
  end.

Lemma validate_peer_peer_id s id :
  validate_peer_stream_id s id
  = if peer_id (s_is_client s) id then Ok tt else Err (InvalidStreamId id).
Proof.
  unfold validate_peer_stream_id, peer_id.
  destruct (id =? 0); simpl; [done|]. by destruct (_ =? _).
Qed.

Lemma inbox_None s id : inbox s id = None <-> s_streams s !! id = None.
Proof. unfold inbox. by rewrite fmap_None. Qed.

(** Changing the accept queue changes no stream. *)
Lemma set_incoming_wf s c :
  session_wf s -> receivers (view c) = receivers (view (s_incoming s)) ->
  capacity (view c) = capacity (view (s_incoming s)) -> session_wf (set_incoming c s).
Proof.
  intros Hwf Hr Hc. split; try apply Hwf; simpl.
  - rewrite Hr. apply Hwf.
  - rewrite Hc. apply Hwf.
Qed.

(** [h] is what a handler may answer when the specification answers [r]: the same,
    or, for an accepted SYN, waiting for room in the accept queue. *)
Definition answers (f : Frame) (r : Result unit) (h : Handling) : Prop :=
  h = Done r \/ (cmd f = Syn /\ r = Ok tt /\ exists stream, h = Await (SynSending stream)).

Lemma syn_send_spec stream s :
  session_wf s ->
  let '(h, s') := syn_send stream s in
  (h = Done (Ok tt) \/ h = Await (SynSending stream)) /\
  session_wf s' /\ session_state s' = session_state s /\
  s_is_client s' = s_is_client s /\
  (forall i, inbox s' i = inbox s i).
Proof.
  intros Hwf. pose proof (wf_incoming s Hwf) as Hr. unfold syn_send.
  assert (Hb : buffered (s_incoming s))
    by (unfold buffered; rewrite (wf_accept_queue s Hwf); lia).
  destruct (send_async_cases stream _ Hb) as [[Hs Hv]|[[Hs Hv]|[Hs Hv]]].
  - destruct (send_async stream _) as [r c]. simpl in Hs, Hv. subst r.
    split; [by left|]. split; [|done]. apply set_incoming_wf; [done|by rewrite Hv..].
  - destruct (send_async stream _) as [r c]. simpl in Hs, Hv. subst r.
    split; [by right|]. split; [|done]. apply set_incoming_wf; [done|by rewrite Hv..].
  - destruct (has_room_or_full _ Hb) as [Hroom|Hfull].
    + destruct (send_async_ok _ stream _ Hr Hroom) as [Hs' _]. congruence.
    + destruct (send_async_pending _ stream _ Hr Hfull) as [Hs' _]. congruence.
Qed.

Lemma handle_syn_spec f s :
  session_wf s -> cmd f = Syn ->
  let '(h, s') := handle_syn_frame f s in
  answers f (spec_result (s_is_client s) f (inbox s)) h /\
  session_wf s' /\ session_state s' = session_state s /\
  s_is_client s' = s_is_client s /\
  (forall i live, inbox s' i = spec_frame (s_is_client s) live f (inbox s) i).
Proof.
  intros Hwf Hc. unfold handle_syn_frame, spec_result, spec_frame.
  rewrite Hc, validate_peer_peer_id.
  destruct (peer_id _ _); [|by split; [left|]].
  destruct (s_streams s !! stream_id f) as [e|] eqn:He.
  { assert (Hin : is_Some (inbox s (stream_id f))) by (unfold inbox; rewrite He; eauto).
    destruct Hin as [q ->]. by split; [left|]. }
  rewrite (proj2 (inbox_None s _) He).
  destruct (register_stream (stream_id f) s) as [stream s1] eqn:Hreg.
  pose proof (register_wf (stream_id f) s Hwf) as Hwf1.
  pose proof (register_shared (stream_id f) s) as (_ & _ & Hst).
  pose proof (fun i => inbox_register (stream_id f) s i Hwf) as Hin.
  assert (Hcl : s_is_client s1 = s_is_client s).
  { pose proof (register_stream_eq (stream_id f) s) as Heq. rewrite Hreg in Heq.
    unfold insert_stream in Heq. simpl in Heq. rewrite He in Heq. by simplify_eq. }
  rewrite Hreg in *. simpl in *.
  pose proof (syn_send_spec stream s1 Hwf1) as Hs.
  destruct (syn_send stream s1) as [h s2]. destruct Hs as (Hh & Hwf2 & Hst2 & Hcl2 & Hin2).
  split; [destruct Hh as [->| ->]; [by left|right; eauto]|].
  split; [done|]. split; [unfold session_state in *; congruence|]. split; [congruence|].
  intros i _. rewrite Hin2, Hin. unfold set_inbox. by repeat case_decide.
Qed.

Lemma handle_fin_spec f s :
  session_wf s -> cmd f = Fin ->
  let '(h, s') := handle_fin_frame f s in
  answers f (spec_result (s_is_client s) f (inbox s)) h /\
  session_wf s' /\ session_state s' = session_state s /\
  s_is_client s' = s_is_client s /\
  (forall i live, inbox s' i = spec_frame (s_is_client s) live f (inbox s) i).
Proof.
  intros Hwf Hc. unfold handle_fin_frame, spec_result, spec_frame. rewrite Hc.
  destruct (s_streams s !! stream_id f) as [e|] eqn:He.
  - split; [by left|]. split; [by eapply delete_drop_wf|]. split; [done|].
    split; [done|]. intros i _. rewrite inbox_drop_entry, inbox_delete.
    unfold set_inbox. by repeat case_decide.
  - split; [by left|]. split; [done|]. split; [done|]. split; [done|].
    intros i _. unfold set_inbox. case_decide; [|done]. subst i. by apply inbox_None.
Qed.

(** Replacing a data channel by one with the same sender and capacity. *)
Lemma set_channel_wf s k c :
  session_wf s -> senders (view c) = senders (chan s k) ->
  capacity (view c) = capacity (chan s k) ->
  session_wf (set_shared (set_data_channel k c (s_shared s)) s).
Proof.
  intros Hwf Hse Hca.
  assert (Hch : forall k', senders (chan (set_shared (set_data_channel k c (s_shared s)) s) k')
                   = senders (chan s k') /\
                capacity (chan (set_shared (set_data_channel k c (s_shared s)) s) k')
                   = capacity (chan s k')).
  { intros k'. destruct (Nat.eq_dec k k') as [<-|Hne].
    - by rewrite chan_set.
    - by rewrite chan_set_ne. }
  split; try apply Hwf; intros id e He; simpl in He.
  - rewrite (proj1 (Hch _)). by apply (wf_sender s Hwf id).
  - rewrite (proj2 (Hch _)). by apply (wf_unbounded s Hwf id).
Qed.

Lemma inbox_set_channel s id e c i :
  session_wf s -> s_streams s !! id = Some e ->
  inbox (set_shared (set_data_channel (ss_data_tx e) c (s_shared s)) s) i
  = set_inbox id (Some (queue (view c))) (inbox s) i.
Proof.
  intros Hwf He. unfold inbox, set_inbox. simpl. case_decide as Hi.
  - subst i. rewrite He. unfold fmap, option_fmap, option_map. by rewrite chan_set.
  - destruct (s_streams s !! i) as [e'|] eqn:He'; [|done].
    unfold fmap, option_fmap, option_map. rewrite chan_set_ne; [done|].
    intros Heq. apply Hi. by eapply (wf_inj s Hwf).
Qed.

Lemma update_state_wf g s : session_wf s -> session_wf (update_state g s).
Proof. intros Hwf. split; apply Hwf. Qed.

(** Data for an open stream whose reader exists is queued for it. *)
Lemma psh_send_alive f e s :
  session_wf s -> s_streams s !! stream_id f = Some e ->
  receivers (chan s (ss_data_tx e)) <> 0%nat ->
  let '(h, s') := psh_send f (ss_data_tx e) s in
  h = Done (Ok tt) /\ session_wf s' /\ session_state s' = session_state s /\
  s_is_client s' = s_is_client s /\
  (forall i, inbox s' i =
    set_inbox (stream_id f) (Some (queue (chan s (ss_data_tx e)) ++ [data f])) (inbox s) i).
Proof.
  intros Hwf He Hr. unfold psh_send.
  assert (Hroom : has_room (chan s (ss_data_tx e)) = true)
    by (unfold has_room; by rewrite (wf_unbounded s Hwf _ _ He)).
  destruct (send_async_ok _ (data f) _ Hr Hroom) as [Hs Hv].
  destruct (send_async _ _) as [r c]. simpl in Hs, Hv. subst r.
  split; [done|]. split; [apply set_channel_wf; [done|by rewrite Hv..]|].
  split; [done|]. split; [done|]. intros i.
  rewrite (inbox_set_channel s (stream_id f) e c i Hwf He), Hv. done.
Qed.

(** Data for a stream whose reader is gone removes the stream and gives back tokens. *)
Lemma psh_send_dead f e s :
  session_wf s -> s_streams s !! stream_id f = Some e ->
  receivers (chan s (ss_data_tx e)) = 0%nat ->
  let '(h, s') := psh_send f (ss_data_tx e) s in
  h = Done (Ok tt) /\ session_wf s' /\
  session_state s' = return_tokens (data_len f) (session_state s) /\
  s_is_client s' = s_is_client s /\
  (forall i, inbox s' i = set_inbox (stream_id f) None (inbox s) i).
Proof.
  intros Hwf He Hr. unfold psh_send.
  destruct (send_async_disconnected _ (data f) _ Hr) as [Hs Hv].
  destruct (send_async _ _) as [r c]. simpl in Hs, Hv. subst r. split; [done|].
  set (s1 := set_shared (set_data_channel (ss_data_tx e) c (s_shared s)) s).
  assert (Hwf1 : session_wf s1) by (apply set_channel_wf; [done|by rewrite Hv..]).
  split; [by apply remove_stream_wf, update_state_wf|].
  split; [unfold remove_stream; simpl; by rewrite He|].
  split; [unfold remove_stream; simpl; by rewrite He|].
  intros i. rewrite inbox_remove. unfold set_inbox.
  destruct (decide (i = stream_id f)) as [Hi|Hi]; repeat case_decide; try done.
  change (inbox s1 i = inbox s i). unfold s1.
  rewrite (inbox_set_channel s (stream_id f) e c i Hwf He). unfold set_inbox.
  by rewrite decide_False.
Qed.

(** With tokens left, a PSH frame is handled at once. *)
Lemma handle_psh_spec f s :
  session_wf s -> cmd f = Psh -> 0 < tokens (session_state s) ->
  let '(h, s') := handle_psh_frame f s in
  answers f (spec_result (s_is_client s) f (inbox s)) h /\
  session_wf s' /\ (session_state s' = session_state s \/
                   session_state s' = return_tokens (data_len f) (session_state s)) /\
  s_is_client s' = s_is_client s /\
  (forall i, inbox s' i =
    spec_frame (s_is_client s) (reader_alive s (stream_id f)) f (inbox s) i).
Proof.
  intros Hwf Hc Ht. unfold handle_psh_frame, psh_loop, get_tokens, spec_result, spec_frame.
  rewrite Hc. unfold data_len.
  destruct (data f) as [|b d] eqn:Hd.
  { simpl. split; [by left|]. split; [done|]. split; [by left|]. split; [done|].
    intros i. by destruct (inbox s (stream_id f)). }
  rewrite (proj2 (Z.eqb_neq _ 0)) by (unfold blen; simpl; lia).
  rewrite Z.gtb_ltb, (proj2 (Z.ltb_lt _ _) Ht). unfold psh_process, reader_alive.
  destruct (s_streams s !! stream_id f) as [e|] eqn:He.
  - assert (Hin : inbox s (stream_id f) = Some (queue (chan s (ss_data_tx e))))
      by (unfold inbox; by rewrite He).
    rewrite Hin. destruct (Nat.eqb_spec (receivers (chan s (ss_data_tx e))) 0) as [Hr|Hr].
    + pose proof (psh_send_dead f e s Hwf He Hr) as Hs.
      destruct (psh_send _ _ _) as [h s'].
      destruct Hs as (-> & Hwf' & Hst & Hcl & Hin'). unfold data_len in Hst.
      rewrite Hd in Hst. split; [by left|]. auto.
    + pose proof (psh_send_alive f e s Hwf He Hr) as Hs.
      destruct (psh_send _ _ _) as [h s'].
      destruct Hs as (-> & Hwf' & Hst & Hcl & Hin'). rewrite Hd in Hin'.
      split; [by left|]. auto.
  - rewrite (proj2 (inbox_None s _) He). split; [by left|].
    split; [by apply update_state_wf|]. split; [right|done].
    unfold data_len. by rewrite Hd.
Qed.
End dispatch.

(** ** Flow control

    Every operation of a session and of its streams, as a labelled step: the label
    bounds the bytes the step may return tokens for (the data of a frame, the room in a
    reader's buffer). *)
Section tokens.
Context {B : BytesCrate} {BL : BytesLaws B}.
Context {F : FlumeCrate} {N : NotifyCrate}.
Context {R : ReadBufCrate} {RL : ReadBufLaws R}.
Context {M : Type -> Type} `{FinMap Z M}.
Implicit Types s : Session M.

Definition future_len (fut : FrameFuture) : Z :=
  match fut with
  | SynSending _ => 0
  | PshWaiting f _ _ | PshSending f _ => data_len f
  end.

(** A handler that awaits a data channel holds a reference to its table entry. *)
Definition future_valid (fut : FrameFuture) s : Prop :=
  match fut with
  | PshSending f k => exists e, s_streams s !! stream_id f = Some e /\ ss_data_tx e = k
  | _ => True
  end.

(** A step of the session by one of its own operations or tasks, or by a user of one
    of its streams (any stream value).  [do_frames] is any operation of the tasks on
    the outgoing frame channel. *)
Inductive session_step s : Z -> Session M -> Prop :=
| do_open fut : session_step s 0 (open_stream fut s).2
| do_accept cf fut : session_step s 0 (accept_stream cf fut s).2
| do_close : session_step s 0 (session_close s).2
| do_frame f : session_step s (data_len f) (handle_frame f s).2
| do_resume cf fut :
    future_valid fut s -> session_step s (future_len fut) (resume_frame cf fut s).2
| do_mark : session_step s 0 (update_state mark_data_received s)
| do_check :
    session_step s 0 (update_state (fun st => (check_and_reset_data_received st).2) s)
| do_frames c : session_step s 0 (set_shared (set_frames c (s_shared s)) s)
| do_read st buf :
    session_step s (remaining buf)
      (set_shared (rp_shared (poll_read st (s_shared s) buf)) s)
| do_write st d :
    session_step s 0 (set_shared (wp_shared (poll_write st (s_shared s) d)) s)
| do_shutdown st :
    session_step s 0 (set_shared (wp_shared (poll_shutdown st (s_shared s))) s)
| do_stream_close fut st :
    session_step s 0 (set_shared (close_poll fut st (s_shared s)).2 s)
| do_drop st : session_step s 0 (set_shared (stream_drop st (s_shared s)) s).

Inductive token_trace s : Z -> Session M -> Prop :=
| tokens_start : token_trace s 0 s
| tokens_step r s1 n s2 :
    token_trace s r s1 -> session_step s1 n s2 -> token_trace s (r + n) s2.

(** The state is unchanged as far as tokens go, or some of [n] tokens came back. *)
Definition tokens_back (n : Z) (st st' : SessionState) : Prop :=
  tokens st' = tokens st \/ exists k, 0 <= k <= n /\ tokens st' = tokens (return_tokens k st).

Lemma session_state_shared sh s : session_state (set_shared sh s) = sh_state sh.
Proof. done. Qed.

Lemma drop_entry_state e s : session_state (drop_entry e s) = session_state s.
Proof. by destruct e. Qed.

Lemma insert_stream_state id e s : session_state (insert_stream id e s) = session_state s.
Proof. unfold insert_stream. by rewrite drop_entry_state. Qed.

Lemma remove_stream_state id s : session_state (remove_stream id s) = session_state s.
Proof. unfold remove_stream. by rewrite drop_entry_state. Qed.

Lemma stream_drop_state st sh : sh_state (stream_drop st sh) = sh_state sh.
Proof. unfold stream_drop. destruct (st_is_write_closed st); simpl; [done|].
  by destruct (try_send _ _). Qed.

Lemma next_stream_id_session_state s :
  session_state (next_stream_id s).2 = session_state s.
Proof. rewrite next_stream_id_state. done. Qed.

Lemma open_send_state st f s : session_state (open_send st f s).2 = session_state s.
Proof.
  unfold open_send. destruct (send_async _ _) as [r c].
  destruct r as [[]|]; simpl; try done. by rewrite session_state_shared, stream_drop_state.
Qed.

Lemma open_stream_state fut s : session_state (open_stream fut s).2 = session_state s.
Proof.
  destruct fut; simpl; [|apply open_send_state|done].
  destruct (is_closed _); [done|].
  pose proof (next_stream_id_session_state s) as Hn.
  destruct (next_stream_id s) as [[id| |] s1]; simpl in Hn; [|done..].
  rewrite open_send_state, insert_stream_state. simpl. done.
Qed.

Lemma accept_stream_state cf fut s : session_state (accept_stream cf fut s).2 = session_state s.
Proof.
  assert (Hsel : forall c, session_state (accept_select cf c s).2 = session_state s).
  { intros c. unfold accept_select. destruct (_ && _); [done|].
    destruct (recv_async _) as [r ch].
    destruct r as [[]|]; simpl; try done. by destruct (is_notified _ _). }
  destruct fut; simpl; [|apply Hsel|done]. destruct (is_closed _); [done|apply Hsel].
Qed.

Lemma syn_send_state st s : session_state (syn_send st s).2 = session_state s.
Proof.
  unfold syn_send. destruct (send_async _ _) as [r c].
  destruct r as [[]|]; simpl; try done.
  by rewrite remove_stream_state, session_state_shared, stream_drop_state.
Qed.

Lemma psh_send_state f k s :
  session_state (psh_send f k s).2 = session_state s \/
  session_state (psh_send f k s).2 = return_tokens (data_len f) (session_state s).
Proof.
  unfold psh_send. destruct (send_async _ _) as [r c].
  destruct r as [[]|]; simpl; auto. right. by rewrite remove_stream_state.
Qed.

Lemma psh_loop_state f s :
  0 < tokens (session_state s) ->
  session_state (psh_loop f s).2 = session_state s \/
  session_state (psh_loop f s).2 = return_tokens (data_len f) (session_state s).
Proof.
  intros Ht. unfold psh_loop, get_tokens. rewrite Z.gtb_ltb, (proj2 (Z.ltb_lt _ _) Ht).
  unfold psh_process. destruct (_ !! _); [apply psh_send_state|by right].
Qed.

(** A read returns the tokens of what it copies, and does nothing else to the state. *)
Lemma poll_read_sh_state st sh buf :
  let sh' := rp_shared (poll_read st sh buf) in
  sh_state sh' = sh_state sh \/
  exists k, 0 <= k <= remaining buf /\ sh_state sh' = return_tokens k (sh_state sh).
Proof.
  cbv zeta.
  assert (Hcopy : forall c sh0 c' buf' sh',
    sh_state sh0 = sh_state sh ->
    (Z.min (blen c) (remaining buf) >? 0) = true ->
    copy_out (Z.min (blen c) (remaining buf)) c buf sh0 = Some (c', buf', sh') ->
    exists k, 0 <= k <= remaining buf /\ sh_state sh' = return_tokens k (sh_state sh)).
  { intros c sh0 c' buf' sh' Hsh Hpos Hco. zbool. unfold copy_out in Hco.
    destruct (split_to _ _) as [[d rest]|]; [|done].
    destruct (rb_put_slice _ _); [|done]. injection Hco as _ _ <-.
    exists (Z.min (blen c) (remaining buf)). split; [lia|]. simpl. by rewrite Hsh. }
  assert (Hchan : let sh' := rp_shared (poll_read_channel st sh buf) in
    sh_state sh' = sh_state sh \/
    exists k, 0 <= k <= remaining buf /\ sh_state sh' = return_tokens k (sh_state sh)).
  { cbv zeta. unfold poll_read_channel. destruct (try_recv _) as [r ch].
    destruct r as [chunk|[]|]; try (by left).
    - destruct (_ >? 0) eqn:Hpos; [|by left].
      destruct (copy_out _ _ _ _) as [[[c' buf'] sh']|] eqn:Hco; [|by left].
      apply (Hcopy _ (set_data_channel (st_data_rx st) ch sh) _ _ _ eq_refl Hpos) in Hco.
      by right.
    - destruct (st_is_read_closed st); by left. }
  unfold poll_read. destruct (st_is_read_closed st); [by left|].
  destruct (is_closed _); [by left|].
  destruct (st_current_chunk st) as [c|]; [|done].
  destruct (_ >? 0) eqn:Hpos; [|done].
  destruct (copy_out _ _ _ _) as [[[c' buf'] sh']|] eqn:Hco; [|by left].
  apply (Hcopy _ _ _ _ _ eq_refl Hpos) in Hco. by right.
Qed.

Lemma poll_read_state st sh buf :
  tokens_back (remaining buf) (sh_state sh) (sh_state (rp_shared (poll_read st sh buf))).
Proof.
  destruct (poll_read_sh_state st sh buf) as [->|(k & Hk & ->)]; [by left|right; eauto].
Qed.

Lemma poll_write_state st sh d : sh_state (wp_shared (poll_write st sh d)) = sh_state sh.
Proof. unfold poll_write. repeat (split_goal_match; simpl; try done). Qed.

Lemma poll_shutdown_state st sh : sh_state (wp_shared (poll_shutdown st sh)) = sh_state sh.
Proof. unfold poll_shutdown. repeat (split_goal_match; simpl; try done). Qed.

Lemma close_poll_state fut st sh : sh_state (close_poll fut st sh).2 = sh_state sh.
Proof.
  unfold close_poll, close_send.
  repeat (split_goal_match; simplify_eq; simpl; try done);
    repeat (split_hyp_match; simplify_eq; simpl; try done).
Qed.

#[local] Hint Rewrite session_state_shared open_stream_state accept_stream_state
  syn_send_state poll_write_state poll_shutdown_state close_poll_state
  stream_drop_state : smux_rw.

Lemma tokens_back_return f st st' :
  st' = st \/ st' = return_tokens (data_len f) st -> tokens_back (data_len f) st st'.
Proof.
  intros [->| ->]; [by left|]. right. exists (data_len f). split; [|done].
  pose proof (blen_nonneg (data f)). unfold data_len. lia.
Qed.

(** Handling a frame with tokens left returns its tokens, or touches no state. *)
Lemma handle_frame_state f s :
  0 < tokens (session_state s) ->
  session_state (handle_frame f s).2 = session_state s \/
  session_state (handle_frame f s).2 = return_tokens (data_len f) (session_state s).
Proof.
  intros Ht. unfold handle_frame. destruct (cmd f); try (by left).
  - left. unfold handle_syn_frame. destruct (validate_peer_stream_id _ _); try done.
    destruct (_ !! _); [done|].
    pose proof (register_shared (stream_id f) s) as (_ & _ & Hst).
    destruct (register_stream _ _) as [st s1]. simpl in Hst.
    rewrite syn_send_state. unfold session_state in *. by rewrite Hst.
  - left. unfold handle_fin_frame. by destruct (_ !! _).
  - unfold handle_psh_frame. destruct (_ =? 0); [by left|]. by apply psh_loop_state.
Qed.

Lemma handle_frame_tokens f s :
  0 < tokens (session_state s) ->
  tokens_back (data_len f) (session_state s) (session_state (handle_frame f s).2).
Proof. intros Ht. by apply tokens_back_return, handle_frame_state. Qed.

Lemma resume_frame_tokens cf fut s :
  0 < tokens (session_state s) ->
  tokens_back (future_len fut) (session_state s) (session_state (resume_frame cf fut s).2).
Proof.
  intros Ht. destruct fut as [st|f r c|f k]; cbn [resume_frame future_len].
  - left. by autorewrite with smux_rw.
  - apply tokens_back_return. unfold psh_select.
    destruct (cf && _); [by right|]. destruct (is_notified _ r); [by apply psh_loop_state|].
    destruct (is_notified _ c); [by right|by left].
  - apply tokens_back_return, psh_send_state.
Qed.

Lemma session_step_tokens s n s' :
  0 < tokens (session_state s) -> session_step s n s' ->
  tokens_back n (session_state s) (session_state s').
Proof.
  intros Ht Hstep. destruct Hstep.
  - left. by autorewrite with smux_rw.
  - left. by autorewrite with smux_rw.
  - left. apply (state_close_tokens (session_state s)).
  - by apply handle_frame_tokens.
  - by apply resume_frame_tokens.
  - by left.
  - by left.
  - by left.
  - apply poll_read_state.
  - left. by autorewrite with smux_rw.
  - left. by autorewrite with smux_rw.
  - left. by autorewrite with smux_rw.
  - left. by autorewrite with smux_rw.
Qed.

Lemma session_step_label s n s' : session_step s n s' -> 0 <= n.
Proof.
  intros Hs. destruct Hs; try lia; try apply remaining_nonneg; try apply blen_nonneg.
  destruct fut; simpl; try lia; apply blen_nonneg.
Qed.

Lemma token_trace_bounds s r s' :
  0 < tokens (session_state s) -> token_trace s r s' ->
  tokens (session_state s) + r < 2 ^ 63 ->
  0 <= r /\
  tokens (session_state s) <= tokens (session_state s') <= tokens (session_state s) + r.
Proof.
  intros Ht Htr. induction Htr as [|r s1 n s2 Htr IH Hstep]; intros Hr; [lia|].
  pose proof (session_step_label _ _ _ Hstep) as Hn.
  destruct IH as [Hr0 IH]; [lia|]. split; [lia|].
  destruct (session_step_tokens s1 n s2) as [->|(k & Hk & ->)]; [lia|done|lia|].
  rewrite return_tokens_tokens, as_i64_id; [lia|]. unfold is_i64. lia.
Qed.

(** *** Closing

    No step opens a closed session, and only closing an open one notifies. *)
Definition same_closing (st st' : SessionState) : Prop :=
  die st' = die st /\ closed st' = closed st.

Lemma psh_send_closing f k s :
  same_closing (session_state s) (session_state (psh_send f k s).2).
Proof. by destruct (psh_send_state f k s) as [->| ->]. Qed.

Lemma psh_loop_closing f s :
  same_closing (session_state s) (session_state (psh_loop f s).2).
Proof.
  unfold psh_loop. destruct (_ >? 0); [|done]. unfold psh_process.
  destruct (_ !! _); [apply psh_send_closing|done].
Qed.

Lemma handle_frame_closing f s :
  same_closing (session_state s) (session_state (handle_frame f s).2).
Proof.
  unfold handle_frame. destruct (cmd f); try done.
  - unfold handle_syn_frame. destruct (validate_peer_stream_id _ _); try done.
    destruct (_ !! _); [done|].
    pose proof (register_shared (stream_id f) s) as (_ & _ & Hst).
    destruct (register_stream _ _) as [st s1]. simpl in Hst.
    rewrite syn_send_state. unfold session_state in *. by rewrite Hst.
  - unfold handle_fin_frame. by destruct (_ !! _).
  - unfold handle_psh_frame. destruct (_ =? 0); [done|apply psh_loop_closing].
Qed.

Lemma resume_frame_closing cf fut s :
  same_closing (session_state s) (session_state (resume_frame cf fut s).2).
Proof.
  destruct fut as [st|f r c|f k]; cbn [resume_frame].
  - by rewrite syn_send_state.
  - unfold psh_select. destruct (cf && _); [done|].
    destruct (is_notified _ r); [apply psh_loop_closing|]. by destruct (is_notified _ c).
  - apply psh_send_closing.
Qed.

Lemma session_step_closing s n s' :
  session_step s n s' ->
  same_closing (session_state s) (session_state s') \/
  session_state s' = state_close (session_state s).
Proof.
  intros Hstep. destruct Hstep; try (left; done).
  - left. by autorewrite with smux_rw.
  - left. by autorewrite with smux_rw.
  - by right.
  - left. apply handle_frame_closing.
  - left. apply resume_frame_closing.
  - left. rewrite session_state_shared.
    by destruct (poll_read_sh_state st (s_shared s) buf) as [->|(k & _ & ->)].
  - left. by autorewrite with smux_rw.
  - left. by autorewrite with smux_rw.
  - left. by autorewrite with smux_rw.
  - left. by autorewrite with smux_rw.
Qed.

Lemma token_trace_closed s r s' :
  closed (session_state s) = true -> token_trace s r s' ->
  same_closing (session_state s) (session_state s').
Proof.
  intros Hc Htr. induction Htr as [|r s1 n s2 Htr [Hd IH] Hstep]; [done|].
  destruct (session_step_closing _ _ _ Hstep) as [[Hd' Hc']| ->].
  - by split; [rewrite Hd', Hd|rewrite Hc', IH].
  - unfold state_close. rewrite IH, Hc. by split.
Qed.
End tokens.

(** ** The table invariant over every step *)
Section invariant.
Context {B : BytesCrate} {BL : BytesLaws B}.
Context {F : FlumeCrate} {FL : FlumeLaws F} {N : NotifyCrate}.
Context {R : ReadBufCrate} {RL : ReadBufLaws R}.
Context {M : Type -> Type} `{FinMap Z M}.
Implicit Types s : Session M.

Lemma try_recv_keeps {A} (c : channel A) :
  senders (view (try_recv c).2) = senders (view c) /\
  capacity (view (try_recv c).2) = capacity (view c) /\
  receivers (view (try_recv c).2) = receivers (view c).
Proof.
  destruct (queue (view c)) as [|m q] eqn:Hq.
  - destruct (decide (senders (view c) = 0%nat)) as [Hs|Hs].
    + by destruct (try_recv_disconnected _ c Hq Hs) as [_ ->].
    + by destruct (try_recv_empty _ c Hq Hs) as [_ ->].
  - by destruct (try_recv_ok _ m q c Hq) as [_ ->].
Qed.

Lemma recv_async_keeps {A} (c : channel A) :
  capacity (view (recv_async c).2) = capacity (view c) /\
  receivers (view (recv_async c).2) = receivers (view c).
Proof.
  destruct (queue (view c)) as [|m q] eqn:Hq.
  - destruct (decide (senders (view c) = 0%nat)) as [Hs|Hs].
    + by destruct (recv_async_disconnected _ c Hq Hs) as [_ ->].
    + by destruct (recv_async_empty _ c Hq Hs) as [_ ->].
  - by destruct (recv_async_ok _ m q c Hq) as [_ ->].
Qed.

(** The invariant only looks at the table, the accept queue and the data channels. *)
Lemma session_wf_shared s sh :
  session_wf s -> sh_data sh = sh_data (s_shared s) ->
  sh_next sh = sh_next (s_shared s) -> session_wf (set_shared sh s).
Proof.
  intros Hwf Hd Hn.
  assert (Hc : forall k, chan (set_shared sh s) k = chan s k)
    by (intros k; unfold chan, data_channel; simpl; by rewrite Hd).
  split; try apply Hwf; intros id e He; simpl in He; rewrite ?Hc; simpl; rewrite ?Hn.
  - by apply (wf_alloc s Hwf id).
  - by apply (wf_sender s Hwf id).
  - by apply (wf_unbounded s Hwf id).
Qed.

Lemma poll_read_wf st s buf :
  session_wf s -> session_wf (set_shared (rp_shared (poll_read st (s_shared s) buf)) s).
Proof.
  intros Hwf. set (k := st_data_rx st).
  set (s1 := set_shared (set_data_channel k (try_recv (data_channel k (s_shared s))).2
               (s_shared s)) s).
  destruct (try_recv_keeps (data_channel k (s_shared s))) as (Hse & Hca & _).
  assert (Hwf1 : session_wf s1) by (by apply set_channel_wf).
  assert (Hcopy : forall s0 n c c' buf' sh', session_wf s0 ->
    copy_out n c buf (s_shared s0) = Some (c', buf', sh') ->
    session_wf (set_shared sh' s0)).
  { intros s0 n c c' buf' sh' Hwf0 Hco. unfold copy_out in Hco.
    destruct (split_to _ _) as [[? ?]|]; [|done]. destruct (rb_put_slice _ _); [|done].
    injection Hco as _ _ <-. by apply session_wf_shared. }
  assert (Hch : session_wf (set_shared (rp_shared (poll_read_channel st (s_shared s) buf)) s)).
  { unfold poll_read_channel. fold k.
    destruct (try_recv (data_channel k (s_shared s))) as [r ch] eqn:E. simpl in s1.
    destruct r as [chunk|[]|]; try done.
    - destruct (_ >? 0); [|done].
      destruct (copy_out _ _ _ _) as [[[c' buf'] sh']|] eqn:Hco; [|done].
      by apply (Hcopy s1) in Hco.
    - by destruct (st_is_read_closed st). }
  assert (Hs : session_wf (set_shared (s_shared s) s)) by (by destruct s).
  unfold poll_read. destruct (st_is_read_closed st); [done|].
  destruct (is_closed _); [done|]. destruct (st_current_chunk st) as [c|]; [|done].
  destruct (_ >? 0); [|done].
  destruct (copy_out _ _ _ _) as [[[c' buf'] sh']|] eqn:Hco; [|done].
  by apply (Hcopy s) in Hco.
Qed.

Lemma stream_drop_wf st s :
  session_wf s -> session_wf (set_shared (stream_drop st (s_shared s)) s).
Proof.
  intros Hwf. unfold stream_drop. set (k := st_data_rx st).
  assert (Hd : forall c, data_channel k (set_frames c (s_shared s))
                 = data_channel k (s_shared s)) by done.
  assert (Hgo : forall fr, session_wf (set_shared (set_data_channel k
    (receiver_drop (data_channel k (s_shared s))) (set_frames fr (s_shared s))) s)).
  { intros fr. destruct (receiver_drop_view _ (data_channel k (s_shared s)))
      as (Hca & Hse & _).
    apply (set_channel_wf (set_shared (set_frames fr (s_shared s)) s) k); [|done..].
    by apply session_wf_shared. }
  destruct (st_is_write_closed st); simpl; [apply Hgo|].
  destruct (try_send _ _) as [r c]. apply Hgo.
Qed.

Lemma open_send_wf st f s : session_wf s -> session_wf (open_send st f s).2.
Proof.
  intros Hwf. unfold open_send. destruct (send_async _ _) as [r c].
  assert (Hwf1 : session_wf (set_shared (set_frames c (s_shared s)) s))
    by (by apply session_wf_shared).
  destruct r as [[]|]; simpl; try done. by apply (stream_drop_wf st) in Hwf1.
Qed.

Lemma next_id_wf s : session_wf s -> session_wf (next_stream_id s).2.
Proof. intros Hwf. rewrite next_stream_id_state. split; apply Hwf. Qed.

Lemma open_stream_wf fut s : session_wf s -> session_wf (open_stream fut s).2.
Proof.
  intros Hwf. destruct fut; simpl; [|by apply open_send_wf|done].
  destruct (is_closed _); [done|]. pose proof (next_id_wf s Hwf) as Hwf1.
  destruct (next_stream_id s) as [[id| |] s1]; simpl in Hwf1; [|done..].
  pose proof (register_wf id s1 Hwf1) as Hwf2.
  destruct (register_stream id s1) as [st s2] eqn:E. unfold register_stream in E.
  simpl in E, Hwf2. injection E as <- <-. by apply open_send_wf.
Qed.

Lemma accept_stream_wf cf fut s : session_wf s -> session_wf (accept_stream cf fut s).2.
Proof.
  intros Hwf.
  assert (Hsel : forall c, session_wf (accept_select cf c s).2).
  { intros c. unfold accept_select. destruct (_ && _); [done|].
    destruct (recv_async_keeps (s_incoming s)) as [Hca Hr].
    destruct (recv_async (s_incoming s)) as [r ch]. simpl in Hca, Hr.
    assert (session_wf (set_incoming ch s)) by (by apply set_incoming_wf).
    destruct r as [[]|]; try done. by destruct (is_notified _ _). }
  destruct fut; simpl; [|apply Hsel|done]. destruct (is_closed _); [done|apply Hsel].
Qed.

Lemma syn_send_wf st s : session_wf s -> session_wf (syn_send st s).2.
Proof.
  intros Hwf. pose proof (syn_send_spec st s Hwf) as Hs.
  destruct (syn_send st s). apply Hs.
Qed.

Lemma psh_send_wf f e s :
  session_wf s -> s_streams s !! stream_id f = Some e ->
  session_wf (psh_send f (ss_data_tx e) s).2.
Proof.
  intros Hwf He. destruct (decide (receivers (chan s (ss_data_tx e)) = 0%nat)) as [Hr|Hr].
  - pose proof (psh_send_dead f e s Hwf He Hr) as Hs.
    destruct (psh_send f _ s). apply Hs.
  - pose proof (psh_send_alive f e s Hwf He Hr) as Hs.
    destruct (psh_send f _ s). apply Hs.
Qed.

Lemma psh_loop_wf f s : session_wf s -> session_wf (psh_loop f s).2.
Proof.
  intros Hwf. unfold psh_loop. destruct (_ >? 0); [|by apply update_state_wf].
  unfold psh_process. destruct (s_streams s !! stream_id f) as [e|] eqn:He.
  - by apply psh_send_wf.
  - by apply update_state_wf.
Qed.

Lemma handle_frame_wf f s : session_wf s -> session_wf (handle_frame f s).2.
Proof.
  intros Hwf. unfold handle_frame. destruct (cmd f) eqn:Hc; try done.
  - pose proof (handle_syn_spec f s Hwf Hc) as Hs.
    destruct (handle_syn_frame f s). apply Hs.
  - pose proof (handle_fin_spec f s Hwf Hc) as Hs.
    destruct (handle_fin_frame f s). apply Hs.
  - unfold handle_psh_frame. destruct (_ =? 0); [done|]. by apply psh_loop_wf.
Qed.

Lemma resume_frame_wf cf fut s :
  session_wf s -> future_valid fut s -> session_wf (resume_frame cf fut s).2.
Proof.
  intros Hwf Hv. destruct fut as [st|f r c|f k]; cbn [resume_frame].
  - by apply syn_send_wf.
  - unfold psh_select. destruct (cf && _); [by apply update_state_wf|].
    destruct (is_notified _ r); [by apply psh_loop_wf|].
    destruct (is_notified _ c); [by apply update_state_wf|done].
  - destruct Hv as (e & He & <-). by apply psh_send_wf.
Qed.

Lemma close_poll_data fut st sh :
  sh_data (close_poll fut st sh).2 = sh_data sh /\
  sh_next (close_poll fut st sh).2 = sh_next sh.
Proof.
  unfold close_poll, close_send.
  repeat (split_goal_match; simplify_eq; simpl; try done);
    repeat (split_hyp_match; simplify_eq; simpl; try done).
Qed.
End invariant.

(** The preservation lemmas, for [eauto with smux]. *)
#[export] Hint Resolve session_new_wf update_state_wf register_wf remove_stream_wf next_id_wf
  open_send_wf open_stream_wf accept_stream_wf syn_send_wf psh_loop_wf handle_frame_wf
  resume_frame_wf poll_read_wf stream_drop_wf : smux.
