(* ===== verification/SessionProps.v ===== *)
(** * Properties of sessions

    The claims about sessions proved from SessionSpec.v, and the inputs that witness
    them. *)

From stdpp Require Import strings.
From S2P Require Import Prelude Crates Errors Config Command Frame SessionState Stream.
From S2P Require Import StreamSpec Session SessionSpec.

Section session_properties.
Context {B : BytesCrate} {BL : BytesLaws B}.
Context {F : FlumeCrate} {FL : FlumeLaws F} {N : NotifyCrate}.
Context {R : ReadBufCrate} {RL : ReadBufLaws R}.
Context {M : Type -> Type} `{FinMap Z M}.
Implicit Types s : Session M.

Lemma token_trace_wf cfg role r s :
  token_trace (session_new cfg role) r s -> session_wf s.
Proof.
  intros Htr. induction Htr as [|r s1 n s2 Htr IH Hstep]; [eauto with smux|].
  destruct Hstep; try (by eauto with smux); apply session_wf_shared; try done.
  - unfold poll_write. repeat (split_goal_match; simpl; try done).
  - unfold poll_write. repeat (split_goal_match; simpl; try done).
  - unfold poll_shutdown. repeat (split_goal_match; simpl; try done).
  - unfold poll_shutdown. repeat (split_goal_match; simpl; try done).
  - apply close_poll_data.
  - apply close_poll_data.
Qed.

(** C18: the stream table is well formed in every state a session reaches, by any
    interleaving of its own operations, its tasks, and reads, writes, closes and drops
    of its streams: each open stream has an existing data channel of its own, that
    channel is unbounded and has exactly one sender, the read-closed flag of an entry
    is off, and the session keeps the receiver of its 16-slot accept queue. *)
Theorem table_invariant cfg role r s :
  token_trace (session_new cfg role) r s -> session_wf s.
Proof. apply token_trace_wf. Qed.

(** C6: the frame handlers implement the abstract session, command by command.  From a
    well-formed session with tokens left, handling any frame gives exactly the inboxes
    of [spec_frame]: a SYN with a fresh identifier of the peer's parity opens an empty
    inbox and any other SYN changes nothing; a FIN removes the inbox; a PSH appends its
    data to the inbox of its stream, or removes a stream whose reader is gone, or is
    ignored when the stream is unknown or the data empty; NOP and UPD change nothing.
    The answer is that of the specification, except that an accepted SYN may wait for
    room in the accept queue, and the table stays well formed. *)
Theorem handle_frame_refines f s :
  session_wf s -> 0 < tokens (session_state s) ->
  let '(h, s') := handle_frame f s in
  session_wf s' /\
  answers f (spec_result (s_is_client s) f (inbox s)) h /\
  (forall i, inbox s' i =
     spec_frame (s_is_client s) (reader_alive s (stream_id f)) f (inbox s) i).
Proof.
  intros Hwf Ht. unfold handle_frame. destruct (cmd f) eqn:Hc.
  - pose proof (handle_syn_spec f s Hwf Hc) as Hs.
    destruct (handle_syn_frame f s). destruct Hs as (? & ? & _ & _ & ?). auto.
  - pose proof (handle_fin_spec f s Hwf Hc) as Hs.
    destruct (handle_fin_frame f s). destruct Hs as (? & ? & _ & _ & ?). auto.
  - pose proof (handle_psh_spec f s Hwf Hc Ht) as Hs.
    destruct (handle_psh_frame f s). destruct Hs as (? & ? & _ & _ & ?). auto.
  - split; [done|]. unfold spec_result, spec_frame. rewrite Hc. split; [by left|done].
  - split; [done|]. unfold spec_result, spec_frame. simpl. rewrite Hc. split; [by left|done].
Qed.

(** The token count starts at [max_receive_buffer] and never goes below it. *)
Lemma token_trace_label s r s' : token_trace s r s' -> 0 <= r.
Proof.
  intros Htr. induction Htr as [|r s1 n s2 Htr IH Hstep]; [done|].
  pose proof (session_step_label _ _ _ Hstep). lia.
Qed.

Lemma session_tokens_bounds cfg role r s :
  0 < max_receive_buffer cfg -> max_receive_buffer cfg + r < 2 ^ 63 ->
  token_trace (session_new cfg role) r s ->
  max_receive_buffer cfg <= tokens (session_state s) <= max_receive_buffer cfg + r.
Proof.
  intros Hpos Hmax Htr. pose proof (token_trace_label _ _ _ Htr) as Hr0.
  assert (Hinit : tokens (session_state (session_new (M := M) cfg role))
                  = max_receive_buffer cfg)
    by (simpl; apply as_i64_id; unfold is_i64; lia).
  destruct (token_trace_bounds (session_new cfg role) r s) as [_ Hb];
    rewrite ?Hinit; [lia|done|lia|]. by rewrite Hinit in Hb.
Qed.

(** C26: session flow control never engages.  Tokens are only taken on the path that
    runs when there are none, so in every state a session reaches the token count is
    at least [max_receive_buffer] (as long as the counter does not overflow), however
    much unread data is buffered, and the PSH handler never waits for tokens. *)
Theorem flow_control_inert cfg role r s :
  0 < max_receive_buffer cfg -> max_receive_buffer cfg + r < 2 ^ 63 ->
  token_trace (session_new cfg role) r s ->
  max_receive_buffer cfg <= tokens (session_state s) <= max_receive_buffer cfg + r /\
  (forall f fut, cmd f = Psh -> (handle_frame f s).1 <> Await fut).
Proof.
  intros Hpos Hmax Htr.
  split; [by apply (session_tokens_bounds cfg role r s)|].
  destruct (session_tokens_bounds cfg role r s Hpos Hmax Htr) as [Hb _].
  intros f fut Hc Hh.
  pose proof (token_trace_wf cfg role r s Htr) as Hwf.
  pose proof (handle_psh_spec f s Hwf Hc) as Hs. unfold handle_frame in Hh.
  rewrite Hc in Hh. destruct (handle_psh_frame f s) as [h s']. simpl in Hh. subst h.
  destruct Hs as ([Ha|(Ha & _)] & _); [lia|done|congruence].
Qed.

(** Handling frames one after the other. *)
Definition handle_all (fs : list Frame) s : Session M :=
  fold_left (fun s f => (handle_frame f s).2) fs s.

Lemma handle_psh_alive f e s :
  session_wf s -> cmd f = Psh -> data f <> [] -> 0 < tokens (session_state s) ->
  s_streams s !! stream_id f = Some e -> receivers (chan s (ss_data_tx e)) <> 0%nat ->
  let s' := (handle_frame f s).2 in
  (handle_frame f s).1 = Done (Ok tt) /\ session_wf s' /\
  session_state s' = session_state s /\ s_streams s' = s_streams s /\
  chan s' (ss_data_tx e) = enqueue (data f) (chan s (ss_data_tx e)).
Proof.
  intros Hwf Hc Hd Ht He Hr. cbv zeta. unfold handle_frame, handle_psh_frame, psh_loop.
  rewrite Hc. unfold data_len, get_tokens.
  rewrite (proj2 (Z.eqb_neq _ 0)) by (destruct (data f); [done|unfold blen; simpl; lia]).
  rewrite Z.gtb_ltb, (proj2 (Z.ltb_lt _ _) Ht). unfold psh_process. rewrite He.
  pose proof (psh_send_alive f e s Hwf He Hr) as Hs.
  assert (Hroom : has_room (chan s (ss_data_tx e)) = true)
    by (unfold has_room; by rewrite (wf_unbounded s Hwf _ _ He)).
  destruct (send_async_ok _ (data f) _ Hr Hroom) as [Hso Hv].
  unfold psh_send in *. destruct (send_async _ _) as [r c]. simpl in Hso, Hv. subst r.
  destruct Hs as (_ & Hwf' & _). simpl. split; [done|]. split; [done|].
  split; [done|]. split; [done|]. by rewrite chan_set.
Qed.

(** Nothing bounds what a peer can make a session buffer: any number of PSH frames
    for an open stream, of any total size, whatever [max_receive_buffer] is, are all
    accepted at once and queued in order behind what the stream has not read, and the
    session state, its token count included, does not change. *)
Theorem receive_buffer_unbounded id e fs s :
  session_wf s -> 0 < tokens (session_state s) ->
  s_streams s !! id = Some e -> receivers (chan s (ss_data_tx e)) <> 0%nat ->
  Forall (fun f => cmd f = Psh /\ stream_id f = id /\ data f <> []) fs ->
  session_state (handle_all fs s) = session_state s /\
  inbox (handle_all fs s) id
    = Some (queue (chan s (ss_data_tx e)) ++ map data fs).
Proof.
  intros Hwf Ht He Hr Hfs. revert s Hwf Ht He Hr.
  induction Hfs as [|f fs (Hc & Hid & Hd) _ IH]; intros s Hwf Ht He Hr.
  { simpl. rewrite app_nil_r. unfold inbox. by rewrite He. }
  rewrite <- Hid in He.
  destruct (handle_psh_alive f e s Hwf Hc Hd Ht He Hr) as (_ & Hwf' & Hst & Hs & Hch).
  destruct (IH (handle_frame f s).2) as [Hst' Hin];
    [done|by rewrite Hst|by rewrite Hs, <- Hid|by rewrite Hch|].
  change (handle_all (f :: fs) s) with (handle_all fs (handle_frame f s).2).
  rewrite Hst', Hin, Hch. simpl. by rewrite <- app_assoc.
Qed.

(** C32: a FIN from the peer ends the stream for its reader, after the data: handling
    it removes the stream from the table and leaves the bytes the reader has not read
    where they are, and from then on the reader's channel has no sender, so that once
    those bytes are read, reads report end of file. *)
Theorem fin_ends_stream f e st s :
  session_wf s -> cmd f = Fin -> s_streams s !! stream_id f = Some e ->
  st_data_rx st = ss_data_tx e ->
  let s' := (handle_frame f s).2 in
  (handle_frame f s).1 = Done (Ok tt) /\ session_wf s' /\
  inbox s' (stream_id f) = None /\ session_state s' = session_state s /\
  unread st (s_shared s') = unread st (s_shared s) /\ ~ peer_open st (s_shared s').
Proof.
  intros Hwf Hc He Hrx. cbv zeta. unfold handle_frame. rewrite Hc.
  pose proof (handle_fin_spec f s Hwf Hc) as Hs. unfold handle_fin_frame in *.
  rewrite He in *. cbn [fst snd] in *.
  set (s' := drop_entry _ _) in *. destruct Hs as (_ & Hwf' & Hst & _ & Hin).
  assert (Hch : chan s' (ss_data_tx e)
    = mkChanView (queue (chan s (ss_data_tx e))) (capacity (chan s (ss_data_tx e)))
        (pred (senders (chan s (ss_data_tx e)))) (receivers (chan s (ss_data_tx e)))).
  { unfold s'. rewrite drop_entry_chan. by rewrite decide_True. }
  split; [done|]. split; [done|]. split.
  { rewrite (Hin _ true). unfold spec_frame, set_inbox. rewrite Hc. by case_decide. }
  split; [done|]. split.
  - unfold unread, pending_chunks. rewrite Hrx. unfold chan in Hch. by rewrite Hch.
  - unfold peer_open. rewrite Hrx. unfold chan in Hch. rewrite Hch. simpl.
    pose proof (wf_sender s Hwf _ _ He) as Hse. unfold chan in Hse. rewrite Hse.
    simpl. lia.
Qed.

(** C39: closing a session is idempotent and final: [close] always succeeds, closing
    again changes nothing, and afterwards opening and accepting streams, and reading
    and writing any stream, fail at once, reads even when data is still buffered. *)
Theorem close_is_final s fut cf st buf d :
  let s' := (session_close s).2 in
  (session_close s).1 = Ok tt /\ session_is_closed s' = true /\
  session_state (session_close s').2 = session_state s' /\
  (open_stream OpenStart s').1 = (Ready (Err SessionClosed), OpenDone) /\
  (accept_stream cf AcceptStart s').1 = (Ready (Err SessionClosed), AcceptDone) /\
  (st_is_read_closed st = false ->
    rp_result (poll_read st (s_shared s') buf) = Ready (Err session_closed_error)) /\
  wp_result (poll_write st (s_shared s') d) = Ready (Err session_closed_error) /\
  session_is_closed (resume_frame cf fut s').2 = true.
Proof.
  cbv zeta.
  assert (Hc : is_closed (session_state (session_close s).2) = true)
    by apply (state_close_closed (session_state s)).
  split; [done|]. split; [done|].
  split; [apply (state_close_idempotent (session_state s))|].
  split; [unfold open_stream; by rewrite Hc|].
  split; [unfold accept_stream; by rewrite Hc|].
  split; [intros Hr; unfold poll_read; rewrite Hr; unfold session_state in Hc; by rewrite Hc|].
  split; [unfold poll_write; unfold session_state in Hc; by rewrite Hc|].
  unfold session_is_closed. set (s1 := (session_close s).2) in *.
  destruct fut as [st'|f r c|f k]; cbn [resume_frame].
  - by rewrite syn_send_state.
  - unfold psh_select. destruct (cf && _); [done|].
    assert (Hl : is_closed (session_state (psh_loop f s1).2) = true).
    { unfold psh_loop. destruct (_ >? 0); [|done]. unfold psh_process.
      destruct (_ !! _); [|done].
      destruct (psh_send_state f (ss_data_tx s0) s1) as [->| ->]; done. }
    destruct (is_notified _ r); [done|]. by destruct (is_notified _ c).
  - destruct (psh_send_state f k s1) as [->| ->]; done.
Qed.
End session_properties.

(** ** Witnesses: the properties at concrete inputs

    A server that has received the SYN of stream 1: the stream waits in the accept
    queue, its data channel is number 0. *)
Definition sample_new : Session (gmap Z) := session_new config_default false.
Definition sample_server : Session (gmap Z) := (handle_frame (new_syn 1 1) sample_new).2.
Definition sample_entry : StreamState := mkStreamState 0 false.
Definition sample_reader : Stream := stream_new 1 0 config_default.

Lemma sample_server_wf : session_wf sample_server.
Proof. apply handle_frame_wf, session_new_wf. Qed.

Lemma sample_server_trace : token_trace sample_new 0 sample_server.
Proof. apply (tokens_step _ 0 sample_new 0 _ (tokens_start _)). apply (do_frame _ (new_syn 1 1)). Qed.

Lemma stream_ids_fresh_witness :
  nth_id 5 (session_new (M := gmap Z) config_default true) = Ok 11 /\
  validate_peer_stream_id sample_new 11 = Ok tt.
Proof.
  destruct (stream_ids_fresh (M := gmap Z) config_default config_default true 5)
    as (Hn & Hp & _); [vm_compute; congruence|].
  split; [exact Hn|exact Hp].
Defined.

Lemma table_invariant_witness : session_wf sample_server.
Proof. apply (table_invariant config_default false 0 sample_server sample_server_trace). Defined.

Lemma handle_frame_refines_witness :
  inbox (handle_frame (new_psh 1 1 b3) sample_server).2 1 = Some [b3] /\
  inbox (handle_frame (new_psh 1 1 b3) sample_server).2 3 = None.
Proof.
  generalize (handle_frame_refines (new_psh 1 1 b3) sample_server sample_server_wf eq_refl).
  destruct (handle_frame _ sample_server) as [h s']. intros (_ & _ & Hin).
  split; cbn [snd]; rewrite Hin; vm_compute; reflexivity.
Defined.

Lemma flow_control_inert_witness :
  max_receive_buffer config_default <= tokens (session_state sample_server)
    <= max_receive_buffer config_default + 0.
Proof.
  apply (flow_control_inert config_default false 0 sample_server);
    [vm_compute; reflexivity..|apply sample_server_trace].
Defined.

Lemma receive_buffer_unbounded_witness :
  inbox (handle_all [new_psh 1 1 b3; new_psh 1 1 b2] sample_server) 1 = Some [b3; b2].
Proof.
  destruct (receive_buffer_unbounded 1 sample_entry [new_psh 1 1 b3; new_psh 1 1 b2]
              sample_server) as [_ Hin]; [apply sample_server_wf|..|exact Hin];
    repeat constructor; vm_compute; congruence.
Defined.

Lemma fin_ends_stream_witness :
  inbox (handle_frame (new_fin 1 1) sample_server).2 1 = None.
Proof.
  apply (fin_ends_stream (new_fin 1 1) sample_entry sample_reader sample_server);
    [apply sample_server_wf|vm_compute; reflexivity..].
Defined.

Lemma close_is_final_witness :
  rp_result (poll_read sample_reader
               (s_shared (session_close (handle_frame (new_psh 1 1 b3) sample_server).2).2)
               (empty_buf 4)) = Ready (Err session_closed_error).
Proof.
  apply (close_is_final (handle_frame (new_psh 1 1 b3) sample_server).2
           (SynSending sample_reader) true sample_reader (empty_buf 4) b3).
  reflexivity.
Defined.
