(* ===== verification/Handshake.v ===== *)
(** * Opening and accepting streams

    Every outcome of [open_stream], and what it brings about at the other end: the SYN
    it sends makes the peer's [accept_stream] return a stream of the same identifier. *)

From stdpp Require Import strings.
From S2P Require Import Prelude Crates Errors Config Command Frame SessionState Stream.
From S2P Require Import StreamSpec Session SessionSpec SessionProps.

Section opening.
Context {B : BytesCrate} {BL : BytesLaws B}.
Context {F : FlumeCrate} {FL : FlumeLaws F} {N : NotifyCrate}.
Context {M : Type -> Type} `{FinMap Z M}.
Implicit Types s : Session M.

(** The session with stream [id] registered and the counter moved on. *)
Definition opened (id : Z) s : Session M :=
  (register_stream id (next_stream_id s).2).2.

Lemma open_start_eq s id :
  closed (session_state s) = false -> (next_stream_id s).1 = Ok id ->
  open_stream OpenStart s
  = open_send (stream_new id (sh_next (s_shared s)) (s_config s))
      (new_syn (version (s_config s)) id) (opened id s).
Proof.
  intros Hc Hn. unfold open_stream, is_closed. rewrite Hc. unfold opened.
  pose proof (next_stream_id_state s) as Hs.
  destruct (next_stream_id s) as [r s1]. simpl in Hn, Hs. subst r s1.
  rewrite register_stream_eq. cbn [snd]. f_equal. f_equal.
  unfold insert_stream. by destruct (_ !! id).
Qed.

Lemma opened_frames id s :
  view (sh_frames (s_shared (opened id s)))
  = view (sender_clone (sh_frames (s_shared s))).
Proof.
  unfold opened. rewrite next_stream_id_state, register_stream_eq. unfold insert_stream.
  cbn [snd]. by destruct (_ !! id).
Qed.

Lemma opened_wf id s : session_wf s -> session_wf (opened id s).
Proof. unfold opened. eauto with smux. Qed.

Lemma inbox_opened id s i :
  session_wf s -> inbox (opened id s) i = if decide (i = id) then Some [] else inbox s i.
Proof.
  intros Hwf. unfold opened. rewrite inbox_register by (by apply next_id_wf).
  case_decide; [done|]. by rewrite next_stream_id_state.
Qed.

Lemma inbox_set_frames c s i :
  inbox (set_shared (set_frames c (s_shared s)) s) i = inbox s i.
Proof. done. Qed.

Lemma open_send_ok st f s :
  receivers (view (sh_frames (s_shared s))) <> 0%nat ->
  has_room (view (sh_frames (s_shared s))) = true ->
  exists c, open_send st f s
    = (Ready (Ok st), OpenDone, set_shared (set_frames c (s_shared s)) s) /\
    view c = enqueue f (view (sh_frames (s_shared s))).
Proof.
  intros Hr Hroom. unfold open_send.
  destruct (send_async_ok _ f _ Hr Hroom) as [Hs Hv].
  destruct (send_async _ _) as [r c]. simpl in Hs, Hv. subst r. by exists c.
Qed.

(** Dropping a stream leaves the inboxes of other channels alone. *)
Lemma inbox_stream_drop st s i :
  (forall e, s_streams s !! i = Some e -> st_data_rx st <> ss_data_tx e) ->
  inbox (set_shared (stream_drop st (s_shared s)) s) i = inbox s i.
Proof.
  intros He. unfold inbox. simpl. destruct (s_streams s !! i) as [e|]; [|done].
  specialize (He e eq_refl). simpl. f_equal. f_equal. unfold chan. simpl. f_equal.
  unfold stream_drop. destruct (negb _).
  - destruct (try_send _ _) as [r c]. by rewrite data_channel_set_ne.
  - by rewrite data_channel_set_ne.
Qed.

Lemma opened_other_tx id s i e :
  session_wf s -> i <> id -> s_streams (opened id s) !! i = Some e ->
  sh_next (s_shared s) <> ss_data_tx e.
Proof.
  intros Hwf Hi He. pose proof (next_id_wf s Hwf) as Hwf1. unfold opened in He.
  destruct (registered_chan id _ i e Hwf1 He) as [(-> & _)|(_ & He' & _)]; [done|].
  pose proof (wf_alloc _ Hwf1 i e He') as Ha. rewrite next_stream_id_state in Ha.
  simpl in Ha. lia.
Qed.

Lemma open_send_inboxes id f s :
  session_wf s ->
  let st := stream_new id (sh_next (s_shared s)) (s_config s) in
  let '(r, _, s') := open_send st f (opened id s) in
  (forall i, i <> id -> inbox s' i = inbox s i) /\ is_Some (inbox s' id) /\
  (r <> Ready (Err SessionClosed) -> inbox s' id = Some []).
Proof.
  intros Hwf st. pose proof (inbox_opened id s) as Hin. unfold open_send.
  assert (Hne : forall i, i <> id -> inbox (opened id s) i = inbox s i).
  { intros i Hi. by rewrite Hin, decide_False. }
  assert (Hid : inbox (opened id s) id = Some []) by (by rewrite Hin, decide_True).
  destruct (send_async _ _) as [r c].
  destruct r as [[]|]; cbn [fst]; try (split; [exact Hne|split; [|done]];
    rewrite inbox_set_frames, Hid; eauto).
  set (s1 := set_shared (set_frames c _) _).
  assert (Hs1 : forall i, inbox s1 i = inbox (opened id s) i) by done.
  split; [|split; [|done]].
  - intros i Hi. rewrite inbox_stream_drop, Hs1; [by apply Hne|].
    intros e' He'. by apply (opened_other_tx id s i).
  - unfold inbox in Hid |- *. simpl. destruct (s_streams (opened id s) !! id); [|done].
    simpl. eauto.
Qed.

(** *** The other end *)
(** The streams waiting to be accepted. *)
Definition waiting s : Z := Z.of_nat (length (queue (view (s_incoming s)))).

Lemma syn_send_room stream s :
  session_wf s -> waiting s < 16 ->
  exists c, syn_send stream s = (Done (Ok tt), set_incoming c s) /\
    view c = enqueue stream (view (s_incoming s)).
Proof.
  intros Hwf Hw. unfold syn_send, waiting in *.
  assert (Hroom : has_room (view (s_incoming s)) = true).
  { unfold has_room. rewrite (wf_accept_queue s Hwf). by apply Z.ltb_lt. }
  destruct (send_async_ok _ stream _ (wf_incoming s Hwf) Hroom) as [Hr Hv].
  destruct (send_async _ _) as [r c]. simpl in Hr, Hv. subst r. by exists c.
Qed.

(** A SYN with room in the accept queue: the stream is registered and queued. *)
Lemma handle_syn_room v id s :
  session_wf s -> waiting s < 16 -> peer_id (s_is_client s) id = true ->
  s_streams s !! id = None ->
  exists c, handle_frame (new_syn v id) s
    = (Done (Ok tt), set_incoming c (register_stream id s).2) /\
    view c = enqueue (stream_new id (sh_next (s_shared s)) (s_config s))
               (view (s_incoming s)).
Proof.
  intros Hwf Hw Hp Hs. cbn [handle_frame cmd new_syn].
  unfold handle_frame, handle_syn_frame. simpl cmd. cbv iota.
  rewrite validate_peer_peer_id. simpl stream_id. rewrite Hp, Hs.
  pose proof (register_wf id s Hwf) as Hwf1.
  pose proof (register_shared id s) as (_ & Hinc & _).
  destruct (register_stream id s) as [stream s1] eqn:Er.
  pose proof (register_stream_eq id s) as Heq. rewrite Er in Heq. injection Heq as -> _.
  simpl in Hwf1, Hinc.
  destruct (syn_send_room (stream_new id (sh_next (s_shared s)) (s_config s)) s1 Hwf1)
    as (c & -> & Hv).
  { unfold waiting in *. by rewrite Hinc. }
  exists c. split; [done|]. by rewrite Hv, Hinc.
Qed.

Lemma registered_lookup id s :
  s_streams (register_stream id s).2 !! id
  = Some (mkStreamState (sh_next (s_shared s)) false).
Proof.
  rewrite register_stream_eq. unfold insert_stream. cbn [snd].
  rewrite drop_entry_streams. simpl. by rewrite lookup_insert_eq.
Qed.
End opening.

Section opening_properties.
Context {B : BytesCrate} {BL : BytesLaws B}.
Context {F : FlumeCrate} {FL : FlumeLaws F} {N : NotifyCrate} {NL : NotifyLaws N}.
Context {M : Type -> Type} `{FinMap Z M}.
Implicit Types s : Session M.

(** C31: every outcome of [open_stream].  On a closed session it fails and changes
    nothing.  When the identifiers are used up it fails.  Otherwise a stream with the
    next identifier and an empty inbox is in the table, no other stream changes, and:
    with room in the frame channel its SYN is queued and the stream returned; with the
    channel full it waits; and when the send loop is gone it fails with
    [SessionClosed], leaving the entry in the table. *)
Theorem open_stream_outcomes s :
  session_wf s ->
  let '(r, fut, s') := open_stream OpenStart s in
  let v := view (sh_frames (s_shared s)) in
  (closed (session_state s) = true ->
     r = Ready (Err SessionClosed) /\ s' = s) /\
  (forall e, closed (session_state s) = false -> (next_stream_id s).1 = Err e ->
     r = Ready (Err e) /\ (forall i, inbox s' i = inbox s i)) /\
  (forall id, closed (session_state s) = false -> (next_stream_id s).1 = Ok id ->
     session_wf s' /\ (forall i, i <> id -> inbox s' i = inbox s i) /\
     is_Some (inbox s' id) /\
     (receivers v <> 0%nat -> has_room v = true ->
        exists st, r = Ready (Ok st) /\ st_stream_id st = id /\ inbox s' id = Some [] /\
          queue (view (sh_frames (s_shared s')))
          = queue v ++ [new_syn (version (s_config s)) id]) /\
     (receivers v <> 0%nat -> surely_full v = true ->
        r = Pending /\ inbox s' id = Some []) /\
     (receivers v = 0%nat -> r = Ready (Err SessionClosed))).
Proof.
  intros Hwf.
  destruct (open_stream OpenStart s) as [[r fut] s'] eqn:Eo. cbv zeta. split.
  { intros Hc. unfold open_stream, is_closed in Eo. rewrite Hc in Eo. by simplify_eq. }
  split.
  { intros e Hc He. unfold open_stream, is_closed in Eo. rewrite Hc in Eo.
    pose proof (next_stream_id_state s) as Hs.
    destruct (next_stream_id s) as [r1 s1]. simpl in He, Hs. subst r1 s1.
    by simplify_eq. }
  intros id Hc Hid. rewrite (open_start_eq s id Hc Hid) in Eo.
  pose proof (opened_wf id s Hwf) as Hwf1.
  pose proof (open_send_inboxes id (new_syn (version (s_config s)) id) s Hwf) as Hin.
  pose proof (opened_frames id s) as Hv. rewrite sender_clone_view in Hv.
  cbv zeta in Hin. set (st := stream_new id _ _) in *. set (syn := new_syn _ id) in *.
  set (s1 := opened id s) in *.
  pose proof (open_send_wf st syn s1 Hwf1) as Hwf2. rewrite Eo in Hwf2, Hin.
  destruct Hin as (Hne & Hsome & Hok).
  split; [done|]. split; [done|]. split; [done|].
  unfold open_send in Eo. split; [|split].
  - intros Hr Hroom. destruct (send_async_ok _ syn (sh_frames (s_shared s1))) as [Hs Hc'];
      [by rewrite Hv|by rewrite Hv|].
    destruct (send_async _ _) as [r1 c]. simpl in Hs, Hc'. subst r1. simplify_eq.
    exists st. split; [done|]. split; [done|]. split; [by apply Hok|]. simpl.
    rewrite Hc', Hv. done.
  - intros Hr Hf. destruct (send_async_pending _ syn (sh_frames (s_shared s1))) as [Hs _];
      [by rewrite Hv|by rewrite Hv|].
    destruct (send_async _ _) as [r1 c]. simpl in Hs. subst r1. simplify_eq.
    split; [done|by apply Hok].
  - intros Hr. destruct (send_async_disconnected _ syn (sh_frames (s_shared s1))) as [Hs _];
      [by rewrite Hv|].
    destruct (send_async _ _) as [r1 c]. simpl in Hs. subst r1. by simplify_eq.
Qed.

(** C21: opening a stream at one end and accepting it at the other gives the two ends of
    one stream: [open_stream] returns a stream and queues a SYN; when the peer handles
    that frame, its [accept_stream] returns a stream of the same identifier, wired to
    the table entry the peer has for that identifier, with nothing to read yet and not
    at end of file. *)
Theorem open_then_accept (sc ss : Session M) id cf :
  closed (session_state sc) = false -> (next_stream_id sc).1 = Ok id ->
  receivers (view (sh_frames (s_shared sc))) <> 0%nat ->
  has_room (view (sh_frames (s_shared sc))) = true ->
  session_wf ss -> closed (session_state ss) = false ->
  peer_id (s_is_client ss) id = true -> s_streams ss !! id = None ->
  queue (view (s_incoming ss)) = [] ->
  exists st_c f st_s e,
    (open_stream OpenStart sc).1.1 = Ready (Ok st_c) /\
    last (queue (view (sh_frames (s_shared (open_stream OpenStart sc).2)))) = Some f /\
    (handle_frame f ss).1 = Done (Ok tt) /\
    let ss' := (handle_frame f ss).2 in
    (accept_stream cf AcceptStart ss').1.1 = Ready (Ok st_s) /\
    st_stream_id st_c = id /\ st_stream_id st_s = id /\
    s_streams ss' !! id = Some e /\ st_data_rx st_s = ss_data_tx e /\
    unread st_s (s_shared ss') = [] /\ peer_open st_s (s_shared ss').
Proof.
  intros Hc Hid Hr Hroom Hwf Hcs Hp Hs Hq.
  pose proof (opened_frames id sc) as Hv. rewrite sender_clone_view in Hv.
  destruct (open_send_ok (stream_new id (sh_next (s_shared sc)) (s_config sc))
    (new_syn (version (s_config sc)) id) (opened id sc)) as (c & Ho & Hvc);
    [by rewrite Hv|by rewrite Hv|].
  rewrite (open_start_eq sc id Hc Hid), Ho. simpl. rewrite Hvc. simpl.
  destruct (handle_syn_room (version (s_config sc)) id ss) as (ci & Hh & Hvi);
    [done|unfold waiting; by rewrite Hq|done..|].
  exists (stream_new id (sh_next (s_shared sc)) (s_config sc)), (new_syn (version (s_config sc)) id),
    (stream_new id (sh_next (s_shared ss)) (s_config ss)),
    (mkStreamState (sh_next (s_shared ss)) false).
  rewrite last_snoc, Hh. split; [done|]. split; [done|]. split; [done|]. cbn [snd].
  pose proof (register_shared id ss) as (_ & Hinc & Hst).
  assert (Hreg : session_wf (register_stream id ss).2) by (by apply register_wf).
  pose proof (registered_lookup id ss) as Hlk.
  destruct (registered_chan id ss id _ Hwf Hlk) as [(_ & _ & Hch)|(? & _)]; [|done].
  split.
  { cbn [accept_stream]. unfold accept_select, is_closed, session_state in *.
    cbn [s_shared set_incoming]. rewrite Hst, Hcs. rewrite fresh_not_notified, andb_false_r.
    cbn [s_incoming set_incoming].
    destruct (recv_async_ok _ (stream_new id (sh_next (s_shared ss)) (s_config ss)) [] ci)
      as [Hra _]; [rewrite Hvi; simpl; by rewrite Hq|].
    destruct (recv_async ci) as [ra ci']. simpl in Hra. by subst ra. }
  split; [done|]. split; [done|]. split; [done|]. split; [done|].
  unfold chan in Hch. simpl in Hch. unfold unread, pending_chunks, peer_open. simpl.
  by rewrite Hch.
Qed.
End opening_properties.

(** ** Witnesses: the properties at concrete inputs *)
Definition sample_client : Session (gmap Z) := session_new config_default true.

Lemma open_stream_outcomes_witness :
  exists st, (open_stream OpenStart sample_client).1.1 = Ready (Ok st) /\
    st_stream_id st = 1 /\
    queue (view (sh_frames (s_shared (open_stream OpenStart sample_client).2)))
    = [new_syn 1 1].
Proof.
  pose proof (open_stream_outcomes sample_client (session_new_wf config_default true)) as H.
  destruct (open_stream OpenStart sample_client) as [[r fut] s'].
  destruct H as (_ & _ & Hok).
  destruct (Hok 1) as (_ & _ & _ & Hroom & _); [reflexivity..|].
  destruct Hroom as (st & Hr & Hid & _ & Hq); [vm_compute; congruence|reflexivity|].
  exists st. split; [exact Hr|]. split; [exact Hid|exact Hq].
Defined.

Lemma open_then_accept_witness :
  exists st_c f st_s,
    (open_stream OpenStart sample_client).1.1 = Ready (Ok st_c) /\
    (accept_stream true AcceptStart (handle_frame f sample_new).2).1.1 = Ready (Ok st_s) /\
    st_stream_id st_s = st_stream_id st_c.
Proof.
  destruct (open_then_accept sample_client sample_new 1 true)
    as (st_c & f & st_s & e & Ho & _ & _ & Ha & Hc & Hs & _);
    [reflexivity|reflexivity|vm_compute; congruence|reflexivity|apply session_new_wf
    |reflexivity..|].
  exists st_c, f, st_s. split; [exact Ho|]. split; [exact Ha|].
  rewrite Hs, Hc. reflexivity.
Defined.
