(* ===== verification/Delivery.v ===== *)
(** * End-to-end delivery

    The components together: what one side writes to a stream, the other side reads,
    through fragmentation into frames, the codec, any segmentation of the connection,
    dispatch among interleaved streams, and the reader's buffers. *)

From stdpp Require Import strings.
From S2P Require Import Prelude Crates Errors Config Command Frame Codec CodecSpec.
From S2P Require Import SessionState Stream StreamSpec Session SessionSpec SessionProps.

(** ** Writing everything

    A user that writes the whole of [d]: poll, then go on with what was not accepted.  A
    full channel makes it wait ([Pending]).  One poll per fragment is fuel enough. *)
Section write_all.
Context {B : BytesCrate} {BL : BytesLaws B}.
Context {F : FlumeCrate} {FL : FlumeLaws F}.
Context {N : NotifyCrate}.

Fixpoint write_all (fuel : nat) (st : Stream) (sh : Shared) (d : bytes)
    : poll (result IoError unit) * Shared :=
  match fuel, d with
  | _, [] => (Ready (Ok tt), sh)
  | O, _ => (Ready Panic, sh)
  | S fuel, _ =>
      let p := poll_write st sh d in
      match wp_result p with
      | Ready (Ok n) => write_all fuel st (wp_shared p) (drop (Z.to_nat n) d)
      | Ready (Err e) => (Ready (Err e), wp_shared p)
      | Ready Panic => (Ready Panic, wp_shared p)
      | Pending => (Pending, wp_shared p)
      end
  end.

(** The stream's frames can be carried. *)
Record writable (st : Stream) : Prop := {
  writable_id : is_u32 (st_stream_id st);
  writable_nonzero : st_stream_id st <> 0;
  writable_size :
    HEADER_SIZE < max_frame_size (st_config st) <= HEADER_SIZE + u16_MAX;
}.

(** A data frame of stream [id] the codec carries under the limit [max]. *)
Definition sent_frame (max id : Z) (f : Frame) : Prop :=
  cmd f = Psh /\ stream_id f = id /\ data f <> [] /\ encodable max f.

(** The number of frames [d] is cut into: its length divided by the payload of a frame,
    rounded up. *)
Definition fragments (st : Stream) (d : bytes) : Z :=
  let max_payload_size := max_frame_size (st_config st) - HEADER_SIZE in
  (blen d + max_payload_size - 1) / max_payload_size.

Lemma fragments_nil st : writable st -> fragments st [] = 0.
Proof.
  intros Hw. destruct (writable_size _ Hw) as [Hm _]. unfold fragments.
  rewrite blen_nil. apply Z.div_small. lia.
Qed.

(** Each write takes off one fragment. *)
Lemma fragments_write st d :
  writable st -> d <> [] ->
  fragments st d = 1 + fragments st (drop (Z.to_nat (write_size st d)) d).
Proof.
  intros Hw Hne. destruct (writable_size _ Hw) as [Hm _].
  pose proof (write_size_range st d) as Hr.
  assert (Hd : 0 < blen d) by (destruct d; [done|]; unfold blen; simpl; lia).
  unfold fragments. rewrite blen_drop by lia. unfold write_size, saturating_sub in *.
  set (m := max_frame_size (st_config st) - HEADER_SIZE) in *.
  rewrite (Z.max_r 0 m) in * by lia.
  replace (blen d + m - 1) with ((blen d - 1) + 1 * m) by lia.
  rewrite Z.div_add by lia. destruct (Z.le_gt_cases (blen d) m).
  - rewrite Z.min_l by lia. rewrite (Z.div_small (blen d - 1)) by lia.
    rewrite (Z.div_small (blen d - blen d + m - 1)) by lia. lia.
  - rewrite Z.min_r by lia. replace (blen d - m + m - 1) with (blen d - 1) by lia. lia.
Qed.

Lemma fragments_bounds st d : writable st -> 0 <= fragments st d <= blen d.
Proof.
  intros Hw. destruct (writable_size _ Hw) as [Hm _]. unfold fragments.
  pose proof (blen_nonneg d) as Hd.
  set (m := max_frame_size (st_config st) - HEADER_SIZE) in *.
  split; [apply Z.div_pos; lia|]. apply Z.lt_succ_r, Z.div_lt_upper_bound; nia.
Qed.

(** The frame channel takes [n] more frames. *)
Definition takes_frames (n : Z) (v : ChanView Frame) : Prop :=
  capacity v = None \/
  exists c, capacity v = Some c /\ Z.of_nat (length (queue v)) + n <= c.

Lemma write_all_frames fuel st sh d :
  writable st -> write_open st sh -> receivers (view (sh_frames sh)) <> 0%nat ->
  takes_frames (fragments st d) (view (sh_frames sh)) ->
  fragments st d <= Z.of_nat fuel ->
  let '(r, sh') := write_all fuel st sh d in
  r = Ready (Ok tt) /\
  exists ps, queue (view (sh_frames sh')) = queue (view (sh_frames sh)) ++ ps /\
    Forall (sent_frame (max_frame_size (st_config st)) (st_stream_id st)) ps /\
    concat (map data ps) = d /\ Z.of_nat (length ps) = fragments st d.
Proof.
  intros Hw. revert sh d. induction fuel as [|fuel IH]; intros sh d Ho Hr Hcap Hlen.
  { destruct d as [|b d]; [|exfalso].
    - simpl. split; [done|]. exists []. by rewrite app_nil_r, fragments_nil.
    - rewrite fragments_write in Hlen by done.
      pose proof (fragments_bounds st (drop (Z.to_nat (write_size st (b :: d))) (b :: d)) Hw).
      lia. }
  destruct d as [|b d].
  { simpl. split; [done|]. exists []. by rewrite app_nil_r, fragments_nil. }
  set (d0 := b :: d) in *. assert (Hne : d0 <> []) by done. cbn [write_all]. fold d0.
  destruct (write_frame_encodable st d0 Hne (writable_id _ Hw) (writable_nonzero _ Hw)
    (writable_size _ Hw)) as [Hn Henc].
  pose proof (write_size_range st d0) as Hrange.
  pose proof (fragments_write st d0 Hw Hne) as Hstep.
  set (n := write_size st d0) in *.
  pose proof (fragments_bounds st (drop (Z.to_nat n) d0) Hw) as Hleft.
  assert (Hroom : has_room (view (sh_frames sh)) = true).
  { unfold has_room. destruct Hcap as [->|(c & -> & Hc)]; [done|]. apply Z.ltb_lt. lia. }
  rewrite poll_write_send by done. fold n.
  destruct (try_send_ok _ (write_frame st d0) _ Hr Hroom) as [Ht Hv].
  destruct (try_send _ _) as [r c]. simpl in Ht, Hv. subst r. simpl wp_result.
  cbn [wp_shared].
  assert (Hfr : sh_frames (set_frames c sh) = c) by done.
  specialize (IH (set_frames c sh) (drop (Z.to_nat n) d0)).
  destruct (write_all fuel st (set_frames c sh) (drop (Z.to_nat n) d0)) as [r sh'] eqn:E.
  destruct IH as (-> & ps & Hq & Hps & Hd & Hcount).
  - exact Ho.
  - rewrite Hfr, Hv. done.
  - rewrite Hfr, Hv. unfold takes_frames. simpl. destruct Hcap as [->|(cap & -> & Hc)]; [by left|].
    right. exists cap. split; [done|]. rewrite length_app. simpl. lia.
  - lia.
  - split; [done|]. exists (write_frame st d0 :: ps). split.
    { rewrite Hq, Hfr, Hv. simpl. by rewrite <- app_assoc. }
    split.
    { constructor; [|done]. split; [done|]. split; [done|]. split; [|done].
      simpl. fold n. intros Hz. apply (f_equal blen) in Hz.
      rewrite blen_take, blen_nil in Hz by lia. lia. }
    simpl. fold n. rewrite Hd, take_drop. split; [done|]. lia.
Qed.

(** Encoding frames one after the other into the connection's buffer. *)
Fixpoint encode_all (c : Codec) (fs : list Frame) (dst : bytes) : Result unit * bytes :=
  match fs with
  | [] => (Ok tt, dst)
  | f :: fs =>
      match encode c f dst with
      | (Ok _, dst) => encode_all c fs dst
      | res => res
      end
  end.

Lemma encode_all_wire cfg fs dst :
  Forall (encodable (max_frame_size cfg)) fs ->
  encode_all (codec_new cfg) fs dst = (Ok tt, dst ++ wire fs).
Proof.
  intros Hfs. revert dst. induction Hfs as [|f fs Hf _ IH]; intros dst.
  { simpl. by rewrite app_nil_r. }
  cbn [encode_all]. rewrite encode_encodable by done.
  by rewrite IH, wire_cons, app_assoc.
Qed.
End write_all.

(** ** Dispatch among interleaved streams *)
(** The frames of a stream. *)
Definition of_stream (id : Z) (fs : list Frame) : list Frame :=
  filter (fun f => stream_id f = id) fs.

Section interleaving.
Context {B : BytesCrate} {BL : BytesLaws B}.
Context {F : FlumeCrate} {FL : FlumeLaws F} {N : NotifyCrate}.
Context {R : ReadBufCrate} {RL : ReadBufLaws R}.
Context {M : Type -> Type} `{FinMap Z M}.
Implicit Types s : Session M.

(** Entry [e] of stream [id] and its channel, untouched. *)
Definition keeps (id : Z) (e : StreamState) s s' : Prop :=
  s_streams s' !! id = Some e /\ chan s' (ss_data_tx e) = chan s (ss_data_tx e).

Lemma other_tx s id id' e e' :
  session_wf s -> s_streams s !! id = Some e -> s_streams s !! id' = Some e' ->
  id <> id' -> ss_data_tx e' <> ss_data_tx e.
Proof. intros Hwf He He' Hne Heq. apply Hne. by eapply (wf_inj s Hwf). Qed.

Lemma drop_other_keeps s id id' e e' e'' :
  session_wf s -> s_streams s !! id = Some e -> s_streams s !! id' = Some e' ->
  id <> id' -> ss_data_tx e'' = ss_data_tx e' ->
  keeps id e s (drop_entry (Some e'') (set_streams (delete id' (s_streams s)) s)).
Proof.
  intros Hwf He He' Hne Htx. pose proof (other_tx s id id' e e' Hwf He He' Hne) as Ht.
  split.
  - rewrite drop_entry_streams. simpl. by rewrite lookup_delete_ne by congruence.
  - rewrite drop_entry_chan, Htx. by rewrite decide_False by done.
Qed.

Lemma syn_send_keeps stream s id e :
  session_wf s -> s_streams s !! id = Some e -> keeps id e s (syn_send stream s).2.
Proof.
  intros Hwf He. pose proof (syn_send_spec stream s Hwf) as Hs. unfold syn_send in *.
  destruct (send_async _ _) as [r c].
  destruct r as [[]|]; try by split. destruct Hs as ([?|?] & _); done.
Qed.

Lemma psh_send_keeps f s id e e' :
  session_wf s -> s_streams s !! id = Some e -> s_streams s !! stream_id f = Some e' ->
  id <> stream_id f -> keeps id e s (psh_send f (ss_data_tx e') s).2.
Proof.
  intros Hwf He He' Hne.
  pose proof (other_tx s id (stream_id f) e e' Hwf He He' Hne) as Ht.
  unfold psh_send. destruct (send_async _ _) as [r c].
  assert (Hk : keeps id e s (set_shared (set_data_channel (ss_data_tx e') c (s_shared s)) s)).
  { split; [done|]. by apply chan_set_ne. }
  destruct r as [[[]|u|]|]; try done. cbn [snd].
  unfold remove_stream. simpl s_streams at 1. rewrite He'.
  destruct Hk as [_ Hk]. split.
  - rewrite drop_entry_streams. simpl. by rewrite lookup_delete_ne by congruence.
  - rewrite drop_entry_chan. rewrite decide_False by done. exact Hk.
Qed.

(** A frame of another stream leaves this one alone. *)
Lemma handle_other_keeps f s id e :
  session_wf s -> 0 < tokens (session_state s) ->
  s_streams s !! id = Some e -> stream_id f <> id -> keeps id e s (handle_frame f s).2.
Proof.
  intros Hwf Ht He Hne. unfold handle_frame. destruct (cmd f); try by split.
  - unfold handle_syn_frame. destruct (validate_peer_stream_id _ _); try by split.
    destruct (_ !! stream_id f) as [e'|] eqn:He'; [by split|].
    pose proof (register_wf (stream_id f) s Hwf) as Hwf1.
    assert (Hk : keeps id e s (register_stream (stream_id f) s).2).
    { assert (Hl : s_streams (register_stream (stream_id f) s).2 !! id = Some e).
      { rewrite register_stream_eq. unfold insert_stream. cbn [snd].
        rewrite drop_entry_streams. simpl. by rewrite lookup_insert_ne. }
      split; [done|].
      destruct (registered_chan _ _ _ _ Hwf Hl) as [(-> & _)|(_ & _ & Hc)]; done. }
    destruct (register_stream (stream_id f) s) as [st s1]. cbn [snd] in *.
    destruct Hk as [Hl Hc]. destruct (syn_send_keeps st s1 id e Hwf1 Hl) as [Hl2 Hc2].
    split; [done|congruence].
  - unfold handle_fin_frame. destruct (_ !! stream_id f) as [e'|] eqn:He'; [|by split].
    by apply (drop_other_keeps s id (stream_id f) e e').
  - unfold handle_psh_frame. destruct (_ =? 0); [by split|]. unfold psh_loop, get_tokens.
    rewrite Z.gtb_ltb, (proj2 (Z.ltb_lt _ _) Ht). unfold psh_process.
    destruct (_ !! stream_id f) as [e'|] eqn:He'; [|by split].
    by apply psh_send_keeps.
Qed.

Definition volume (fs : list Frame) : Z := fold_right (fun f n => data_len f + n) 0 fs.

Lemma volume_nonneg fs : 0 <= volume fs.
Proof.
  induction fs as [|f fs IH]; simpl; [lia|].
  pose proof (blen_nonneg (data f)). unfold data_len. lia.
Qed.

(** The inbox of a stream after a run of interleaved frames: what it held, then the
    data of its own frames, in order. *)
Lemma handle_all_stream id e fs s :
  session_wf s -> 0 < tokens (session_state s) ->
  tokens (session_state s) + volume fs < 2 ^ 63 ->
  s_streams s !! id = Some e -> receivers (chan s (ss_data_tx e)) <> 0%nat ->
  Forall (fun f => stream_id f = id -> cmd f = Psh /\ data f <> []) fs ->
  let s' := handle_all fs s in
  session_wf s' /\ s_streams s' !! id = Some e /\
  chan s' (ss_data_tx e)
    = with_queue (queue (chan s (ss_data_tx e)) ++ map data (of_stream id fs))
        (chan s (ss_data_tx e)).
Proof.
  intros Hwf Ht Hvol He Hr Hfs. revert s Hwf Ht Hvol He Hr.
  induction Hfs as [|f fs Hf _ IH]; intros s Hwf Ht Hvol He Hr.
  { simpl. rewrite app_nil_r. split; [done|]. split; [done|]. by destruct (chan s _). }
  cbv zeta. change (handle_all (f :: fs) s) with (handle_all fs (handle_frame f s).2).
  simpl in Hvol. pose proof (volume_nonneg fs) as Hv.
  assert (Htok : 0 < tokens (session_state (handle_frame f s).2) /\
                 tokens (session_state (handle_frame f s).2) + volume fs < 2 ^ 63).
  { pose proof (blen_nonneg (data f)) as Hb. unfold data_len in *.
    destruct (handle_frame_tokens f s Ht) as [->|(k & Hk & ->)]; [lia|].
    unfold data_len in Hk. rewrite return_tokens_tokens, as_i64_id; [lia|].
    unfold is_i64. lia. }
  destruct Htok as [Ht1 Hvol1]. pose proof (handle_frame_wf f s Hwf) as Hwf1.
  unfold of_stream. rewrite filter_cons. fold (of_stream id fs).
  destruct (decide (stream_id f = id)) as [Hid|Hid].
  - destruct (Hf Hid) as [Hc Hd]. rewrite <- Hid in He.
    destruct (handle_psh_alive f e s Hwf Hc Hd Ht He Hr) as (_ & _ & _ & Hs & Hch).
    destruct (IH (handle_frame f s).2) as (Hwf' & He' & Hch'); [done..| |by rewrite Hch|].
    { by rewrite Hs, <- Hid. }
    split; [done|]. split; [done|]. rewrite Hch', Hch. simpl. by rewrite <- app_assoc.
  - destruct (handle_other_keeps f s id e Hwf Ht He Hid) as [He1 Hch1].
    destruct (IH (handle_frame f s).2) as (Hwf' & He' & Hch'); [done..|by rewrite Hch1|].
    split; [done|]. split; [done|]. by rewrite Hch', Hch1.
Qed.

Lemma handle_frame_closed f s :
  0 < tokens (session_state s) ->
  closed (session_state (handle_frame f s).2) = closed (session_state s).
Proof. intros Ht. by destruct (handle_frame_state f s Ht) as [->| ->]. Qed.

Lemma handle_all_closed fs s :
  0 < tokens (session_state s) -> tokens (session_state s) + volume fs < 2 ^ 63 ->
  closed (session_state (handle_all fs s)) = closed (session_state s).
Proof.
  revert s. induction fs as [|f fs IH]; intros s Ht Hvol; [done|]. simpl in Hvol.
  pose proof (volume_nonneg fs). pose proof (blen_nonneg (data f)).
  change (handle_all (f :: fs) s) with (handle_all fs (handle_frame f s).2).
  unfold data_len in *.
  destruct (handle_frame_tokens f s Ht) as [Htk|(k & Hk & Htk)].
  - rewrite IH; [by apply handle_frame_closed|lia|lia].
  - unfold data_len in Hk. rewrite return_tokens_tokens, as_i64_id in Htk
      by (unfold is_i64; lia).
    rewrite IH; [by apply handle_frame_closed|lia|lia].
Qed.
End interleaving.

Lemma encodable_mono max max' f : max <= max' -> encodable max f -> encodable max' f.
Proof.
  intros Hm [Ht [Hv Hu Hs Hc Hi] Hl Hsz]. split; [done|split; auto; lia|done|lia].
Qed.

(** ** Properties *)
Section delivery_properties.
Context {B : BytesCrate} {BL : BytesLaws B}.
Context {F : FlumeCrate} {FL : FlumeLaws F} {N : NotifyCrate} {NL : NotifyLaws N}.
Context {R : ReadBufCrate} {RL : ReadBufLaws R}.
Context {M : Type -> Type} `{FinMap Z M}.
Implicit Types s : Session M.

(** C33: a large write is fragmented without loss.  On a stream that is open for writing,
    with a usable frame size, a send loop that has not ended, and room in the frame channel
    for as many frames as [d] has fragments (its length divided by the payload of a frame,
    rounded up), writing [d] terminates with success after one poll per fragment, and
    appends to the channel that many PSH frames of the stream, each non-empty and one the
    codec carries, whose data concatenated is [d]. *)
Theorem write_all_fragments fuel st sh d :
  writable st -> write_open st sh -> receivers (view (sh_frames sh)) <> 0%nat ->
  takes_frames (fragments st d) (view (sh_frames sh)) ->
  fragments st d <= Z.of_nat fuel ->
  (write_all fuel st sh d).1 = Ready (Ok tt) /\
  exists ps, queue (view (sh_frames (write_all fuel st sh d).2))
               = queue (view (sh_frames sh)) ++ ps /\
    Forall (sent_frame (max_frame_size (st_config st)) (st_stream_id st)) ps /\
    concat (map data ps) = d /\ Z.of_nat (length ps) = fragments st d.
Proof.
  intros Hw Ho Hr Hc Hl. pose proof (write_all_frames fuel st sh d Hw Ho Hr Hc Hl) as Hwa.
  destruct (write_all fuel st sh d). exact Hwa.
Qed.

(** C16: streams are isolated.  After a session handles any run of frames in which the
    frames of an open stream are non-empty PSH frames, interleaved with any frames of
    other streams (SYN, FIN, PSH for open, closed or unknown streams, NOP, UPD), what
    the reader of that stream has to read is what it had before followed by the data
    of its own frames, in order; and the stream is still open. *)
Theorem streams_isolated id e st fs s :
  session_wf s -> 0 < tokens (session_state s) ->
  tokens (session_state s) + volume fs < 2 ^ 63 ->
  s_streams s !! id = Some e -> receivers (chan s (ss_data_tx e)) <> 0%nat ->
  st_data_rx st = ss_data_tx e ->
  Forall (fun f => stream_id f = id -> cmd f = Psh /\ data f <> []) fs ->
  let s' := handle_all fs s in
  unread st (s_shared s') = unread st (s_shared s) ++ concat (map data (of_stream id fs)) /\
  peer_open st (s_shared s').
Proof.
  intros Hwf Ht Hvol He Hr Hrx Hfs. cbv zeta.
  destruct (handle_all_stream id e fs s Hwf Ht Hvol He Hr Hfs) as (Hwf' & He' & Hch).
  unfold chan in Hch. split.
  - unfold unread, pending_chunks. rewrite Hrx, Hch. simpl.
    by rewrite concat_app, app_assoc.
  - unfold peer_open. rewrite Hrx, Hch. simpl.
    pose proof (wf_sender s Hwf id e He) as Hse. unfold chan in Hse. rewrite Hse. lia.
Qed.

(** C8: end-to-end delivery.  One side writes [d] to an open stream, with room in the
    frame channel for the fragments of [d]; the frames of that write travel in order among any other frames the codec carries; the connection
    delivers their encoding in arbitrary chunks; the other side decodes and handles
    them, and its user reads with at least as many non-empty buffers as there are
    bytes.  Then encoding and decoding succeed, nothing is left in the decoder's
    buffer, and the reader receives exactly [d]. *)
Theorem end_to_end_delivery cfg_a cfg_b st_a sh_a d fs chunks id e st_b s bufs :
  (* the writer *)
  writable st_a -> write_open st_a sh_a -> st_config st_a = cfg_a ->
  st_stream_id st_a = id -> queue (view (sh_frames sh_a)) = [] ->
  receivers (view (sh_frames sh_a)) <> 0%nat ->
  takes_frames (fragments st_a d) (view (sh_frames sh_a)) ->
  (* the connection *)
  of_stream id fs
    = queue (view (sh_frames (write_all (length d) st_a sh_a d).2)) ->
  Forall (encodable (max_frame_size cfg_a)) fs ->
  concat chunks = (encode_all (codec_new cfg_a) fs []).2 ->
  max_frame_size cfg_a <= max_frame_size cfg_b ->
  (* the reader *)
  session_wf s -> 0 < tokens (session_state s) ->
  tokens (session_state s) + volume fs < 2 ^ 63 ->
  s_streams s !! id = Some e -> receivers (chan s (ss_data_tx e)) <> 0%nat ->
  st_data_rx st_b = ss_data_tx e -> read_open st_b (s_shared s) ->
  st_current_chunk st_b = None -> queue (chan s (ss_data_tx e)) = [] ->
  Forall fresh_buf bufs -> blen d <= Z.of_nat (length bufs) ->
  (encode_all (codec_new cfg_a) fs []).1 = Ok tt /\
  read_chunks (codec_new cfg_b) [] chunks = (fs, Ok tt, []) /\
  received (read_all bufs st_b (s_shared (handle_all fs s))).1.1 = d.
Proof.
  intros Hw Ho <- <- Hq Hr Hcap Hof Hfs Hchunks Hmax
         Hwf Ht Hvol He Halive Hrx Hopen Hcur Hempty Hbufs Hlen.
  pose proof (write_all_frames (length d) st_a sh_a d Hw Ho Hr) as Hwr.
  destruct (write_all (length d) st_a sh_a d) as [rw sh_w]. simpl in Hof.
  destruct Hwr as (_ & ps & Hps & Hsent & Hd & _); [done|by apply fragments_bounds|].
  rewrite Hps, Hq in Hof. simpl in Hof.
  rewrite encode_all_wire in * by done. simpl in Hchunks. split; [done|]. split.
  { apply read_chunks_stream; [|apply residue_nil|done].
    eapply Forall_impl; [done|]. intros f. by apply encodable_mono. }
  set (id := st_stream_id st_a) in *.
  assert (Hown : Forall (fun f => stream_id f = id -> cmd f = Psh /\ data f <> []) fs).
  { apply Forall_forall. intros f Hf Hid. assert (Hin : f ∈ ps).
    { rewrite <- Hof. unfold of_stream. by apply list_elem_of_filter. }
    rewrite Forall_forall in Hsent. destruct (Hsent f Hin) as (? & _ & ? & _). done. }
  destruct (handle_all_stream id e fs s Hwf Ht Hvol He Halive Hown) as (_ & _ & Hch).
  assert (Hpend : pending_chunks st_b (s_shared (handle_all fs s)) = map data ps).
  { unfold pending_chunks. rewrite Hrx. unfold chan in Hch, Hempty.
    rewrite Hch, Hempty, Hof. done. }
  assert (Hun : unread st_b (s_shared (handle_all fs s)) = d)
    by (unfold unread; by rewrite Hcur, Hpend).
  pose proof (read_all_spec bufs st_b (s_shared (handle_all fs s)) Hbufs) as Hread.
  destruct (read_all bufs st_b _) as [[out st'] sh'].
  destruct Hread as (Hsplit & _ & _ & _ & Hend).
  { destruct Hopen as [Hro Hcl]. split; [done|].
    pose proof (handle_all_closed fs s Ht Hvol) as Hc. unfold session_state in Hc.
    by rewrite Hc. }
  { split; [by rewrite Hcur|]. rewrite Hpend. apply Forall_map.
    eapply Forall_impl; [done|]. intros f (_ & _ & Hne & _). done. }
  cbn [fst]. rewrite Hun in Hsplit.
  destruct Hend as [Hend|Hend]; [by rewrite Hsplit, Hend, app_nil_r|].
  rewrite Hsplit, blen_app in Hlen. pose proof (blen_nonneg (unread st' sh')).
  by rewrite Hsplit, (blen_zero (unread st' sh')), app_nil_r by lia.
Qed.

(** A frame size can make writing impossible: with [max_frame_size] at most the
    header size (which [Config::validate] accepts, see the witness), writing a
    non-empty buffer "succeeds" with 0 bytes, which [AsyncWrite] users take for the end of the writer, and queues a
    PSH frame without data; below the header size the codec refuses that frame, which
    ends the send loop. *)
Theorem tiny_frame_size_breaks_writes st sh buf :
  max_frame_size (st_config st) <= HEADER_SIZE -> write_open st sh -> buf <> [] ->
  receivers (view (sh_frames sh)) <> 0%nat -> has_room (view (sh_frames sh)) = true ->
  let p := poll_write st sh buf in
  wp_result p = Ready (Ok 0) /\
  exists f, queue (view (sh_frames (wp_shared p))) = queue (view (sh_frames sh)) ++ [f] /\
    data f = [] /\
    (max_frame_size (st_config st) < HEADER_SIZE ->
       (encode (codec_new (st_config st)) f []).1
       = Err (FrameTooLarge HEADER_SIZE (max_frame_size (st_config st)))).
Proof.
  intros Hm Ho Hb Hr Hroom. cbv zeta. rewrite poll_write_send by done.
  destruct (try_send_ok _ (write_frame st buf) _ Hr Hroom) as [Ht Hv].
  destruct (try_send _ _) as [r c]. simpl in Ht, Hv. subst r.
  assert (Hz : write_size st buf = 0).
  { unfold write_size, saturating_sub. rewrite (Z.max_l 0) by lia.
    apply Z.min_r, blen_nonneg. }
  assert (Hd : data (write_frame st buf) = []) by (simpl; by rewrite Hz).
  simpl wp_result. rewrite Hz. split; [done|]. exists (write_frame st buf).
  simpl wp_shared. cbn [sh_frames set_frames]. rewrite Hv. split; [done|].
  split; [done|]. intros Hlt. unfold encode, codec_new. cbn [codec_config].
  assert (Hval : validate (write_frame st buf) (st_config st)
                 = Err (FrameTooLarge HEADER_SIZE (max_frame_size (st_config st)))).
  { assert (Hts : total_size (write_frame st buf) = HEADER_SIZE)
      by (unfold total_size; by rewrite Hd).
    unfold validate. rewrite Hts. cbn [frame_version write_frame new_psh frame_new cmd].
    by rewrite Z.gtb_ltb, (proj2 (Z.ltb_lt _ _) Hlt). }
  by rewrite Hval.
Qed.
End delivery_properties.

(** ** Witnesses: the properties at concrete inputs

    Stream 1 of a client, whose frames carry at most four bytes of data, and the server
    of SessionProps.v. *)
Definition small_config : Config :=
  mkConfig 1 (from_secs 10) (from_secs 30) 12 65536 512 65536 true.
Definition sample_writer : Stream := stream_new 1 0 small_config.
Definition sample_wire : Shared :=
  mkShared (session_state_new 65536) (mkChanView [] (Some 512) 1 1)
    {[ 0%nat := mkChanView [] None 1 1 ]} 1.
Definition b5 : bytes := b3 ++ b2.

(** The two fragments of [b5], with frames of stream 3 in between. *)
Definition sample_frames : list Frame :=
  [new_syn 1 3; new_psh 1 1 (take 4 b5); new_psh 1 3 b2; new_psh 1 1 (drop 4 b5);
   new_fin 1 3].

Lemma sample_writable : writable sample_writer.
Proof. split; repeat split; vm_compute; congruence. Qed.

(** A channel of two slots is enough for the two fragments of five bytes. *)
Definition two_slots : Shared :=
  mkShared (session_state_new 65536) (mkChanView [] (Some 2) 1 1)
    {[ 0%nat := mkChanView [] None 1 1 ]} 1.

Lemma write_all_fragments_witness :
  (write_all 2 sample_writer two_slots b5).1 = Ready (Ok tt) /\
  (write_all 3 sample_writer two_slots (b5 ++ b5)).1 = Pending.
Proof.
  split; [|vm_compute; reflexivity].
  apply (write_all_fragments 2 sample_writer two_slots b5).
  - apply sample_writable.
  - by split.
  - vm_compute. congruence.
  - right. exists 2. split; [reflexivity|vm_compute; congruence].
  - vm_compute. congruence.
Defined.

Lemma streams_isolated_witness :
  unread sample_reader (s_shared (handle_all sample_frames sample_server)) = b5.
Proof.
  destruct (streams_isolated 1 sample_entry sample_reader sample_frames sample_server)
    as [Hu _]; [apply sample_server_wf|vm_compute; congruence..| |exact Hu].
  unfold sample_frames. repeat apply Forall_cons_2; try apply Forall_nil_2;
    vm_compute; intuition congruence.
Defined.

Lemma end_to_end_delivery_witness :
  received (read_all (repeat (empty_buf 2) 5) sample_reader
              (s_shared (handle_all sample_frames sample_server))).1.1 = b5.
Proof.
  apply (end_to_end_delivery small_config config_default sample_writer sample_wire b5
           sample_frames [take 7 (encode_all (codec_new small_config) sample_frames []).2;
                          drop 7 (encode_all (codec_new small_config) sample_frames []).2]
           1 sample_entry sample_reader sample_server).
  - apply sample_writable.
  - by split.
  - reflexivity.
  - reflexivity.
  - reflexivity.
  - vm_compute. congruence.
  - right. exists 512. split; [reflexivity|vm_compute; congruence].
  - vm_compute. reflexivity.
  - repeat constructor; vm_compute; congruence.
  - vm_compute. reflexivity.
  - vm_compute. congruence.
  - apply sample_server_wf.
  - vm_compute. reflexivity.
  - vm_compute. reflexivity.
  - vm_compute. reflexivity.
  - vm_compute. congruence.
  - reflexivity.
  - by split.
  - reflexivity.
  - vm_compute. reflexivity.
  - repeat constructor.
  - vm_compute. congruence.
Defined.

Definition tiny_config : Config :=
  mkConfig 1 (from_secs 10) (from_secs 30) 7 65536 512 65536 true.

Lemma tiny_frame_size_breaks_writes_witness :
  config_validate tiny_config = Ok tt /\
  wp_result (poll_write (stream_new 1 0 tiny_config) sample_wire b3) = Ready (Ok 0).
Proof.
  split; [reflexivity|].
  apply (tiny_frame_size_breaks_writes (stream_new 1 0 tiny_config) sample_wire b3).
  - vm_compute. congruence.
  - by split.
  - vm_compute. congruence.
  - vm_compute. congruence.
  - reflexivity.
Defined.
