(* ===== verification/LoopsSpec.v ===== *)
(** * What the tasks of a session guarantee

    The receive loop dispatches exactly the frames of the connection, in order; the send
    loop writes exactly the frames of the channel, in order; when the keep-alive loop
    closes a session; which close notifications the tasks see. *)

From stdpp Require Import strings.
From S2P Require Import Prelude Crates Errors Config Command Frame Codec CodecSpec Runtime.
From S2P Require Import SessionState Stream StreamSpec Session SessionSpec SessionProps.
From S2P Require Import Handshake Delivery Loops.

(** ** Reading frames from the transport *)
Section reading.
Context {B : BytesCrate} {BL : BytesLaws B} {D : FramedCrate} {DL : FramedLaws D}.

(** The bytes a source has not decoded yet. *)
Definition undecoded (src : source) : bytes :=
  rd_buffer (reader src) ++ concat (rd_input (reader src)).

Lemma poll_next_stream cfg src future fs :
  rd_codec (reader src) = codec_new cfg ->
  Forall (encodable (max_frame_size cfg)) fs -> undecoded src ++ future = wire fs ->
  let '(r, src') := poll_next src in
  (exists f fs', r = Ready (Some (Ok f)) /\ fs = f :: fs' /\
     undecoded src' ++ future = wire fs' /\
     rd_codec (reader src') = codec_new cfg /\ rd_eof (reader src') = rd_eof (reader src)) \/
  (r = Pending /\ undecoded src' = undecoded src /\ rd_eof (reader src) = false /\
     rd_codec (reader src') = codec_new cfg /\ rd_eof (reader src') = rd_eof (reader src) /\
     (future = [] -> fs = [])) \/
  ((r = Ready None \/ exists e, r = Ready (Some (Err (Io e)))) /\
     rd_eof (reader src) = true /\ (future = [] -> fs = [])).
Proof.
  intros Hcodec Hfs. remember (rd_input (reader src)) as input eqn:Hin.
  revert src Hcodec Hin.
  induction input as [|c cs IH]; intros src Hcodec Hin Hun; unfold undecoded in Hun.
  - rewrite <- Hin in Hun. simpl in Hun. rewrite app_nil_r in Hun.
    destruct (decode_stream cfg _ _ _ Hfs Hun)
      as [(f & fs' & p' & -> & Hd & _ & Hw)|(Hd & _ & Hend)]; rewrite <- Hcodec in Hd.
    { destruct (next_frame src f p' Hd) as [Hr Hv]. destruct (poll_next src) as [r src'].
      simpl in Hr, Hv. left. exists f, fs'. unfold undecoded. rewrite Hv. simpl.
      rewrite <- Hin. simpl. by rewrite app_nil_r. }
    destruct (rd_eof (reader src)) eqn:Heof.
    + destruct (decide (rd_buffer (reader src) = [])) as [Hb|Hb].
      * rewrite Hb in Hd. pose proof (next_end src) as Hn. rewrite Hb in Hn.
        specialize (Hn Hd (eq_sym Hin) Heof). destruct (poll_next src) as [r src'].
        simpl in Hn. do 2 right. split; [by left|]. split; [done|]. intros Hf.
        by destruct (Hend Hf).
      * destruct (next_cut src _ Hd Hb (eq_sym Hin) Heof) as [e He].
        destruct (poll_next src) as [r src']. simpl in He.
        do 2 right. split; [right; eauto|]. split; [done|]. intros Hf. by destruct (Hend Hf).
    + destruct (next_wait src _ Hd (eq_sym Hin) Heof) as [Hr Hv].
      destruct (poll_next src) as [r src']. simpl in Hr, Hv.
      right; left. unfold undecoded. rewrite Hv. simpl. rewrite Heof.
      split_and!; try done. intros Hf. by destruct (Hend Hf).
  - rewrite <- Hin in Hun. simpl in Hun. rewrite <- app_assoc in Hun.
    destruct (decode_stream cfg _ _ _ Hfs Hun)
      as [(f & fs' & p' & -> & Hd & _ & Hw)|(Hd & _ & _)]; rewrite <- Hcodec in Hd.
    { destruct (next_frame src f p' Hd) as [Hr Hv]. destruct (poll_next src) as [r src'].
      simpl in Hr, Hv. left. exists f, fs'. unfold undecoded. rewrite Hv. simpl.
      rewrite <- Hin. simpl. by rewrite <- app_assoc. }
    destruct (next_more src c cs _ Hd (eq_sym Hin)) as (src1 & Hv & ->).
    unfold received_chunk, with_buffer in Hv. simpl in Hv. rewrite <- Hin in Hv.
    specialize (IH src1). rewrite Hv in IH.
    assert (Hu1 : undecoded src1 = undecoded src).
    { unfold undecoded. rewrite Hv, <- Hin. simpl. by rewrite app_assoc. }
    rewrite <- Hu1. apply IH; [done..|]. rewrite Hu1. unfold undecoded.
    rewrite <- Hin. simpl. by rewrite <- app_assoc.
Qed.
End reading.

(** ** The receive loop *)
Section receiving.
Context {B : BytesCrate} {BL : BytesLaws B}.
Context {F : FlumeCrate} {FL : FlumeLaws F} {N : NotifyCrate} {NL : NotifyLaws N}.
Context {D : FramedCrate} {DL : FramedLaws D}.
Context {M : Type -> Type} `{FinMap Z M}.
Implicit Types s : Session M.

(** The close future a task in its [select!] looks at, if it is in one. *)
Definition recv_listens (task : RecvTask) s : option notified_future :=
  match task with
  | RecvLoop => Some (notified (close_notifier (session_state s)))
  | RecvSelect close => Some close
  | _ => None
  end.

(** The frame a step takes from the transport. *)
Definition recv_takes (cf : bool) (task : RecvTask) s (src : source) : list Frame :=
  match recv_listens task s with
  | None => []
  | Some close =>
      if cf && is_notified (close_notifier (session_state s)) close then []
      else match (poll_next src).1 with Ready (Some (Ok f)) => [f] | _ => [] end
  end.

Lemma recv_step_select cf task s src close :
  recv_listens task s = Some close -> recv_step cf task s src = recv_select cf close s src.
Proof. destruct task; simpl; intros [= <-]; done. Qed.

(** The frame that is taken is handled, and nothing else is. *)
Lemma recv_takes_handled cf task s src f :
  recv_takes cf task s src = [f] ->
  (recv_step cf task s src).1
  = (recv_handled (handle_frame f (update_state mark_data_received s)).1,
     (handle_frame f (update_state mark_data_received s)).2).
Proof.
  unfold recv_takes. destruct (recv_listens task s) as [close|] eqn:Hl; [|done].
  rewrite (recv_step_select _ _ _ _ _ Hl). unfold recv_select.
  destruct (_ && _); [done|]. destruct (poll_next src) as [r src']. simpl.
  destruct r as [[[]|]|]; try done. intros [= ->]. by destruct (handle_frame _ _).
Qed.

Record Receiving : Type := mkReceiving {
  rv_task : RecvTask;
  rv_session : Session M;
  rv_source : source;
}.

(** A run of the receive loop, with the frames it took and the bytes that arrived;
    between its steps everything else may change the session in any way. *)
Inductive recv_trace (r : Receiving) : list Frame -> bytes -> Receiving -> Prop :=
| recv_start : recv_trace r [] [] r
| recv_runs taken added task s src cf :
    recv_trace r taken added (mkReceiving task s src) ->
    let p := recv_step cf task s src in
    recv_trace r (taken ++ recv_takes cf task s src) added
      (mkReceiving p.1.1 p.1.2 p.2)
| recv_others taken added task s src s' :
    recv_trace r taken added (mkReceiving task s src) ->
    recv_trace r taken added (mkReceiving task s' src)
| recv_arrives taken added task s src cs eof src' :
    recv_trace r taken added (mkReceiving task s src) ->
    rd_eof (reader src) = false ->
    reader src' = mkReader (rd_codec (reader src)) (rd_buffer (reader src))
                    (rd_input (reader src) ++ cs) eof ->
    recv_trace r taken (added ++ concat cs) (mkReceiving task s src').

Definition recv_alive (task : RecvTask) : Prop :=
  match task with RecvDone | RecvPanicked => False | _ => True end.

Lemma recv_step_dead cf task s src :
  ~ recv_alive task -> recv_step cf task s src = (task, s, src).
Proof. destruct task; simpl; tauto. Qed.

Lemma recv_step_stream cfg cf task s src future fs :
  rd_codec (reader src) = codec_new cfg ->
  Forall (encodable (max_frame_size cfg)) fs -> undecoded src ++ future = wire fs ->
  let '(task', s', src') := recv_step cf task s src in
  exists rest, fs = recv_takes cf task s src ++ rest /\
    (recv_alive task' -> undecoded src' ++ future = wire rest /\
                         rd_codec (reader src') = codec_new cfg).
Proof.
  intros Hc Hfs Hun. unfold recv_takes.
  destruct (recv_listens task s) as [close|] eqn:Hl.
  - rewrite (recv_step_select _ _ _ _ _ Hl). unfold recv_select.
    destruct (_ && _); [exists fs; simpl; tauto|].
    pose proof (poll_next_stream cfg src future fs Hc Hfs Hun) as Hp.
    destruct (poll_next src) as [r src'].
    destruct Hp as [(f & fs' & -> & -> & Hu & Hc' & _)
                   |[(-> & Hu & _ & Hc' & _)|([->|[e ->]] & _ & _)]]; simpl.
    + destruct (handle_frame _ _) as [h s']. exists fs'. done.
    + destruct (is_notified _ _); exists fs; simpl; [tauto|]. by rewrite Hu.
    + exists fs. simpl. tauto.
    + exists fs. simpl. tauto.
  - destruct task; simpl in Hl |- *; try done.
    + destruct (resume_frame _ _ _) as [h s']. exists fs. done.
    + exists fs. done.
    + exists fs. done.
Qed.

Lemma recv_trace_stream cfg r taken added r' :
  recv_trace r taken added r' -> rv_task r = RecvLoop ->
  rd_codec (reader (rv_source r)) = codec_new cfg ->
  forall future fs, Forall (encodable (max_frame_size cfg)) fs ->
  undecoded (rv_source r) ++ added ++ future = wire fs ->
  exists rest, fs = taken ++ rest /\
    (recv_alive (rv_task r') -> undecoded (rv_source r') ++ future = wire rest /\
       rd_codec (reader (rv_source r')) = codec_new cfg).
Proof.
  intros Htr Htask Hc.
  induction Htr as [|taken added task s src cf Htr IH p
                    |taken added task s src s' Htr IH
                    |taken added task s src cs eof src' Htr IH Heof Hsrc];
    intros future fs Hfs Hun.
  - exists fs. done.
  - destruct (IH future fs Hfs Hun) as (rest & -> & Hrest). simpl in Hrest |- *.
    apply Forall_app in Hfs as [_ Hfs].
    assert (recv_alive task \/ ~ recv_alive task) as [Ha|Hna]
      by (destruct task; simpl; tauto).
    2: { subst p. rewrite recv_step_dead by done. exists rest.
         assert (recv_takes cf task s src = []) as ->
           by (destruct task; simpl in Hna; tauto).
         by rewrite app_nil_r. }
    destruct (Hrest Ha) as [Hu Hc'].
    pose proof (recv_step_stream cfg cf task s src future rest Hc' Hfs Hu) as Hs.
    subst p. destruct (recv_step cf task s src) as [[task' s'] src'].
    destruct Hs as (rest' & -> & Hs). exists rest'. by rewrite app_assoc.
  - by destruct (IH future fs Hfs Hun) as (rest & -> & Hrest); exists rest.
  - destruct (IH (concat cs ++ future) fs Hfs) as (rest & -> & Hrest).
    { by rewrite <- Hun, <- !app_assoc. }
    exists rest. split; [done|]. simpl in *. intros Ha. destruct (Hrest Ha) as [Hu Hc'].
    unfold undecoded in *. rewrite Hsrc. simpl. split; [|done].
    by rewrite <- Hu, concat_app, <- !app_assoc.
Qed.
End receiving.

(** ** Handlers that do not wait, and running the receive loop to its end *)
Section draining.
Context {B : BytesCrate} {BL : BytesLaws B}.
Context {F : FlumeCrate} {FL : FlumeLaws F} {N : NotifyCrate} {NL : NotifyLaws N}.
Context {R : ReadBufCrate} {RL : ReadBufLaws R}.
Context {D : FramedCrate} {DL : FramedLaws D}.
Context {M : Type -> Type} `{FinMap Z M}.
Implicit Types s : Session M.

Definition is_syn (f : Frame) : Z := match cmd f with Syn => 1 | _ => 0 end.

Definition syns (fs : list Frame) : Z := fold_right (fun f n => is_syn f + n) 0 fs.

Lemma syns_nonneg fs : 0 <= syns fs.
Proof. induction fs as [|f fs]; simpl; [lia|]. unfold is_syn. destruct (cmd f); lia. Qed.

Lemma psh_send_incoming f k s : s_incoming (psh_send f k s).2 = s_incoming s.
Proof.
  unfold psh_send. destruct (send_async _ _) as [r c]. destruct r as [[]|]; simpl; try done.
  unfold remove_stream. by rewrite drop_entry_incoming.
Qed.

Lemma handle_frame_incoming f s :
  cmd f <> Syn -> s_incoming (handle_frame f s).2 = s_incoming s.
Proof.
  intros Hc. unfold handle_frame. destruct (cmd f); try done.
  - unfold handle_fin_frame. by destruct (_ !! _).
  - unfold handle_psh_frame, psh_loop. destruct (_ =? 0); [done|].
    destruct (_ >? 0); [|done]. unfold psh_process.
    destruct (_ !! _); [apply psh_send_incoming|done].
Qed.

(** With tokens left and room for its stream if it is a SYN, a frame is handled
    without waiting, and a SYN takes at most one place in the accept queue. *)
Lemma handle_frame_room f s :
  session_wf s -> 0 < tokens (session_state s) -> waiting s + is_syn f <= 16 ->
  (exists r, (handle_frame f s).1 = Done r /\ r <> Panic) /\
  waiting (handle_frame f s).2 <= waiting s + is_syn f.
Proof.
  intros Hwf Ht Hw. destruct (decide (is_syn f = 0)) as [Hsyn|Hsyn].
  - assert (Hc : cmd f <> Syn) by (unfold is_syn in Hsyn; by destruct (cmd f)).
    split; [|unfold waiting; rewrite handle_frame_incoming by done; lia].
    unfold handle_frame. destruct (cmd f) eqn:Hf; try done; try by eexists.
    + unfold handle_fin_frame. destruct (_ !! _); by eexists.
    + pose proof (handle_psh_spec f s Hwf Hf Ht) as Hs.
      destruct (handle_psh_frame f s) as [h s'].
      destruct Hs as ([->|(Ha & _)] & _); [|congruence]. unfold spec_result. rewrite Hf.
      by eexists.
  - assert (Hc : cmd f = Syn) by (unfold is_syn in Hsyn; by destruct (cmd f)).
    unfold is_syn in *. rewrite Hc in *. unfold handle_frame. rewrite Hc.
    unfold handle_syn_frame. destruct (validate_peer_cases s (stream_id f)) as [->| ->].
    + destruct (_ !! stream_id f); [split; [by eexists|simpl; lia]|].
      pose proof (register_wf (stream_id f) s Hwf) as Hwf1.
      pose proof (register_shared (stream_id f) s) as (_ & Hinc & _).
      destruct (register_stream (stream_id f) s) as [st s1]. simpl in Hwf1, Hinc.
      destruct (syn_send_room st s1 Hwf1) as (c & -> & Hv).
      { unfold waiting in *. rewrite Hinc. lia. }
      split; [by eexists|]. unfold waiting. simpl. rewrite Hv, Hinc. simpl.
      rewrite length_app. simpl. lia.
    + split; [by eexists|simpl; lia].
Qed.

Fixpoint recv_run (n : nat) (cf : bool) (task : RecvTask) s (src : source)
    : RecvTask * Session M * source :=
  match n with
  | O => (task, s, src)
  | S n => let '(task, s, src) := recv_step cf task s src in recv_run n cf task s src
  end.

(** The frames handled one after the other, each marked as received. *)
Definition recv_all (fs : list Frame) s : Session M :=
  fold_left (fun s f => (handle_frame f (update_state mark_data_received s)).2) fs s.

Lemma recv_run_drains cfg cf fs s src :
  rd_codec (reader src) = codec_new cfg -> rd_eof (reader src) = true ->
  Forall (encodable (max_frame_size cfg)) fs -> undecoded src = wire fs ->
  session_wf s -> 0 < tokens (session_state s) ->
  tokens (session_state s) + volume fs < 2 ^ 63 -> waiting s + syns fs <= 16 ->
  exists src',
    recv_run (S (length fs)) cf RecvLoop s src
    = (RecvDone, update_state state_close (recv_all fs s), src').
Proof.
  revert s src. induction fs as [|f fs IH];
    intros s src Hc Heof Hfs Hun Hwf Ht Hvol Hw;
    pose proof (poll_next_stream cfg src [] _ Hc Hfs) as Hp;
    rewrite app_nil_r in Hp; specialize (Hp Hun);
    cbn [recv_run recv_step]; unfold recv_select;
    rewrite fresh_not_notified, andb_false_r;
    destruct (poll_next src) as [r src'];
    destruct Hp as [(f' & fs' & -> & Heq & Hu & Hc' & Heof')|[(_ & _ & He & _)|(Hr & _ & Hend)]];
    try congruence.
  - exists src'. by destruct Hr as [->|[e ->]].
  - injection Heq as <- <-. rewrite app_nil_r in Hu. simpl in Hvol, Hw.
    set (s1 := update_state mark_data_received s).
    assert (Hwf1 : session_wf s1) by (unfold s1; eauto with smux).
    pose proof (volume_nonneg fs) as Hv0. pose proof (blen_nonneg (data f)) as Hb0.
    pose proof (syns_nonneg fs) as Hsy. unfold data_len in *.
    destruct (handle_frame_room f s1 Hwf1) as [(r & Hr & Hrp) Hw1]; [done| |].
    { change (waiting s1) with (waiting s). lia. }
    change (waiting s1) with (waiting s) in Hw1.
    pose proof (handle_frame_tokens f s1 Ht) as Htk. unfold data_len in Htk.
    pose proof (handle_frame_wf f s1 Hwf1) as Hwf2.
    change (recv_all (f :: fs) s) with (recv_all fs (handle_frame f s1).2).
    destruct (handle_frame f s1) as [h s2]. simpl in Hr, Htk, Hw1, Hwf2. subst h.
    assert (Htok : 0 < tokens (session_state s2) /\
                   tokens (session_state s2) + volume fs < 2 ^ 63).
    { assert (Hs1 : tokens (session_state s1) = tokens (session_state s)) by done.
      destruct Htk as [->|(k & Hk & ->)]; [lia|].
      rewrite return_tokens_tokens, Hs1, as_i64_id; [lia|]. unfold is_i64. lia. }
    apply Forall_cons in Hfs as [_ Hfs].
    assert (recv_handled (Done r) = RecvLoop) as -> by (by destruct r).
    destruct (IH s2 src') as [src'' Hrun]; try done; try congruence; try lia; [tauto..|].
    exists src''. exact Hrun.
  - by specialize (Hend eq_refl).
Qed.

(** Once a frame is marked as received, marking again changes nothing. *)
Lemma mark_marked s :
  data_received (session_state s) = true -> update_state mark_data_received s = s.
Proof.
  unfold update_state, session_state, mark_data_received.
  destruct s as [m c i n r [st fr d nx]]. destruct st. simpl. by intros ->.
Qed.

Lemma handle_frame_marked f s :
  0 < tokens (session_state s) ->
  data_received (session_state (handle_frame f s).2) = data_received (session_state s).
Proof. intros Ht. by destruct (handle_frame_state f s Ht) as [->| ->]. Qed.

Lemma recv_all_marked fs s :
  0 < tokens (session_state s) -> tokens (session_state s) + volume fs < 2 ^ 63 ->
  data_received (session_state s) = true -> recv_all fs s = handle_all fs s.
Proof.
  revert s. induction fs as [|f fs IH]; intros s Ht Hvol Hd; [done|]. simpl in Hvol.
  pose proof (volume_nonneg fs) as Hv0. pose proof (blen_nonneg (data f)) as Hb0.
  change (recv_all (f :: fs) s)
    with (recv_all fs (handle_frame f (update_state mark_data_received s)).2).
  rewrite mark_marked by done.
  change (handle_all (f :: fs) s) with (handle_all fs (handle_frame f s).2).
  pose proof (handle_frame_tokens f s Ht) as Htk. unfold data_len in *.
  apply IH; [| |by rewrite handle_frame_marked];
    destruct Htk as [->|(k & Hk & ->)];
    rewrite ?return_tokens_tokens, ?as_i64_id; unfold is_i64; lia.
Qed.

(** Receiving frames is handling them in a session that has received something. *)
Lemma recv_all_handle_all fs s :
  fs <> [] -> 0 < tokens (session_state s) -> tokens (session_state s) + volume fs < 2 ^ 63 ->
  recv_all fs s = handle_all fs (update_state mark_data_received s).
Proof.
  intros Hne Ht Hvol. destruct fs as [|f fs]; [done|].
  rewrite <- (recv_all_marked (f :: fs)) by done. simpl. by rewrite (mark_marked (update_state _ s)).
Qed.
End draining.

(** ** The running session *)
Section running.
Context {B : BytesCrate} {BL : BytesLaws B}.
Context {F : FlumeCrate} {FL : FlumeLaws F} {N : NotifyCrate} {NL : NotifyLaws N}.
Context {R : ReadBufCrate} {RL : ReadBufLaws R}.
Context {D : FramedCrate} {T : IntervalCrate}.
Context {M : Type -> Type} `{FinMap Z M}.
Implicit Types (s : Session M) (y : System M).

(** What the users of the session and of its streams can do. *)
Inductive user_step s : Z -> Session M -> Prop :=
| user_open fut : user_step s 0 (open_stream fut s).2
| user_accept cf fut : user_step s 0 (accept_stream cf fut s).2
| user_close : user_step s 0 (session_close s).2
| user_read st buf :
    user_step s (remaining buf)
      (set_shared (rp_shared (poll_read st (s_shared s) buf)) s)
| user_write st d :
    user_step s 0 (set_shared (wp_shared (poll_write st (s_shared s) d)) s)
| user_shutdown st :
    user_step s 0 (set_shared (wp_shared (poll_shutdown st (s_shared s))) s)
| user_stream_close fut st :
    user_step s 0 (set_shared (close_poll fut st (s_shared s)).2 s)
| user_drop st : user_step s 0 (set_shared (stream_drop st (s_shared s)) s).

(** The data a step of the receive loop may give back tokens for. *)
Definition recv_label (cf : bool) y : Z :=
  match sys_recv y with
  | RecvHandling fut => future_len fut
  | task => volume (recv_takes cf task (sys_session y) (sys_source y))
  end.

(** Users and tasks, and the transport, which may change what there is to read, in any
    order; time is what the clock says. *)
Inductive system_step y : Z -> System M -> Prop :=
| step_user n s' : user_step (sys_session y) n s' -> system_step y n (with_session s' y)
| step_recv cf : system_step y (recv_label cf y) (run_recv cf y)
| step_send cf : system_step y 0 (run_send cf y)
| step_keep_alive start now : system_step y 0 (run_keep_alive start now y)
| step_arrives src : system_step y 0 (with_source src y).

Inductive system_trace y : Z -> System M -> Prop :=
| system_start : system_trace y 0 y
| system_steps r y1 n y2 :
    system_trace y r y1 -> system_step y1 n y2 -> system_trace y (r + n) y2.

Lemma token_trace_one s n s' : session_step s n s' -> token_trace s n s'.
Proof.
  intros Hs. replace n with (0 + n) by lia. eapply tokens_step; [apply tokens_start|done].
Qed.

Lemma token_trace_trans s r1 s1 r2 s2 :
  token_trace s r1 s1 -> token_trace s1 r2 s2 -> token_trace s (r1 + r2) s2.
Proof.
  intros Hfst Hsnd. induction Hsnd as [|r2 s2 n s3 Htr IH Hstep].
  - by rewrite Z.add_0_r.
  - rewrite Z.add_assoc. by eapply tokens_step.
Qed.

Lemma token_trace_two s n1 s1 n2 s2 :
  session_step s n1 s1 -> session_step s1 n2 s2 -> token_trace s (n1 + n2) s2.
Proof. eauto using token_trace_trans, token_trace_one. Qed.

Lemma user_step_session s n s' : user_step s n s' -> session_step s n s'.
Proof. intros Hu. destruct Hu; constructor. Qed.

(** *** A handler that waits never waits for room in a data channel *)
Definition no_data_wait (h : Handling) : Prop :=
  forall f k, h <> Await (PshSending f k).

Lemma psh_loop_no_wait f s : session_wf s -> no_data_wait (psh_loop f s).1.
Proof.
  intros Hwf. unfold psh_loop. destruct (_ >? 0); [|by intros ? ?].
  unfold psh_process. destruct (s_streams s !! stream_id f) as [e|] eqn:He; [|by intros ? ?].
  destruct (decide (receivers (chan s (ss_data_tx e)) = 0%nat)) as [Hr|Hr].
  - pose proof (psh_send_dead f e s Hwf He Hr) as Hs.
    destruct (psh_send f _ s) as [h s']. destruct Hs as (-> & _). by intros ? ?.
  - pose proof (psh_send_alive f e s Hwf He Hr) as Hs.
    destruct (psh_send f _ s) as [h s']. destruct Hs as (-> & _). by intros ? ?.
Qed.

Lemma syn_send_no_wait stream s : session_wf s -> no_data_wait (syn_send stream s).1.
Proof.
  intros Hwf. pose proof (syn_send_spec stream s Hwf) as Hs.
  destruct (syn_send stream s) as [h s']. by destruct Hs as ([->| ->] & _).
Qed.

Lemma handle_frame_no_wait f s : session_wf s -> no_data_wait (handle_frame f s).1.
Proof.
  intros Hwf. unfold handle_frame. destruct (cmd f) eqn:Hc; try (by intros ? ?).
  - pose proof (handle_syn_spec f s Hwf Hc) as Hs.
    destruct (handle_syn_frame f s) as [h s'].
    by destruct Hs as ([->|(_ & _ & st & ->)] & _); intros ? ?.
  - unfold handle_fin_frame. by destruct (_ !! _); intros ? ?.
  - unfold handle_psh_frame. destruct (_ =? 0); [by intros ? ?|by apply psh_loop_no_wait].
Qed.

Lemma resume_frame_no_wait cf fut s :
  session_wf s -> no_data_wait (Await fut) -> no_data_wait (resume_frame cf fut s).1.
Proof.
  intros Hwf Hn. destruct fut as [st|f r c|f k]; cbn [resume_frame].
  - by apply syn_send_no_wait.
  - unfold psh_select. destruct (cf && _); [by intros ? ?|].
    destruct (is_notified _ r); [by apply psh_loop_no_wait|].
    by destruct (is_notified _ c); intros ? ?.
  - by destruct (Hn f k).
Qed.

Definition recv_no_wait (task : RecvTask) : Prop :=
  match task with RecvHandling fut => no_data_wait (Await fut) | _ => True end.

Lemma recv_handled_no_wait h : no_data_wait h -> recv_no_wait (recv_handled h).
Proof. destruct h as [[]|]; done. Qed.

(** *** Each task acts on the session through its operations *)
Lemma recv_select_trace cf close task s src :
  recv_listens task s = Some close -> session_wf s ->
  let p := recv_select cf close s src in
  token_trace s (volume (recv_takes cf task s src)) p.1.2 /\ recv_no_wait p.1.1.
Proof.
  intros Hl Hwf. unfold recv_takes, recv_select. rewrite Hl.
  destruct (_ && _); [split; [apply token_trace_one, do_close|done]|].
  destruct (poll_next src) as [r src']. simpl fst.
  destruct r as [[[f|e|]|]|]; try (split; [apply token_trace_one, do_close|done]).
  - pose proof (handle_frame_no_wait f _ (update_state_wf mark_data_received s Hwf)) as Hn.
    pose proof (do_frame (update_state mark_data_received s) f) as Hf.
    destruct (handle_frame f _) as [h s']. cbn [fst snd] in *.
    split; [|by apply recv_handled_no_wait]. simpl. rewrite Z.add_0_r.
    eapply (token_trace_two s 0); [apply do_mark|done].
  - split; [apply tokens_start|done].
  - destruct (is_notified _ _); split; try done; [apply token_trace_one, do_close|].
    apply tokens_start.
Qed.

Lemma run_recv_trace cf y :
  session_wf (sys_session y) -> recv_no_wait (sys_recv y) ->
  token_trace (sys_session y) (recv_label cf y) (sys_session (run_recv cf y)) /\
  recv_no_wait (sys_recv (run_recv cf y)).
Proof.
  intros Hwf Hn. unfold run_recv, recv_label.
  destruct (sys_recv y) as [|close|fut| |] eqn:Ht; cbn [recv_step].
  - pose proof (recv_select_trace cf _ RecvLoop (sys_session y) (sys_source y) eq_refl Hwf)
      as Hs. by destruct (recv_select _ _ _ _) as [[task s'] src'].
  - pose proof (recv_select_trace cf _ (RecvSelect close) (sys_session y) (sys_source y)
      eq_refl Hwf) as Hs. by destruct (recv_select _ _ _ _) as [[task s'] src'].
  - pose proof (resume_frame_no_wait cf fut _ Hwf Hn) as Hn'.
    assert (Hv : future_valid fut (sys_session y))
      by (destruct fut as [| |f k]; [done..|by destruct (Hn f k)]).
    pose proof (do_resume _ cf fut Hv) as Hr.
    destruct (resume_frame cf fut (sys_session y)) as [h s']. simpl in *.
    split; [by apply token_trace_one|by apply recv_handled_no_wait].
  - split; [apply tokens_start|done].
  - split; [apply tokens_start|done].
Qed.

Lemma drop_frame_rx_trace s : token_trace s 0 (drop_frame_rx s).
Proof. apply token_trace_one, (do_frames s (receiver_drop (sh_frames (s_shared s)))). Qed.

Lemma send_exit_trace s k : token_trace s 0 (send_exit s k).1.2.
Proof.
  apply (token_trace_trans s 0 (update_state state_close s) 0);
    [apply token_trace_one, (do_close s)|apply drop_frame_rx_trace].
Qed.

Lemma send_poll_trace s k : token_trace s 0 (send_poll s k).1.2.
Proof.
  unfold send_poll. destruct (poll_send k) as [[[]|] k'];
    apply tokens_start || apply send_exit_trace || apply drop_frame_rx_trace.
Qed.

Lemma send_select_trace cf close s k : token_trace s 0 (send_select cf close s k).1.2.
Proof.
  unfold send_select. destruct (cf && _); [apply send_exit_trace|].
  destruct (recv_async _) as [r c].
  assert (Hgo : forall s', token_trace (set_shared (set_frames c (s_shared s)) s) 0 s' ->
            token_trace s 0 s').
  { intros s' Ht. apply (token_trace_trans s 0 _ 0 s' (token_trace_one _ _ _ (do_frames s c)) Ht). }
  destruct r as [[f|u|]|].
  - apply Hgo, send_poll_trace.
  - apply Hgo, send_exit_trace.
  - apply Hgo, drop_frame_rx_trace.
  - destruct (is_notified _ _); [apply Hgo, send_exit_trace|apply Hgo, tokens_start].
Qed.

Lemma run_send_trace cf y : token_trace (sys_session y) 0 (sys_session (run_send cf y)).
Proof.
  assert (Hs : token_trace (sys_session y) 0
            (send_step cf (sys_send y) (sys_session y) (sys_sink y)).1.2).
  { destruct (sys_send y); cbn [send_step];
      apply tokens_start || apply send_select_trace || apply send_poll_trace. }
  unfold run_send. by destruct (send_step _ _ _ _) as [[task s'] k'].
Qed.

Lemma keep_alive_ping_trace p t f s : token_trace s 0 (keep_alive_ping p t f s).2.
Proof.
  unfold keep_alive_ping. destruct (send_async _ _) as [r c].
  destruct r as [[]|]; apply token_trace_one, (do_frames s c).
Qed.

Lemma keep_alive_timeout_trace p t s : token_trace s 0 (keep_alive_timeout_tick p t s).2.
Proof.
  unfold keep_alive_timeout_tick.
  set (s1 := update_state (fun _ => (check_and_reset_data_received (session_state s)).2) s).
  assert (Hs1 : token_trace s 0 s1) by apply token_trace_one, (do_check s).
  destruct (check_and_reset_data_received (session_state s)) as [received st]. simpl in s1.
  fold s1. destruct received; [done|]. simpl. destruct (_ >? 0); [|done].
  apply (token_trace_trans s 0 s1 0 _ Hs1), token_trace_one, (do_close s1).
Qed.

Lemma keep_alive_select_trace order now p t close s :
  token_trace s 0 (keep_alive_select order now p t close s).2.
Proof.
  revert p t. induction order as [|[] order IH]; intros p t; cbn [keep_alive_select].
  - apply tokens_start.
  - destruct (tick now p) as [[] p']; [apply keep_alive_ping_trace|apply IH].
  - destruct (tick now t) as [[] t']; [apply keep_alive_timeout_trace|apply IH].
  - destruct (is_notified _ _); [apply tokens_start|apply IH].
Qed.

Lemma run_keep_alive_trace start now y :
  token_trace (sys_session y) 0 (sys_session (run_keep_alive start now y)).
Proof.
  assert (Hs : token_trace (sys_session y) 0
            (keep_alive_step start now (sys_keep_alive y) (sys_session y)).2).
  { destruct (sys_keep_alive y); cbn [keep_alive_step];
      apply tokens_start || apply keep_alive_select_trace || apply keep_alive_ping_trace. }
  unfold run_keep_alive. by destruct (keep_alive_step _ _ _ _) as [task s'].
Qed.

(** Every run of the system is a run of its session. *)
Lemma system_trace_session cfg role src k r y :
  system_trace (system_new cfg role src k) r y ->
  token_trace (session_new cfg role) r (sys_session y) /\ recv_no_wait (sys_recv y).
Proof.
  intros Htr. induction Htr as [|r y1 n y2 Htr [IH Hn] Hstep].
  { split; [apply tokens_start|done]. }
  pose proof (token_trace_wf cfg role r _ IH) as Hwf.
  destruct Hstep as [n s' Hu|cf|cf|start now|src'].
  - split; [|done]. eapply tokens_step; [done|]. by apply user_step_session.
  - destruct (run_recv_trace cf y1 Hwf Hn) as [Ht Hn'].
    split; [|done]. by eapply token_trace_trans.
  - split; [eapply token_trace_trans; [done|apply run_send_trace]|].
    unfold run_send. by destruct (send_step _ _ _ _) as [[? ?] ?].
  - split; [eapply token_trace_trans; [done|apply run_keep_alive_trace]|].
    unfold run_keep_alive. by destruct (keep_alive_step _ _ _ _) as [? ?].
  - by rewrite Z.add_0_r.
Qed.

Lemma system_step_label y n y' : system_step y n y' -> 0 <= n.
Proof.
  intros Hs. destruct Hs as [n s' Hu|cf|cf|start now|src']; try lia.
  - by apply (session_step_label (sys_session y) n s'), user_step_session.
  - unfold recv_label. destruct (sys_recv y) as [| |[]| |];
      apply volume_nonneg || apply blen_nonneg || done.
Qed.

(** *** With tokens left, a handler only waits for room in the accept queue *)
Definition waits_for_accept (h : Handling) : Prop :=
  forall fut, h = Await fut -> exists stream, fut = SynSending stream.

Lemma handle_frame_waits f s :
  session_wf s -> 0 < tokens (session_state s) -> waits_for_accept (handle_frame f s).1.
Proof.
  intros Hwf Ht fut Hh. unfold handle_frame in Hh.
  destruct (cmd f) eqn:Hc; try discriminate Hh.
  - pose proof (handle_syn_spec f s Hwf Hc) as Hs.
    destruct (handle_syn_frame f s) as [h s'].
    destruct Hs as ([Ha|(_ & _ & st & Ha)] & _); simpl in Hh; simplify_eq. eauto.
  - unfold handle_fin_frame in Hh. by destruct (_ !! _).
  - pose proof (handle_psh_spec f s Hwf Hc Ht) as Hs.
    destruct (handle_psh_frame f s) as [h s'].
    destruct Hs as ([Ha|(Ha & _)] & _); simpl in Hh; congruence.
Qed.

Lemma resume_syn_waits cf stream s :
  session_wf s -> waits_for_accept (resume_frame cf (SynSending stream) s).1.
Proof.
  intros Hwf fut. simpl. pose proof (syn_send_spec stream s Hwf) as Hs.
  destruct (syn_send stream s) as [h s']. destruct Hs as ([->| ->] & _); simpl; [done|].
  intros [= <-]. eauto.
Qed.

Definition recv_waits_for_accept (task : RecvTask) : Prop :=
  forall fut, task = RecvHandling fut -> exists stream, fut = SynSending stream.

Lemma recv_handled_waits h : waits_for_accept h -> recv_waits_for_accept (recv_handled h).
Proof. intros Hw fut. destruct h as [[]|fut']; simpl; try done. intros [= ->]. by apply Hw. Qed.

Lemma recv_select_waits cf close s src :
  session_wf s -> 0 < tokens (session_state s) ->
  recv_waits_for_accept (recv_select cf close s src).1.1.
Proof.
  intros Hwf Ht. unfold recv_select. destruct (_ && _); [done|].
  destruct (poll_next src) as [[[[f|e|]|]|] src']; try done.
  - pose proof (handle_frame_waits f (update_state mark_data_received s)
      (update_state_wf mark_data_received s Hwf) Ht) as Hw.
    destruct (handle_frame _ _) as [h s']. by apply recv_handled_waits.
  - by destruct (is_notified _ _).
Qed.

Lemma recv_step_waits cf task s src :
  session_wf s -> 0 < tokens (session_state s) -> recv_waits_for_accept task ->
  recv_waits_for_accept (recv_step cf task s src).1.1.
Proof.
  intros Hwf Ht Hw. destruct task as [|close|fut| |]; cbn [recv_step]; try done;
    try by apply recv_select_waits.
  destruct (Hw fut eq_refl) as [stream ->].
  pose proof (resume_syn_waits cf stream s Hwf) as Hr.
  destruct (resume_frame _ _ _) as [h s']. by apply recv_handled_waits.
Qed.

Lemma system_trace_waits cfg role src k r y :
  0 < max_receive_buffer cfg -> max_receive_buffer cfg + r < 2 ^ 63 ->
  system_trace (system_new cfg role src k) r y -> recv_waits_for_accept (sys_recv y).
Proof.
  intros Hpos Hmax Htr. induction Htr as [|r y1 n y2 Htr IH Hstep]; [done|].
  pose proof (system_step_label _ _ _ Hstep) as Hn. specialize (IH ltac:(lia)).
  destruct (system_trace_session cfg role src k r y1 Htr) as [Htt _].
  pose proof (token_trace_wf cfg role r _ Htt) as Hwf.
  destruct (session_tokens_bounds cfg role r _ Hpos ltac:(lia) Htt) as [Ht _].
  destruct Hstep as [n s' Hu|cf|cf|start now|src']; [exact IH| | | |exact IH].
  - unfold run_recv.
    pose proof (recv_step_waits cf (sys_recv y1) (sys_session y1) (sys_source y1) Hwf
      ltac:(lia) IH) as Hw.
    by destruct (recv_step _ _ _ _) as [[task s'] src'].
  - unfold run_send. by destruct (send_step _ _ _ _) as [[? ?] ?].
  - unfold run_keep_alive. by destruct (keep_alive_step _ _ _ _) as [? ?].
Qed.
End running.

(** ** The send loop *)
Section sending.
Context {B : BytesCrate} {BL : BytesLaws B}.
Context {F : FlumeCrate} {FL : FlumeLaws F} {N : NotifyCrate}.
Context {D : FramedCrate} {DL : FramedLaws D}.
Context {M : Type -> Type} `{FinMap Z M}.
Implicit Types s : Session M.

Definition send_listens (task : SendTask) s : option notified_future :=
  match task with
  | SendLoop => Some (notified (close_notifier (session_state s)))
  | SendSelect close => Some close
  | _ => None
  end.

(** The frame a step takes from the frame channel. *)
Definition send_takes (cf : bool) (task : SendTask) s : list Frame :=
  match send_listens task s with
  | None => []
  | Some close =>
      if cf && is_notified (close_notifier (session_state s)) close then []
      else match (recv_async (sh_frames (s_shared s))).1 with
           | Ready (Ok f) => [f]
           | _ => []
           end
  end.

Lemma send_step_select cf task s k close :
  send_listens task s = Some close -> send_step cf task s k = send_select cf close s k.
Proof. destruct task; simpl; intros [= <-]; done. Qed.

(** It is the first frame of the channel, and is taken out. *)
Lemma send_takes_head cf task s f :
  send_takes cf task s = [f] ->
  exists q, queue (view (sh_frames (s_shared s))) = f :: q /\
    queue (view (recv_async (sh_frames (s_shared s))).2) = q.
Proof.
  unfold send_takes. destruct (send_listens task s) as [close|] eqn:Hl; [|done].
  destruct (_ && _) eqn:Hcf; [done|].
  destruct (queue (view (sh_frames (s_shared s)))) as [|m q] eqn:Hq.
  - destruct (decide (senders (view (sh_frames (s_shared s))) = 0%nat)) as [Hs|Hs].
    + by destruct (recv_async_disconnected _ _ Hq Hs) as [-> _].
    + by destruct (recv_async_empty _ _ Hq Hs) as [-> _].
  - destruct (recv_async_ok _ m q _ Hq) as [Hr Hv]. rewrite Hr, Hv. intros [= ->].
    by exists q.
Qed.

Record Sending : Type := mkSending {
  sd_task : SendTask;
  sd_session : Session M;
  sd_sink : sink;
}.

(** A run of the send loop, with the frames it took; between its steps everything
    else may change the session in any way. *)
Inductive send_trace (r : Sending) : list Frame -> Sending -> Prop :=
| send_start : send_trace r [] r
| send_runs taken task s k cf :
    send_trace r taken (mkSending task s k) ->
    let p := send_step cf task s k in
    send_trace r (taken ++ send_takes cf task s) (mkSending p.1.1 p.1.2 p.2)
| send_others taken task s k s' :
    send_trace r taken (mkSending task s k) -> send_trace r taken (mkSending task s' k).

Definition send_alive (task : SendTask) : Prop :=
  match task with SendDone | SendPanicked => False | _ => True end.

(** The bytes a sink has taken on: what it wrote, then the frame it holds. *)
Definition committed (k : sink) : bytes :=
  wr_out (writer k)
  ++ match wr_slot (writer k) with Some f => frame_bytes f | None => [] end.

(** Between frames the slot is empty. *)
Definition send_inv cfg (task : SendTask) (k : sink) (out : bytes) : Prop :=
  wr_codec (writer k) = codec_new cfg /\ committed k = out /\
  (task <> SendSending -> wr_slot (writer k) = None) /\
  (forall f, wr_slot (writer k) = Some f -> encodable (max_frame_size cfg) f).

Lemma send_poll_inv cfg s k out :
  send_inv cfg SendSending k out ->
  let '(task', s', k') := send_poll s k in
  send_alive task' -> send_inv cfg task' k' out.
Proof.
  intros (Hc & Ho & _ & Hf). unfold send_poll.
  pose proof (poll_send_writer k) as Hs. destruct (poll_send k) as [r k']. simpl in Hs.
  inversion Hs as [E1 E2|e E1 E2|f dst r' Hsl He Hr Er Ew|f e dst Hsl He Er Ew|Hsl Er Ew].
  - simpl. intros _. unfold send_inv, committed. rewrite <- E2. done.
  - simpl. done.
  - assert (Hdst : dst = out).
    { pose proof (Hf f Hsl) as Hen. rewrite Hc, encode_encodable in He by done.
      injection He as <-. unfold committed in Ho. by rewrite Hsl in Ho. }
    subst dst.
    destruct Hr as [->|[->|[e ->]]]; simpl; try done; intros _; unfold send_inv, committed;
      rewrite <- Ew; simpl; by rewrite app_nil_r.
  - rewrite Hc, encode_encodable in He by (by apply Hf). done.
  - simpl. intros _. unfold send_inv, committed in *. by rewrite <- Ew.
Qed.

Lemma send_step_inv cfg cf task s k out :
  send_inv cfg task k out -> send_alive task ->
  Forall (encodable (max_frame_size cfg)) (send_takes cf task s) ->
  let '(task', s', k') := send_step cf task s k in
  send_alive task' -> send_inv cfg task' k' (out ++ wire (send_takes cf task s)).
Proof.
  intros Hinv Ha. destruct (send_listens task s) as [close|] eqn:Hl.
  - rewrite (send_step_select _ _ _ _ _ Hl). unfold send_takes. rewrite Hl.
    destruct Hinv as (Hc & Ho & Hs & Hf).
    assert (Hsl : wr_slot (writer k) = None) by (apply Hs; by destruct task).
    unfold send_select. destruct (_ && _); [done|].
    destruct (recv_async _) as [r c]. simpl fst.
    destruct r as [[f|u|]|]; simpl; try done.
    + intros Hen. apply Forall_cons in Hen as [Hen _]. apply send_poll_inv.
      unfold send_inv, committed in *. rewrite start_send_writer by done. simpl.
      rewrite Hsl, app_nil_r in Ho. subst out. unfold wire. simpl. rewrite app_nil_r.
      split; [done|]. split; [done|]. split; [done|]. by intros f' [= <-].
    + intros _. destruct (is_notified _ _); simpl; [done|]. intros _.
      rewrite app_nil_r. unfold send_inv. auto.
  - unfold send_takes. rewrite Hl. intros _. unfold wire; simpl. rewrite app_nil_r.
    destruct task; simpl in Hl, Ha; try done. by apply send_poll_inv.
Qed.

Lemma send_trace_inv cfg r taken r' :
  send_trace r taken r' -> send_inv cfg (sd_task r) (sd_sink r) (wr_out (writer (sd_sink r))) ->
  Forall (encodable (max_frame_size cfg)) taken -> send_alive (sd_task r') ->
  send_inv cfg (sd_task r') (sd_sink r') (wr_out (writer (sd_sink r)) ++ wire taken).
Proof.
  intros Htr Hinv. induction Htr as [|taken task s k cf Htr IH p|taken task s k s' Htr IH];
    intros Hen Ha.
  - unfold wire. simpl. by rewrite app_nil_r.
  - apply Forall_app in Hen as [Hen1 Hen2].
    assert (send_alive task \/ ~ send_alive task) as [Ha1|Hna]
      by (destruct task; simpl; tauto).
    + pose proof (send_step_inv cfg cf task s k _ (IH Hen1 Ha1) Ha1 Hen2) as Hs.
      subst p. destruct (send_step cf task s k) as [[task' s'] k']. simpl in *.
      rewrite wire_app, app_assoc. auto.
    + subst p. destruct task; simpl in Hna, Ha; tauto.
  - simpl in *. auto.
Qed.
End sending.

(** ** Tasks that were busy when the session was closed

    A task that creates its close future in a closed session never sees it complete. *)
Section closing.
Context {B : BytesCrate} {BL : BytesLaws B}.
Context {F : FlumeCrate} {FL : FlumeLaws F} {N : NotifyCrate} {NL : NotifyLaws N}.
Context {R : ReadBufCrate} {RL : ReadBufLaws R}.
Context {D : FramedCrate} {T : IntervalCrate}.
Context {M : Type -> Type} `{FinMap Z M}.
Implicit Types (s : Session M) (y : System M).

(** No close future of its own yet: at the top of the loop, or inside a branch. *)
Definition recv_busy (task : RecvTask) : Prop :=
  match task with RecvLoop | RecvHandling _ => True | _ => False end.

Definition send_busy (task : SendTask) : Prop :=
  match task with SendLoop | SendSending => True | _ => False end.

(** At the top of the loop or in the [select!]: the next step looks for work. *)
Definition recv_idle (task : RecvTask) : Prop :=
  match task with RecvLoop | RecvSelect _ => True | _ => False end.

Definition send_idle (task : SendTask) : Prop :=
  match task with SendLoop | SendSelect _ => True | _ => False end.

(** The transport has nothing more for the receive loop. *)
Definition connection_over (src : source) : Prop :=
  (poll_next src).1 = Ready None \/ exists e, (poll_next src).1 = Ready (Some (Err e)).

(** Whatever the task listens to has not completed. *)
Definition unaware (listens : option notified_future) s : Prop :=
  forall close, listens = Some close ->
    is_notified (close_notifier (session_state s)) close = false.

Lemma unaware_fresh s : unaware (Some (notified (close_notifier (session_state s)))) s.
Proof. intros close [= <-]. apply fresh_not_notified. Qed.

Lemma recv_busy_unaware task s : recv_busy task -> unaware (recv_listens task s) s.
Proof. destruct task; try done. intros _. apply unaware_fresh. Qed.

Lemma send_busy_unaware task s : send_busy task -> unaware (send_listens task s) s.
Proof. destruct task; try done. intros _. apply unaware_fresh. Qed.

Lemma unaware_same_recv task s s' :
  same_closing (session_state s) (session_state s') ->
  unaware (recv_listens task s) s -> unaware (recv_listens task s') s'.
Proof.
  intros [Hd _] Hu. destruct task as [|close| | |]; try done; [apply unaware_fresh|].
  intros close' [= <-]. specialize (Hu _ eq_refl). unfold close_notifier in *. by rewrite Hd.
Qed.

Lemma unaware_same_send task s s' :
  same_closing (session_state s) (session_state s') ->
  unaware (send_listens task s) s -> unaware (send_listens task s') s'.
Proof.
  intros [Hd _] Hu. destruct task as [|close| | |]; try done; [apply unaware_fresh|].
  intros close' [= <-]. specialize (Hu _ eq_refl). unfold close_notifier in *. by rewrite Hd.
Qed.

(** What a step does in such a task. *)
Lemma unaware_recv_step cf task s src :
  unaware (recv_listens task s) s ->
  let p := recv_step cf task s src in
  (recv_idle task ->
   (forall f, (poll_next src).1 = Ready (Some (Ok f)) ->
      p.1 = (recv_handled (handle_frame f (update_state mark_data_received s)).1,
             (handle_frame f (update_state mark_data_received s)).2)) /\
   ((poll_next src).1 = Pending -> exists close, p.1 = (RecvSelect close, s))) /\
  (p.1.1 = RecvDone -> task = RecvDone \/ connection_over src).
Proof.
  intros Hu. destruct (recv_listens task s) as [close|] eqn:Hl.
  - cbv zeta. rewrite (recv_step_select cf _ _ src _ Hl). unfold recv_select.
    rewrite (Hu close eq_refl), andb_false_r. unfold connection_over.
    destruct (poll_next src) as [r src']. simpl. split; [intros _; split|].
    + intros f ->. by destruct (handle_frame _ _).
    + intros ->. by exists close.
    + destruct r as [[[f|e|]|]|]; simpl; try done; eauto.
      destruct (handle_frame _ _) as [[[]|] s']; simpl; done.
  - destruct task as [|close|fut| |]; try discriminate Hl; (split; [done|]); simpl; eauto.
    destruct (resume_frame _ _ _) as [[[]|] s']; done.
Qed.

Lemma send_poll_done s k :
  (send_poll s k).1.1 = SendDone -> exists e, (poll_send k).1 = Ready (Err e).
Proof. unfold send_poll. destruct (poll_send k) as [[[|e|]|] k']; simpl; try done. eauto. Qed.

Lemma unaware_send_step cf task s k :
  unaware (send_listens task s) s ->
  let p := send_step cf task s k in
  let frames := sh_frames (s_shared s) in
  (send_idle task ->
   (forall f q, queue (view frames) = f :: q ->
      p = send_poll (set_shared (set_frames (recv_async frames).2 (s_shared s)) s)
            (start_send f k)) /\
   (queue (view frames) = [] -> senders (view frames) <> 0%nat ->
      exists close, p.1.1 = SendSelect close)) /\
  (p.1.1 = SendDone ->
     task = SendDone \/ (queue (view frames) = [] /\ senders (view frames) = 0%nat) \/
     exists k' e, (k' = k \/ exists f, k' = start_send f k) /\ (poll_send k').1 = Ready (Err e)).
Proof.
  intros Hu. destruct (send_listens task s) as [close|] eqn:Hl.
  - cbv zeta. rewrite (send_step_select cf _ _ k _ Hl). unfold send_select.
    rewrite (Hu close eq_refl), andb_false_r.
    set (frames := sh_frames (s_shared s)). destruct (queue (view frames)) as [|f q] eqn:Hq.
    + destruct (decide (senders (view frames) = 0%nat)) as [Hz|Hz].
      * split; [|by right; left]. intros _. by split.
      * destruct (recv_async_empty _ _ Hq Hz) as [Hr _].
        destruct (recv_async frames) as [p c]. simpl in Hr. subst p.
        split; [|done]. intros _. split; [done|]. intros _ _. by exists close.
    + destruct (recv_async_ok _ f q _ Hq) as [Hr _].
      destruct (recv_async frames) as [p c]. simpl in Hr. subst p. split.
      * intros _. split; [|done]. by intros g q' [= <- <-].
      * intros [e He]%send_poll_done. do 2 right. exists (start_send f k), e. eauto.
  - destruct task as [|close| | |]; try discriminate Hl; (split; [done|]); simpl; eauto.
    intros [e He]%send_poll_done. do 2 right. exists k, e. eauto.
Qed.

(** Its next future is no different. *)
Lemma recv_step_unaware cf task s src :
  unaware (recv_listens task s) s ->
  let p := recv_step cf task s src in unaware (recv_listens p.1.1 p.1.2) p.1.2.
Proof.
  intros Hu. destruct (recv_listens task s) as [close|] eqn:Hl; cbv zeta.
  - rewrite (recv_step_select cf _ _ src _ Hl). unfold recv_select.
    rewrite (Hu close eq_refl), andb_false_r.
    destruct (poll_next src) as [[[[f|e|]|]|] src']; try done.
    destruct (handle_frame _ _) as [[[]|] s']; done || apply unaware_fresh.
  - destruct task as [|close|fut| |]; try done. simpl.
    destruct (resume_frame _ _ _) as [[[]|] s']; done || apply unaware_fresh.
Qed.

Lemma send_poll_unaware s k :
  let p := send_poll s k in unaware (send_listens p.1.1 p.1.2) p.1.2.
Proof.
  unfold send_poll. destruct (poll_send k) as [[[|e|]|] k']; done || apply unaware_fresh.
Qed.

Lemma send_step_unaware cf task s k :
  unaware (send_listens task s) s ->
  let p := send_step cf task s k in unaware (send_listens p.1.1 p.1.2) p.1.2.
Proof.
  intros Hu. destruct (send_listens task s) as [close|] eqn:Hl; cbv zeta.
  - rewrite (send_step_select cf _ _ k _ Hl). unfold send_select.
    rewrite (Hu close eq_refl), andb_false_r.
    destruct (recv_async _) as [[[f|e|]|] c]; try done. apply send_poll_unaware.
  - destruct task as [|close| | |]; try done. apply send_poll_unaware.
Qed.

Lemma system_trace_trans y r1 y1 r2 y2 :
  system_trace y r1 y1 -> system_trace y1 r2 y2 -> system_trace y (r1 + r2) y2.
Proof.
  intros Ht Ht2. induction Ht2 as [|r2 y2 n y3 Ht2 IH Hstep].
  - by rewrite Z.add_0_r.
  - rewrite Z.add_assoc. by eapply system_steps.
Qed.

(** One step of the running session, after it has been closed. *)
Lemma system_step_closing cfg role src k r y n y' :
  system_trace (system_new cfg role src k) r y -> system_step y n y' ->
  closed (session_state (sys_session y)) = true ->
  same_closing (session_state (sys_session y)) (session_state (sys_session y')) /\
  (unaware (recv_listens (sys_recv y) (sys_session y)) (sys_session y) ->
   unaware (recv_listens (sys_recv y') (sys_session y')) (sys_session y')) /\
  (unaware (send_listens (sys_send y) (sys_session y)) (sys_session y) ->
   unaware (send_listens (sys_send y') (sys_session y')) (sys_session y')).
Proof.
  intros Htr Hstep Hc. destruct (system_trace_session cfg role src k r y Htr) as [Htt Hn].
  pose proof (token_trace_wf cfg role r _ Htt) as Hwf.
  destruct Hstep as [n s' Hu|cf|cf|start now|src'].
  - pose proof (token_trace_closed _ _ _ Hc (token_trace_one _ _ _ (user_step_session _ _ _ Hu)))
      as Hs.
    split; [done|]. split; [by apply unaware_same_recv|by apply unaware_same_send].
  - destruct (run_recv_trace cf y Hwf Hn) as [Ht _].
    pose proof (token_trace_closed _ _ _ Hc Ht) as Hs. split; [done|].
    pose proof (recv_step_unaware cf (sys_recv y) (sys_session y) (sys_source y)) as Hr.
    unfold run_recv in *. destruct (recv_step _ _ _ _) as [[task s'] src']. simpl in *.
    split; [exact Hr|by apply unaware_same_send].
  - pose proof (token_trace_closed _ _ _ Hc (run_send_trace cf y)) as Hs. split; [done|].
    pose proof (send_step_unaware cf (sys_send y) (sys_session y) (sys_sink y)) as Hr.
    unfold run_send in *. destruct (send_step _ _ _ _) as [[task s'] k']. simpl in *.
    split; [by apply unaware_same_recv|exact Hr].
  - pose proof (token_trace_closed _ _ _ Hc (run_keep_alive_trace start now y)) as Hs.
    split; [done|]. unfold run_keep_alive in *. destruct (keep_alive_step _ _ _ _) as [task s'].
    split; [by apply unaware_same_recv|by apply unaware_same_send].
  - done.
Qed.

Lemma system_trace_closed cfg role src k r y r' y' :
  system_trace (system_new cfg role src k) r y -> system_trace y r' y' ->
  session_is_closed (sys_session y) = true ->
  session_is_closed (sys_session y') = true /\
  (unaware (recv_listens (sys_recv y) (sys_session y)) (sys_session y) ->
   unaware (recv_listens (sys_recv y') (sys_session y')) (sys_session y')) /\
  (unaware (send_listens (sys_send y) (sys_session y)) (sys_session y) ->
   unaware (send_listens (sys_send y') (sys_session y')) (sys_session y')).
Proof.
  intros Htr Htr' Hc. induction Htr' as [|r' y1 n y2 Htr' (Hc1 & Hr1 & Hs1) Hstep]; [done|].
  destruct (system_step_closing cfg role src k _ y1 n y2
    (system_trace_trans _ _ _ _ _ Htr Htr') Hstep Hc1) as ([_ Hcl] & Hr2 & Hs2).
  split; [|tauto]. unfold session_is_closed, is_closed in *.
  change (closed (session_state (sys_session y2)) = true). by rewrite Hcl.
Qed.
End closing.

(** ** The keep-alive loop *)
Section keep_alive.
Context {B : BytesCrate} {BL : BytesLaws B}.
Context {F : FlumeCrate} {FL : FlumeLaws F} {N : NotifyCrate} {NL : NotifyLaws N}.
Context {T : IntervalCrate} {TL : IntervalLaws T}.
Context {M : Type -> Type} `{FinMap Z M}.
Implicit Types s : Session M.

(** What the timeout of the keep-alive loop looks at: frames arriving, and its own
    timeout ticks. *)
Inductive Event : Type := FrameArrived | TimeoutTick.

Fixpoint keep_alive_run (evs : list Event) (p t : timer) s : KeepAliveTask * Session M :=
  match evs with
  | [] => (KeepAliveLoop p t, s)
  | FrameArrived :: evs => keep_alive_run evs p t (update_state mark_data_received s)
  | TimeoutTick :: evs =>
      match keep_alive_timeout_tick p t s with
      | (KeepAliveLoop p t, s) => keep_alive_run evs p t s
      | res => res
      end
  end.

(** Two ticks with no frame between them. *)
Definition silent_period (evs : list Event) : Prop :=
  exists pre post, evs = pre ++ TimeoutTick :: TimeoutTick :: post.

Lemma keep_alive_timeout_tick_eq p t s :
  keep_alive_timeout_tick p t s
  = let s' := update_state (fun st => (check_and_reset_data_received st).2) s in
    if negb (data_received (session_state s)) && (tokens (session_state s) >? 0)
    then (KeepAliveDone, update_state state_close s')
    else (KeepAliveLoop p t, s').
Proof.
  unfold keep_alive_timeout_tick, check_and_reset_data_received, get_tokens. simpl.
  destruct (data_received _); simpl; [done|]. by destruct (_ >? 0).
Qed.

Lemma silent_cons_frame evs : silent_period (FrameArrived :: evs) <-> silent_period evs.
Proof.
  split; intros (pre & post & He).
  - destruct pre as [|e pre]; [done|]. injection He as <- ->. by exists pre, post.
  - subst evs. by exists (FrameArrived :: pre), post.
Qed.

Lemma silent_cons_tick evs :
  silent_period (TimeoutTick :: evs) <->
  (exists post, evs = TimeoutTick :: post) \/ silent_period evs.
Proof.
  split.
  - intros (pre & post & He). destruct pre as [|e pre]; simplify_eq/=; [left; eauto|].
    right. by exists pre, post.
  - intros [[post ->]|(pre & post & ->)]; [by exists [], post|].
    by exists (TimeoutTick :: pre), post.
Qed.

Lemma keep_alive_run_closed evs p t s :
  0 < tokens (session_state s) -> closed (session_state s) = false ->
  let '(task, s') := keep_alive_run evs p t s in
  (closed (session_state s') = true <-> task = KeepAliveDone) /\
  (task = KeepAliveDone <->
    (data_received (session_state s) = false /\ exists post, evs = TimeoutTick :: post) \/
    silent_period evs).
Proof.
  revert s. induction evs as [|[] evs IH]; intros s Ht Hc.
  - simpl. split; [by split; [congruence|]|]. split; [done|].
    intros [(_ & post & ?)|(pre & post & ?)]; [done|]. by destruct pre.
  - cbn [keep_alive_run]. specialize (IH (update_state mark_data_received s) Ht Hc).
    destruct (keep_alive_run evs p t _) as [task s']. destruct IH as [IH1 IH2].
    split; [done|]. rewrite IH2, silent_cons_frame. simpl.
    split; [intros [[? _]|?]; [done|by right]|].
    intros [(_ & post & ?)|?]; [done|by right].
  - cbn [keep_alive_run]. rewrite keep_alive_timeout_tick_eq. cbv zeta.
    rewrite Z.gtb_ltb, (proj2 (Z.ltb_lt _ _) Ht), andb_true_r.
    destruct (data_received (session_state s)) eqn:Hd; simpl negb; cbv iota.
    + set (s1 := update_state _ s).
      specialize (IH s1 Ht Hc).
      destruct (keep_alive_run evs p t s1) as [task s']. destruct IH as [IH1 IH2].
      split; [done|]. rewrite IH2, silent_cons_tick. simpl.
      split; [intros [[_ ?]|?]; right; auto|]. intros [[? _]|[?|?]]; [done|by left|by right].
    + split; [split; [done|intros _; apply state_close_closed]|].
      split; [intros _; left; eauto|done].
Qed.

(** A ping that waits for room in the frame channel keeps waiting, whatever time it
    is. *)
Definition keep_alive_steps (steps : list (Branch * Z)) (task : KeepAliveTask) s
    : KeepAliveTask * Session M :=
  fold_left (fun p step => keep_alive_step step.1 step.2 p.1 p.2) steps (task, s).

Lemma keep_alive_ping_full p t nop s :
  receivers (view (sh_frames (s_shared s))) <> 0%nat ->
  surely_full (view (sh_frames (s_shared s))) = true ->
  let '(task, s') := keep_alive_ping p t nop s in
  task = KeepAlivePing p t nop /\ session_state s' = session_state s /\
  view (sh_frames (s_shared s')) = view (sh_frames (s_shared s)).
Proof.
  intros Hr Hf. unfold keep_alive_ping.
  destruct (send_async_pending _ nop _ Hr Hf) as [Hs Hv].
  destruct (send_async _ _) as [r c]. simpl in Hs, Hv. by subst r.
Qed.
End keep_alive.
