(* ===== verification/LoopsProps.v ===== *)
(** * Properties of the running session

    The claims about the tasks proved from LoopsSpec.v, and the inputs that witness
    them. *)

From stdpp Require Import strings.
From S2P Require Import Prelude Crates Errors Config Command Frame Codec CodecSpec Runtime.
From S2P Require Import SessionState Stream StreamSpec Session SessionSpec SessionProps.
From S2P Require Import Handshake Delivery Loops LoopsSpec.

Section loop_properties.
Context {B : BytesCrate} {BL : BytesLaws B}.
Context {F : FlumeCrate} {FL : FlumeLaws F} {N : NotifyCrate} {NL : NotifyLaws N}.
Context {R : ReadBufCrate} {RL : ReadBufLaws R}.
Context {D : FramedCrate} {DL : FramedLaws D} {T : IntervalCrate} {TL : IntervalLaws T}.
Context {M : Type -> Type} `{FinMap Z M}.
Implicit Types s : Session M.

(** C13: the receive loop dispatches exactly the frames of the connection, in order.
    Whatever else happens to the session between its steps, and however the bytes
    arrive: if the bytes of the connection are a sequence of encoded frames, the
    frames the loop has taken are a prefix of it, and, while the loop is alive, the
    bytes it has not decoded yet are those of the other frames.  Each frame it takes
    marks the session as alive and goes through [handle_frame]. *)
Theorem recv_loop_in_order cfg s src taken added r' future fs :
  rd_codec (reader src) = codec_new cfg ->
  Forall (encodable (max_frame_size cfg)) fs ->
  recv_trace (mkReceiving RecvLoop s src) taken added r' ->
  undecoded src ++ added ++ future = wire fs ->
  (exists rest, fs = taken ++ rest /\
     (recv_alive (rv_task r') -> undecoded (rv_source r') ++ future = wire rest)) /\
  (forall cf f, recv_takes cf (rv_task r') (rv_session r') (rv_source r') = [f] ->
     let s1 := update_state mark_data_received (rv_session r') in
     (recv_step cf (rv_task r') (rv_session r') (rv_source r')).1
     = (recv_handled (handle_frame f s1).1, (handle_frame f s1).2)).
Proof.
  intros Hc Hfs Htr Hun. split.
  - destruct (recv_trace_stream cfg _ taken added r' Htr eq_refl Hc future fs Hfs Hun)
      as (rest & Hrest & Ha).
    exists rest. split; [done|]. intros Halive. by apply Ha.
  - intros cf f. apply recv_takes_handled.
Qed.

(** C22: the receive loop ends.  Left to itself on a connection that delivers frames its
    own codec carries, in any chunks, and is then closed by the peer, with room in the
    accept queue for the streams the frames open (with those that wait, at most sixteen)
    and for their bytes in the token counter, it handles every frame, in order,
    and stops, having closed the session: one step per frame and one more.  This holds
    for an open session and for one that is closed already. *)
Theorem recv_loop_drains cfg cf fs s src :
  rd_codec (reader src) = codec_new cfg -> rd_eof (reader src) = true ->
  Forall (encodable (max_frame_size cfg)) fs -> undecoded src = wire fs ->
  session_wf s -> 0 < tokens (session_state s) ->
  tokens (session_state s) + volume fs < 2 ^ 63 -> waiting s + syns fs <= 16 ->
  exists s' src',
    recv_run (S (length fs)) cf RecvLoop s src = (RecvDone, s', src') /\
    s' = update_state state_close (recv_all fs s) /\ session_is_closed s' = true.
Proof.
  intros Hc Heof Hfs Hun Hwf Ht Hvol Hw.
  destruct (recv_run_drains cfg cf fs s src Hc Heof Hfs Hun Hwf Ht Hvol Hw) as [src' Hr].
  eexists _, src'. split; [exact Hr|]. split; [done|].
  apply (state_close_closed (session_state (recv_all fs s))).
Qed.

(** C23: what has arrived is lost when the connection ends.  When the peer's frames,
    among them data for an open stream, are followed by the end of the connection, the
    receive loop queues that data for the stream, in order behind what is unread, and
    closes the session; every read of the stream then fails with [BrokenPipe], although
    the bytes are there. *)
Theorem disconnect_loses_unread cfg cf fs s src id e st buf :
  rd_codec (reader src) = codec_new cfg -> rd_eof (reader src) = true ->
  Forall (encodable (max_frame_size cfg)) fs -> fs <> [] -> undecoded src = wire fs ->
  session_wf s -> 0 < tokens (session_state s) ->
  tokens (session_state s) + volume fs < 2 ^ 63 -> waiting s + syns fs <= 16 ->
  s_streams s !! id = Some e -> receivers (chan s (ss_data_tx e)) <> 0%nat ->
  Forall (fun f => stream_id f = id -> cmd f = Psh /\ data f <> []) fs ->
  st_data_rx st = ss_data_tx e -> st_is_read_closed st = false ->
  exists s' src', recv_run (S (length fs)) cf RecvLoop s src = (RecvDone, s', src') /\
    unread st (s_shared s') = unread st (s_shared s) ++ concat (map data (of_stream id fs)) /\
    rp_result (poll_read st (s_shared s') buf) = Ready (Err session_closed_error).
Proof.
  intros Hc Heof Hfs Hne Hun Hwf Ht Hvol Hw He Hr Hown Hrx Hrc.
  destruct (recv_run_drains cfg cf fs s src Hc Heof Hfs Hun Hwf Ht Hvol Hw) as [src' Hrun].
  eexists _, src'. split; [exact Hrun|].
  rewrite recv_all_handle_all by done.
  destruct (handle_all_stream id e fs (update_state mark_data_received s)) as (_ & _ & Hch);
    [eauto with smux|done..|].
  set (s1 := handle_all fs _) in *. split.
  - assert (Hp : pending_chunks st (s_shared (update_state state_close s1))
                 = pending_chunks st (s_shared s) ++ map data (of_stream id fs)).
    { unfold pending_chunks. rewrite Hrx. unfold chan in Hch.
      change (data_channel (ss_data_tx e) (s_shared (update_state state_close s1)))
        with (data_channel (ss_data_tx e) (s_shared s1)).
      by rewrite Hch. }
    unfold unread. by rewrite Hp, concat_app, app_assoc.
  - unfold poll_read. rewrite Hrc. unfold is_closed.
    pose proof (state_close_closed (session_state s1)) as Hcl.
    change (closed (sh_state (s_shared (update_state state_close s1))) = true) in Hcl.
    by rewrite Hcl.
Qed.

(** C35: one stream that is not accepted stops all streams.  When sixteen streams wait
    in the accept queue, the SYN of another one leaves the receive loop waiting in its
    handler, and no number of its steps takes another frame from the connection or
    notices that the session is closed, until a stream is accepted. *)
Theorem full_accept_queue_blocks cf f s src n :
  session_wf s -> cmd f = Syn -> waiting s = 16 ->
  peer_id (s_is_client s) (stream_id f) = true -> s_streams s !! stream_id f = None ->
  exists stream, (handle_frame f s).1 = Await (SynSending stream) /\
    forall s', session_wf s' -> waiting s' = 16 ->
      let p := recv_run n cf (RecvHandling (SynSending stream)) s' src in
      p.1.1 = RecvHandling (SynSending stream) /\ p.2 = src /\
      session_state p.1.2 = session_state s' /\ s_streams p.1.2 = s_streams s'.
Proof.
  assert (Hfull : forall s1 stream, session_wf s1 -> waiting s1 = 16 ->
    (syn_send stream s1).1 = Await (SynSending stream) /\
    waiting (syn_send stream s1).2 = 16 /\
    s_shared (syn_send stream s1).2 = s_shared s1 /\
    s_streams (syn_send stream s1).2 = s_streams s1).
  { intros s1 stream Hwf Hw. unfold syn_send, waiting in *.
    assert (Hf : surely_full (view (s_incoming s1)) = true).
    { unfold surely_full. rewrite (wf_accept_queue s1 Hwf), Hw. done. }
    destruct (send_async_pending _ stream _ (wf_incoming s1 Hwf) Hf) as [Hr Hv].
    destruct (send_async _ _) as [r c]. simpl in Hr, Hv. subst r. simpl. by rewrite Hv. }
  intros Hwf Hc Hw Hp Hs. unfold handle_frame, handle_syn_frame. rewrite Hc.
  rewrite validate_peer_peer_id, Hp, Hs.
  pose proof (register_wf (stream_id f) s Hwf) as Hwf1.
  pose proof (register_shared (stream_id f) s) as (_ & Hinc & _).
  destruct (register_stream (stream_id f) s) as [stream s1]. simpl in Hwf1, Hinc.
  exists stream. split.
  { apply Hfull; [done|]. unfold waiting in *. by rewrite Hinc. }
  induction n as [|n IH]; intros s' Hwf' Hw'; [done|]. cbv zeta.
  cbn [recv_run recv_step resume_frame].
  destruct (Hfull s' stream Hwf' Hw') as (Hh & Hw2 & Hsh & Hst).
  pose proof (syn_send_wf stream s' Hwf') as Hwf2.
  destruct (syn_send stream s') as [h s2]. simpl in *. subst h.
  destruct (IH s2 Hwf2 Hw2) as (Ha & Hb & Hd & He). simpl.
  split; [done|]. split; [done|]. unfold session_state in *. split; congruence.
Qed.

(** C7: the invariant of the running session.  In every state that users, the receive
    loop, the send loop, the keep-alive loop and whatever the transport delivers reach
    together, in any interleaving: the stream table is well formed, the tokens are at least [max_receive_buffer], and
    if the receive loop waits in a handler, it is for room in the accept queue. *)
Theorem running_session_invariant cfg role src k r y :
  0 < max_receive_buffer cfg -> max_receive_buffer cfg + r < 2 ^ 63 ->
  system_trace (system_new (M := M) cfg role src k) r y ->
  session_wf (sys_session y) /\
  max_receive_buffer cfg <= tokens (session_state (sys_session y)) /\
  (forall fut, sys_recv y = RecvHandling fut -> exists stream, fut = SynSending stream).
Proof.
  intros Hpos Hmax Htr.
  destruct (system_trace_session cfg role src k r y Htr) as [Htt _].
  split; [by eapply token_trace_wf|].
  split; [by apply (session_tokens_bounds cfg role r)|].
  by apply (system_trace_waits cfg role src k r).
Qed.

(** C28: a task that is busy when the session is closed never learns of it.  Closing
    wakes the close futures that exist at that moment, once; a task that is then inside a
    handler or a send, or at the top of its loop, creates its next future afterwards, and
    whatever users, tasks and transport do from then on, that future never completes.
    The receive loop, at its top or in its [select!], goes on handling every frame that
    arrives and waits for more when there is none, and stops only at the end of the
    connection; the send loop goes on writing every frame of the channel and waits for
    more, and stops only when the transport fails or the channel has no sender left. *)
Theorem close_missed_by_busy_tasks cfg role src k r y r' y' cf :
  system_trace (system_new (M := M) cfg role src k) r y -> system_trace y r' y' ->
  session_is_closed (sys_session y) = true ->
  let s' := sys_session y' in
  session_is_closed s' = true /\
  (recv_busy (sys_recv y) ->
   let p := recv_step cf (sys_recv y') s' (sys_source y') in
   (recv_idle (sys_recv y') ->
    (forall f, (poll_next (sys_source y')).1 = Ready (Some (Ok f)) ->
       p.1 = (recv_handled (handle_frame f (update_state mark_data_received s')).1,
              (handle_frame f (update_state mark_data_received s')).2)) /\
    ((poll_next (sys_source y')).1 = Pending -> exists close, p.1 = (RecvSelect close, s'))) /\
   (p.1.1 = RecvDone -> sys_recv y' = RecvDone \/ connection_over (sys_source y'))) /\
  (send_busy (sys_send y) ->
   let p := send_step cf (sys_send y') s' (sys_sink y') in
   let frames := sh_frames (s_shared s') in
   (send_idle (sys_send y') ->
    (forall f q, queue (view frames) = f :: q ->
       p = send_poll (set_shared (set_frames (recv_async frames).2 (s_shared s')) s')
             (start_send f (sys_sink y'))) /\
    (queue (view frames) = [] -> senders (view frames) <> 0%nat ->
       exists close, p.1.1 = SendSelect close)) /\
   (p.1.1 = SendDone ->
      sys_send y' = SendDone \/
      (queue (view frames) = [] /\ senders (view frames) = 0%nat) \/
      exists k' e, (k' = sys_sink y' \/ exists f, k' = start_send f (sys_sink y')) /\
                   (poll_send k').1 = Ready (Err e))).
Proof.
  intros Htr Htr' Hc s'.
  destruct (system_trace_closed cfg role src k r y r' y' Htr Htr' Hc) as (Hc' & Hr & Hs).
  split; [done|]. split; intros Hb p.
  - apply (unaware_recv_step cf); [by apply Hr, recv_busy_unaware].
  - apply (unaware_send_step cf); [by apply Hs, send_busy_unaware].
Qed.

(** C19: the send loop writes exactly the frames of the channel, in order.  Whatever
    else happens to the session between its steps, and however slowly the transport
    takes the bytes: while the loop is alive, what it has committed to the transport is
    what was there before followed by the encodings of the frames it has taken from the
    channel, in order; between two frames all of it is written; and the frame it takes
    is the first of the channel. *)
Theorem send_loop_in_order cfg s k taken r' :
  wr_codec (writer k) = codec_new cfg -> wr_slot (writer k) = None ->
  send_trace (mkSending SendLoop s k) taken r' ->
  Forall (encodable (max_frame_size cfg)) taken ->
  (send_alive (sd_task r') ->
     committed (sd_sink r') = wr_out (writer k) ++ wire taken /\
     (sd_task r' <> SendSending ->
        wr_out (writer (sd_sink r')) = wr_out (writer k) ++ wire taken)) /\
  (forall cf f, send_takes cf (sd_task r') (sd_session r') = [f] ->
     exists q, queue (view (sh_frames (s_shared (sd_session r')))) = f :: q).
Proof.
  intros Hc Hs Htr Hen. split.
  - intros Ha.
    destruct (send_trace_inv cfg _ taken r' Htr) as (_ & Ho & Hsl & _); [|done..|].
    { split; [done|]. simpl. unfold committed. rewrite Hs. split; [by rewrite app_nil_r|].
      split; [done|]. congruence. }
    split; [exact Ho|]. intros Hne. simpl in Ho. rewrite <- Ho. unfold committed.
    by rewrite (Hsl Hne), app_nil_r.
  - intros cf f Ht. destruct (send_takes_head cf _ _ f Ht) as (q & Hq & _). eauto.
Qed.

(** [close] is not graceful: it does not wait for the frames that streams have
    handed over.  However many frames wait in the channel, when the session is closed
    while the send loop is in its [select!], the loop may stop at once (the branches
    race), with nothing written and every one of those frames, data and FINs, lost. *)
Theorem close_may_drop_frames s k close :
  closed (session_state s) = false ->
  created_at close = calls (close_notifier (session_state s)) ->
  let s1 := (session_close s).2 in
  send_step true (SendSelect close) s1 k = (SendDone, drop_frame_rx s1, k) /\
  sh_frames (s_shared s1) = sh_frames (s_shared s) /\
  receivers (view (sh_frames (s_shared (drop_frame_rx s1))))
    = pred (receivers (view (sh_frames (s_shared s)))).
Proof.
  intros Hc Hcr s1.
  assert (Hst : session_state s1 = state_close (session_state s)) by done.
  assert (Hs1 : update_state state_close s1 = s1).
  { unfold update_state. rewrite Hst, state_close_idempotent, <- Hst.
    unfold session_state. by destruct s1 as [????? []]. }
  assert (Hn : is_notified (close_notifier (session_state s1)) close = true).
  { unfold close_notifier in *. rewrite Hst. unfold state_close. rewrite Hc. simpl.
    rewrite is_notified_spec, calls_waiters, Hcr. apply Nat.ltb_lt. lia. }
  cbn [send_step]. unfold send_select. rewrite Hn. simpl.
  split; [unfold send_exit; by rewrite Hs1|]. split; [done|].
  by destruct (receiver_drop_view _ (sh_frames (s_shared s))) as (_ & _ & ->).
Qed.

(** How the keep-alive loop starts.  It is not run when keep-alive is off.  When it
    is on, a valid configuration may still have a zero interval, and then creating the
    timer panics and the task is gone, so the session has no keep-alive at all;
    otherwise both timers start, due at once. *)
Theorem keep_alive_start_outcomes start now s :
  config_valid (s_config s) -> config_typed (s_config s) ->
  let cfg := s_config s in
  (enable_keep_alive cfg = false ->
     keep_alive_step start now KeepAliveStart s = (KeepAliveDone, s)) /\
  (enable_keep_alive cfg = true -> keep_alive_interval cfg = 0 ->
     config_validate cfg = Ok tt /\
     keep_alive_step start now KeepAliveStart s = (KeepAlivePanicked, s)) /\
  (enable_keep_alive cfg = true -> keep_alive_interval cfg <> 0 ->
     exists p t, keep_alive_step start now KeepAliveStart s = (KeepAliveLoop p t, s) /\
       deadline p = now /\ period p = keep_alive_interval cfg /\
       deadline t = now /\ period t = keep_alive_timeout cfg).
Proof.
  intros Hv Ht cfg. cbn [keep_alive_step]. unfold keep_alive_start. fold cfg.
  pose proof (typed_interval cfg Ht) as Hi.
  split; [by intros ->|]. split; intros Hen; rewrite Hen; simpl.
  - intros ->. rewrite interval_zero. split; [by apply config_validate_valid|done].
  - intros Hz. pose proof (valid_keep_alive cfg Hv Hen) as Hlt.
    destruct (interval_start (keep_alive_interval cfg) now) as (p & -> & Hp); [lia|].
    destruct (interval_start (keep_alive_timeout cfg) now) as (t & -> & Htm); [lia|].
    exists p, t. tauto.
Qed.

(** C24: when keep-alive closes a session: exactly when two consecutive ticks of its
    timeout pass with no frame between them, of any stream and of any kind.  The first
    tick, which comes at once, never closes a new session, because the session starts
    as if it had just received something. *)
Theorem keep_alive_closes_iff_silent cfg role evs p t :
  0 < max_receive_buffer cfg < 2 ^ 63 ->
  let '(task, s) := keep_alive_run evs p t (session_new (M := M) cfg role) in
  (session_is_closed s = true <-> silent_period evs) /\
  (task = KeepAliveDone <-> silent_period evs).
Proof.
  intros Hb. pose proof (keep_alive_run_closed evs p t (session_new (M := M) cfg role)) as Hr.
  destruct (keep_alive_run evs p t _) as [task s].
  destruct Hr as [Hc Hd]; [simpl; rewrite as_i64_id; [lia|unfold is_i64; lia]|done|].
  simpl in Hd. assert (task = KeepAliveDone <-> silent_period evs) as Ht.
  { rewrite Hd. split; [intros [[? _]|?]; done|by right]. }
  split; [|done]. rewrite <- Ht. exact Hc.
Qed.

(** C36: a peer that stops reading is never timed out.  Once the frame channel is full
    (the send loop is stuck in the transport), a ping that is due waits for room in it,
    and for as long as it is full no step of the keep-alive loop, at any time, checks
    the timeout, closes the session, or notices that it was closed. *)
Theorem full_channel_disables_keep_alive steps p t nop s :
  receivers (view (sh_frames (s_shared s))) <> 0%nat ->
  surely_full (view (sh_frames (s_shared s))) = true ->
  (forall now close, deadline p <= now ->
     exists p', (keep_alive_select (branch_order PingBranch) now p t close s).1
                = KeepAlivePing p' t (new_nop (version (s_config s)))) /\
  (let '(task, s') := keep_alive_steps steps (KeepAlivePing p t nop) s in
   task = KeepAlivePing p t nop /\ session_state s' = session_state s).
Proof.
  intros Hr Hf. split.
  - intros now close Hp. cbn [branch_order keep_alive_select].
    destruct (tick_ready now p Hp) as [Ht _]. destruct (tick now p) as [ready p'].
    simpl in Ht. subst ready.
    pose proof (keep_alive_ping_full p' t (new_nop (version (s_config s))) s Hr Hf) as Hk.
    destruct (keep_alive_ping _ _ _ _) as [task s']. destruct Hk as (-> & _). by exists p'.
  - revert s Hr Hf. induction steps as [|[start now] steps IH]; intros s Hr Hf; [done|].
    unfold keep_alive_steps. cbn [fold_left fst snd keep_alive_step].
    pose proof (keep_alive_ping_full p t nop s Hr Hf) as Hk.
    destruct (keep_alive_ping p t nop s) as [task s1]. destruct Hk as (-> & Hst & Hv).
    rewrite <- Hv in Hr, Hf. specialize (IH s1 Hr Hf). unfold keep_alive_steps in IH.
    destruct (fold_left _ steps _) as [task s2]. destruct IH as [-> ->]. done.
Qed.
End loop_properties.

(** ** Witnesses: the properties at concrete inputs

    A connection that delivers a SYN and a PSH of stream 1 in two chunks and then ends. *)
Definition sample_run : list Frame := [new_syn 1 1; new_psh 1 1 b3].

Definition sample_source : @source framed_ref :=
  mkReader (codec_new config_default) [] [take 5 (wire sample_run); drop 5 (wire sample_run)]
    true.

Definition sample_sink (stalled : bool) : @sink framed_ref :=
  (mkWriter (codec_new config_default) None [], stalled).

Lemma sample_run_encodable : Forall (encodable (max_frame_size config_default)) sample_run.
Proof. repeat constructor; vm_compute; congruence. Qed.

Lemma recv_loop_in_order_witness :
  exists rest, sample_run = [new_syn 1 1] ++ rest /\
    undecoded (recv_step false RecvLoop sample_new sample_source).2 ++ [] = wire rest.
Proof.
  set (p := recv_step false RecvLoop sample_new sample_source).
  destruct (recv_loop_in_order config_default sample_new sample_source [new_syn 1 1] []
              (mkReceiving p.1.1 p.1.2 p.2) [] sample_run) as [(rest & Hrest & Hun) _].
  - reflexivity.
  - apply sample_run_encodable.
  - apply (recv_runs (mkReceiving RecvLoop sample_new sample_source) [] [] RecvLoop sample_new
             sample_source false). apply recv_start.
  - vm_compute. reflexivity.
  - exists rest. split; [exact Hrest|]. apply Hun. vm_compute. exact I.
Defined.

Lemma recv_loop_drains_witness :
  exists s' src', recv_run 3 true RecvLoop sample_new sample_source = (RecvDone, s', src') /\
    session_is_closed s' = true.
Proof.
  destruct (recv_loop_drains config_default true sample_run sample_new sample_source)
    as (s' & src' & Hr & _ & Hc).
  - reflexivity.
  - reflexivity.
  - apply sample_run_encodable.
  - vm_compute. reflexivity.
  - apply session_new_wf.
  - vm_compute. reflexivity.
  - vm_compute. reflexivity.
  - vm_compute. congruence.
  - exists s', src'. split; [exact Hr|exact Hc].
Defined.

Definition sample_psh_run : list Frame := [new_syn 1 3; new_psh 1 1 b3; new_psh 1 1 b2].
Definition sample_psh_source : @source framed_ref :=
  mkReader (codec_new config_default) [] [wire sample_psh_run] true.

Lemma disconnect_loses_unread_witness :
  exists s' src',
    recv_run 4 true RecvLoop sample_server sample_psh_source = (RecvDone, s', src') /\
    unread sample_reader (s_shared s') = b5 /\
    rp_result (poll_read sample_reader (s_shared s') (empty_buf 8))
    = Ready (Err session_closed_error).
Proof.
  destruct (disconnect_loses_unread config_default true sample_psh_run sample_server
              sample_psh_source 1
              sample_entry sample_reader (empty_buf 8)) as (s' & src' & Hr & Hu & Hp).
  - reflexivity.
  - reflexivity.
  - repeat constructor; vm_compute; congruence.
  - discriminate.
  - vm_compute. reflexivity.
  - apply sample_server_wf.
  - vm_compute. reflexivity.
  - vm_compute. reflexivity.
  - vm_compute. congruence.
  - vm_compute. reflexivity.
  - vm_compute. congruence.
  - unfold sample_psh_run. repeat apply Forall_cons_2; try apply Forall_nil_2;
      vm_compute; intuition congruence.
  - reflexivity.
  - reflexivity.
  - exists s', src'. split; [exact Hr|]. split; [exact Hu|exact Hp].
Defined.

(** A server with sixteen streams waiting to be accepted. *)
Definition sample_syns : list Frame := map (fun n => new_syn 1 (2 * Z.of_nat n + 1)) (seq 0 16).
Definition sample_full : Session (gmap Z) := handle_all sample_syns sample_new.

Lemma handle_all_wf fs (s : Session (gmap Z)) : session_wf s -> session_wf (handle_all fs s).
Proof.
  revert s. induction fs as [|f fs IH]; intros s Hwf; [done|]. apply IH.
  by apply handle_frame_wf.
Qed.

Lemma full_accept_queue_blocks_witness :
  exists stream, (handle_frame (new_syn 1 33) sample_full).1 = Await (SynSending stream) /\
    (recv_run 5 true (RecvHandling (SynSending stream)) sample_full sample_source).2
    = sample_source.
Proof.
  assert (Hwf : session_wf sample_full) by (apply handle_all_wf, session_new_wf).
  destruct (full_accept_queue_blocks true (new_syn 1 33) sample_full sample_source 5)
    as (stream & Hh & Hrun); [exact Hwf|vm_compute; reflexivity..|].
  exists stream. split; [exact Hh|].
  destruct (Hrun sample_full Hwf) as (_ & Hs & _); [vm_compute; reflexivity|exact Hs].
Defined.

Definition sample_system : System (gmap Z) :=
  system_new config_default false sample_source (sample_sink false).

Lemma running_session_invariant_witness :
  session_wf (sys_session (run_recv true sample_system)).
Proof.
  apply (running_session_invariant config_default false sample_source (sample_sink false) 0
           (run_recv true sample_system)).
  - vm_compute. reflexivity.
  - vm_compute. reflexivity.
  - apply (system_steps _ 0 sample_system 0); [apply system_start|].
    apply (step_recv sample_system true).
Defined.

(** Seventeen SYNs and data of the first stream: the receive loop waits for room in the
    accept queue; a stream is accepted; then the session is closed. *)
Definition busy_source : @source framed_ref :=
  mkReader (codec_new config_default) [] [wire (sample_syns ++ [new_syn 1 33; new_psh 1 1 b3])]
    false.

Definition busy_waiting : System (gmap Z) :=
  Nat.iter 17 (run_recv false)
    (system_new config_default false busy_source (sample_sink false)).

(** A user accepts a stream, and the session is closed. *)
Definition accept_close (y : System (gmap Z)) : System (gmap Z) :=
  let y1 := with_session (accept_stream false AcceptStart (sys_session y)).2 y in
  with_session (session_close (sys_session y1)).2 y1.

Definition busy_closed : System (gmap Z) := accept_close busy_waiting.

Lemma run_recv_one cf (y : System (gmap Z)) :
  system_trace y (0 + recv_label cf y) (run_recv cf y).
Proof. eapply system_steps; [apply system_start|apply step_recv]. Qed.

Lemma run_recv_iter n (y : System (gmap Z)) :
  exists r, system_trace y r (Nat.iter n (run_recv false) y).
Proof.
  induction n as [|n [r IH]]; [exists 0; apply system_start|].
  eexists. eapply system_steps; [exact IH|apply step_recv].
Qed.

Lemma accept_close_trace r (y0 y : System (gmap Z)) :
  system_trace y0 r y -> system_trace y0 (r + 0 + 0) (accept_close y).
Proof.
  intros Htr. eapply system_steps; [eapply system_steps; [exact Htr|]|].
  - apply step_user, (user_accept _ false AcceptStart).
  - apply step_user, user_close.
Qed.

Lemma busy_closed_reached :
  exists r, system_trace (system_new config_default false busy_source (sample_sink false)) r
              busy_closed.
Proof.
  destruct (run_recv_iter 17 (system_new config_default false busy_source (sample_sink false)))
    as [r Htr].
  exists (r + 0 + 0). apply (accept_close_trace r _ busy_waiting Htr).
Qed.

(** Its handler done, the loop goes on with the data. *)
Lemma close_missed_by_busy_tasks_witness :
  sys_recv busy_closed = RecvHandling (SynSending (stream_new 33 16 config_default)) /\
  let y' := run_recv true busy_closed in
  session_is_closed (sys_session y') = true /\
  (recv_step true (sys_recv y') (sys_session y') (sys_source y')).1.1 = RecvLoop.
Proof.
  split; [vm_compute; reflexivity|]. intros y'.
  destruct busy_closed_reached as [r Htr].
  destruct (close_missed_by_busy_tasks config_default false busy_source (sample_sink false)
              r busy_closed (0 + recv_label true busy_closed) (run_recv true busy_closed) true
              Htr (run_recv_one true busy_closed))
    as (Hc & Hr & _); [vm_compute; reflexivity|].
  split; [exact Hc|]. destruct Hr as [Hr _]; [vm_compute; exact I|].
  destruct Hr as [Hf _]; [vm_compute; exact I|].
  unfold y'. rewrite (Hf (new_psh 1 1 b3)); [|vm_compute; reflexivity]. vm_compute. reflexivity.
Defined.

(** A session whose frame channel holds the SYN of stream 1. *)
Definition sample_opened : Session (gmap Z) := (open_stream OpenStart sample_client).2.

Lemma send_loop_in_order_witness :
  wr_out (writer (send_step false SendLoop sample_opened (sample_sink false)).2)
  = frame_bytes (new_syn 1 1).
Proof.
  set (p := send_step false SendLoop sample_opened (sample_sink false)).
  destruct (send_loop_in_order config_default sample_opened (sample_sink false) [new_syn 1 1]
              (mkSending p.1.1 p.1.2 p.2)) as [Ho _].
  - reflexivity.
  - reflexivity.
  - apply (send_runs (mkSending SendLoop sample_opened (sample_sink false)) [] SendLoop
             sample_opened (sample_sink false) false). apply send_start.
  - repeat constructor; vm_compute; congruence.
  - destruct Ho as [_ Ho]; [vm_compute; exact I|]. apply Ho. vm_compute. congruence.
Defined.

Lemma close_may_drop_frames_witness :
  let close := notified (close_notifier (session_state sample_opened)) in
  let s1 := (session_close sample_opened).2 in
  send_step true (SendSelect close) s1 (sample_sink false)
    = (SendDone, drop_frame_rx s1, sample_sink false) /\
  queue (view (sh_frames (s_shared s1))) = [new_syn 1 1].
Proof.
  intros close s1.
  destruct (close_may_drop_frames sample_opened (sample_sink false) close) as (Hs & Hf & _);
    [reflexivity|reflexivity|].
  split; [exact Hs|]. unfold s1. rewrite Hf. vm_compute. reflexivity.
Defined.

Definition zero_interval_config : Config :=
  mkConfig 1 0 (from_secs 30) (32 * 1024) (4 * 1024 * 1024) 512 (64 * 1024) true.

Lemma keep_alive_start_outcomes_witness :
  config_validate zero_interval_config = Ok tt /\
  keep_alive_step PingBranch 5 KeepAliveStart
    (session_new (M := gmap Z) zero_interval_config true)
  = (KeepAlivePanicked, session_new zero_interval_config true).
Proof.
  apply (keep_alive_start_outcomes PingBranch 5
           (session_new (M := gmap Z) zero_interval_config true)).
  - apply config_validate_valid. reflexivity.
  - split; repeat split; vm_compute; congruence.
  - reflexivity.
  - reflexivity.
Defined.

Lemma keep_alive_closes_iff_silent_witness :
  session_is_closed
    (keep_alive_run [TimeoutTick; FrameArrived; TimeoutTick; TimeoutTick] (0, 1) (0, 3)
       (session_new (M := gmap Z) config_default true)).2 = true.
Proof.
  generalize (keep_alive_closes_iff_silent (T := interval_ref) (M := gmap Z) config_default true
    [TimeoutTick; FrameArrived; TimeoutTick; TimeoutTick] (0, 1) (0, 3)).
  destruct (keep_alive_run _ _ _ _) as [task s]. intros H. apply H.
  - vm_compute. split; congruence.
  - exists [TimeoutTick; FrameArrived], []. reflexivity.
Defined.

(** A session whose frame channel, of one slot, is full. *)
Definition sample_stuck : Session (gmap Z) :=
  set_shared (mkShared (session_state_new 65536) (mkChanView [new_nop 1] (Some 1) 1 1) empty 0)
    sample_client.

Lemma full_channel_disables_keep_alive_witness :
  (keep_alive_steps [(TimeoutBranch, 10 ^ 12); (CloseBranch, 10 ^ 15)]
     (KeepAlivePing (0, 1) (0, 3) (new_nop 1)) sample_stuck).1
  = KeepAlivePing (0, 1) (0, 3) (new_nop 1).
Proof.
  destruct (full_channel_disables_keep_alive (T := interval_ref)
    [(TimeoutBranch, 10 ^ 12); (CloseBranch, 10 ^ 15)] (0, 1) (0, 3) (new_nop 1) sample_stuck)
    as [_ Hk]; [vm_compute; congruence|reflexivity|].
  destruct (keep_alive_steps _ _ _) as [task s']. destruct Hk as [Hk _]. exact Hk.
Defined.
