(* ===== verification/KeepAliveClock.v ===== *)
(** * Keep-alive against the clock

    What the keep-alive loop does at the times of its timers: before the deadline of the
    timeout nothing to the state of the session, and from the deadline on, in a session
    that has received nothing since the last tick, it closes the session, after the pings
    that are due, if those have room in the frame channel. *)

From stdpp Require Import strings.
From S2P Require Import Prelude Crates Errors Config Command Frame Codec Runtime.
From S2P Require Import SessionState Stream StreamSpec Session SessionSpec SessionProps.
From S2P Require Import Handshake Loops LoopsSpec LoopsProps.

Section timers.
Context {B : BytesCrate} {BL : BytesLaws B} {T : IntervalCrate} {TL : IntervalLaws T}.

(** How often a timer ticks by the time [now]. *)
Definition due (now : Z) (i : timer) : nat :=
  if deadline i <=? now then S (Z.to_nat ((now - deadline i) / period i)) else 0.

Lemma due_none now i : due now i = 0%nat -> now < deadline i.
Proof. unfold due. destruct (_ <=? _) eqn:E; [done|]. by apply Z.leb_gt in E. Qed.

Lemma due_tick now i n :
  0 < period i -> due now i = S n ->
  (tick now i).1 = true /\ due now (tick now i).2 = n /\
  period (tick now i).2 = period i.
Proof.
  unfold due at 1. intros Hp Hd. destruct (deadline i <=? now) eqn:E; [|done].
  apply Z.leb_le in E. injection Hd as <-. destruct (tick_ready now i E) as (Hr & Hdl & Hper).
  split; [done|]. split; [|done]. unfold due. rewrite Hdl, Hper.
  pose proof (Z.div_pos (now - deadline i) (period i)) as Hpos.
  replace (now - (deadline i + period i)) with (now - deadline i + (-1) * period i) by lia.
  rewrite Z.div_add by lia. destruct (_ <=? now) eqn:E2.
  - apply Z.leb_le in E2. assert (1 <= (now - deadline i) / period i).
    { apply Z.div_le_lower_bound; lia. }
    lia.
  - apply Z.leb_gt in E2. rewrite Z.div_small by lia. done.
Qed.
End timers.

Section clock.
Context {B : BytesCrate} {BL : BytesLaws B}.
Context {F : FlumeCrate} {FL : FlumeLaws F} {N : NotifyCrate} {NL : NotifyLaws N}.
Context {T : IntervalCrate} {TL : IntervalLaws T}.
Context {M : Type -> Type} `{FinMap Z M}.
Implicit Types s : Session M.

(** Room for [n] more frames in the frame channel. *)
Definition room_for (n : nat) s : Prop :=
  let v := view (sh_frames (s_shared s)) in
  receivers v <> 0%nat /\
  (capacity v = None \/
   exists c, capacity v = Some c /\ Z.of_nat (length (queue v) + n) <= c).

(** A ping with room is sent at once. *)
Lemma keep_alive_ping_room p t f s n :
  room_for (S n) s ->
  let '(task, s') := keep_alive_ping p t f s in
  task = KeepAliveLoop p t /\ session_state s' = session_state s /\ room_for n s'.
Proof.
  intros [Hr Hcap]. unfold keep_alive_ping.
  assert (Hroom : has_room (view (sh_frames (s_shared s))) = true).
  { unfold has_room. destruct Hcap as [->|(c & -> & Hc)]; [done|]. apply Z.ltb_lt. lia. }
  destruct (send_async_ok _ f _ Hr Hroom) as [Hs Hv].
  destruct (send_async _ _) as [r c]. simpl in Hs, Hv. subst r.
  split; [done|]. split; [done|]. unfold room_for. simpl. rewrite Hv. simpl. split; [done|].
  destruct Hcap as [?|(c' & ? & Hc)]; [by left|]. right. exists c'. split; [done|].
  rewrite length_app. simpl. lia.
Qed.

(** A session that has received nothing since the last tick of the timeout. *)
Record silent s : Prop := {
  si_flag : data_received (session_state s) = false;
  si_tokens : 0 < tokens (session_state s);
}.

Lemma silent_tick p t s :
  silent s ->
  let '(task, s') := keep_alive_timeout_tick p t s in
  task = KeepAliveDone /\ closed (session_state s') = true.
Proof.
  intros [Hf Ht]. rewrite keep_alive_timeout_tick_eq. cbv zeta.
  rewrite Hf, Z.gtb_ltb, (proj2 (Z.ltb_lt _ _) Ht). simpl.
  split; [done|apply state_close_closed].
Qed.

(** The loop between two rounds: at its top, or in its [select!] and not told to close. *)
Definition listening (p t : timer) (task : KeepAliveTask) s : Prop :=
  task = KeepAliveLoop p t \/
  exists close, task = KeepAliveSelect p t close /\
    is_notified (close_notifier (session_state s)) close = false.

(** Either way a step polls the three branches. *)
Lemma keep_alive_step_listening b time p t task s :
  listening p t task s ->
  exists close, is_notified (close_notifier (session_state s)) close = false /\
    keep_alive_step b time task s = keep_alive_select (branch_order b) time p t close s.
Proof.
  intros [->|(close & -> & Hc)]; [|by exists close].
  exists (notified (close_notifier (session_state s))). split; [apply fresh_not_notified|done].
Qed.

(** A round at a time no later than [now] that does not end the loop: at most one of the
    pings that are due by [now] has been sent. *)
Record goes_on (now : Z) (p t : timer) s (n : nat) (task' : KeepAliveTask) s'
    (p' : timer) : Prop := {
  go_listening : listening p' t task' s';
  go_period : period p' = period p;
  go_state : session_state s' = session_state s;
  go_due : due now p = (n + due now p')%nat;
  go_room : room_for (due now p') s';
}.

(** The ping branch: a ping that is due is sent, and the loop is at its top again. *)
Lemma ping_branch_due time now order p t close s :
  0 < period p -> time <= now -> deadline p <= time -> room_for (due now p) s ->
  let '(task, s') := keep_alive_select (PingBranch :: order) time p t close s in
  exists p', goes_on now p t s 1 task s' p'.
Proof.
  intros Hp Htime Hdl Hroom. cbn [keep_alive_select].
  destruct (tick_ready time p Hdl) as (Hr & Hd & Hper).
  destruct (due now p) as [|n] eqn:Hn; [apply due_none in Hn; lia|].
  destruct (due_tick now p n Hp Hn) as (_ & Hdue & _).
  destruct (tick_ready now p) as (_ & Hd' & Hper'); [lia|].
  assert (Hsame : due now (tick time p).2 = n).
  { rewrite <- Hdue. unfold due. by rewrite Hd, Hper, Hd', Hper'. }
  destruct (tick time p) as [r p']. simpl in Hr, Hper, Hsame. subst r.
  pose proof (keep_alive_ping_room p' t (new_nop (version (s_config s))) s n Hroom) as Hk.
  destruct (keep_alive_ping _ _ _ _) as [task s']. destruct Hk as (-> & Hst & Hroom').
  exists p'. rewrite <- Hsame in Hroom'. split; try done; [by left|]. by rewrite Hn, Hsame.
Qed.

(** Before the deadline: the loop stays where it is, or sends a ping that is due. *)
Lemma select_before time now order p t close s :
  0 < period p -> time <= now -> time < deadline t -> room_for (due now p) s ->
  is_notified (close_notifier (session_state s)) close = false ->
  let '(task, s') := keep_alive_select order time p t close s in
  exists n p', goes_on now p t s n task s' p'.
Proof.
  intros Hp Htime Ht Hroom Hc. induction order as [|b order IH].
  { exists 0%nat, p. split; try done. right. by exists close. }
  destruct b.
  - destruct (Z.le_gt_cases (deadline p) time) as [Hd|Hd].
    + pose proof (ping_branch_due time now order p t close s Hp Htime Hd Hroom) as Hk.
      destruct (keep_alive_select (PingBranch :: order) _ _ _ _ _). by exists 1%nat.
    + cbn [keep_alive_select]. by rewrite (tick_pending time p Hd).
  - cbn [keep_alive_select]. by rewrite (tick_pending time t Ht).
  - cbn [keep_alive_select]. by rewrite Hc.
Qed.

(** From the deadline on: a round closes a silent session, or sends a ping that is due. *)
Lemma select_after time now order p t close s :
  0 < period p -> time <= now -> deadline t <= time -> room_for (due now p) s ->
  is_notified (close_notifier (session_state s)) close = false -> silent s ->
  TimeoutBranch ∈ order ->
  let '(task, s') := keep_alive_select order time p t close s in
  (task = KeepAliveDone /\ closed (session_state s') = true) \/
  exists p', goes_on now p t s 1 task s' p'.
Proof.
  intros Hp Htime Ht Hroom Hc Hsi. induction order as [|b order IH]; intros Hin;
    [by apply elem_of_nil in Hin|].
  apply elem_of_cons in Hin. destruct b.
  - destruct (Z.le_gt_cases (deadline p) time) as [Hd|Hd].
    + pose proof (ping_branch_due time now order p t close s Hp Htime Hd Hroom) as Hk.
      destruct (keep_alive_select (PingBranch :: order) _ _ _ _ _). by right.
    + cbn [keep_alive_select]. rewrite (tick_pending time p Hd). apply IH. by destruct Hin.
  - cbn [keep_alive_select]. destruct (tick_ready time t Ht) as (Hr & _).
    destruct (tick time t) as [r t']. simpl in Hr. subst r.
    pose proof (silent_tick p t' s Hsi) as Hk.
    destruct (keep_alive_timeout_tick _ _ _). by left.
  - cbn [keep_alive_select]. rewrite Hc. apply IH. by destruct Hin.
Qed.

Lemma keep_alive_steps_cons b now steps task s :
  keep_alive_steps ((b, now) :: steps) task s
  = let '(task', s') := keep_alive_step b now task s in keep_alive_steps steps task' s'.
Proof. unfold keep_alive_steps. simpl. by destruct (keep_alive_step _ _ _ _). Qed.

Lemma keep_alive_steps_done steps s :
  keep_alive_steps steps KeepAliveDone s = (KeepAliveDone, s).
Proof. induction steps as [|[b now] steps IH]; [done|]. by rewrite keep_alive_steps_cons. Qed.

(** Rounds before the deadline leave the loop listening, with room for the pings that are
    still due by [now]. *)
Lemma keep_alive_before now t early : forall p task s,
  0 < period p -> listening p t task s -> room_for (due now p) s ->
  Forall (fun step => step.2 < deadline t) early -> deadline t <= now ->
  let '(task', s') := keep_alive_steps early task s in
  exists n p', goes_on now p t s n task' s' p'.
Proof.
  induction early as [|[b time] early IH]; intros p task s Hp Hl Hroom Hs Hnow.
  { exists 0%nat, p. by split. }
  apply Forall_cons in Hs as [Hb Hs]. simpl in Hb. rewrite keep_alive_steps_cons.
  destruct (keep_alive_step_listening b time p t task s Hl) as (close & Hc & ->).
  pose proof (select_before time now (branch_order b) p t close s Hp ltac:(lia) Hb Hroom Hc) as Hk.
  destruct (keep_alive_select _ _ _ _ _ _) as [task1 s1].
  destruct Hk as (n & p1 & [Hl1 Hp1 Hst1 Hd1 Hr1]).
  pose proof (IH p1 task1 s1 ltac:(lia) Hl1 Hr1 Hs Hnow) as Hk.
  destruct (keep_alive_steps _ _ _) as [task2 s2].
  destruct Hk as (m & p2 & [Hl2 Hp2 Hst2 Hd2 Hr2]).
  exists (n + m)%nat, p2. split; [done|congruence..|lia|done].
Qed.

(** Rounds from the deadline on close a silent session. *)
Lemma keep_alive_after now t late : forall p task s,
  0 < period p -> listening p t task s -> room_for (due now p) s -> silent s ->
  Forall (fun step => deadline t <= step.2 <= now) late -> (due now p < length late)%nat ->
  let '(task', s') := keep_alive_steps late task s in
  task' = KeepAliveDone /\ closed (session_state s') = true.
Proof.
  induction late as [|[b time] late IH]; intros p task s Hp Hl Hroom Hsi Hs Hlen;
    [simpl in Hlen; lia|].
  apply Forall_cons in Hs as [Hb Hs]. simpl in Hb, Hlen. rewrite keep_alive_steps_cons.
  destruct (keep_alive_step_listening b time p t task s Hl) as (close & Hc & ->).
  assert (Hin : TimeoutBranch ∈ branch_order b) by (destruct b; simpl; rewrite !elem_of_cons; tauto).
  pose proof (select_after time now _ p t close s Hp ltac:(lia) ltac:(lia) Hroom Hc Hsi Hin) as Hk.
  destruct (keep_alive_select _ _ _ _ _ _) as [task1 s1].
  destruct Hk as [[-> Hcl]|(p1 & [Hl1 Hp1 Hst1 Hd1 Hr1])]; [by rewrite keep_alive_steps_done|].
  apply (IH p1); [lia|done|done|destruct Hsi; by split; rewrite Hst1|done|lia].
Qed.

(** Before the deadline of the timeout: the loop keeps its timeout, and the state of the
    session. *)
Definition keeps_timeout (t : timer) (task : KeepAliveTask) : Prop :=
  match task with
  | KeepAliveLoop _ t' | KeepAliveSelect _ t' _ | KeepAlivePing _ t' _ => t' = t
  | KeepAliveStart => False
  | KeepAliveDone | KeepAlivePanicked => True
  end.

Lemma keep_alive_ping_keeps p t f s :
  let '(task, s') := keep_alive_ping p t f s in
  keeps_timeout t task /\ session_state s' = session_state s.
Proof. unfold keep_alive_ping. destruct (send_async _ _) as [r c]. by destruct r as [[]|]. Qed.

Lemma keep_alive_select_early order now p t close s :
  now < deadline t ->
  let '(task, s') := keep_alive_select order now p t close s in
  keeps_timeout t task /\ session_state s' = session_state s.
Proof.
  intros Hnow. revert p. induction order as [|b order IH]; intros p; [done|].
  destruct b; cbn [keep_alive_select].
  - destruct (tick now p) as [[|] p']; [apply keep_alive_ping_keeps|apply IH].
  - rewrite (tick_pending now t Hnow). apply IH.
  - destruct (is_notified _ _); [done|apply IH].
Qed.

Lemma keep_alive_early steps task t s :
  keeps_timeout t task -> Forall (fun step => step.2 < deadline t) steps ->
  session_state (keep_alive_steps steps task s).2 = session_state s.
Proof.
  intros Hk Hs. revert task s Hk.
  induction Hs as [|[b now] steps Hb Hs IH]; intros task s Hk; [done|].
  rewrite keep_alive_steps_cons.
  assert (Hstep : let '(task', s') := keep_alive_step b now task s in
            keeps_timeout t task' /\ session_state s' = session_state s).
  { destruct task as [|p t'|p t' close|p t' f| |]; simpl in Hk; try done; subst; cbn [keep_alive_step];
      [by apply keep_alive_select_early..|apply keep_alive_ping_keeps]. }
  destruct (keep_alive_step _ _ _ _) as [task' s']. destruct Hstep as [Hk' <-]. by apply IH.
Qed.

(** C25: a silent session is closed at the deadline of the timeout, not earlier and not
    later.  The loop starts at its top or in its [select!], in a session that has tokens and
    has received nothing since the last tick of the timeout, and only the loop runs.  As
    long as it is polled before the deadline, whatever pings are due and whichever branch
    it looks at first, nothing happens to the state of the session.  Polled on from there,
    wherever those polls have left it, at times from the deadline to [now], it closes the
    session, if the pings that are due by [now] find room in the frame channel: it then
    takes at most one round per ping that is due, and one more. *)
Theorem keep_alive_deadline early late now p t task s :
  0 < period p -> listening p t task s ->
  data_received (session_state s) = false -> 0 < tokens (session_state s) ->
  Forall (fun step => step.2 < deadline t) early ->
  let '(task1, s1) := keep_alive_steps early task s in
  session_state s1 = session_state s /\
  (Forall (fun step => deadline t <= step.2 <= now) late ->
   room_for (due now p) s -> (due now p < length late)%nat ->
   let '(task2, s2) := keep_alive_steps late task1 s1 in
   task2 = KeepAliveDone /\ session_is_closed s2 = true).
Proof.
  intros Hp Hl Hf Ht Hs.
  assert (Hk : keeps_timeout t task) by (by destruct Hl as [->|(? & -> & _)]).
  pose proof (keep_alive_early _ _ _ s Hk Hs) as Hst.
  pose proof (fun Hr Hn => keep_alive_before now t early p task s Hp Hl Hr Hs Hn) as Hmid.
  destruct (keep_alive_steps early task s) as [task1 s1]. split; [done|].
  intros Hlate Hroom Hlen.
  assert (Hnow : deadline t <= now).
  { destruct Hlate as [|step late Hb _]; [simpl in Hlen; lia|]. lia. }
  destruct (Hmid Hroom Hnow) as (n & p1 & [Hl1 Hp1 Hst1 Hd1 Hr1]).
  apply (keep_alive_after now t late p1); [lia|done|done|by split; rewrite Hst1|done|lia].
Qed.
End clock.

Section sample.
(** Ping every 10 s, due at once; timeout at 30 s. *)
Definition sample_silent : Session (gmap Z) :=
  update_state (fun st => (check_and_reset_data_received st).2)
    (session_new config_default true).

(** Polled at the start, some time before the deadline, and at the deadline. *)
Definition sample_early : list (Branch * Z) := [(PingBranch, 0); (CloseBranch, from_secs 9)].

Definition sample_late : list (Branch * Z) :=
  map (fun b => (b, from_secs 30)) [PingBranch; PingBranch; CloseBranch; PingBranch; PingBranch].

Lemma keep_alive_deadline_witness :
  let '(task1, s1) := keep_alive_steps sample_early
    (KeepAliveLoop (0, from_secs 10) (from_secs 30, from_secs 30)) sample_silent in
  session_state s1 = session_state sample_silent /\
  let '(task2, s2) := keep_alive_steps sample_late task1 s1 in
  task2 = KeepAliveDone /\ session_is_closed s2 = true.
Proof.
  pose proof (keep_alive_deadline (T := interval_ref) sample_early sample_late (from_secs 30)
    (0, from_secs 10) (from_secs 30, from_secs 30)
    (KeepAliveLoop (0, from_secs 10) (from_secs 30, from_secs 30)) sample_silent) as Hk.
  destruct (keep_alive_steps sample_early _ _) as [task1 s1].
  destruct Hk as [Hearly Hlate].
  - vm_compute. reflexivity.
  - left. reflexivity.
  - vm_compute. reflexivity.
  - vm_compute. reflexivity.
  - repeat constructor; vm_compute; reflexivity.
  - split; [exact Hearly|]. apply Hlate.
    + repeat constructor; vm_compute; congruence.
    + split; [vm_compute; congruence|]. right. exists 512. split; [reflexivity|].
      vm_compute. congruence.
    + vm_compute. lia.
Defined.

(** When the deadline comes the loop waits in its [select!]. *)
Lemma sample_early_waits :
  exists p t close, (keep_alive_steps (T := interval_ref) sample_early
    (KeepAliveLoop (0, from_secs 10) (from_secs 30, from_secs 30)) sample_silent).1
    = KeepAliveSelect p t close.
Proof. do 3 eexists. vm_compute. reflexivity. Qed.
End sample.
