(* ===== verification/Endpoint.v ===== *)
(** * Endpoints: a running session and the users of its streams

    A [System] with what its users own: the streams they hold, each with the future of
    its [close] if that has been started and not finished, and the calls of
    [open_stream] that wait for room.  Ownership is that of the code: a stream is a
    value that is moved, never copied, so it is in one place at a time: in an
    [open_stream] that waits, in the receive loop or the accept queue on its way to
    [accept_stream], or in the hands of a user; while a [close] is pending it borrows
    the stream.

    A run is the list of the operations ([Op]) of users, tasks and transport in the
    order in which they happen; [ep_run] executes one and records what it did as
    events. *)

From stdpp Require Import strings.
From S2P Require Import Prelude Crates Errors Config Command Frame Codec Runtime.
From S2P Require Import SessionState Stream StreamSpec Session SessionSpec.
From S2P Require Import Loops LoopsSpec.

(** ** Events *)
Inductive Event : Type :=
| Registered (id : Z) (k : nat)   (* stream [id] has got data channel [k] *)
| Emitted (f : Frame)             (* put into the frame channel *)
| Taken (f : Frame)               (* taken from the frame channel by the send loop *)
| Handled (f : Frame)             (* taken from the transport by the receive loop *)
| Wrote (id : Z) (d : bytes)      (* accepted by [poll_write] of stream [id] *)
| Delivered (k : nat) (d : bytes) (* copied out by a read on channel [k] *).

Definition history : Type := list Event.

Definition registered_of (e : Event) : list (Z * nat) :=
  match e with Registered id k => [(id, k)] | _ => [] end.
Definition emitted_of (e : Event) : list Frame :=
  match e with Emitted f => [f] | _ => [] end.
Definition taken_of (e : Event) : list Frame :=
  match e with Taken f => [f] | _ => [] end.
Definition handled_of (e : Event) : list Frame :=
  match e with Handled f => [f] | _ => [] end.
Definition wrote_of (id : Z) (e : Event) : bytes :=
  match e with Wrote i d => if decide (i = id) then d else [] | _ => [] end.
Definition delivered_of (k : nat) (e : Event) : bytes :=
  match e with Delivered i d => if decide (i = k) then d else [] | _ => [] end.

(** What a history says: the registrations, the frames that entered and left the frame
    channel, the frames handled, what was written to a stream, what was read from a
    channel. *)
Definition project {A} (g : Event -> list A) (h : history) : list A := concat (map g h).
Definition registered : history -> list (Z * nat) := project registered_of.
Definition emitted : history -> list Frame := project emitted_of.
Definition taken : history -> list Frame := project taken_of.
Definition handled : history -> list Frame := project handled_of.
Definition wrote (id : Z) : history -> bytes := project (wrote_of id).
Definition delivered (k : nat) : history -> bytes := project (delivered_of k).

(** The bytes that came in, and the bytes that users took out: what a session may have
    returned tokens for. *)
Definition load_of (e : Event) : Z :=
  match e with Handled f => data_len f | Delivered _ d => blen d | _ => 0 end.
Definition load (h : history) : Z := fold_right (fun e n => load_of e + n) 0 h.

(** The data of the PSH frames of a stream. *)
Definition is_psh_of (id : Z) (f : Frame) : Prop := cmd f = Psh /\ stream_id f = id.

Definition psh_data (id : Z) (fs : list Frame) : bytes :=
  concat (map data (filter (is_psh_of id) fs)).

(** ** Endpoints *)
Section endpoint.
Context {B : BytesCrate} {F : FlumeCrate} {FL : FlumeLaws F} {N : NotifyCrate}.
Context {R : ReadBufCrate} {RL : ReadBufLaws R}.
Context {D : FramedCrate} {T : IntervalCrate}.
Context {M : Type -> Type} `{FinMap Z M}.
Implicit Types s : Session M.

Record Held : Type := mkHeld {
  h_stream : Stream;
  h_close : option CloseFuture;
}.

Record Endpoint : Type := mkEndpoint {
  ep_system : System M;
  ep_held : list Held;
  ep_opening : list (Stream * Frame);
}.

Definition ep_session (e : Endpoint) : Session M := sys_session (ep_system e).

Definition ep_new (config : Config) (is_client : bool) (src : source) (k : sink)
    : Endpoint := mkEndpoint (system_new config is_client src k) [] [].

(** Updates. *)
Definition set_session s (e : Endpoint) : Endpoint :=
  mkEndpoint (with_session s (ep_system e)) (ep_held e) (ep_opening e).
Definition set_system (y : System M) (e : Endpoint) : Endpoint :=
  mkEndpoint y (ep_held e) (ep_opening e).
Definition set_held (hs : list Held) (e : Endpoint) : Endpoint :=
  mkEndpoint (ep_system e) hs (ep_opening e).
Definition set_opening (os : list (Stream * Frame)) (e : Endpoint) : Endpoint :=
  mkEndpoint (ep_system e) (ep_held e) os.
Definition set_ep_shared (sh : Shared) (e : Endpoint) : Endpoint :=
  set_session (set_shared sh (ep_session e)) e.
Definition hold (st : Stream) (e : Endpoint) : Endpoint :=
  set_held (ep_held e ++ [mkHeld st None]) e.

(** What a call of [open_stream] leaves its caller with. *)
Definition settle_open (r : poll (Result Stream)) (fut : OpenFuture) (e : Endpoint)
    : Endpoint :=
  match r, fut with
  | Ready (Ok st), _ => hold st e
  | Pending, OpenSending st syn => set_opening (ep_opening e ++ [(st, syn)]) e
  | _, _ => e
  end.

Definition settle_accept (r : poll (Result Stream)) (e : Endpoint) : Endpoint :=
  match r with Ready (Ok st) => hold st e | _ => e end.

(** *** The events of a step, from the sessions before and after it *)
Definition frame_queue s : list Frame := queue (view (sh_frames (s_shared s))).

Definition new_frames s s' : history :=
  map Emitted (drop (length (frame_queue s)) (frame_queue s')).

Definition new_channel (id : Z) s s' : history :=
  if Nat.eqb (sh_next (s_shared s)) (sh_next (s_shared s')) then []
  else [Registered id (sh_next (s_shared s))].

(** *** Operations *)
Inductive Op : Type :=
(* users of the session *)
| OpOpen
| OpOpenPoll (i : nat)
| OpOpenCancel (i : nat)
| OpAccept (close_first : bool) (fut : AcceptFuture)
| OpClose
(* users of stream number [i] *)
| OpRead (i : nat) (buf : read_buf)
| OpWrite (i : nat) (d : bytes)
| OpShutdown (i : nat)
| OpStreamClose (i : nat)
| OpStreamClosePoll (i : nat)
| OpStreamCloseCancel (i : nat)
| OpDrop (i : nat)
(* tasks *)
| OpRecv (close_first : bool)
| OpSend (close_first : bool)
| OpKeepAlive (start : Branch) (now : Z).

(** A stream that is not borrowed by a pending [close]. *)
Definition free_stream (i : nat) (e : Endpoint) : option Stream :=
  match ep_held e !! i with Some (mkHeld st None) => Some st | _ => None end.

Definition replace_held (i : nat) (st : Stream) (c : option CloseFuture) (sh : Shared)
    (e : Endpoint) : Endpoint :=
  set_held (<[i := mkHeld st c]> (ep_held e)) (set_ep_shared sh e).

Definition close_held (i : nat) (fut : CloseFuture) (st : Stream) (e : Endpoint)
    : Endpoint * history :=
  let '(r, fut, st, sh) := close_poll fut st (s_shared (ep_session e)) in
  let e' := replace_held i st (keep_future r fut) sh e in
  (e', new_frames (ep_session e) (ep_session e')).

(** One operation.  Operations that are not possible (a stream that is not held, or is
    borrowed) do nothing. *)
Definition ep_run (op : Op) (e : Endpoint) : Endpoint * history :=
  let s := ep_session e in
  let sh := s_shared s in
  let skip := (e, []) in
  match op with
  | OpOpen =>
      let '(r, fut, s') := open_stream OpenStart s in
      (settle_open r fut (set_session s' e),
       new_channel (s_next_stream_id s) s s' ++ new_frames s s')
  | OpOpenPoll i =>
      match ep_opening e !! i with
      | None => skip
      | Some (st, syn) =>
          let '(r, fut, s') := open_stream (OpenSending st syn) s in
          (settle_open r fut
             (set_session s' (set_opening (delete i (ep_opening e)) e)),
           new_frames s s')
      end
  | OpOpenCancel i =>
      match ep_opening e !! i with
      | None => skip
      | Some (st, _) =>
          let e' := set_ep_shared (stream_drop st sh)
                      (set_opening (delete i (ep_opening e)) e) in
          (e', new_frames s (ep_session e'))
      end
  | OpAccept cf fut =>
      let '(r, _, s') := accept_stream cf fut s in
      (settle_accept r (set_session s' e), new_frames s s')
  | OpClose => (set_session (session_close s).2 e, [])
  | OpRead i buf =>
      match free_stream i e with
      | None => skip
      | Some st =>
          let p := poll_read st sh buf in
          (replace_held i (rp_stream p) None (rp_shared p) e,
           [Delivered (st_data_rx st) (drop (length (filled buf)) (filled (rp_buf p)))])
      end
  | OpWrite i d =>
      match free_stream i e with
      | None => skip
      | Some st =>
          let p := poll_write st sh d in
          let e' := replace_held i (wp_stream p) None (wp_shared p) e in
          (e', match wp_result p with
               | Ready (Ok n) => [Wrote (st_stream_id st) (take (Z.to_nat n) d)]
               | _ => []
               end ++ new_frames s (ep_session e'))
      end
  | OpShutdown i =>
      match free_stream i e with
      | None => skip
      | Some st =>
          let p := poll_shutdown st sh in
          let e' := replace_held i (wp_stream p) None (wp_shared p) e in
          (e', new_frames s (ep_session e'))
      end
  | OpStreamClose i =>
      match free_stream i e with
      | None => skip
      | Some st => close_held i CloseStart st e
      end
  | OpStreamClosePoll i =>
      match ep_held e !! i with
      | Some (mkHeld st (Some fut)) => close_held i fut st e
      | _ => skip
      end
  | OpStreamCloseCancel i =>
      match ep_held e !! i with
      | Some (mkHeld st (Some _)) => (set_held (<[i := mkHeld st None]> (ep_held e)) e, [])
      | _ => skip
      end
  | OpDrop i =>
      match free_stream i e with
      | None => skip
      | Some st =>
          let e' := set_held (delete i (ep_held e))
                      (set_ep_shared (stream_drop st sh) e) in
          (e', new_frames s (ep_session e'))
      end
  | OpRecv cf =>
      let y := ep_system e in
      let fs := recv_takes cf (sys_recv y) s (sys_source y) in
      let e' := set_system (run_recv cf y) e in
      (e', map Handled fs
             ++ match fs with
                | f :: _ => new_channel (stream_id f) s (ep_session e')
                | [] => []
                end
             ++ new_frames s (ep_session e'))
  | OpSend cf =>
      let y := ep_system e in
      (set_system (run_send cf y) e, map Taken (send_takes cf (sys_send y) s))
  | OpKeepAlive start now =>
      let e' := set_system (run_keep_alive start now (ep_system e)) e in
      (e', new_frames s (ep_session e'))
  end.

(** A reader gives room; what a read without room does is a property of its own
    ([empty_read_discards_chunk]). *)
Definition roomy (op : Op) : Prop :=
  match op with OpRead _ buf => 0 < remaining buf | _ => True end.

(** The streams of an endpoint: held; waiting in [open_stream]; on their way to
    [accept_stream]. *)
Definition recv_stream (task : RecvTask) : list Stream :=
  match task with RecvHandling (SynSending st) => [st] | _ => [] end.

Definition ep_new_streams (e : Endpoint) : list Stream :=
  map fst (ep_opening e).

Definition ep_queued (e : Endpoint) : list Stream :=
  queue (view (s_incoming (ep_session e))) ++ recv_stream (sys_recv (ep_system e)).

Definition ep_streams (e : Endpoint) : list Stream :=
  map h_stream (ep_held e) ++ ep_new_streams e ++ ep_queued e.
End endpoint.

Arguments Endpoint {F N D T} M.

(** ** Lemmas on histories *)
Lemma project_app {A} (g : Event -> list A) h1 h2 :
  project g (h1 ++ h2) = project g h1 ++ project g h2.
Proof. unfold project. by rewrite map_app, concat_app. Qed.

Lemma elem_of_project {A} (g : Event -> list A) h x :
  x ∈ project g h <-> exists e, e ∈ h /\ x ∈ g e.
Proof.
  unfold project. induction h as [|e h IH]; simpl.
  - split; [by intros ?%not_elem_of_nil|by intros (e & ?%not_elem_of_nil & _)].
  - rewrite elem_of_app, IH. split.
    + intros [Hx|(e' & He & Hx)]; [exists e|exists e']; by rewrite elem_of_cons; auto.
    + intros (e' & He & Hx). apply elem_of_cons in He as [->|He]; eauto.
Qed.

Lemma load_app h1 h2 : load (h1 ++ h2) = load h1 + load h2.
Proof. induction h1 as [|e h1 IH]; simpl; [done|]. rewrite IH. lia. Qed.

Lemma load_nonneg h : 0 <= load h.
Proof.
  induction h as [|e h IH]; simpl; [done|].
  destruct e; simpl; pose proof blen_nonneg; unfold data_len; try lia;
    match goal with |- context [blen ?b] => pose proof (blen_nonneg b) end; lia.
Qed.

Lemma psh_data_app id fs1 fs2 : psh_data id (fs1 ++ fs2) = psh_data id fs1 ++ psh_data id fs2.
Proof. unfold psh_data. by rewrite filter_app, map_app, concat_app. Qed.

Lemma psh_data_one id f :
  psh_data id [f] = if decide (is_psh_of id f) then data f else [].
Proof.
  unfold psh_data. rewrite filter_cons, filter_nil. case_decide; [|done].
  simpl. by rewrite app_nil_r.
Qed.

Lemma psh_data_nil id fs : Forall (fun f => ~ is_psh_of id f) fs -> psh_data id fs = [].
Proof.
  induction 1 as [|f fs Hf _ IH]; [done|].
  change (f :: fs) with ([f] ++ fs). rewrite psh_data_app, IH, psh_data_one.
  by rewrite decide_False.
Qed.
