(* ===== verification/EndpointSpec.v ===== *)
(** * What the operations of an endpoint do

    Every operation of an endpoint is a few moves of a transition system on the parts
    that its streams depend on: the stream table and the data channels, the frame
    channel, and who owns each stream.  The invariants of Emission.v and Arrival.v are
    about those moves. *)

From stdpp Require Import strings.
From S2P Require Import Prelude Crates Errors Config Command Frame Codec Runtime.
From S2P Require Import SessionState Stream StreamSpec Session SessionSpec SessionProps.
From S2P Require Import Handshake Delivery Loops LoopsSpec Endpoint.

(** Split on whether the operation is possible. *)
Ltac op_enabled :=
  repeat match goal with
  | |- context [match free_stream ?i ?e with _ => _ end] =>
      let E := fresh "Hfree" in destruct (free_stream i e) as [st|] eqn:E
  | |- context [match ep_opening ?e !! ?i with _ => _ end] =>
      let E := fresh "Hopening" in destruct (ep_opening e !! i) as [[st syn]|] eqn:E
  | |- context [match ep_held ?e !! ?i with _ => _ end] =>
      let E := fresh "Hheld" in destruct (ep_held e !! i) as [[st [fut|]]|] eqn:E
  end.

(** ** An endpoint runs its system *)
Section endpoint_runs.
Context {B : BytesCrate} {BL : BytesLaws B}.
Context {F : FlumeCrate} {FL : FlumeLaws F} {N : NotifyCrate} {NL : NotifyLaws N}.
Context {R : ReadBufCrate} {RL : ReadBufLaws R}.
Context {D : FramedCrate} {T : IntervalCrate}.
Context {M : Type -> Type} `{FinMap Z M}.
Implicit Types (s : Session M) (e : Endpoint M).

Lemma settle_open_system r fut e : ep_system (settle_open r fut e) = ep_system e.
Proof. by destruct r as [[]|], fut. Qed.

Lemma settle_accept_system r e : ep_system (settle_accept r e) = ep_system e.
Proof. by destruct r as [[]|]. Qed.

Lemma ep_run_system op e :
  ep_system (ep_run op e).1 = ep_system e \/
  exists n, system_step (ep_system e) n (ep_system (ep_run op e).1).
Proof.
  destruct op; unfold ep_run, close_held; op_enabled; try (by left); right; eexists.
  - pose proof (user_open (ep_session e) OpenStart) as Hu.
    destruct (open_stream _ _) as [[r fut] s']. cbn [fst] in *.
    rewrite settle_open_system. by apply step_user.
  - pose proof (user_open (ep_session e) (OpenSending st syn)) as Hu.
    destruct (open_stream _ _) as [[r fut] s']. cbn [fst] in *.
    rewrite settle_open_system. by apply step_user.
  - apply step_user, (user_drop (ep_session e) st).
  - pose proof (user_accept (ep_session e) close_first fut) as Hu.
    destruct (accept_stream _ _ _) as [[r fut'] s']. cbn [fst] in *.
    rewrite settle_accept_system. by apply step_user.
  - apply step_user, user_close.
  - apply step_user, (user_read (ep_session e) st buf).
  - apply step_user, (user_write (ep_session e) st d).
  - apply step_user, (user_shutdown (ep_session e) st).
  - pose proof (user_stream_close (ep_session e) CloseStart st) as Hu.
    destruct (close_poll _ _ _) as [[[r fut] st'] sh']. by apply step_user.
  - pose proof (user_stream_close (ep_session e) fut st) as Hu.
    destruct (close_poll _ _ _) as [[[r fut'] st'] sh']. by apply step_user.
  - apply step_user, (user_drop (ep_session e) st).
  - apply step_recv.
  - apply step_send.
  - apply step_keep_alive.
Qed.

(** *** Tokens: at most one for every byte that came in or was taken out *)
Lemma poll_read_copied st sh buf :
  let p := poll_read st sh buf in
  exists d, filled (rp_buf p) = filled buf ++ d /\
    (sh_state (rp_shared p) = sh_state sh \/
     sh_state (rp_shared p) = return_tokens (blen d) (sh_state sh)).
Proof.
  assert (Hcopy : forall c sh0 st' w,
    sh_state sh0 = sh_state sh -> (Z.min (blen c) (remaining buf) >? 0) = true ->
    exists d c' buf' sh', copy_out (Z.min (blen c) (remaining buf)) c buf sh0
      = Some (c', buf', sh') /\
    filled (rp_buf (mkReadPoll (Ready (Ok tt)) w buf' st' sh')) = filled buf ++ d /\
    sh_state sh' = return_tokens (blen d) (sh_state sh)).
  { intros c sh0 st' w Hsh Hpos. zbool.
    destruct (copy_out_spec (Z.min (blen c) (remaining buf)) c buf sh0)
      as (buf' & Hco & Hf & _); [lia..|].
    do 4 eexists. split; [exact Hco|]. split; [exact Hf|]. simpl.
    rewrite blen_take by lia. by rewrite Hsh. }
  assert (Hnil : filled buf = filled buf ++ []) by (by rewrite app_nil_r).
  assert (Hchan : let p := poll_read_channel st sh buf in
    exists d, filled (rp_buf p) = filled buf ++ d /\
    (sh_state (rp_shared p) = sh_state sh \/
     sh_state (rp_shared p) = return_tokens (blen d) (sh_state sh))).
  { cbv zeta. unfold poll_read_channel. destruct (try_recv _) as [r ch].
    destruct r as [c|[]|]; try (exists []; by auto).
    - destruct (_ >? 0) eqn:Hpos; [|exists []; by auto].
      destruct (Hcopy c (set_data_channel (st_data_rx st) ch sh) st false eq_refl Hpos)
        as (d & c' & buf' & sh' & -> & Hf & Hs).
      exists d. auto.
    - destruct (st_is_read_closed st); exists []; by auto. }
  cbv zeta. unfold poll_read.
  destruct (st_is_read_closed st); [exists []; by auto|].
  destruct (is_closed _); [exists []; by auto|].
  destruct (st_current_chunk st) as [c|]; [|exact Hchan].
  destruct (_ >? 0) eqn:Hpos; [|exact Hchan].
  destruct (Hcopy c sh st false eq_refl Hpos) as (d & c' & buf' & sh' & -> & Hf & Hs).
  exists d. auto.
Qed.

Lemma tokens_back_refl n st : tokens_back n st st.
Proof. by left. Qed.

Lemma new_frames_load s s' : load (new_frames s s') = 0.
Proof. unfold new_frames. by induction (drop _ _). Qed.

Lemma recv_select_tokens cf close task s src :
  recv_listens task s = Some close -> 0 < tokens (session_state s) ->
  tokens_back (load (map Handled (recv_takes cf task s src)))
    (session_state s) (session_state (recv_select cf close s src).1.2).
Proof.
  intros Hl Ht. unfold recv_takes. rewrite Hl. unfold recv_select.
  destruct (_ && _); [left; apply state_close_tokens|].
  destruct (poll_next src) as [[[[f|e|]|]|] src']; simpl fst; try by left.
  - pose proof (handle_frame_tokens f (update_state mark_data_received s) Ht) as Hh.
    destruct (handle_frame _ _) as [h s']. simpl in *. by rewrite Z.add_0_r.
  - left. apply state_close_tokens.
  - left. apply state_close_tokens.
  - destruct (is_notified _ _); [left; apply state_close_tokens|by left].
Qed.

Lemma run_recv_tokens cf (y : System M) :
  0 < tokens (session_state (sys_session y)) -> recv_waits_for_accept (sys_recv y) ->
  tokens_back (load (map Handled (recv_takes cf (sys_recv y) (sys_session y) (sys_source y))))
    (session_state (sys_session y)) (session_state (sys_session (run_recv cf y))).
Proof.
  intros Ht Hw. unfold run_recv. destruct (sys_recv y) as [|close|fut| |] eqn:Htask;
    cbn [recv_step].
  - pose proof (recv_select_tokens cf _ RecvLoop _ (sys_source y) eq_refl Ht) as Hs.
    by destruct (recv_select _ _ _ _) as [[? ?] ?].
  - pose proof (recv_select_tokens cf close (RecvSelect close) _ (sys_source y) eq_refl Ht)
      as Hs. by destruct (recv_select _ _ _ _) as [[? ?] ?].
  - destruct (Hw fut eq_refl) as [st ->]. cbn [resume_frame].
    pose proof (syn_send_state st (sys_session y)) as Hs.
    destruct (syn_send _ _) as [h s']. left. simpl in *. by rewrite Hs.
  - by left.
  - by left.
Qed.

Lemma send_exit_tokens s k :
  tokens (session_state (send_exit s k).1.2) = tokens (session_state s).
Proof. apply state_close_tokens. Qed.

Lemma send_poll_tokens s k :
  tokens (session_state (send_poll s k).1.2) = tokens (session_state s).
Proof.
  unfold send_poll. destruct (poll_send k) as [[[]|] k']; try done. apply send_exit_tokens.
Qed.

Lemma run_send_tokens cf (y : System M) :
  tokens (session_state (sys_session (run_send cf y)))
  = tokens (session_state (sys_session y)).
Proof.
  assert (Hsel : forall close s k,
    tokens (session_state (send_select cf close s k).1.2) = tokens (session_state s)).
  { intros close s k. unfold send_select. destruct (_ && _); [apply send_exit_tokens|].
    destruct (recv_async _) as [[[f|u|]|] c]; try done.
    - by rewrite send_poll_tokens.
    - by rewrite send_exit_tokens.
    - destruct (is_notified _ _); [by rewrite send_exit_tokens|done]. }
  unfold run_send.
  assert (Hs : tokens (session_state
            (send_step cf (sys_send y) (sys_session y) (sys_sink y)).1.2)
          = tokens (session_state (sys_session y))).
  { destruct (sys_send y); cbn [send_step];
      apply Hsel || apply send_poll_tokens || done. }
  by destruct (send_step _ _ _ _) as [[task s'] k'].
Qed.

Lemma run_keep_alive_tokens start now (y : System M) :
  tokens (session_state (sys_session (run_keep_alive start now y)))
  = tokens (session_state (sys_session y)).
Proof.
  set (s := sys_session y).
  assert (Hping : forall p t f,
    tokens (session_state (keep_alive_ping p t f s).2) = tokens (session_state s)).
  { intros p t f. unfold keep_alive_ping. by destruct (send_async _ _) as [[[]|] c]. }
  assert (Hsel : forall order p t close,
    tokens (session_state (keep_alive_select order now p t close s).2)
    = tokens (session_state s)).
  { intros order. induction order as [|[] order IH]; intros p t close;
      cbn [keep_alive_select].
    - done.
    - destruct (tick now p) as [[] p']; [apply Hping|apply IH].
    - destruct (tick now t) as [[] t']; [|apply IH]. rewrite keep_alive_timeout_tick_eq.
      cbv zeta. destruct (_ && _); [|done].
      exact (state_close_tokens (check_and_reset_data_received (session_state s)).2).
    - destruct (is_notified _ _); [done|apply IH]. }
  assert (Hk : tokens (session_state (keep_alive_step start now (sys_keep_alive y) s).2)
            = tokens (session_state s)).
  { destruct (sys_keep_alive y); cbn [keep_alive_step];
      apply Hsel || apply Hping || done. }
  unfold run_keep_alive. fold s. by destruct (keep_alive_step _ _ _ _) as [task s'].
Qed.

Lemma ep_run_tokens op e :
  0 < tokens (session_state (ep_session e)) ->
  recv_waits_for_accept (sys_recv (ep_system e)) ->
  tokens_back (load (ep_run op e).2) (session_state (ep_session e))
    (session_state (ep_session (ep_run op e).1)).
Proof.
  intros Ht Hw. destruct op; unfold ep_run, close_held; op_enabled; try (by left).
  - left. pose proof (open_stream_state OpenStart (ep_session e)) as Hs.
    destruct (open_stream _ _) as [[r fut] s']. unfold ep_session at 1. cbn [fst].
    rewrite settle_open_system. simpl in *. by rewrite Hs.
  - left. pose proof (open_stream_state (OpenSending st syn) (ep_session e)) as Hs.
    destruct (open_stream _ _) as [[r fut] s']. unfold ep_session at 1. cbn [fst].
    rewrite settle_open_system. simpl in *. by rewrite Hs.
  - left. exact (f_equal tokens (stream_drop_state st _)).
  - left. pose proof (accept_stream_state close_first fut (ep_session e)) as Hs.
    destruct (accept_stream _ _ _) as [[r fut'] s']. unfold ep_session at 1. cbn [fst].
    rewrite settle_accept_system. simpl in *. by rewrite Hs.
  - left. apply state_close_tokens.
  - destruct (poll_read_copied st (s_shared (ep_session e)) buf) as (d & Hf & Hs).
    cbn [fst snd]. rewrite Hf, drop_app_length. simpl load. rewrite Z.add_0_r.
    destruct Hs as [Hs|Hs]; [left; exact (f_equal tokens Hs)|].
    right. exists (blen d). pose proof (blen_nonneg d). split; [lia|].
    exact (f_equal tokens Hs).
  - left. exact (f_equal tokens (poll_write_state st _ d)).
  - left. exact (f_equal tokens (poll_shutdown_state st _)).
  - left. pose proof (close_poll_state CloseStart st (s_shared (ep_session e))) as Hs.
    destruct (close_poll _ _ _) as [[[r fut] st'] sh']. exact (f_equal tokens Hs).
  - left. pose proof (close_poll_state fut st (s_shared (ep_session e))) as Hs.
    destruct (close_poll _ _ _) as [[[r fut'] st'] sh']. exact (f_equal tokens Hs).
  - left. exact (f_equal tokens (stream_drop_state st _)).
  - cbn [fst snd]. rewrite !load_app, new_frames_load, Z.add_0_r.
    match goal with |- context [_ + load ?x] => assert (load x = 0) as -> end.
    { destruct (recv_takes _ _ _ _) as [|f fs]; [done|]. unfold new_channel.
      by destruct (Nat.eqb _ _). }
    rewrite Z.add_0_r. by apply run_recv_tokens.
  - left. apply run_send_tokens.
  - left. apply run_keep_alive_tokens.
Qed.
End endpoint_runs.

(** ** Moves *)
Section moves.
Context {B : BytesCrate} {BL : BytesLaws B}.
Context {F : FlumeCrate} {FL : FlumeLaws F} {N : NotifyCrate} {NL : NotifyLaws N}.
Context {R : ReadBufCrate} {RL : ReadBufLaws R}.
Context {M : Type -> Type} `{FinMap Z M}.
Implicit Types s : Session M.

(** What the moves are about: the session, the streams by owner, and whether the send
    loop still takes frames. *)
Record View : Type := mkView {
  vw_session : Session M;
  vw_held : list Held;
  vw_opening : list (Stream * Frame);
  vw_queued : list Stream;
  vw_sending : bool;
}.

(** A channel to which [fs] has been appended; nobody can append to a channel without
    receivers. *)
Record grows (fs : list Frame) (v v' : ChanView Frame) : Prop := {
  grows_queue : queue v' = queue v ++ fs;
  grows_capacity : capacity v' = capacity v;
  grows_receivers : receivers v' = receivers v;
  grows_open : fs <> [] -> receivers v <> 0%nat;
}.

Definition frames_view s : ChanView Frame := view (sh_frames (s_shared s)).

(** The parts of a session a move may leave alone. *)
Record same_streams s s' : Prop := {
  same_table : s_streams s' = s_streams s;
  same_chan k : chan s' k = chan s k;
  same_next : sh_next (s_shared s') = sh_next (s_shared s);
}.

Record same_fixed s s' : Prop := {
  same_config : s_config s' = s_config s;
  same_role : s_is_client s' = s_is_client s;
}.

Definition same_ids s s' : Prop := s_next_stream_id s' = s_next_stream_id s.

(** The reader of channel [k] is gone. *)
Record reader_dropped (k : nat) s s' : Prop := {
  rdrop_table : s_streams s' = s_streams s;
  rdrop_other k' : k' <> k -> chan s' k' = chan s k';
  rdrop_senders : senders (chan s' k) = senders (chan s k);
  rdrop_receivers : receivers (chan s' k) = pred (receivers (chan s k));
  rdrop_next : sh_next (s_shared s') = sh_next (s_shared s);
}.

(** The entry of stream [id] and its sender are gone. *)
Record entry_removed (id : Z) (k : nat) s s' : Prop := {
  erem_table : s_streams s' = delete id (s_streams s);
  erem_other k' : k' <> k -> chan s' k' = chan s k';
  erem_chan : chan s' k = mkChanView (queue (chan s k)) (capacity (chan s k))
                (pred (senders (chan s k))) (receivers (chan s k));
  erem_next : sh_next (s_shared s') = sh_next (s_shared s);
}.

(** What handling a frame does to streams that are there. *)
Inductive handles (f : Frame) s s' : Prop :=
| handles_data e :
    cmd f = Psh -> data f <> [] -> s_streams s !! stream_id f = Some e ->
    receivers (chan s (ss_data_tx e)) <> 0%nat ->
    s_streams s' = s_streams s -> sh_next (s_shared s') = sh_next (s_shared s) ->
    chan s' (ss_data_tx e) = enqueue (data f) (chan s (ss_data_tx e)) ->
    (forall k, k <> ss_data_tx e -> chan s' k = chan s k) ->
    handles f s s'
| handles_refused e :
    cmd f = Psh -> s_streams s !! stream_id f = Some e ->
    receivers (chan s (ss_data_tx e)) = 0%nat ->
    entry_removed (stream_id f) (ss_data_tx e) s s' -> handles f s s'
| handles_end e :
    cmd f = Fin -> s_streams s !! stream_id f = Some e ->
    entry_removed (stream_id f) (ss_data_tx e) s s' -> handles f s s'
| handles_ignored :
    (cmd f = Psh -> data f = [] \/ s_streams s !! stream_id f = None) ->
    (cmd f = Fin -> s_streams s !! stream_id f = None) ->
    same_streams s s' -> handles f s s'.

(** The two halves of a new stream. *)
Definition fresh_stream (id : Z) s : Stream :=
  stream_new id (sh_next (s_shared s)) (s_config s).

Definition open_call (id : Z) s : Stream * Frame :=
  (fresh_stream id s, new_syn (version (s_config s)) id).

(** A life of a held stream. *)
Definition held_life (hd : Held) (sh : Shared) : Life :=
  mkLife (h_stream hd) (h_close hd) false sh.

Definition same_reader (st st' : Stream) : Prop :=
  st_stream_id st' = st_stream_id st /\ st_data_rx st' = st_data_rx st /\
  st_current_chunk st' = st_current_chunk st /\ st_config st' = st_config st /\
  st_is_read_closed st' = st_is_read_closed st.

(** The data of a frame of a stream leaves room for the header. *)
Definition fits_frame (cfg : Config) (f : Frame) : Prop :=
  blen (data f) <= saturating_sub (max_frame_size cfg) HEADER_SIZE.

Inductive moves : View -> history -> View -> Prop :=
(* nothing that matters here *)
| mv_idle s s' hs os os' qs b :
    Permutation os os' -> same_streams s s' -> grows [] (frames_view s) (frames_view s') ->
    same_fixed s s' -> same_ids s s' ->
    moves (mkView s hs os qs b) [] (mkView s' hs os' qs b)
(* [open_stream]: the stream is registered; its SYN is sent; or it is dropped *)
| mv_open s s' hs os qs b :
    let id := s_next_stream_id s in
    id <= u32_MAX - 2 -> s_next_stream_id s' = id + 2 ->
    same_streams (register_stream id s).2 s' ->
    grows [] (frames_view s) (frames_view s') -> same_fixed s s' ->
    moves (mkView s hs os qs b) [Registered id (sh_next (s_shared s))]
      (mkView s' hs (os ++ [open_call id s]) qs b)
| mv_syn s s' hs os qs b i st syn :
    os !! i = Some (st, syn) -> same_streams s s' ->
    grows [syn] (frames_view s) (frames_view s') -> same_fixed s s' -> same_ids s s' ->
    moves (mkView s hs os qs b) [Emitted syn]
      (mkView s' (hs ++ [mkHeld st None]) (delete i os) qs b)
| mv_open_dropped s s' hs os qs b i st syn fs :
    os !! i = Some (st, syn) -> reader_dropped (st_data_rx st) s s' ->
    fs = [] \/ fs = [new_fin 1 (st_stream_id st)] ->
    grows fs (frames_view s) (frames_view s') -> same_fixed s s' -> same_ids s s' ->
    moves (mkView s hs os qs b) (map Emitted fs) (mkView s' hs (delete i os) qs b)
(* [accept_stream] *)
| mv_accept s s' hs os st qs b :
    same_streams s s' -> grows [] (frames_view s) (frames_view s') ->
    same_fixed s s' -> same_ids s s' ->
    moves (mkView s hs os (st :: qs) b) []
      (mkView s' (hs ++ [mkHeld st None]) os qs b)
(* writing, shutting down and closing a stream *)
| mv_use s s' hs os qs b i hd hd' ws fs :
    hs !! i = Some hd -> same_streams s s' ->
    emits_well (held_life hd (s_shared s)) (held_life hd' (s_shared s')) fs ->
    same_reader (h_stream hd) (h_stream hd') ->
    registered ws = [] -> emitted ws = [] -> taken ws = [] -> handled ws = [] ->
    (forall k, delivered k ws = []) -> (forall id, wrote id ws = psh_data id fs) ->
    Forall (fits_frame (st_config (h_stream hd))) fs ->
    grows fs (frames_view s) (frames_view s') -> same_fixed s s' -> same_ids s s' ->
    moves (mkView s hs os qs b) (ws ++ map Emitted fs)
      (mkView s' (<[i := hd']> hs) os qs b)
(* reading *)
| mv_read s hs os qs b i st buf :
    hs !! i = Some (mkHeld st None) -> 0 < remaining buf ->
    let p := poll_read st (s_shared s) buf in
    moves (mkView s hs os qs b)
      [Delivered (st_data_rx st) (drop (length (filled buf)) (filled (rp_buf p)))]
      (mkView (set_shared (rp_shared p) s) (<[i := mkHeld (rp_stream p) None]> hs) os qs b)
(* dropping *)
| mv_drop s s' hs os qs b i st fs :
    hs !! i = Some (mkHeld st None) -> reader_dropped (st_data_rx st) s s' ->
    fs = [] \/ fs = [new_fin 1 (st_stream_id st)] /\ st_is_write_closed st = false ->
    grows fs (frames_view s) (frames_view s') -> same_fixed s s' -> same_ids s s' ->
    moves (mkView s hs os qs b) (map Emitted fs) (mkView s' (delete i hs) os qs b)
(* the receive loop *)
| mv_handle s s' hs os qs b f :
    handles f s s' -> grows [] (frames_view s) (frames_view s') ->
    same_fixed s s' -> same_ids s s' ->
    moves (mkView s hs os qs b) [Handled f] (mkView s' hs os qs b)
| mv_handle_syn s s' hs os qs b f :
    let id := stream_id f in
    cmd f = Syn -> peer_id (s_is_client s) id = true -> s_streams s !! id = None ->
    same_streams (register_stream id s).2 s' ->
    grows [] (frames_view s) (frames_view s') -> same_fixed s s' -> same_ids s s' ->
    moves (mkView s hs os qs b) [Handled f; Registered id (sh_next (s_shared s))]
      (mkView s' hs os (qs ++ [fresh_stream id s]) b)
(* the keep-alive loop *)
| mv_nop s s' hs os qs b :
    same_streams s s' ->
    grows [new_nop (version (s_config s))] (frames_view s) (frames_view s') ->
    same_fixed s s' -> same_ids s s' ->
    moves (mkView s hs os qs b) [Emitted (new_nop (version (s_config s)))]
      (mkView s' hs os qs b)
(* the send loop *)
| mv_take s s' hs os qs f q :
    same_streams s s' -> queue (frames_view s) = f :: q ->
    frames_view s' = with_queue q (frames_view s) -> same_fixed s s' -> same_ids s s' ->
    moves (mkView s hs os qs true) [Taken f] (mkView s' hs os qs true)
| mv_stop s s' hs os qs :
    same_streams s s' -> capacity (frames_view s') = capacity (frames_view s) ->
    receivers (frames_view s') = pred (receivers (frames_view s)) ->
    same_fixed s s' -> same_ids s s' ->
    moves (mkView s hs os qs true) [] (mkView s' hs os qs false).

(** Several moves, with their events. *)
Inductive moves_all (v : View) : history -> View -> Prop :=
| moves_none : moves_all v [] v
| moves_more h1 v1 h2 v2 :
    moves_all v h1 v1 -> moves v1 h2 v2 -> moves_all v (h1 ++ h2) v2.

Lemma moves_one v h v' : moves v h v' -> moves_all v h v'.
Proof. intros Hm. eapply (moves_more v [] v h v'); [apply moves_none|done]. Qed.

Lemma moves_two v h1 v1 h2 v2 :
  moves v h1 v1 -> moves v1 h2 v2 -> moves_all v (h1 ++ h2) v2.
Proof. intros Hm1 Hm2. eapply moves_more; [by apply moves_one|done]. Qed.

Lemma moves_all_trans v h1 v1 h2 v2 :
  moves_all v h1 v1 -> moves_all v1 h2 v2 -> moves_all v (h1 ++ h2) v2.
Proof.
  intros Hfst Hsnd. induction Hsnd as [|h2 v2 h3 v3 Htr IH Hm].
  - by rewrite app_nil_r.
  - rewrite app_assoc. by eapply moves_more.
Qed.

Lemma moves_all_same v h v' v'' :
  moves_all v h v' -> v' = v'' -> moves_all v h v''.
Proof. by intros ? <-. Qed.

(** *** Reflexivity, and the pieces operations are made of *)
Lemma same_streams_refl s : same_streams s s.
Proof. done. Qed.

Lemma same_fixed_refl s : same_fixed s s.
Proof. done. Qed.

Lemma grows_refl v : grows [] v v.
Proof. split; try done. by rewrite app_nil_r. Qed.

Lemma grows_view v v' : v' = v -> grows [] v v'.
Proof. intros ->. apply grows_refl. Qed.

Lemma grows_enqueue m v v' : v' = enqueue m v -> receivers v <> 0%nat -> grows [m] v v'.
Proof. intros -> Hr. by split. Qed.

Lemma grows_trans fs1 fs2 v1 v2 v3 :
  grows fs1 v1 v2 -> grows fs2 v2 v3 -> grows (fs1 ++ fs2) v1 v3.
Proof.
  intros [Hq Hc Hr Ho] [Hq' Hc' Hr' Ho']. split; try congruence.
  - by rewrite Hq', Hq, app_assoc.
  - intros Hne. destruct fs1; [|by apply Ho]. simpl in *. rewrite <- Hr. by apply Ho'.
Qed.

(** Only the frame channel, the session state or the accept queue changed. *)
Lemma same_streams_frames c s : same_streams s (set_shared (set_frames c (s_shared s)) s).
Proof. done. Qed.

Lemma same_streams_state g s : same_streams s (update_state g s).
Proof. done. Qed.

Lemma same_streams_incoming c s : same_streams s (set_incoming c s).
Proof. done. Qed.

Lemma same_streams_trans s1 s2 s3 :
  same_streams s1 s2 -> same_streams s2 s3 -> same_streams s1 s3.
Proof. intros [Ht Hc Hn] [Ht' Hc' Hn']. split; congruence. Qed.

Lemma same_fixed_trans s1 s2 s3 : same_fixed s1 s2 -> same_fixed s2 s3 -> same_fixed s1 s3.
Proof. intros [Ht Hc] [Ht' Hc']. split; congruence. Qed.

Lemma same_streams_shared s sh :
  sh_data sh = sh_data (s_shared s) -> sh_next sh = sh_next (s_shared s) ->
  same_streams s (set_shared sh s).
Proof.
  intros Hd Hn. split; [done| |done]. intros k. unfold chan, data_channel. simpl.
  by rewrite Hd.
Qed.

(** Sends on a channel that is not a rendezvous. *)
Lemma try_send_grows (m : Frame) c :
  buffered c ->
  ((try_send m c).1 = Ok tt /\ grows [m] (view c) (view (try_send m c).2)) \/
  (((try_send m c).1 = Err TrySendFull \/ (try_send m c).1 = Err TrySendDisconnected) /\
   view (try_send m c).2 = view c).
Proof.
  intros Hb. destruct (decide (receivers (view c) = 0%nat)) as [Hr|Hr].
  - pose proof (try_send_disconnected _ m c Hr). tauto.
  - destruct (has_room_or_full c Hb) as [Hroom|Hfull].
    + destruct (try_send_ok _ m c Hr Hroom) as [Hs Hv]. left. split; [done|].
      by apply grows_enqueue.
    + pose proof (try_send_full _ m c Hr Hfull). tauto.
Qed.

Lemma send_async_grows (m : Frame) c :
  buffered c ->
  ((send_async m c).1 = Ready (Ok tt) /\ grows [m] (view c) (view (send_async m c).2)) \/
  ((send_async m c).1 = Pending /\ view (send_async m c).2 = view c) \/
  ((send_async m c).1 = Ready (Err tt) /\ view (send_async m c).2 = view c /\
   receivers (view c) = 0%nat).
Proof.
  intros Hb. destruct (decide (receivers (view c) = 0%nat)) as [Hr|Hr].
  - pose proof (send_async_disconnected _ m c Hr). tauto.
  - destruct (has_room_or_full c Hb) as [Hroom|Hfull].
    + destruct (send_async_ok _ m c Hr Hroom) as [Hs Hv]. left. split; [done|].
      by apply grows_enqueue.
    + pose proof (send_async_pending _ m c Hr Hfull). tauto.
Qed.

(** The events of a step that appended [fs] to the frame channel. *)
Lemma new_frames_grows fs s s' :
  grows fs (frames_view s) (frames_view s') -> new_frames s s' = map Emitted fs.
Proof.
  intros [Hq _ _ _]. unfold new_frames, frame_queue. unfold frames_view in Hq.
  by rewrite Hq, drop_app_length.
Qed.

Lemma new_channel_none id s s' :
  sh_next (s_shared s') = sh_next (s_shared s) -> new_channel id s s' = [].
Proof. intros Hn. unfold new_channel. by rewrite Hn, Nat.eqb_refl. Qed.

Lemma new_channel_one id s s' :
  sh_next (s_shared s') = S (sh_next (s_shared s)) ->
  new_channel id s s' = [Registered id (sh_next (s_shared s))].
Proof.
  intros Hn. unfold new_channel. rewrite Hn.
  by rewrite (proj2 (Nat.eqb_neq _ _)) by lia.
Qed.
End moves.

Arguments View {F N} M.
