(* ===== verification/EndpointMoves.v ===== *)
(** * The operations of an endpoint are moves

    [ep_run_moves]: what an operation does to the parts of an endpoint that its streams
    depend on, and the events it records, is a sequence of the moves of
    EndpointSpec.v. *)

From stdpp Require Import strings.
From S2P Require Import Prelude Crates Errors Config Command Frame Codec Runtime.
From S2P Require Import SessionState Stream StreamSpec Session SessionSpec SessionProps.
From S2P Require Import Handshake Delivery Loops LoopsSpec Endpoint EndpointSpec.

(** The frames of an operation of a stream, and what it wrote. *)
Record stream_frames (st : Stream) (fs : list Frame) (w : bytes) : Prop := {
  sf_data i : psh_data i fs = if decide (st_stream_id st = i) then w else [];
  sf_fits : Forall (fits_frame (st_config st)) fs;
}.

Section pieces.
Context {B : BytesCrate} {BL : BytesLaws B}.
Context {F : FlumeCrate} {FL : FlumeLaws F} {N : NotifyCrate} {NL : NotifyLaws N}.
Context {R : ReadBufCrate} {RL : ReadBufLaws R}.
Context {M : Type -> Type} `{FinMap Z M}.
Implicit Types s : Session M.

(** ** Registering a stream *)
Lemma register_grows id s : grows [] (frames_view s) (frames_view (register_stream id s).2).
Proof.
  rewrite register_stream_eq. unfold insert_stream, frames_view. cbn [snd].
  assert (Hv : view (sh_frames (s_shared (with_channel s)))
               = view (sender_clone (sh_frames (s_shared s)))) by done.
  assert (Hg : grows [] (view (sh_frames (s_shared s)))
                 (view (sh_frames (s_shared (with_channel s))))).
  { rewrite Hv, sender_clone_view. split; simpl; try done. by rewrite app_nil_r. }
  by destruct (_ !! id).
Qed.

Lemma register_fixed id s : same_fixed s (register_stream id s).2.
Proof.
  rewrite register_stream_eq. unfold insert_stream. cbn [snd]. by destruct (_ !! id).
Qed.

Lemma register_ids id s : same_ids s (register_stream id s).2.
Proof.
  rewrite register_stream_eq. unfold same_ids, insert_stream. cbn [snd].
  by destruct (_ !! id).
Qed.

Lemma buffered_grows fs (c c' : channel Frame) :
  grows fs (view c) (view c') -> buffered c -> buffered c'.
Proof. intros [_ Hc _ _]. unfold buffered. by rewrite Hc. Qed.

(** ** Dropping a stream *)
Lemma stream_drop_pieces st s :
  buffered (sh_frames (s_shared s)) ->
  let s' := set_shared (stream_drop st (s_shared s)) s in
  exists fs, grows fs (frames_view s) (frames_view s') /\
    reader_dropped (st_data_rx st) s s' /\
    (fs = [] \/ fs = [new_fin 1 (st_stream_id st)] /\ st_is_write_closed st = false).
Proof.
  intros Hb s'. set (k := st_data_rx st).
  assert (Hrd : forall fr, reader_dropped k s (set_shared
    (set_data_channel k (receiver_drop (data_channel k (s_shared s)))
       (set_frames fr (s_shared s))) s)).
  { intros fr. destruct (receiver_drop_view _ (data_channel k (s_shared s)))
      as (Hca & Hse & Hre).
    split; simpl; try done; unfold chan; simpl.
    - intros k' Hk. by rewrite data_channel_set_ne by done.
    - by rewrite data_channel_set.
    - by rewrite data_channel_set. }
  assert (Hg : forall c, grows [] (view c) (view (sender_drop c))).
  { intros c. rewrite sender_drop_view. split; simpl; try done. by rewrite app_nil_r. }
  subst s'. unfold stream_drop, frames_view. fold k. destruct (st_is_write_closed st) eqn:Hwc.
  - exists []. split; [apply Hg|]. split; [apply Hrd|by left].
  - simpl. destruct (try_send_grows (new_fin 1 (st_stream_id st)) _ Hb)
      as [[_ Hgr]|[_ Hgr]]; destruct (try_send _ _) as [r c]; simpl in Hgr.
    + eexists. split; [|split; [apply Hrd|by right]].
      exact (grows_trans [_] [] _ _ _ Hgr (Hg c)).
    + exists []. split; [|split; [apply Hrd|by left]].
      rewrite <- Hgr. apply Hg.
Qed.

(** ** Opening *)
Lemma open_send_pieces st syn s :
  buffered (sh_frames (s_shared s)) ->
  let '(r, fut, s') := open_send st syn s in
  same_fixed s s' /\ same_ids s s' /\
  ((r = Ready (Ok st) /\ same_streams s s' /\ grows [syn] (frames_view s) (frames_view s')) \/
   (r = Pending /\ fut = OpenSending st syn /\ same_streams s s' /\
    grows [] (frames_view s) (frames_view s')) \/
   (r = Ready (Err SessionClosed) /\ reader_dropped (st_data_rx st) s s' /\
    grows [] (frames_view s) (frames_view s'))).
Proof.
  intros Hb. unfold open_send, frames_view.
  destruct (send_async_grows syn _ Hb) as [[Hr Hg]|[[Hr Hg]|(Hr & Hg & Hz)]];
    destruct (send_async _ _) as [r c]; simpl in Hr, Hg; subst r.
  - split; [done|]. split; [done|]. by left.
  - split; [done|]. split; [done|]. right; left. split; [done|]. split; [done|].
    split; [done|]. by apply grows_view.
  - split; [done|]. split; [done|]. right; right. split; [done|].
    set (s1 := set_shared (set_frames c (s_shared s)) s).
    assert (Hb1 : buffered (sh_frames (s_shared s1))).
    { unfold buffered. simpl. by rewrite Hg. }
    destruct (stream_drop_pieces st s1 Hb1) as (fs & Hgr & Hrd & _). split.
    + destruct Hrd as [Ht Ho Hs Hre Hn]. split; try done.
    + destruct fs as [|f fs].
      * unfold frames_view in Hgr. simpl in Hgr. by rewrite Hg in Hgr.
      * destruct Hgr as [_ _ _ Ho]. exfalso. apply Ho; [done|].
        unfold frames_view. simpl. by rewrite Hg.
Qed.

(** ** Writing, shutting down, closing *)
Lemma same_reader_refl st : same_reader st st.
Proof. done. Qed.

Lemma stream_frames_nil st : stream_frames st [] [].
Proof. split; [|constructor]. intros i. by case_decide. Qed.

Lemma stream_frames_fin st : stream_frames st [new_fin 1 (st_stream_id st)] [].
Proof.
  split.
  - intros i. rewrite psh_data_one, decide_False by (by intros [? _]). by case_decide.
  - constructor; [|constructor]. unfold fits_frame, saturating_sub. simpl.
    rewrite blen_nil. lia.
Qed.

Lemma stream_frames_write st d :
  stream_frames st [write_frame st d] (take (Z.to_nat (write_size st d)) d).
Proof.
  split.
  - intros i. rewrite psh_data_one. unfold is_psh_of. simpl.
    destruct (decide (st_stream_id st = i)) as [->|Hne].
    + by rewrite decide_True.
    + rewrite decide_False; [done|]. by intros [_ ?].
  - constructor; [|constructor]. unfold fits_frame. simpl.
    pose proof (write_size_range st d) as Hr. rewrite blen_take by lia.
    unfold write_size. lia.
Qed.

Lemma poll_write_pieces st sh d :
  buffered (sh_frames sh) ->
  let p := poll_write st sh d in
  wp_stream p = st /\
  sh_data (wp_shared p) = sh_data sh /\ sh_next (wp_shared p) = sh_next sh /\
  exists fs, grows fs (view (sh_frames sh)) (view (sh_frames (wp_shared p))) /\
    stream_frames st fs
      (match wp_result p with Ready (Ok n) => take (Z.to_nat n) d | _ => [] end).
Proof.
  intros Hb. cbv zeta.
  assert (Hnone : forall r w, (forall n, r = Ready (Ok n) -> d = []) ->
    poll_write st sh d = mkWritePoll r w st sh ->
    wp_stream (poll_write st sh d) = st /\
    sh_data (wp_shared (poll_write st sh d)) = sh_data sh /\
    sh_next (wp_shared (poll_write st sh d)) = sh_next sh /\
    exists fs, grows fs (view (sh_frames sh)) (view (sh_frames (wp_shared (poll_write st sh d)))) /\
      stream_frames st fs
      (match wp_result (poll_write st sh d) with
       | Ready (Ok n) => take (Z.to_nat n) d | _ => [] end)).
  { intros r w Hr ->. split; [done|]. split; [done|]. split; [done|].
    exists []. split; [apply grows_refl|]. simpl.
    assert (match r with Ready (Ok n) => take (Z.to_nat n) d | _ => [] end = []) as ->.
    { destruct r as [[n| |]|]; try done. rewrite (Hr n eq_refl). apply take_nil. }
    apply stream_frames_nil. }
  destruct (closed (sh_state sh)) eqn:Hc.
  { eapply (Hnone (Ready (Err session_closed_error))); [done|].
    unfold poll_write, is_closed. by rewrite Hc. }
  destruct (st_is_write_closed st) eqn:Hw.
  { eapply (Hnone (Ready (Err write_closed_error))); [done|].
    unfold poll_write, is_closed. by rewrite Hc, Hw. }
  destruct (decide (d = [])) as [->|Hd].
  { eapply (Hnone (Ready (Ok 0))); [done|]. unfold poll_write, is_closed. by rewrite Hc, Hw. }
  clear Hnone. rewrite poll_write_send by done.
  destruct (try_send_grows (write_frame st d) _ Hb) as [[Hr Hg]|[[Hr|Hr] Hg]];
    destruct (try_send _ _) as [r c]; simpl in Hr, Hg; subst r; cbv zeta; cbn;
    (split; [done|]; split; [done|]; split; [done|]).
  - eexists. split; [exact Hg|]. apply stream_frames_write.
  - exists []. rewrite Hg. split; [apply grows_refl|apply stream_frames_nil].
  - exists []. rewrite Hg. split; [apply grows_refl|apply stream_frames_nil].
Qed.

Lemma poll_shutdown_pieces st sh :
  buffered (sh_frames sh) ->
  let p := poll_shutdown st sh in
  same_reader st (wp_stream p) /\
  sh_data (wp_shared p) = sh_data sh /\ sh_next (wp_shared p) = sh_next sh /\
  exists fs, grows fs (view (sh_frames sh)) (view (sh_frames (wp_shared p))) /\
    stream_frames st fs [].
Proof.
  intros Hb. cbv zeta. unfold poll_shutdown. destruct (st_is_write_closed st).
  { split; [done|]. split; [done|]. split; [done|]. exists [].
    split; [apply grows_refl|apply stream_frames_nil]. }
  destruct (try_send_grows (new_fin 1 (st_stream_id st)) _ Hb) as [[Hr Hg]|[[Hr|Hr] Hg]];
    destruct (try_send _ _) as [r c]; simpl in Hr, Hg; subst r; cbn;
    (split; [done|]; split; [done|]; split; [done|]).
  - eexists. split; [exact Hg|apply stream_frames_fin].
  - exists []. rewrite Hg. split; [apply grows_refl|apply stream_frames_nil].
  - exists []. rewrite Hg. split; [apply grows_refl|apply stream_frames_nil].
Qed.

Lemma close_poll_pieces fut st sh :
  buffered (sh_frames sh) -> (forall f, fut = CloseSending f -> f = new_fin 1 (st_stream_id st)) ->
  let '(_, _, st', sh') := close_poll fut st sh in
  same_reader st st' /\ sh_data sh' = sh_data sh /\ sh_next sh' = sh_next sh /\
  exists fs, grows fs (view (sh_frames sh)) (view (sh_frames sh')) /\
    stream_frames st fs [].
Proof.
  intros Hb Hf.
  assert (Hnone : exists fs, grows fs (view (sh_frames sh)) (view (sh_frames sh)) /\
                    stream_frames st fs []).
  { exists []. split; [apply grows_refl|apply stream_frames_nil]. }
  assert (Hsend : let '(_, _, sh') := close_send (new_fin 1 (st_stream_id st)) sh in
    sh_data sh' = sh_data sh /\ sh_next sh' = sh_next sh /\
    exists fs, grows fs (view (sh_frames sh)) (view (sh_frames sh')) /\
    stream_frames st fs []).
  { unfold close_send.
    destruct (send_async_grows (new_fin 1 (st_stream_id st)) _ Hb)
      as [[Hr Hg]|[[Hr Hg]|(Hr & Hg & _)]];
      destruct (send_async _ _) as [r c]; simpl in Hr, Hg; subst r; cbn;
      (split; [done|]; split; [done|]).
    - eexists. split; [exact Hg|apply stream_frames_fin].
    - by rewrite Hg.
    - by rewrite Hg. }
  destruct fut as [|fin|]; cbn [close_poll]; [| |done].
  - destruct (st_is_write_closed st); simpl negb; cbv iota; [done|].
    destruct (close_send _ sh) as [[r fut'] sh']. done.
  - rewrite (Hf fin eq_refl). destruct (close_send _ sh) as [[r fut'] sh']. done.
Qed.
End pieces.

(** ** The receive loop *)
Section receiving.
Context {B : BytesCrate} {BL : BytesLaws B}.
Context {F : FlumeCrate} {FL : FlumeLaws F} {N : NotifyCrate} {NL : NotifyLaws N}.
Context {R : ReadBufCrate} {RL : ReadBufLaws R}.
Context {D : FramedCrate} {DL : FramedLaws D} {T : IntervalCrate}.
Context {M : Type -> Type} `{FinMap Z M}.
Implicit Types s : Session M.

(** The streams on their way to [accept_stream] when the receive loop is at [task]. *)
Definition arriving (task : RecvTask) s : list Stream :=
  queue (view (s_incoming s)) ++ recv_stream task.

(** Everything but streams stays as it is. *)
Record quiet s s' : Prop := {
  quiet_frames : grows [] (frames_view s) (frames_view s');
  quiet_fixed : same_fixed s s';
  quiet_ids : same_ids s s';
}.

Lemma quiet_refl s : quiet s s.
Proof. split; [apply grows_refl|done|done]. Qed.

Lemma quiet_trans s1 s2 s3 : quiet s1 s2 -> quiet s2 s3 -> quiet s1 s3.
Proof.
  intros [Hf Hx Hi] [Hf' Hx' Hi']. split.
  - by apply (grows_trans [] [] _ _ _ Hf).
  - by apply (same_fixed_trans _ s2).
  - unfold same_ids in *. congruence.
Qed.

Lemma quiet_state g s : quiet s (update_state g s).
Proof. split; [apply grows_refl|done|done]. Qed.

Lemma syn_send_pieces st s :
  session_wf s ->
  let '(h, s') := syn_send st s in
  same_streams s s' /\ quiet s s' /\
  arriving (recv_handled h) s' = queue (view (s_incoming s)) ++ [st].
Proof.
  intros Hwf. pose proof (wf_incoming s Hwf) as Hr. unfold syn_send, arriving.
  assert (Hb : buffered (s_incoming s))
    by (unfold buffered; rewrite (wf_accept_queue s Hwf); lia).
  destruct (has_room_or_full _ Hb) as [Hroom|Hfull].
  - destruct (send_async_ok _ st _ Hr Hroom) as [Hs Hv].
    destruct (send_async st _) as [r c]. simpl in Hs, Hv. subst r.
    split; [done|]. split; [by split; [apply grows_refl|..]|]. simpl. rewrite Hv. simpl.
    by rewrite app_nil_r.
  - destruct (send_async_pending _ st _ Hr Hfull) as [Hs Hv].
    destruct (send_async st _) as [r c]. simpl in Hs, Hv. subst r.
    split; [done|]. split; [by split; [apply grows_refl|..]|]. simpl. by rewrite Hv.
Qed.

Lemma drop_entry_quiet e s : quiet s (drop_entry e s).
Proof. destruct e; (split; [apply grows_refl|done|done]). Qed.

Lemma remove_stream_quiet id s : quiet s (remove_stream id s).
Proof.
  unfold remove_stream.
  apply (quiet_trans _ (set_streams (delete id (s_streams s)) s)); [|apply drop_entry_quiet].
  split; [apply grows_refl|done|done].
Qed.

Lemma entry_removed_drop id e e' s :
  s_streams s !! id = Some e -> ss_data_tx e' = ss_data_tx e ->
  entry_removed id (ss_data_tx e) s
    (drop_entry (Some e') (set_streams (delete id (s_streams s)) s)).
Proof.
  intros He Htx. split.
  - by rewrite drop_entry_streams.
  - intros k Hk. rewrite drop_entry_chan, decide_False by congruence. done.
  - rewrite drop_entry_chan, decide_True by done. done.
  - by rewrite drop_entry_next.
Qed.

Lemma entry_removed_pre id k s0 s s' :
  same_streams s0 s -> entry_removed id k s s' -> entry_removed id k s0 s'.
Proof.
  intros [Ht Hc Hn] [Ht' Ho' Hc' Hn'].
  split; [congruence|intros k' Hk'; by rewrite Ho', Hc|by rewrite Hc', !Hc|congruence].
Qed.

Lemma psh_send_pieces f e s :
  session_wf s -> cmd f = Psh -> data f <> [] -> s_streams s !! stream_id f = Some e ->
  let '(h, s') := psh_send f (ss_data_tx e) s in
  handles f s s' /\ quiet s s' /\ arriving (recv_handled h) s' = arriving RecvLoop s.
Proof.
  intros Hwf Hc Hd He. set (k := ss_data_tx e).
  destruct (decide (receivers (chan s k) = 0%nat)) as [Hr|Hr]; unfold psh_send.
  - destruct (send_async_disconnected _ (data f) _ Hr) as [Hs Hv].
    destruct (send_async _ _) as [r c]. simpl in Hs, Hv. subst r.
    set (s1 := set_shared (set_data_channel k c (s_shared s)) s).
    set (s2 := update_state (return_tokens (data_len f)) s1).
    assert (Hsame : same_streams s s2).
    { split; [done| |done]. intros k'. unfold s2. destruct (Nat.eq_dec k k') as [<-|Hne].
      - change (chan s1 k = chan s k). unfold s1. by rewrite chan_set.
      - change (chan s1 k' = chan s k'). by apply chan_set_ne. }
    split; [|split].
    + apply (handles_refused _ _ _ e Hc He Hr). apply (entry_removed_pre _ _ s s2); [done|].
      assert (He2 : s_streams s2 !! stream_id f = Some e) by done.
      unfold remove_stream. rewrite He2. by apply entry_removed_drop.
    + apply (quiet_trans _ s2); [|apply remove_stream_quiet].
      split; [apply grows_refl|done|done].
    + unfold arriving, remove_stream. by rewrite drop_entry_incoming.
  - assert (Hroom : has_room (chan s k) = true)
      by (unfold has_room, k; by rewrite (wf_unbounded s Hwf _ _ He)).
    destruct (send_async_ok _ (data f) _ Hr Hroom) as [Hs Hv].
    destruct (send_async _ _) as [r c]. simpl in Hs, Hv. subst r.
    split; [|split; [split; [apply grows_refl|done|done]|done]].
    apply (handles_data _ _ _ e Hc Hd He Hr); try done.
    + by rewrite chan_set.
    + intros k' Hk. by apply chan_set_ne.
Qed.

(** What handling a frame does: to the streams that are there, or a new one. *)
Lemma handle_frame_pieces f s :
  session_wf s -> 0 < tokens (session_state s) ->
  let '(h, s') := handle_frame f s in
  quiet s s' /\
  ((handles f s s' /\ arriving (recv_handled h) s' = arriving RecvLoop s) \/
   (cmd f = Syn /\ peer_id (s_is_client s) (stream_id f) = true /\
    s_streams s !! stream_id f = None /\
    same_streams (register_stream (stream_id f) s).2 s' /\
    arriving (recv_handled h) s' = arriving RecvLoop s ++ [fresh_stream (stream_id f) s])).
Proof.
  intros Hwf Ht. unfold handle_frame. destruct (cmd f) eqn:Hc.
  - unfold handle_syn_frame. rewrite validate_peer_peer_id.
    assert (Hign : handles f s s) by (apply handles_ignored; congruence || done).
    destruct (peer_id _ _) eqn:Hp; [|split; [apply quiet_refl|by left]].
    destruct (_ !! stream_id f) eqn:He; [split; [apply quiet_refl|by left]|].
    pose proof (register_wf (stream_id f) s Hwf) as Hwf1.
    pose proof (register_shared (stream_id f) s) as (_ & Hinc & _).
    pose proof (register_stream_eq (stream_id f) s) as Heq.
    pose proof (Build_quiet _ _ (register_grows (stream_id f) s)
      (register_fixed (stream_id f) s) (register_ids (stream_id f) s)) as Hq.
    destruct (register_stream (stream_id f) s) as [st s1]. injection Heq as -> _.
    cbn [snd] in *.
    pose proof (syn_send_pieces (fresh_stream (stream_id f) s) s1 Hwf1) as Hs.
    unfold fresh_stream in *. destruct (syn_send _ s1) as [h s2].
    destruct Hs as (Hss & Hq2 & Ha). split; [by apply (quiet_trans _ s1)|]. right.
    split; [done|]. split; [done|]. split; [done|]. split; [done|].
    rewrite Ha, Hinc. unfold arriving. simpl. by rewrite app_nil_r.
  - unfold handle_fin_frame. destruct (_ !! stream_id f) as [e|] eqn:He.
    + split.
      * apply (quiet_trans _ (set_streams (delete (stream_id f) (s_streams s)) s));
          [split; [apply grows_refl|done|done]|apply drop_entry_quiet].
      * left. split; [|unfold arriving; by rewrite drop_entry_incoming].
        apply (handles_end _ _ _ e Hc He). by apply entry_removed_drop.
    + split; [apply quiet_refl|left]. split; [|done].
      by apply handles_ignored; try congruence.
  - unfold handle_psh_frame. destruct (data_len f =? 0) eqn:Hd; zbool.
    { split; [apply quiet_refl|left]. split; [|done].
      apply handles_ignored; try congruence; [|done]. intros _. left.
      by apply blen_zero. }
    assert (Hne : data f <> []) by (intros Hz; unfold data_len in Hd; by rewrite Hz in Hd).
    unfold psh_loop, get_tokens. rewrite Z.gtb_ltb, (proj2 (Z.ltb_lt _ _) Ht).
    unfold psh_process. destruct (_ !! stream_id f) as [e|] eqn:He.
    + pose proof (psh_send_pieces f e s Hwf Hc Hne He) as Hp.
      destruct (psh_send _ _ _) as [h s']. destruct Hp as (? & ? & ?). auto.
    + split; [apply quiet_state|left]. split; [|done].
      apply handles_ignored; try congruence; [auto|done].
  - split; [apply quiet_refl|left]. split; [|done].
    apply handles_ignored; try congruence; done.
  - split; [apply quiet_refl|left]. split; [|done].
    apply handles_ignored; try congruence; done.
Qed.
End receiving.

(** ** The send loop and the keep-alive loop *)
Section tasks.
Context {B : BytesCrate} {BL : BytesLaws B}.
Context {F : FlumeCrate} {FL : FlumeLaws F} {N : NotifyCrate} {NL : NotifyLaws N}.
Context {R : ReadBufCrate} {RL : ReadBufLaws R}.
Context {D : FramedCrate} {T : IntervalCrate}.
Context {M : Type -> Type} `{FinMap Z M}.
Implicit Types s : Session M.

Definition sending (task : SendTask) : bool :=
  match task with SendDone | SendPanicked => false | _ => true end.

Lemma mv_quiet s s' hs os qs b :
  same_streams s s' -> quiet s s' -> moves (mkView s hs os qs b) [] (mkView s' hs os qs b).
Proof. intros Hs [Hf Hx Hi]. by apply mv_idle. Qed.

Lemma same_frames_quiet s c :
  view c = view (sh_frames (s_shared s)) -> quiet s (set_shared (set_frames c (s_shared s)) s).
Proof. intros Hv. split; [|done|done]. by apply grows_view. Qed.

Section views.
Variables (hs : list Held) (os : list (Stream * Frame)) (qs : list Stream).
Let vw s b := mkView s hs os qs b.

Lemma close_moves s b : moves (vw s b) [] (vw (update_state state_close s) b).
Proof. apply mv_quiet; [done|apply quiet_state]. Qed.

Lemma drop_frame_rx_moves s : moves (vw s true) [] (vw (drop_frame_rx s) false).
Proof.
  destruct (receiver_drop_view _ (sh_frames (s_shared s))) as (Hc & _ & Hr).
  by apply mv_stop.
Qed.

Lemma send_exit_moves s k :
  let p := send_exit s k in moves_all (vw s true) [] (vw p.1.2 (sending p.1.1)).
Proof.
  apply (moves_two _ [] (vw (update_state state_close s) true) []);
    [apply close_moves|apply drop_frame_rx_moves].
Qed.

Lemma send_poll_moves s k :
  let p := send_poll s k in moves_all (vw s true) [] (vw p.1.2 (sending p.1.1)).
Proof.
  unfold send_poll. destruct (poll_send k) as [[[u|e|]|] k'].
  - apply moves_none.
  - apply send_exit_moves.
  - apply moves_one, drop_frame_rx_moves.
  - apply moves_none.
Qed.

Lemma send_step_moves cf task s k :
  let p := send_step cf task s k in
  moves_all (vw s (sending task)) (map Taken (send_takes cf task s))
    (vw p.1.2 (sending p.1.1)).
Proof.
  cbv zeta. destruct (send_listens task s) as [close|] eqn:Hl.
  - rewrite (send_step_select _ _ _ _ _ Hl).
    assert (sending task = true) as -> by (by destruct task).
    unfold send_takes. rewrite Hl. unfold send_select.
    destruct (_ && _); [apply send_exit_moves|].
    destruct (queue (view (sh_frames (s_shared s)))) as [|f q] eqn:Hq.
    + assert (Hv : view (recv_async (sh_frames (s_shared s))).2
                   = view (sh_frames (s_shared s)) /\
                   forall f, (recv_async (sh_frames (s_shared s))).1 <> Ready (Ok f)).
      { destruct (decide (senders (view (sh_frames (s_shared s))) = 0%nat)) as [Hs|Hs].
        - by destruct (recv_async_disconnected _ _ Hq Hs) as [-> Hv].
        - by destruct (recv_async_empty _ _ Hq Hs) as [-> Hv]. }
      destruct Hv as [Hv Hno]. destruct (recv_async _) as [r c]. simpl in Hv, Hno.
      pose proof (mv_quiet s _ hs os qs true (same_streams_frames c s)
        (same_frames_quiet s c Hv)) as Hm.
      simpl fst. destruct r as [[f|u|]|].
      * by destruct (Hno f).
      * refine (moves_all_trans _ [] _ [] _ (moves_one _ _ _ Hm) _). apply send_exit_moves.
      * refine (moves_all_trans _ [] _ [] _ (moves_one _ _ _ Hm) _).
        apply moves_one, drop_frame_rx_moves.
      * destruct (is_notified _ _); [|by apply moves_one].
        refine (moves_all_trans _ [] _ [] _ (moves_one _ _ _ Hm) _). apply send_exit_moves.
    + destruct (recv_async_ok _ f q _ Hq) as [Hr Hv].
      destruct (recv_async _) as [r c]. simpl in Hr, Hv. subst r. simpl fst.
      refine (moves_all_trans _ [Taken f] _ [] _ (moves_one _ _ _ _) _).
      * apply (mv_take s (set_shared (set_frames c (s_shared s)) s) hs os qs f q);
          try done.
      * apply send_poll_moves.
  - unfold send_takes. rewrite Hl. destruct task; simpl in Hl; try done;
      cbn [send_step]; [apply send_poll_moves|apply moves_none|apply moves_none].
Qed.

(** A ping that waits holds the NOP of the session. *)
Definition ping_ok (task : KeepAliveTask) s : Prop :=
  forall p t f, task = KeepAlivePing p t f -> f = new_nop (version (s_config s)).

Lemma keep_alive_ping_moves p t s b :
  buffered (sh_frames (s_shared s)) ->
  let q := keep_alive_ping p t (new_nop (version (s_config s))) s in
  moves (vw s b) (new_frames s q.2) (vw q.2 b) /\ ping_ok q.1 q.2.
Proof.
  intros Hb. unfold keep_alive_ping.
  destruct (send_async_grows (new_nop (version (s_config s))) _ Hb)
    as [[Hr Hg]|[[Hr Hg]|(Hr & Hg & _)]];
    destruct (send_async _ _) as [r c]; simpl in Hr, Hg; subst r; cbn [fst snd].
  - rewrite (new_frames_grows _ s (set_shared (set_frames c (s_shared s)) s) Hg).
    split; [|done].
    by apply (mv_nop s (set_shared (set_frames c (s_shared s)) s) hs os qs b).
  - pose proof (same_frames_quiet s c Hg) as Hq.
    rewrite (new_frames_grows [] s _ (quiet_frames _ _ Hq)). split; [by apply mv_quiet|].
    by intros p' t' f' [= _ _ <-].
  - pose proof (same_frames_quiet s c Hg) as Hq.
    rewrite (new_frames_grows [] s _ (quiet_frames _ _ Hq)). split; [by apply mv_quiet|done].
Qed.

Lemma new_frames_quiet s s' : quiet s s' -> new_frames s s' = [].
Proof. intros [Hf _ _]. by apply (new_frames_grows []). Qed.

Lemma keep_alive_step_moves start now task s b :
  buffered (sh_frames (s_shared s)) -> ping_ok task s ->
  let q := keep_alive_step start now task s in
  moves (vw s b) (new_frames s q.2) (vw q.2 b) /\ ping_ok q.1 q.2.
Proof.
  intros Hb Hp.
  assert (Hidle : forall task, ping_ok task s ->
    moves (vw s b) (new_frames s s) (vw s b) /\ ping_ok task s).
  { intros task' Ht. rewrite new_frames_quiet by apply quiet_refl. split; [|done].
    apply mv_quiet; [done|apply quiet_refl]. }
  assert (Hsel : forall order p t close,
    let q := keep_alive_select order now p t close s in
    moves (vw s b) (new_frames s q.2) (vw q.2 b) /\ ping_ok q.1 q.2).
  { intros order. induction order as [|[] order IH]; intros p t close;
      cbn [keep_alive_select].
    - by apply Hidle.
    - destruct (tick now p) as [[] p']; [by apply keep_alive_ping_moves|apply IH].
    - destruct (tick now t) as [[] t']; [|apply IH]. rewrite keep_alive_timeout_tick_eq.
      cbv zeta. destruct (_ && _); cbn [fst snd].
      + set (s1 := update_state _ s). assert (Hq : quiet s (update_state state_close s1)).
        { apply (quiet_trans _ s1); apply quiet_state. }
        rewrite new_frames_quiet by done. split; [by apply mv_quiet|done].
      + rewrite new_frames_quiet by apply quiet_state.
        split; [apply mv_quiet; [done|apply quiet_state]|done].
    - destruct (is_notified _ _); [by apply Hidle|apply IH]. }
  destruct task; cbn [keep_alive_step]; try (apply Hsel); try (by apply Hidle).
  - apply Hidle. unfold keep_alive_start. destruct (negb _); [done|].
    destruct (interval _ _); [|done]. by destruct (interval _ _).
  - rewrite (Hp _ _ _ eq_refl). by apply keep_alive_ping_moves.
Qed.
End views.

(** Neither touches the accept queue. *)
Lemma send_step_incoming cf task s k :
  s_incoming (send_step cf task s k).1.2 = s_incoming s.
Proof.
  assert (Hpoll : forall s k, s_incoming (send_poll s k).1.2 = s_incoming s).
  { intros s' k'. unfold send_poll. by destruct (poll_send k') as [[[]|] ?]. }
  assert (Hsel : forall close, s_incoming (send_select cf close s k).1.2 = s_incoming s).
  { intros close. unfold send_select. destruct (_ && _); [done|].
    destruct (recv_async _) as [[[]|] c]; try done; [by rewrite Hpoll|].
    by destruct (is_notified _ _). }
  destruct task; cbn [send_step]; apply Hsel || apply Hpoll || done.
Qed.

Lemma keep_alive_step_incoming start now task s :
  s_incoming (keep_alive_step start now task s).2 = s_incoming s.
Proof.
  assert (Hping : forall p t f, s_incoming (keep_alive_ping p t f s).2 = s_incoming s).
  { intros p t f. unfold keep_alive_ping. by destruct (send_async _ _) as [[[]|] c]. }
  assert (Hsel : forall order p t close,
    s_incoming (keep_alive_select order now p t close s).2 = s_incoming s).
  { intros order. induction order as [|[] order IH]; intros p t close;
      cbn [keep_alive_select].
    - done.
    - destruct (tick now p) as [[] p']; [apply Hping|apply IH].
    - destruct (tick now t) as [[] t']; [|apply IH]. rewrite keep_alive_timeout_tick_eq.
      cbv zeta. by destruct (_ && _).
    - destruct (is_notified _ _); [done|apply IH]. }
  destruct task; cbn [keep_alive_step]; apply Hsel || apply Hping || done.
Qed.
End tasks.

(** ** All operations *)
Section operations.
Context {B : BytesCrate} {BL : BytesLaws B}.
Context {F : FlumeCrate} {FL : FlumeLaws F} {N : NotifyCrate} {NL : NotifyLaws N}.
Context {R : ReadBufCrate} {RL : ReadBufLaws R}.
Context {D : FramedCrate} {DL : FramedLaws D} {T : IntervalCrate}.
Context {M : Type -> Type} `{FinMap Z M}.
Implicit Types (s : Session M) (e : Endpoint M).

Lemma accept_stream_pieces cf fut s :
  let '(r, _, s') := accept_stream cf fut s in
  same_streams s s' /\ quiet s s' /\
  match r with
  | Ready (Ok st) =>
      queue (view (s_incoming s)) = st :: queue (view (s_incoming s'))
  | _ => queue (view (s_incoming s')) = queue (view (s_incoming s))
  end.
Proof.
  assert (Hsel : forall close, let '(r, _, s') := accept_select cf close s in
    same_streams s s' /\ quiet s s' /\
    match r with
    | Ready (Ok st) => queue (view (s_incoming s)) = st :: queue (view (s_incoming s'))
    | _ => queue (view (s_incoming s')) = queue (view (s_incoming s))
    end).
  { intros close. unfold accept_select.
    destruct (_ && _); [split; [done|split; [apply quiet_refl|done]]|].
    destruct (queue (view (s_incoming s))) as [|st q] eqn:Hq.
    - assert (Hv : (view (recv_async (s_incoming s)).2 = view (s_incoming s)) /\
              forall st, (recv_async (s_incoming s)).1 <> Ready (Ok st)).
      { destruct (decide (senders (view (s_incoming s)) = 0%nat)) as [Hs|Hs].
        - by destruct (recv_async_disconnected _ _ Hq Hs) as [-> Hv].
        - by destruct (recv_async_empty _ _ Hq Hs) as [-> Hv]. }
      destruct Hv as [Hv Hno]. destruct (recv_async _) as [r c]. simpl in Hv, Hno.
      assert (Hgo : same_streams s (set_incoming c s) /\ quiet s (set_incoming c s))
        by (split; [done|by split; [apply grows_refl|..]]).
      destruct Hgo as [Hs1 Hs2].
      destruct r as [[st|u|]|]; try (by destruct (Hno st));
        try (by split; [done|split; [done|]]; simpl; rewrite Hv).
      destruct (is_notified _ _); (split; [done|split; [done|]]); simpl; by rewrite Hv.
    - destruct (recv_async_ok _ st q _ Hq) as [Hr Hv].
      destruct (recv_async _) as [r c]. simpl in Hr, Hv. subst r.
      split; [done|]. split; [by split; [apply grows_refl|..]|]. simpl. by rewrite Hv. }
  destruct fut; simpl; [|apply Hsel|split; [done|split; [apply quiet_refl|done]]].
  destruct (is_closed _); [split; [done|split; [apply quiet_refl|done]]|apply Hsel].
Qed.

(** Handling and registering look at the streams only. *)
Lemma handles_pre f s0 s s' : same_streams s0 s -> handles f s s' -> handles f s0 s'.
Proof.
  intros Hs Hh. pose proof Hs as [Ht Hc Hn].
  destruct Hh as [e Hcmd Hd He Hr Ht' Hn' Hch Ho|e Hcmd He Hr Hrem|e Hcmd He Hrem|Hp Hf Hs'].
  - eapply (handles_data _ _ _ e); rewrite <- ?Ht, <- ?Hc; try done; try congruence.
    intros k Hk. rewrite <- Hc. by apply Ho.
  - eapply (handles_refused _ _ _ e); rewrite <- ?Ht, <- ?Hc; try done.
    by eapply entry_removed_pre.
  - eapply (handles_end _ _ _ e); rewrite <- ?Ht; try done. by eapply entry_removed_pre.
  - eapply handles_ignored; rewrite <- ?Ht; try done. by apply (same_streams_trans _ s).
Qed.

Lemma register_same id s s1 :
  s_streams s1 = s_streams s -> sh_data (s_shared s1) = sh_data (s_shared s) ->
  sh_next (s_shared s1) = sh_next (s_shared s) ->
  same_streams (register_stream id s).2 (register_stream id s1).2.
Proof.
  intros Ht Hd Hn.
  assert (Hc : forall k, chan s1 k = chan s k)
    by (intros k; unfold chan, data_channel; by rewrite Hd).
  rewrite !register_stream_eq. unfold insert_stream. cbn [snd]. simpl s_streams.
  rewrite Ht, Hn.
  assert (Hw : forall k (m : M StreamState), chan (set_streams m (with_channel s1)) k
                 = chan (set_streams m (with_channel s)) k)
    by (intros k m; change (chan (with_channel s1) k = chan (with_channel s) k); by rewrite !with_channel_chan, Hn, Hc).
  split.
  - by rewrite !drop_entry_streams.
  - intros k. rewrite !drop_entry_chan.
    by rewrite !Hw.
  - rewrite !drop_entry_next. simpl. by rewrite Hn.
Qed.

Lemma recv_step_pieces cf task s src :
  session_wf s -> 0 < tokens (session_state s) -> recv_waits_for_accept task ->
  let '(task', s', _) := recv_step cf task s src in
  quiet s s' /\
  match recv_takes cf task s src with
  | [] => same_streams s s' /\ arriving task' s' = arriving task s
  | f :: fs => fs = [] /\
      ((handles f s s' /\ arriving task' s' = arriving task s) \/
       (cmd f = Syn /\ peer_id (s_is_client s) (stream_id f) = true /\
        s_streams s !! stream_id f = None /\
        same_streams (register_stream (stream_id f) s).2 s' /\
        arriving task' s' = arriving task s ++ [fresh_stream (stream_id f) s]))
  end.
Proof.
  intros Hwf Ht Hw.
  assert (Hidle : forall task', recv_stream task' = recv_stream task ->
            quiet s s /\ same_streams s s /\ arriving task' s = arriving task s).
  { intros task' Ht'. split; [apply quiet_refl|]. split; [done|]. unfold arriving.
    by rewrite Ht'. }
  destruct (recv_listens task s) as [close|] eqn:Hl.
  - rewrite (recv_step_select _ _ _ _ _ Hl). unfold recv_takes. rewrite Hl.
    assert (Har : forall s1, arriving task s1 = arriving RecvLoop s1) by (by destruct task).
    assert (Hexit : quiet s (update_state state_close s) /\
      same_streams s (update_state state_close s) /\
      arriving RecvDone (update_state state_close s) = arriving task s).
    { split; [apply quiet_state|]. split; [done|]. by rewrite Har. }
    unfold recv_select. destruct (_ && _); [exact Hexit|].
    destruct (poll_next src) as [[[[f|er|]|]|] src']; simpl fst; try exact Hexit.
    + set (s1 := update_state mark_data_received s).
      pose proof (handle_frame_pieces f s1 (update_state_wf _ s Hwf) Ht) as Hp.
      destruct (handle_frame f s1) as [h s']. destruct Hp as [Hq Hcase].
      split; [apply (quiet_trans _ s1); [apply quiet_state|done]|]. split; [done|].
      destruct Hcase as [[Hh Ha]|(Hc & Hp & He & Hss & Ha)].
      * left. split; [by apply (handles_pre f s s1)|]. by rewrite Ha, Har.
      * right. split; [done|]. split; [done|]. split; [done|].
        split; [|by rewrite Ha, Har].
        eapply same_streams_trans; [|exact Hss]. by apply register_same.
    + apply Hidle. by destruct task.
    + destruct (is_notified _ _); [exact Hexit|]. apply Hidle. by destruct task.
  - unfold recv_takes. rewrite Hl. destruct task as [|close|fut| |]; try done; cbn [recv_step];
      try (by apply Hidle).
    destruct (Hw fut eq_refl) as [st ->]. cbn [resume_frame].
    pose proof (syn_send_pieces st s Hwf) as Hp. destruct (syn_send st s) as [h s'].
    destruct Hp as (Hss & Hq & Ha). split; [done|]. split; [done|]. by rewrite Ha.
Qed.

Definition view_of e : View M :=
  mkView (ep_session e) (ep_held e) (ep_opening e) (ep_queued e)
    (sending (sys_send (ep_system e))).

(** A pending [close] of a held stream waits to send its FIN. *)
Definition held_ok (hd : Held) : Prop :=
  match h_close hd with
  | None => True
  | Some (CloseSending f) =>
      f = new_fin 1 (st_stream_id (h_stream hd)) /\ st_is_write_closed (h_stream hd) = true
  | Some _ => False
  end.

(** What the operations rely on. *)
Record ep_fit e : Prop := {
  fit_wf : session_wf (ep_session e);
  fit_tokens : 0 < tokens (session_state (ep_session e));
  fit_waits : recv_waits_for_accept (sys_recv (ep_system e));
  fit_buffered : buffered (sh_frames (s_shared (ep_session e)));
  fit_held : Forall held_ok (ep_held e);
  fit_ping : ping_ok (sys_keep_alive (ep_system e)) (ep_session e);
}.

(** The counter of stream identifiers has not run out. *)
Definition ids_left (op : Op) e : Prop :=
  match op with
  | OpOpen => 0 <= s_next_stream_id (ep_session e) <= u32_MAX - 2
  | _ => True
  end.

Lemma held_ok_close hd sh : held_ok hd -> close_ok (held_life hd sh).
Proof. done. Qed.

Lemma buffered_same s s' : quiet s s' -> buffered (sh_frames (s_shared s)) ->
  buffered (sh_frames (s_shared s')).
Proof. intros [Hf _ _]. by apply (buffered_grows []). Qed.

(** *** Opening *)
Lemma open_send_moves st syn s hs os qs b i :
  buffered (sh_frames (s_shared s)) -> os !! i = Some (st, syn) ->
  let '(r, fut, s') := open_send st syn s in
  let v' := match r with
            | Ready (Ok st) => mkView s' (hs ++ [mkHeld st None]) (delete i os) qs b
            | Pending => mkView s' hs (delete i os ++ [(st, syn)]) qs b
            | _ => mkView s' hs (delete i os) qs b
            end in
  moves (mkView s hs os qs b) (new_frames s s') v' /\
  (r = Ready (Ok st) \/ r = Pending /\ fut = OpenSending st syn \/
   r = Ready (Err SessionClosed)).
Proof.
  intros Hb Hi. pose proof (open_send_pieces st syn s Hb) as Hp.
  destruct (open_send st syn s) as [[r fut] s'].
  destruct Hp as (Hx & Hid & [(-> & Hs & Hg)|[(-> & -> & Hs & Hg)|(-> & Hd & Hg)]]);
    cbv zeta; rewrite (new_frames_grows _ _ _ Hg); (split; [|by auto]).
  - by eapply mv_syn.
  - apply mv_idle; try done. etransitivity; [by apply delete_Permutation|].
    apply Permutation_cons_append.
  - apply (mv_open_dropped s s' hs os qs b i st syn []); try done. by left.
Qed.

Lemma view_settle_open r fut st syn s' e :
  r = Ready (Ok st) \/ r = Pending /\ fut = OpenSending st syn \/
    r = Ready (Err SessionClosed) ->
  view_of (settle_open r fut (set_session s' e)) =
  match r with
  | Ready (Ok st) => mkView s' (ep_held e ++ [mkHeld st None]) (ep_opening e)
      (arriving (sys_recv (ep_system e)) s') (sending (sys_send (ep_system e)))
  | Pending => mkView s' (ep_held e) (ep_opening e ++ [(st, syn)])
      (arriving (sys_recv (ep_system e)) s') (sending (sys_send (ep_system e)))
  | _ => mkView s' (ep_held e) (ep_opening e)
      (arriving (sys_recv (ep_system e)) s') (sending (sys_send (ep_system e)))
  end.
Proof. by intros [->|[[-> ->]| ->]]. Qed.

Lemma open_send_incoming st syn s :
  s_incoming (open_send st syn s).2 = s_incoming s.
Proof. unfold open_send. by destruct (send_async _ _) as [[[]|] c]. Qed.

Lemma next_id_ok s :
  0 <= s_next_stream_id s <= u32_MAX - 2 ->
  (next_stream_id s).1 = Ok (s_next_stream_id s) /\
  s_next_stream_id (next_stream_id s).2 = s_next_stream_id s + 2.
Proof.
  intros Hid. rewrite next_stream_id_state. unfold next_stream_id.
  rewrite Z.gtb_ltb, (proj2 (Z.ltb_ge _ _)) by lia. split; [done|]. simpl.
  apply wrap_u32_small. unfold is_u32. unfold u32_MAX in Hid. lia.
Qed.

Lemma open_moves e :
  ep_fit e -> ids_left OpOpen e ->
  moves_all (view_of e) (ep_run OpOpen e).2 (view_of (ep_run OpOpen e).1).
Proof.
  intros Hfit Hids. cbn [ep_run ids_left] in *. set (s := ep_session e) in *.
  destruct (closed (session_state s)) eqn:Hc.
  { unfold open_stream, is_closed. rewrite Hc. cbn [fst snd settle_open].
    rewrite new_channel_none, new_frames_quiet by (done || apply quiet_refl).
    apply moves_none. }
  destruct (next_id_ok s Hids) as [Hid Hnext].
  rewrite (open_start_eq s _ Hc Hid). set (id := s_next_stream_id s) in *.
  set (st := stream_new id _ _). set (syn := new_syn _ id). set (s1 := opened id s).
  assert (Hs1 : s1 = (register_stream id (next_stream_id s).2).2) by done.
  assert (Hn1 : sh_next (s_shared s1) = S (sh_next (s_shared s)) /\
                s_incoming s1 = s_incoming s).
  { destruct (register_shared id (next_stream_id s).2) as (Hn1 & Hin1 & _).
    rewrite Hs1, Hn1, Hin1. by rewrite next_stream_id_state. }
  destruct Hn1 as [Hn1 Hin1].
  assert (Hq1 : grows [] (frames_view s) (frames_view s1)).
  { rewrite Hs1, next_stream_id_state. apply (register_grows id (set_next_stream_id _ s)). }
  assert (Hx1 : same_fixed s s1).
  { rewrite Hs1. destruct (register_fixed id (next_stream_id s).2) as [Hx1 Hx2].
    by split; [rewrite Hx1|rewrite Hx2]; rewrite next_stream_id_state. }
  assert (Hr : moves (mkView s (ep_held e) (ep_opening e) (ep_queued e)
                        (sending (sys_send (ep_system e))))
            [Registered id (sh_next (s_shared s))]
            (mkView s1 (ep_held e) (ep_opening e ++ [(st, syn)]) (ep_queued e)
               (sending (sys_send (ep_system e))))).
  { apply (mv_open s s1); try done; [apply Hids| |].
    - rewrite Hs1. etransitivity; [apply (register_ids id)|exact Hnext].
    - rewrite Hs1, next_stream_id_state. by apply register_same. }
  assert (Hb1 : buffered (sh_frames (s_shared s1))).
  { by apply (buffered_grows [] _ _ Hq1), fit_buffered. }
  pose proof (open_send_moves st syn s1 (ep_held e) (ep_opening e ++ [(st, syn)])
    (ep_queued e) (sending (sys_send (ep_system e))) (length (ep_opening e)) Hb1) as Hm.
  pose proof (open_send_incoming st syn s1) as Hin.
  pose proof (open_send_pieces st syn s1 Hb1) as Hp.
  destruct (open_send st syn s1) as [[r fut] s'].
  destruct Hm as [Hm Hcase]; [by rewrite list_lookup_middle|].
  rewrite delete_middle, app_nil_r in Hm. cbn [fst snd].
  assert (Hn' : sh_next (s_shared s') = S (sh_next (s_shared s))).
  { rewrite <- Hn1.
    destruct Hp as (_ & _ & [(_ & Hs & _)|[(_ & _ & Hs & _)|(_ & Hs & _)]]);
      [apply Hs|apply Hs|apply (rdrop_next _ _ _ Hs)]. }
  assert (Hf : new_frames s s' = new_frames s1 s').
  { unfold new_frames. destruct Hq1 as [Hq1 _ _ _]. unfold frames_view in Hq1.
    unfold frame_queue. by rewrite Hq1, app_nil_r. }
  rewrite (new_channel_one _ s s' Hn'), Hf.
  eapply moves_two; [exact Hr|].
  rewrite (view_settle_open r fut st syn s' e Hcase).
  assert (Har : arriving (sys_recv (ep_system e)) s' = ep_queued e).
  { unfold arriving, ep_queued. cbn [snd] in Hin. rewrite Hin.
    by rewrite Hin1. }
  rewrite Har. by destruct Hcase as [->|[[-> ->]| ->]].
Qed.

Lemma open_poll_moves i e :
  ep_fit e ->
  moves_all (view_of e) (ep_run (OpOpenPoll i) e).2 (view_of (ep_run (OpOpenPoll i) e).1).
Proof.
  intros Hfit. cbn [ep_run]. destruct (ep_opening e !! i) as [[st syn]|] eqn:Hi;
    [|apply moves_none].
  cbn [open_stream]. set (s := ep_session e).
  pose proof (open_send_moves st syn s (ep_held e) (ep_opening e) (ep_queued e)
    (sending (sys_send (ep_system e))) i (fit_buffered _ Hfit) Hi) as Hm.
  pose proof (open_send_incoming st syn s) as Hin.
  destruct (open_send st syn s) as [[r fut] s']. destruct Hm as [Hm Hcase].
  cbn [fst snd] in *. apply moves_one.
  rewrite (view_settle_open r fut st syn s' _ Hcase). cbn [ep_held set_opening ep_opening].
  assert (Har : arriving (sys_recv (ep_system e)) s' = ep_queued e)
    by (unfold arriving, ep_queued; by rewrite Hin).
  cbn [ep_system set_opening]. rewrite Har. by destruct Hcase as [->|[[-> ->]| ->]].
Qed.

(** *** Streams in the hands of users *)
Lemma free_stream_held i e st :
  free_stream i e = Some st -> ep_held e !! i = Some (mkHeld st None).
Proof.
  unfold free_stream. destruct (ep_held e !! i) as [[st' [fut|]]|]; congruence.
Qed.

Lemma close_held_moves i fut st c e :
  ep_fit e -> ep_held e !! i = Some (mkHeld st c) ->
  (c = None /\ fut = CloseStart \/ c = Some fut) ->
  moves_all (view_of e) (close_held i fut st e).2 (view_of (close_held i fut st e).1).
Proof.
  intros Hfit Hi Hc. unfold close_held. set (s := ep_session e).
  pose proof (fit_buffered _ Hfit) as Hb. fold s in Hb.
  pose proof (fit_held _ Hfit) as Hh. rewrite Forall_lookup in Hh. specialize (Hh i _ Hi).
  assert (Hf : forall f, fut = CloseSending f -> f = new_fin 1 (st_stream_id st)).
  { intros f ->. destruct Hc as [[_ ?]| ->]; [done|]. by destruct Hh. }
  pose proof (close_poll_pieces fut st (s_shared s) Hb Hf) as Hp.
  pose proof (close_poll_state fut st (s_shared s)) as Hst.
  destruct (close_poll fut st (s_shared s)) as [[[r fut'] st'] sh'] eqn:Hcl.
  destruct Hp as (Hr & Hd & Hn & fs & Hg & Hfs).
  assert (Hew : emits_well (mkLife st c false (s_shared s))
                  (mkLife st' (keep_future r fut') false sh') fs).
  { destruct Hc as [[-> ->]| ->].
    - eapply life_close_start_emits; [exact Hcl|exact Hb|apply Hg].
    - eapply life_close_poll_emits; [exact Hh|exact Hcl|exact Hb|apply Hg]. }
  cbn [fst snd]. rewrite (new_frames_grows fs s); [|exact Hg].
  apply moves_one.
  apply (mv_use s (set_shared sh' s) (ep_held e) (ep_opening e) (ep_queued e)
    (sending (sys_send (ep_system e))) i (mkHeld st c) (mkHeld st' (keep_future r fut'))
    [] fs); try done.
  - by apply same_streams_shared.
  - intros id. rewrite (sf_data _ _ _ Hfs). by case_decide.
  - apply Hfs.
Qed.

Lemma user_stream_moves i e (op : Op) :
  ep_fit e -> roomy op ->
  match op with
  | OpRead j _ | OpWrite j _ | OpShutdown j | OpStreamClose j | OpStreamClosePoll j
  | OpStreamCloseCancel j | OpDrop j => i = j
  | _ => False
  end ->
  moves_all (view_of e) (ep_run op e).2 (view_of (ep_run op e).1).
Proof.
  intros Hfit Hroom Hop. set (s := ep_session e).
  pose proof (fit_buffered _ Hfit) as Hb. fold s in Hb.
  destruct op as [| | | | |j buf|j d|j|j|j|j|j| | |]; try done; subst j;
    cbn [ep_run]; op_enabled; try apply moves_none; fold s; cbn [fst snd];
    try (apply free_stream_held in Hfree).
  - apply moves_one.
    apply (mv_read s (ep_held e) (ep_opening e) (ep_queued e) _ i st buf Hfree Hroom).
  - destruct (poll_write_pieces st (s_shared s) d Hb) as (Hst & Hd & Hn & fs & Hg & Hfs).
    pose proof (life_write_emits st (s_shared s) d fs Hb) as Hew.
    set (p := poll_write st (s_shared s) d) in *.
    rewrite (new_frames_grows fs s); [|exact Hg]. apply moves_one.
    apply (mv_use s (set_shared (wp_shared p) s) (ep_held e) (ep_opening e) (ep_queued e)
      (sending (sys_send (ep_system e))) i (mkHeld st None) (mkHeld (wp_stream p) None));
      try done.
    + by apply same_streams_shared.
    + apply Hew, Hg.
    + by rewrite Hst.
    + by destruct (wp_result p) as [[]|].
    + by destruct (wp_result p) as [[]|].
    + by destruct (wp_result p) as [[]|].
    + by destruct (wp_result p) as [[]|].
    + intros k. by destruct (wp_result p) as [[]|].
    + intros id. rewrite (sf_data _ _ _ Hfs). destruct (wp_result p) as [[n| |]|]; simpl;
        try by case_decide.
      unfold wrote, project, wrote_of. cbn [map concat]. by rewrite app_nil_r.
    + apply Hfs.
  - destruct (poll_shutdown_pieces st (s_shared s) Hb) as (Hst & Hd & Hn & fs & Hg & Hfs).
    pose proof (life_shutdown_emits st (s_shared s) fs Hb) as Hew.
    set (p := poll_shutdown st (s_shared s)) in *.
    rewrite (new_frames_grows fs s); [|exact Hg]. apply moves_one.
    apply (mv_use s (set_shared (wp_shared p) s) (ep_held e) (ep_opening e) (ep_queued e)
      (sending (sys_send (ep_system e))) i (mkHeld st None) (mkHeld (wp_stream p) None)
      [] fs); try done.
    + by apply same_streams_shared.
    + apply Hew, Hg.
    + intros id. rewrite (sf_data _ _ _ Hfs). by case_decide.
    + apply Hfs.
  - eapply close_held_moves; [done|exact Hfree|by left].
  - eapply close_held_moves; [done|exact Hheld|by right].
  - apply moves_one.
    apply (mv_use s s (ep_held e) (ep_opening e) (ep_queued e)
      (sending (sys_send (ep_system e))) i (mkHeld st (Some fut)) (mkHeld st None)
      [] []); try done.
    + split; [by constructor|done].
    + apply grows_refl.
  - destruct (stream_drop_pieces st s Hb) as (fs & Hg & Hrd & Hfs).
    rewrite (new_frames_grows fs s); [|exact Hg]. apply moves_one.
    apply (mv_drop s (set_shared (stream_drop st (s_shared s)) s) (ep_held e) (ep_opening e)
      (ep_queued e) (sending (sys_send (ep_system e))) i st fs); try done.
Qed.

(** Every operation. *)
Lemma ep_run_moves op e :
  ep_fit e -> roomy op -> ids_left op e ->
  moves_all (view_of e) (ep_run op e).2 (view_of (ep_run op e).1).
Proof.
  intros Hfit Hroom Hids. pose proof Hfit as [Hwf Ht Hw Hb Hh Hp].
  destruct op as [|i|i|cf fut| |i buf|i d|i|i|i|i|i|cf|cf|start now];
    try (by apply (user_stream_moves i)).
  - by apply open_moves.
  - by apply open_poll_moves.
  - cbn [ep_run]. op_enabled; [|apply moves_none]. cbn [fst snd].
    destruct (stream_drop_pieces st (ep_session e) Hb) as (fs & Hg & Hrd & Hfs).
    rewrite (new_frames_grows fs (ep_session e)); [|exact Hg]. apply moves_one.
    eapply mv_open_dropped; try done. destruct Hfs as [->|[-> _]]; auto.
  - cbn [ep_run]. pose proof (accept_stream_pieces cf fut (ep_session e)) as Ha.
    destruct (accept_stream cf fut (ep_session e)) as [[r fut'] s'].
    destruct Ha as (Hs & Hq & Hr). cbn [fst snd]. rewrite (new_frames_quiet _ _ Hq).
    apply moves_one. unfold view_of, ep_queued.
    destruct r as [[st| |]|]; cbn [settle_accept]; try rewrite <- Hr;
      try (by apply mv_quiet).
    rewrite Hr. destruct Hq. by apply mv_accept.
  - apply moves_one, close_moves.
  - cbn [ep_run fst snd].
    pose proof (recv_step_pieces cf (sys_recv (ep_system e)) (ep_session e)
      (sys_source (ep_system e)) Hwf Ht Hw) as Hs.
    unfold run_recv. unfold ep_session in *.
    destruct (recv_step _ _ _ _) as [[task' s'] src']. destruct Hs as [Hq Hcase].
    unfold view_of, ep_queued, ep_session. cbn [ep_system set_system sys_session ep_held
      ep_opening sys_send sys_recv]. fold (arriving task' s').
    rewrite (new_frames_quiet _ _ Hq), app_nil_r.
    fold (arriving (sys_recv (ep_system e)) (sys_session (ep_system e))).
    destruct (recv_takes _ _ _ _) as [|f fs].
    + destruct Hcase as [Hs ->]. apply moves_one. by apply mv_quiet.
    + destruct Hcase as [-> [[Hh' ->]|(Hc & Hpi & He & Hs & ->)]]; destruct Hq as [Hf Hx Hi].
      * assert (Hn : sh_next (s_shared s') = sh_next (s_shared (sys_session (ep_system e)))).
        { destruct Hh' as [? ? ? ? ? ? Hn|? ? ? ? Hr|? ? ? Hr|? ? Hs]; try done;
            [apply (erem_next _ _ _ _ Hr)|apply (erem_next _ _ _ _ Hr)|apply Hs]. }
        rewrite new_channel_none by done. simpl. apply moves_one. by apply mv_handle.
      * pose proof (register_shared (stream_id f) (sys_session (ep_system e))) as (Hn & _).
        rewrite new_channel_one by (rewrite (same_next _ _ Hs); exact Hn). simpl.
        apply moves_one. by apply mv_handle_syn.
  - cbn [ep_run fst snd].
    pose proof (send_step_moves (ep_held e) (ep_opening e) (ep_queued e) cf
      (sys_send (ep_system e)) (ep_session e) (sys_sink (ep_system e))) as Hm.
    pose proof (send_step_incoming cf (sys_send (ep_system e)) (ep_session e)
      (sys_sink (ep_system e))) as Hinc.
    unfold view_of, ep_queued, ep_session, run_send in *.
    destruct (send_step _ _ _ _) as [[task' s'] k']. simpl in *. by rewrite Hinc.
  - cbn [ep_run fst snd].
    destruct (keep_alive_step_moves (ep_held e) (ep_opening e) (ep_queued e) start now
      (sys_keep_alive (ep_system e)) (ep_session e) (sending (sys_send (ep_system e))) Hb Hp)
      as [Hm _].
    pose proof (keep_alive_step_incoming start now (sys_keep_alive (ep_system e))
      (ep_session e)) as Hinc.
    unfold view_of, ep_queued, ep_session, run_keep_alive in *. apply moves_one.
    destruct (keep_alive_step _ _ _ _) as [task' s']. simpl in *. by rewrite Hinc.
Qed.
End operations.
