(* ===== verification/Ownership.v ===== *)
(** * Which streams there are, and who owns them

    The moves of an endpoint as seen by its incoming side ([inbound]), and the invariant
    that every stream has been registered, with a data channel of its own, and is in one
    place ([registry]). *)

From stdpp Require Import strings.
From S2P Require Import Prelude Crates Errors Config Command Frame Codec Runtime.
From S2P Require Import SessionState Stream StreamSpec Session SessionSpec SessionProps.
From S2P Require Import Handshake Delivery Loops LoopsSpec Endpoint EndpointSpec.
From S2P Require Import EndpointMoves.

(** ** What events say *)
Lemma registered_emits fs : registered (map Emitted fs) = [].
Proof. by induction fs. Qed.
Lemma handled_emits fs : handled (map Emitted fs) = [].
Proof. by induction fs. Qed.
Lemma taken_emits fs : taken (map Emitted fs) = [].
Proof. by induction fs. Qed.
Lemma delivered_emits k fs : delivered k (map Emitted fs) = [].
Proof. by induction fs. Qed.
Lemma wrote_emits id fs : wrote id (map Emitted fs) = [].
Proof. by induction fs. Qed.
Lemma emitted_emits fs : emitted (map Emitted fs) = fs.
Proof.
  induction fs as [|f fs IH]; [done|]. unfold emitted, project in *. simpl.
  by rewrite IH.
Qed.

Lemma taken_takes fs : taken (map Taken fs) = fs.
Proof.
  induction fs as [|f fs IH]; [done|]. unfold taken, project in *. simpl. by rewrite IH.
Qed.
Lemma handled_handles fs : handled (map Handled fs) = fs.
Proof.
  induction fs as [|f fs IH]; [done|]. unfold handled, project in *. simpl. by rewrite IH.
Qed.
Lemma taken_handles fs : taken (map Handled fs) = [].
Proof. by induction fs. Qed.
Lemma handled_takes fs : handled (map Taken fs) = [].
Proof. by induction fs. Qed.

Lemma registered_app h1 h2 : registered (h1 ++ h2) = registered h1 ++ registered h2.
Proof. apply project_app. Qed.
Lemma emitted_app h1 h2 : emitted (h1 ++ h2) = emitted h1 ++ emitted h2.
Proof. apply project_app. Qed.
Lemma taken_app h1 h2 : taken (h1 ++ h2) = taken h1 ++ taken h2.
Proof. apply project_app. Qed.
Lemma handled_app h1 h2 : handled (h1 ++ h2) = handled h1 ++ handled h2.
Proof. apply project_app. Qed.
Lemma wrote_app id h1 h2 : wrote id (h1 ++ h2) = wrote id h1 ++ wrote id h2.
Proof. apply project_app. Qed.
Lemma delivered_app k h1 h2 : delivered k (h1 ++ h2) = delivered k h1 ++ delivered k h2.
Proof. apply project_app. Qed.

Lemma delivered_one k k' d :
  delivered k [Delivered k' d] = if decide (k' = k) then d else [].
Proof. unfold delivered, project, delivered_of. cbn [map concat]. apply app_nil_r. Qed.

Create Rewrite HintDb history.
#[export] Hint Rewrite registered_emits handled_emits taken_emits delivered_emits wrote_emits
  emitted_emits taken_takes handled_handles taken_handles handled_takes registered_app emitted_app taken_app handled_app wrote_app delivered_app
  app_nil_r : history.

(** An event that the incoming side does not see. *)
Record inert (l : history) : Prop := {
  inert_registered : registered l = [];
  inert_handled : handled l = [];
  inert_delivered k : delivered k l = [];
}.

Lemma inert_nil : inert [].
Proof. done. Qed.

Lemma inert_emits ws fs :
  registered ws = [] -> handled ws = [] -> (forall k, delivered k ws = []) ->
  inert (ws ++ map Emitted fs).
Proof.
  intros Hr Hh Hd. split; [| |intros k]; autorewrite with history; [done|done|apply Hd].
Qed.

(** ** Readers

    What reading depends on in a stream; two streams that differ in their write flag
    only have the same. *)
Definition reader_of (st : Stream) : Stream :=
  mkStream (st_stream_id st) (st_data_rx st) (st_current_chunk st) (st_is_read_closed st)
    false (st_config st).

Lemma same_reader_of st st' : same_reader st st' -> reader_of st' = reader_of st.
Proof. intros (Hi & Hk & Hc & Hg & Hr). unfold reader_of. congruence. Qed.

(** The parity of the identifiers an endpoint gives out. *)
Definition own_id (is_client : bool) (id : Z) : bool := peer_id (negb is_client) id.

Lemma own_not_peer c id : own_id c id = true -> peer_id c id = false.
Proof.
  unfold own_id, peer_id. rewrite andb_true_iff, andb_false_iff, negb_true_iff.
  intros [Hz Hp]. right. apply Z.eqb_eq in Hp. apply Z.eqb_neq. rewrite Hp.
  by destruct c.
Qed.

Lemma own_id_nonzero c id : own_id c id = true -> id <> 0.
Proof.
  unfold own_id, peer_id. rewrite andb_true_iff, negb_true_iff, Z.eqb_neq. tauto.
Qed.

Lemma peer_id_nonzero c id : peer_id c id = true -> id <> 0.
Proof. unfold peer_id. rewrite andb_true_iff, negb_true_iff, Z.eqb_neq. tauto. Qed.

Lemma initial_own c k : own_id c (initial_id c + 2 * Z.of_nat k) = true.
Proof.
  unfold own_id, peer_id, initial_id. apply andb_true_iff. split.
  - apply negb_true_iff, Z.eqb_neq. destruct c; lia.
  - apply Z.eqb_eq. destruct c; simpl negb; cbv iota; rewrite (Z.mul_comm 2), Z.mod_add; done.
Qed.

(** How many streams an endpoint has opened. *)
Definition opens (c : bool) (h : history) : nat :=
  length (filter (fun p => own_id c p.1 = true) (registered h)).

Lemma opens_app c h1 h2 : opens c (h1 ++ h2) = (opens c h1 + opens c h2)%nat.
Proof. unfold opens. by rewrite registered_app, filter_app, length_app. Qed.

Lemma opens_one c l id k :
  registered l = [(id, k)] -> opens c l = if own_id c id then 1%nat else 0%nat.
Proof.
  intros Hl. unfold opens. rewrite Hl, filter_cons, filter_nil. cbn [fst].
  by destruct (own_id c id).
Qed.

(** ** The incoming side *)
Section ownership.
Context {B : BytesCrate} {BL : BytesLaws B}.
Context {F : FlumeCrate} {FL : FlumeLaws F} {N : NotifyCrate} {NL : NotifyLaws N}.
Context {R : ReadBufCrate} {RL : ReadBufLaws R}.
Context {M : Type -> Type} `{FinMap Z M}.
Implicit Types (s : Session M) (v : View M).

Definition readers v : list Stream :=
  map (fun hd => reader_of (h_stream hd)) (vw_held v)
  ++ map (fun o => reader_of o.1) (vw_opening v) ++ map reader_of (vw_queued v).

(** A step of the incoming side: from session [s] and readers [r] to [s'] and [r']. *)
Inductive inbound s (r : list Stream) : history -> Session M -> list Stream -> Prop :=
| in_quiet s' r' l :
    inert l -> same_streams s s' -> same_ids s s' -> Permutation r r' ->
    inbound s r l s' r'
| in_open s' r' :
    let id := s_next_stream_id s in
    s_next_stream_id s' = id + 2 -> same_streams (register_stream id s).2 s' ->
    Permutation r' (reader_of (fresh_stream id s) :: r) ->
    inbound s r [Registered id (sh_next (s_shared s))] s' r'
| in_syn f s' r' :
    let id := stream_id f in
    cmd f = Syn -> peer_id (s_is_client s) id = true -> s_streams s !! id = None ->
    same_ids s s' -> same_streams (register_stream id s).2 s' ->
    Permutation r' (reader_of (fresh_stream id s) :: r) ->
    inbound s r [Handled f; Registered id (sh_next (s_shared s))] s' r'
| in_read st buf r0 r' :
    0 < remaining buf -> Permutation r (reader_of st :: r0) ->
    let p := poll_read st (s_shared s) buf in
    Permutation r' (reader_of (rp_stream p) :: r0) ->
    inbound s r
      [Delivered (st_data_rx st) (drop (length (filled buf)) (filled (rp_buf p)))]
      (set_shared (rp_shared p) s) r'
| in_drop st l s' r' :
    inert l -> reader_dropped (st_data_rx st) s s' -> same_ids s s' ->
    Permutation r (reader_of st :: r') -> inbound s r l s' r'
| in_frame f s' :
    handles f s s' -> same_ids s s' -> inbound s r [Handled f] s' r.

(** *** Moves are steps of the incoming side *)
Lemma held_split {A} (g : A -> Stream) hs i x y :
  hs !! i = Some x ->
  Permutation (map g hs) (g x :: map g (delete i hs)) /\
  Permutation (map g (<[i := y]> hs)) (g y :: map g (delete i hs)).
Proof.
  intros Hi. split.
  - by rewrite (delete_Permutation hs i x Hi) at 1.
  - rewrite insert_take_drop by (by eapply lookup_lt_Some).
    rewrite delete_take_drop, !map_app. simpl. symmetry. apply Permutation_middle.
Qed.

Lemma readers_held hs i hd hd' os qs s s' b :
  hs !! i = Some hd ->
  exists r, Permutation (readers (mkView s hs os qs b)) (reader_of (h_stream hd) :: r) /\
    Permutation (readers (mkView s' (<[i := hd']> hs) os qs b))
      (reader_of (h_stream hd') :: r) /\
    Permutation (readers (mkView s' (delete i hs) os qs b)) r.
Proof.
  intros Hi.
  destruct (held_split (fun hd => reader_of (h_stream hd)) hs i hd hd' Hi) as [Hx Hy].
  exists (readers (mkView s (delete i hs) os qs b)).
  unfold readers. cbn [vw_held vw_opening vw_queued].
  split; [by rewrite Hx|]. split; [by rewrite Hy|]. done.
Qed.

Lemma readers_opening os i o hs qs s s' b :
  os !! i = Some o ->
  Permutation (readers (mkView s hs os qs b))
    (reader_of o.1 :: readers (mkView s' hs (delete i os) qs b)).
Proof.
  intros Hi. destruct (held_split (fun o => reader_of o.1) os i o o Hi) as [Hx _].
  unfold readers. cbn [vw_held vw_opening vw_queued]. rewrite Hx. simpl.
  symmetry. apply Permutation_middle.
Qed.

Lemma readers_hold s s' hs os qs b st :
  Permutation (readers (mkView s (hs ++ [mkHeld st None]) os qs b))
    (reader_of st :: readers (mkView s' hs os qs b)).
Proof.
  unfold readers. cbn [vw_held vw_opening vw_queued]. rewrite map_app, <- app_assoc. simpl.
  symmetry. apply Permutation_middle.
Qed.

Lemma moves_inbound v l v' :
  moves v l v' ->
  inbound (vw_session v) (readers v) l (vw_session v') (readers v').
Proof.
  intros Hm.
  destruct Hm as [s s' hs os os' qs b Hp Hs Hf Hx Hi
    |s s' hs os qs b id Hle Hn Hs Hf Hx
    |s s' hs os qs b i st syn Ho Hs Hf Hx Hi
    |s s' hs os qs b i st syn fs Ho Hrd Hfs Hf Hx Hi
    |s s' hs os st qs b Hs Hf Hx Hi
    |s s' hs os qs b i hd hd' ws fs Hh Hs He Hr Hw1 Hw2 Hw3 Hw4 Hw5 Hw6 Hfit Hf Hx Hi
    |s hs os qs b i st buf Hh Hb p
    |s s' hs os qs b i st fs Hh Hrd Hfs Hf Hx Hi
    |s s' hs os qs b f Hh Hf Hx Hi
    |s s' hs os qs b f id Hc Hp He Hs Hf Hx Hi
    |s s' hs os qs b Hs Hf Hx Hi
    |s s' hs os qs f q Hs Hq Hf Hx Hi
    |s s' hs os qs Hs Hca Hre Hx Hi]; cbn [vw_session].
  - apply in_quiet; try done. unfold readers. cbn [vw_held vw_opening vw_queued].
    by rewrite Hp.
  - apply in_open; try done. unfold readers. cbn [vw_held vw_opening vw_queued].
    rewrite map_app, <- !app_assoc. simpl. rewrite !app_assoc.
    symmetry. apply Permutation_middle.
  - apply in_quiet; try done.
    rewrite (readers_opening os i _ hs qs s s' b Ho). by rewrite readers_hold.
  - eapply in_drop; try done; [by apply (inert_emits [])|].
    apply (readers_opening os i _ hs qs s s' b Ho).
  - apply in_quiet; try done. rewrite (readers_hold s' s').
    unfold readers. cbn [vw_held vw_opening vw_queued]. simpl. rewrite !app_assoc.
    symmetry. apply Permutation_middle.
  - destruct (readers_held hs i hd hd' os qs s s' b Hh) as (r & Hr1 & Hr2 & _).
    apply in_quiet; try done; [by apply inert_emits|].
    by rewrite Hr1, Hr2, (same_reader_of _ _ Hr).
  - destruct (readers_held hs i _ (mkHeld (rp_stream p) None) os qs s
      (set_shared (rp_shared p) s) b Hh) as (r & Hr1 & Hr2 & _).
    by eapply in_read.
  - destruct (readers_held hs i _ (mkHeld st None) os qs s s' b Hh) as (r & Hr1 & _ & Hr2).
    eapply in_drop; try done; [by apply (inert_emits [])|]. by rewrite Hr1, Hr2.
  - by apply in_frame.
  - apply in_syn; try done. unfold readers. cbn [vw_held vw_opening vw_queued].
    rewrite map_app. simpl. rewrite !app_assoc.
    symmetry. apply Permutation_cons_append.
  - by apply in_quiet.
  - by apply in_quiet.
  - by apply in_quiet.
Qed.

(** *** A new stream in the table *)
Lemma register_new id s :
  s_streams s !! id = None ->
  s_streams (register_stream id s).2
    = <[id := mkStreamState (sh_next (s_shared s)) false]> (s_streams s) /\
  sh_next (s_shared (register_stream id s).2) = S (sh_next (s_shared s)) /\
  (forall k, chan (register_stream id s).2 k
     = if decide (k = sh_next (s_shared s)) then mkChanView [] None 1 1 else chan s k).
Proof.
  intros He. pose proof (register_shared id s) as (Hn & _).
  rewrite register_stream_eq in *. unfold insert_stream in *. cbn [snd] in *.
  simpl s_streams in *. rewrite He in *. split; [done|]. split; [exact Hn|].
  intros k. apply (with_channel_chan s k).
Qed.

Lemma poll_read_parts st sh buf :
  let p := poll_read st sh buf in
  st_stream_id (rp_stream p) = st_stream_id st /\
  st_data_rx (rp_stream p) = st_data_rx st /\
  st_config (rp_stream p) = st_config st /\
  st_is_read_closed (rp_stream p) = st_is_read_closed st /\
  sh_next (rp_shared p) = sh_next sh /\
  (forall k, k <> st_data_rx st -> data_channel k (rp_shared p) = data_channel k sh).
Proof.
  cbv zeta. unfold poll_read, poll_read_channel, copy_out.
  repeat (split_goal_match; simplify_eq; simpl; try done);
    repeat (split; [done|]); intros k Hk; unfold data_channel; simpl;
    by rewrite ?lookup_insert_ne.
Qed.

(** A read keeps the ends of every channel. *)
Lemma poll_read_ends st s buf k :
  let s' := set_shared (rp_shared (poll_read st (s_shared s) buf)) s in
  senders (chan s' k) = senders (chan s k) /\ receivers (chan s' k) = receivers (chan s k).
Proof.
  cbv zeta. destruct (decide (k = st_data_rx st)) as [->|Hne].
  - unfold chan. simpl. set (k := st_data_rx st).
    destruct (try_recv_keeps (data_channel k (s_shared s))) as (Hs & _ & Hr).
    unfold poll_read, poll_read_channel, copy_out. fold k.
    destruct (try_recv (data_channel k (s_shared s))) as [rr c]. simpl in Hs, Hr.
    repeat (split_goal_match; simplify_eq; simpl; rewrite ?data_channel_set;
            rewrite ?data_channel_set_state, ?data_channel_set; try done).
  - destruct (poll_read_parts st (s_shared s) buf) as (_ & _ & _ & _ & _ & Hch).
    unfold chan. simpl. by rewrite Hch.
Qed.

(** ** The invariant *)
Section registry.
Variables (cfg : Config) (role : bool).

Record registry (h : history) s (r : list Stream) : Prop := {
  (* channels are registered once, and exist *)
  rg_chan id k : (id, k) ∈ registered h -> (k < sh_next (s_shared s))%nat;
  rg_inj : NoDup (map snd (registered h));
  rg_entry id e : s_streams s !! id = Some e -> (id, ss_data_tx e) ∈ registered h;
  (* own identifiers come from the counter, the others from SYN frames *)
  rg_kind id k : (id, k) ∈ registered h ->
    (own_id role id = true /\ 0 < id < s_next_stream_id s) \/
    (peer_id role id = true /\
     exists f, f ∈ handled h /\ cmd f = Syn /\ stream_id f = id);
  rg_next : s_next_stream_id s = initial_id role + 2 * Z.of_nat (opens role h);
  (* an entry has the only sender of its channel *)
  rg_sender id e : s_streams s !! id = Some e -> senders (chan s (ss_data_tx e)) = 1%nat;
  rg_reads k : (sh_next (s_shared s) <= k)%nat -> delivered k h = [];
  (* every stream has been registered, and no two have the same channel *)
  rg_streams st : st ∈ r ->
    (st_stream_id st, st_data_rx st) ∈ registered h /\ st_config st = cfg /\
    st_is_read_closed st = false;
  rg_nodup : NoDup (map st_data_rx r);
}.

Lemma registry_new : registry [] (session_new cfg role) [].
Proof.
  split; try (by intros ? ? ?%elem_of_nil); try (by intros ? ?%elem_of_nil);
    try (by apply NoDup_nil_2); try done.
  - intros id e He. simpl in He. by rewrite lookup_empty in He.
  - by destruct role.
  - intros id e He. simpl in He. by rewrite lookup_empty in He.
Qed.

(** An entry is told by its channel. *)
Lemma entry_channel h s r id e :
  registry h s r -> s_streams s !! id = Some e ->
  forall id' k, (id', k) ∈ registered h -> k = ss_data_tx e -> id' = id.
Proof.
  intros Hreg He id' k Hin ->. apply (rg_entry _ _ _ Hreg) in He.
  pose proof (rg_inj _ _ _ Hreg) as Hnd.
  apply list_elem_of_lookup in Hin as [i Hi]. apply list_elem_of_lookup in He as [j Hj].
  assert (i = j) as ->.
  { eapply NoDup_lookup; [exact Hnd| |];
      change (map snd (registered h)) with (snd <$> registered h);
      by rewrite list_lookup_fmap, ?Hi, ?Hj. }
  congruence.
Qed.

(** When nothing is registered. *)
Lemma registry_step h l s s' r r' :
  registry h s r -> registered l = [] ->
  (forall id e, s_streams s' !! id = Some e -> s_streams s !! id = Some e) ->
  (forall id e, s_streams s' !! id = Some e ->
     senders (chan s' (ss_data_tx e)) = senders (chan s (ss_data_tx e))) ->
  sh_next (s_shared s') = sh_next (s_shared s) -> same_ids s s' ->
  (forall k, (sh_next (s_shared s) <= k)%nat -> delivered k l = []) ->
  (forall st, st ∈ r' -> exists st0, st0 ∈ r /\ st_stream_id st = st_stream_id st0 /\
     st_data_rx st = st_data_rx st0 /\ st_config st = st_config st0 /\
     st_is_read_closed st = st_is_read_closed st0) ->
  NoDup (map st_data_rx r') ->
  registry (h ++ l) s' r'.
Proof.
  intros [Hc Hi He Hk Hn Hse Hd Hs Hnd] Hl Ht Hsn Hnx Hids Hdl Hst Hnd'. unfold same_ids in Hids.
  split; autorewrite with history; rewrite ?Hl, ?app_nil_r, ?Hnx, ?Hids.
  - exact Hc.
  - exact Hi.
  - intros id e Hid. by apply He, Ht.
  - intros id k Hid. autorewrite with history.
    destruct (Hk id k Hid) as [Hown|(Hp & f & Hf & Hcf)]; [by left|].
    right. split; [done|]. exists f. rewrite elem_of_app. auto.
  - unfold opens in *. autorewrite with history. by rewrite Hl, app_nil_r.
  - intros id e Hid. rewrite (Hsn id) by done. apply (Hse id). by apply Ht.
  - intros k Hlt. autorewrite with history. by rewrite Hd, Hdl by done.
  - intros st Hin. destruct (Hst st Hin) as (st0 & Hin0 & -> & -> & -> & ->). by apply Hs.
  - done.
Qed.

(** A new registration. *)
Lemma registry_register h l id s s' r r' :
  registry h s r -> s_config s = cfg ->
  s_streams s !! id = None -> same_streams (register_stream id s).2 s' ->
  Permutation r' (reader_of (fresh_stream id s) :: r) ->
  (forall k, delivered k l = []) ->
  (own_id role id = true /\ 0 < id < s_next_stream_id s' \/
   peer_id role id = true /\ exists f, f ∈ handled (h ++ l) /\ cmd f = Syn /\ stream_id f = id) ->
  s_next_stream_id s <= s_next_stream_id s' ->
  registered l = [(id, sh_next (s_shared s))] ->
  s_next_stream_id s' = initial_id role + 2 * Z.of_nat (opens role (h ++ l)) ->
  registry (h ++ l) s' r'.
Proof.
  intros [Hc Hi He Hk Hn Hse Hd Hs Hnd] Hcfg Hid [Ht Hch Hnx] Hr Hdl Hkind Hle Hl Hnext.
  destruct (register_new id s Hid) as (Ht0 & Hn0 & Hch0). rewrite Ht0 in Ht.
  rewrite Hn0 in Hnx. set (k0 := sh_next (s_shared s)) in *.
  assert (Hreg : registered (h ++ l) = registered h ++ [(id, k0)])
    by (autorewrite with history; by rewrite Hl).
  assert (Hlt : forall st, st ∈ r -> (st_data_rx st < k0)%nat).
  { intros st Hst. destruct (Hs st Hst) as [Hin _]. by apply Hc in Hin. }
  split; rewrite ?Hreg, ?Hnx.
  - intros id' k [Hin|Hin%list_elem_of_singleton]%elem_of_app; [|by simplify_eq; lia].
    apply Hc in Hin. lia.
  - rewrite map_app. apply NoDup_app. split; [done|]. split; [|apply NoDup_singleton].
    intros k Hin Hk0. simpl in Hk0. apply list_elem_of_singleton in Hk0. subst k.
    apply list_elem_of_fmap in Hin as ([id' k] & Heq & Hin). simpl in Heq. subst k.
    apply Hc in Hin. lia.
  - intros id' e Hid'. rewrite Ht in Hid'. rewrite elem_of_app.
    apply lookup_insert_Some in Hid' as [[<- <-]|[Hne Hid']].
    + right. by apply list_elem_of_singleton.
    + left. by apply He.
  - intros id' k [Hin|Hin%list_elem_of_singleton]%elem_of_app; [|by simplify_eq].
    destruct (Hk id' k Hin) as [[Ho Hlt']|(Hp & f & Hf & Hcf)]; [left; split; [done|lia]|].
    right. split; [done|]. exists f. autorewrite with history. rewrite elem_of_app. auto.
  - done.
  - intros id' e Hid'. rewrite Ht in Hid'. rewrite Hch, Hch0. fold k0.
    apply lookup_insert_Some in Hid' as [[<- <-]|[Hne Hid']]; [by rewrite decide_True|].
    case_decide as Hk0; [|by apply (Hse id')]. apply He, Hc in Hid'. unfold k0 in *. lia.
  - intros k Hle'. autorewrite with history. rewrite Hd, Hdl by lia. done.
  - intros st. rewrite Hr, elem_of_cons, elem_of_app. intros [->|Hin].
    + split; [right; by apply list_elem_of_singleton|done].
    + destruct (Hs st Hin) as (? & ? & ?). auto.
  - rewrite Hr. simpl. constructor; [|done]. intros Hin.
    apply list_elem_of_fmap in Hin as (st & Heq & Hin). apply Hlt in Hin. lia.
Qed.

(** Reading. *)
Lemma registry_read h s st buf r r0 r' :
  registry h s r -> Permutation r (reader_of st :: r0) ->
  let p := poll_read st (s_shared s) buf in
  Permutation r' (reader_of (rp_stream p) :: r0) ->
  registry (h ++ [Delivered (st_data_rx st) (drop (length (filled buf)) (filled (rp_buf p)))])
    (set_shared (rp_shared p) s) r'.
Proof.
  intros Hreg Hr p Hr'. pose proof Hreg as [Hc _ _ _ _ _ _ Hs Hnd].
  destruct (poll_read_parts st (s_shared s) buf) as (Hi1 & Hk1 & Hc1 & Hr1 & Hn1 & _).
  fold p in Hi1, Hk1, Hc1, Hr1, Hn1.
  assert (Hst : reader_of st ∈ r) by (rewrite Hr; by left).
  destruct (Hs _ Hst) as [Hst' _]. simpl in Hst'. apply Hc in Hst'.
  eapply (registry_step h _ s _ r r'); try done.
  - intros id e _. apply (poll_read_ends st s buf).
  - intros k Hle. rewrite delivered_one. rewrite decide_False by lia. done.
  - intros st'. rewrite Hr', elem_of_cons. intros [->|Hin].
    + exists (reader_of st). by split.
    + exists st'. rewrite Hr, elem_of_cons. auto.
  - rewrite Hr in Hnd. rewrite Hr'. simpl in *. by rewrite Hk1.
Qed.

(** Handling a frame for streams that are there. *)
Lemma registry_frame h f s s' r :
  registry h s r -> handles f s s' -> same_ids s s' -> registry (h ++ [Handled f]) s' r.
Proof.
  intros Hreg Hh Hids. pose proof Hreg as [_ _ He _ _ _ _ _ Hnd].
  assert (Hrem : forall id e, s_streams s !! id = Some e ->
            entry_removed id (ss_data_tx e) s s' -> registry (h ++ [Handled f]) s' r).
  { intros id e Hid [Ht Hoth _ Hnx].
    eapply (registry_step h _ s s' r r); try done.
    - rewrite Ht. intros id' e' Hid'. by apply lookup_delete_Some in Hid' as [_ ?].
    - rewrite Ht. intros id' e' Hid'. apply lookup_delete_Some in Hid' as [Hne Hid'].
      rewrite Hoth; [done|]. intros Heq. apply Hne.
      symmetry. eapply (entry_channel h s r id e); [done..|by apply He|done].
    - intros st Hst. by exists st. }
  destruct Hh as [e ? ? Hid ? Ht Hnx Hch Hoth|e ? Hid ? Hr|e ? Hid Hr|? ? [Ht Hch Hnx]];
    try (by eapply Hrem).
  - eapply (registry_step h _ s s' r r); try done.
    + by rewrite Ht.
    + intros id e' _. destruct (decide (ss_data_tx e' = ss_data_tx e)) as [->|Hne];
        [by rewrite Hch|by rewrite Hoth].
    + intros st Hst. by exists st.
  - eapply (registry_step h _ s s' r r); try done.
    + by rewrite Ht.
    + intros id e' _. by rewrite Hch.
    + intros st Hst. by exists st.
Qed.

Lemma registry_inbound h l s s' r r' :
  s_config s = cfg -> s_is_client s = role ->
  inbound s r l s' r' -> registry h s r -> registry (h ++ l) s' r'.
Proof.
  intros Hcfg Hrole Hin Hreg. pose proof Hreg as [Hc Hi He Hk Hn Hse Hd Hs Hnd].
  destruct Hin as [s' r' l Hin Hss Hids Hp
    |s' r' id Hnx Hss Hr
    |f s' r' id Hcmd Hpid Hno Hids Hss Hr
    |st buf r0 r' Hbuf Hr p Hr'
    |st l s' r' Hin Hrd Hids Hr
    |f s' Hh Hids].
  - destruct Hin as [Hl _ Hdl], Hss as [Ht Hch Hnx].
    eapply (registry_step h l s s' r r'); try done.
    + by rewrite Ht.
    + intros id e _. by rewrite Hch.
    + intros st Hst. exists st. by rewrite Hp.
    + by rewrite <- Hp.
  - assert (Hown : own_id role id = true).
    { unfold id. rewrite Hn. apply initial_own. }
    assert (Hno : s_streams s !! id = None).
    { destruct (s_streams s !! id) as [e|] eqn:Hid; [|done]. apply He in Hid.
      destruct (Hk _ _ Hid) as [[_ Hlt]|[Hp _]]; [unfold id in Hlt; lia|].
      apply own_not_peer in Hown. congruence. }
    eapply (registry_register h _ id); try done; try lia.
    + assert (0 < id) by (unfold id; rewrite Hn; unfold initial_id; destruct role; lia).
      left. split; [done|]. lia.
    + rewrite opens_app, Hnx, (opens_one role [Registered id _] id _ eq_refl), Hown.
      unfold id. lia.
  - eapply (registry_register h _ id); try done.
    + right. rewrite Hrole in Hpid. split; [done|]. exists f. autorewrite with history.
      rewrite elem_of_app. split; [right; by apply list_elem_of_singleton|done].
    + unfold same_ids in Hids. lia.
    + rewrite opens_app, (opens_one role [Handled f; Registered id _] id _ eq_refl). unfold same_ids in Hids.
      rewrite Hids, Hn. destruct (own_id role id) eqn:Ho; [|lia].
      apply own_not_peer in Ho. congruence.
  - by apply (registry_read h s st buf r r0 r').
  - destruct Hin as [Hl _ Hdl], Hrd as [Ht Hoth Hsn _ Hnx].
    eapply (registry_step h l s s' r r'); try done.
    + by rewrite Ht.
    + intros id e _. destruct (decide (ss_data_tx e = st_data_rx st)) as [->|Hne]; [done|].
      by rewrite Hoth.
    + intros st' Hst. exists st'. rewrite Hr, elem_of_cons. auto.
    + rewrite Hr in Hnd. simpl in Hnd. by inversion Hnd.
  - by apply (registry_frame h f s s').
Qed.
End registry.
End ownership.
