(* ===== verification/Arrival.v ===== *)
(** * What arrives for a stream

    The invariant of the incoming side of an endpoint: for every data channel, what its
    reader has taken followed by what it can still read is the data of the frames
    handled for its stream, up to its FIN. *)

From stdpp Require Import strings.
From S2P Require Import Prelude Crates Errors Config Command Frame Codec Runtime.
From S2P Require Import SessionState Stream StreamSpec Session SessionSpec SessionProps.
From S2P Require Import Handshake Delivery Loops LoopsSpec Endpoint EndpointSpec.
From S2P Require Import EndpointMoves Ownership.

(** Identifiers are registered once, and no data comes for one before it is: true when
    the other side is an endpoint as well (Duplex.v). *)
Record orderly (h : history) : Prop := {
  orderly_once : NoDup (map fst (registered h));
  orderly_first h1 h2 id k :
    h = h1 ++ Registered id k :: h2 -> psh_data id (handled h1) = [];
}.

Lemma orderly_prefix h l : orderly (h ++ l) -> orderly h.
Proof.
  intros [Ho Hf]. split.
  - rewrite registered_app, map_app in Ho. by apply NoDup_app in Ho as [? _].
  - intros h1 h2 id k ->. apply (Hf h1 (h2 ++ l) id k). by rewrite <- app_assoc.
Qed.

Lemma orderly_new : orderly [].
Proof. split; [constructor|]. by intros [] ?. Qed.

(** One channel for an identifier. *)
Lemma orderly_channel h id k k' :
  orderly h -> (id, k) ∈ registered h -> (id, k') ∈ registered h -> k = k'.
Proof.
  intros [Ho _] Hk Hk'. apply list_elem_of_lookup in Hk as [i Hi].
  apply list_elem_of_lookup in Hk' as [j Hj].
  assert (i = j) as ->.
  { eapply NoDup_lookup; [exact Ho| |]; by rewrite list_lookup_fmap, ?Hi, ?Hj. }
  congruence.
Qed.

Lemma registered_event h id k :
  (id, k) ∈ registered h -> exists h1 h2, h = h1 ++ Registered id k :: h2.
Proof.
  intros Hin. apply elem_of_project in Hin as (e & He & Hx).
  destruct e; simpl in Hx; try by apply elem_of_nil in Hx.
  apply list_elem_of_singleton in Hx. injection Hx as -> ->.
  apply list_elem_of_split in He as (h1 & h2 & ->). eauto.
Qed.

Section arrival.
Context {B : BytesCrate} {BL : BytesLaws B}.
Context {F : FlumeCrate} {FL : FlumeLaws F} {N : NotifyCrate} {NL : NotifyLaws N}.
Context {R : ReadBufCrate} {RL : ReadBufLaws R}.
Context {M : Type -> Type} `{FinMap Z M}.
Implicit Types (s : Session M) (v : View M) (r : list Stream).

(** Reading depends on the stream's channel only. *)
Lemma unread_chan st s s' :
  chan s' (st_data_rx st) = chan s (st_data_rx st) ->
  unread st (s_shared s') = unread st (s_shared s) /\
  (readable st (s_shared s) -> readable st (s_shared s')) /\
  (peer_open st (s_shared s') <-> peer_open st (s_shared s)).
Proof.
  unfold chan. intros Hc. unfold unread, peer_open, pending_chunks. rewrite Hc.
  split; [done|]. split; [|done]. intros [Hrc Hrq]. split; [done|].
  unfold pending_chunks in *. by rewrite Hc.
Qed.

(** The data [a] that has arrived on channel [k] of stream [id]: all of it while the
    stream is open, or all that came before its FIN, or, once the reader is gone,
    whatever came before. *)
Record arrived (h : history) s r (id : Z) (k : nat) (a : bytes) : Prop := {
  ar_read : delivered k h `prefix_of` a;
  ar_sent : a `prefix_of` psh_data id (handled h);
  ar_unread st : st ∈ r -> st_data_rx st = k ->
    readable st (s_shared s) /\ receivers (chan s k) = 1%nat /\
    a = delivered k h ++ unread st (s_shared s);
  ar_end :
    (exists e, s_streams s !! id = Some e /\ ss_data_tx e = k /\
       a = psh_data id (handled h)) \/
    receivers (chan s k) = 0%nat \/
    (senders (chan s k) = 0%nat /\
     exists p f q, handled h = p ++ f :: q /\ cmd f = Fin /\ stream_id f = id /\
       a = psh_data id p);
}.

Definition arrivals (h : history) s r : Prop :=
  forall id k, (id, k) ∈ registered h -> exists a, arrived h s r id k a.

(** A step that does not concern the channel. *)
Lemma arrived_keep h l s s' r r' id k a :
  arrived h s r id k a -> chan s' k = chan s k -> s_streams s' !! id = s_streams s !! id ->
  delivered k l = [] -> psh_data id (handled l) = [] ->
  (forall st, st ∈ r' -> st_data_rx st = k -> st ∈ r) ->
  arrived (h ++ l) s' r' id k a.
Proof.
  intros [Hrd Hsent Hun Hend] Hch Ht Hd Hp Hr.
  assert (Hall : psh_data id (handled (h ++ l)) = psh_data id (handled h))
    by (autorewrite with history; by rewrite psh_data_app, Hp, app_nil_r).
  assert (Hdel : delivered k (h ++ l) = delivered k h)
    by (autorewrite with history; by rewrite Hd, app_nil_r).
  split; rewrite ?Hall, ?Hdel; try done.
  - intros st Hst Hk. destruct (Hun st (Hr st Hst Hk) Hk) as (Hrdb & Hrec & Ha).
    subst k. destruct (unread_chan st s s' Hch) as (-> & Hrdb' & _). rewrite Hch. auto.
  - rewrite Ht, Hch. destruct Hend as [Hend|[Hend|(Hs & p & f & q & Hh & Hf & Hid & Ha)]];
      [by left|right; by left|]. right; right. split; [done|].
    exists p, f, (q ++ handled l). autorewrite with history. rewrite Hh, <- app_assoc. done.
Qed.

(** A read: what it takes is a prefix of what there is. *)
Lemma poll_read_taken st s buf :
  st_is_read_closed st = false -> readable st (s_shared s) -> 0 < remaining buf ->
  let p := poll_read st (s_shared s) buf in
  let s' := set_shared (rp_shared p) s in
  let d := drop (length (filled buf)) (filled (rp_buf p)) in
  unread st (s_shared s) = d ++ unread (rp_stream p) (s_shared s') /\
  readable (rp_stream p) (s_shared s') /\
  senders (chan s' (st_data_rx st)) = senders (chan s (st_data_rx st)) /\
  receivers (chan s' (st_data_rx st)) = receivers (chan s (st_data_rx st)).
Proof.
  intros Hrc Hrd Hbuf p s' d. subst p s' d. set (k := st_data_rx st).
  pose proof (poll_read_ends st s buf k) as Hkeep. cbv zeta in Hkeep.
  rewrite (proj1 Hkeep), (proj2 Hkeep). cbn [s_shared set_shared].
  destruct (closed (sh_state (s_shared s))) eqn:Hc.
  { unfold poll_read, is_closed. rewrite Hrc, Hc. cbn. by rewrite drop_all. }
  assert (Hopen : read_open st (s_shared s)) by done.
  destruct (decide (unread st (s_shared s) = [])) as [Hun|Hun].
  - destruct (unread_nil _ _ Hrd Hun) as [Hch Hq].
    destruct (decide (peer_open st (s_shared s))) as [Hpo|Hpo].
    + destruct (poll_read_empty st _ buf Hopen Hch Hq Hpo) as (_ & _ & -> & -> & _ & Hv).
      rewrite drop_all. simpl.
      destruct (unread_chan st s (set_shared (rp_shared (poll_read st (s_shared s) buf)) s) Hv)
        as (Hu & Hr & _). simpl in Hu, Hr. rewrite Hu. auto.
    + destruct (poll_read_eof st _ buf Hopen Hch Hq Hpo) as (_ & -> & -> & _).
      rewrite drop_all. simpl.
      assert (Hv : chan (set_shared (rp_shared (poll_read st (s_shared s) buf)) s) k = chan s k).
      { unfold chan. simpl. rewrite poll_read_no_chunk by done. unfold poll_read_channel. fold k.
        assert (Hs : senders (view (data_channel k (s_shared s))) = 0%nat)
          by (unfold peer_open in Hpo; fold k in Hpo; lia).
        destruct (try_recv_disconnected _ _ Hq Hs) as [Ht Hv].
        destruct (try_recv _) as [r c]. simpl in Ht, Hv. subst r. simpl.
        by rewrite data_channel_set. }
      destruct (unread_chan st s (set_shared (rp_shared (poll_read st (s_shared s) buf)) s) Hv)
        as (Hu & Hr & _). simpl in Hu, Hr. rewrite Hu. auto.
  - destruct (poll_read_delivers st _ buf Hopen Hrd Hbuf Hun) as (d & _ & _ & Hd).
    destruct Hd. rewrite del_filled, drop_app_length. auto.
Qed.

Lemma psh_data_other id f : stream_id f <> id -> psh_data id [f] = [].
Proof. intros Hne. rewrite psh_data_one, decide_False; [done|]. by intros [_ ?]. Qed.

Lemma psh_data_cmd id f : cmd f <> Psh -> psh_data id [f] = [].
Proof. intros Hne. rewrite psh_data_one, decide_False; [done|]. by intros [? _]. Qed.

Lemma psh_data_psh f : cmd f = Psh -> psh_data (stream_id f) [f] = data f.
Proof. intros Hc. by rewrite psh_data_one, decide_True. Qed.

(** A channel that gets no more data, whatever is handled. *)
Lemma arrived_more h f s s' r id k a :
  arrived h s r id k a ->
  senders (chan s' k) = senders (chan s k) \/ senders (chan s' k) = 0%nat ->
  receivers (chan s' k) = receivers (chan s k) -> queue (chan s' k) = queue (chan s k) ->
  (receivers (chan s k) = 0%nat \/
   (exists e, s_streams s' !! id = Some e /\ ss_data_tx e = k /\
      a = psh_data id (handled h ++ [f])) \/
   (senders (chan s' k) = 0%nat /\
     exists p f' q, handled h ++ [f] = p ++ f' :: q /\ cmd f' = Fin /\ stream_id f' = id /\
       a = psh_data id p)) ->
  arrived (h ++ [Handled f]) s' r id k a.
Proof.
  intros [Hrd Hsent Hun _] Hs Hr Hq Hend.
  assert (Hh : handled (h ++ [Handled f]) = handled h ++ [f]) by (by autorewrite with history).
  assert (Hd : delivered k (h ++ [Handled f]) = delivered k h)
    by (autorewrite with history; by rewrite ?app_nil_r).
  split; rewrite ?Hh, ?Hd, ?Hr; [done| | |].
  - rewrite psh_data_app. by apply prefix_app_r.
  - intros st Hst Hk. destruct (Hun st Hst Hk) as (Hrdb & Hrec & ->).
    unfold unread, pending_chunks in *. subst k. unfold chan in Hq. rewrite Hq.
    split; [|done]. destruct Hrdb as [Hc1 Hc2]. split; [done|].
    unfold pending_chunks in *. by rewrite Hq.
  - destruct Hend as [?|[?|?]]; auto.
Qed.

Section preservation.
Variables (cfg : Config) (role : bool).

(** Data for an entry: the chunk is queued behind the others. *)
Lemma arrived_data h f s s' r k e a :
  registry cfg role h s r -> s_streams s !! stream_id f = Some e -> k = ss_data_tx e ->
  cmd f = Psh -> data f <> [] -> receivers (chan s k) <> 0%nat ->
  s_streams s' = s_streams s -> chan s' k = enqueue (data f) (chan s k) ->
  arrived h s r (stream_id f) k a ->
  arrived (h ++ [Handled f]) s' r (stream_id f) k (a ++ data f).
Proof.
  intros Hreg He -> Hc Hd Hr Ht Hch [Hrd Hsent Hun Hend].
  assert (Ha : a = psh_data (stream_id f) (handled h)).
  { destruct Hend as [(e' & _ & _ & Ha)|[Hz|[Hz _]]]; [done|done|].
    rewrite (rg_sender _ _ _ _ _ Hreg _ _ He) in Hz. done. }
  split; autorewrite with history; rewrite ?psh_data_app, ?psh_data_psh, ?app_nil_r by done.
  - by apply prefix_app_r.
  - by rewrite Ha.
  - intros st Hst Hk. destruct (Hun st Hst Hk) as (Hrdb & Hrec & Hau).
    rewrite Hch. unfold chan in Hch. rewrite <- Hk in Hch.
    assert (Hpend : pending_chunks st (s_shared s') = pending_chunks st (s_shared s) ++ [data f])
      by (unfold pending_chunks; by rewrite Hch).
    split; [|split; [done|]].
    + destruct Hrdb as [Hc1 Hc2]. split; [done|]. rewrite Hpend.
      apply Forall_app. split; [done|]. by constructor.
    + rewrite Hau. unfold unread. rewrite Hpend, concat_app. simpl.
      by rewrite app_nil_r, !app_assoc.
  - left. exists e. rewrite Ht. split; [done|]. split; [done|]. by rewrite Ha.
Qed.

(** A frame that changes nothing for its stream. *)
Lemma arrived_ignored h f s s' r id k a :
  (cmd f = Psh -> data f = [] \/ s_streams s !! stream_id f = None) ->
  same_streams s s' -> arrived h s r id k a -> arrived (h ++ [Handled f]) s' r id k a.
Proof.
  intros Hp [Ht Hch _] Ha. apply (arrived_more h f s); rewrite ?Hch; auto.
  destruct (ar_end _ _ _ _ _ _ Ha)
    as [(e' & He' & Hk' & Hae)|[Hz|(Hz & p & f' & q & Hhd & Hcf & Hid & Hae)]]; [|by left|].
  - right; left. exists e'. rewrite Ht. split; [done|]. split; [done|].
    rewrite psh_data_app, <- Hae.
    destruct (decide (is_psh_of id f)) as [[Hc Hid]|Hno].
    + destruct (Hp Hc) as [Hd|Hno]; [|congruence].
      rewrite <- Hid, psh_data_psh, Hd by done. by rewrite app_nil_r.
    + by rewrite psh_data_one, decide_False, app_nil_r.
  - right; right. split; [done|]. exists p, f', (q ++ [f]).
    by rewrite Hhd, <- app_assoc.
Qed.

(** Handling a frame. *)
Lemma arrivals_frame h f s s' r :
  registry cfg role h s r -> orderly h -> handles f s s' ->
  arrivals h s r -> arrivals (h ++ [Handled f]) s' r.
Proof.
  intros Hreg Hord Hh Harr id k Hin.
  assert (Hin0 : (id, k) ∈ registered h).
  { autorewrite with history in Hin. by rewrite ?app_nil_r in Hin. }
  destruct (Harr id k Hin0) as [a Ha].
  assert (Hother : forall e, s_streams s !! stream_id f = Some e -> k <> ss_data_tx e ->
            id <> stream_id f).
  { intros e He Hk ->. apply Hk. apply (rg_entry _ _ _ _ _ Hreg) in He.
    by apply (orderly_channel h (stream_id f)). }
  assert (Hremoved : forall e, s_streams s !! stream_id f = Some e ->
            entry_removed (stream_id f) (ss_data_tx e) s s' -> k <> ss_data_tx e ->
            exists a, arrived (h ++ [Handled f]) s' r id k a).
  { intros e He [Ht Ho Hc _] Hk. exists a. pose proof (Hother e He Hk) as Hne.
    apply (arrived_keep h _ s s' r r); try done.
    - by apply Ho.
    - by rewrite Ht, lookup_delete_ne.
    - autorewrite with history. apply psh_data_other. congruence. }
  pose proof Hh as Hcase.
  destruct Hcase as [e Hc Hd He Hr Ht Hn Hch Ho|e Hc He Hr Hrem|e Hc He Hrem|Hp Hf Hs].
  - destruct (decide (k = ss_data_tx e)) as [->|Hk].
    + assert (id = stream_id f) as -> by (by eapply entry_channel).
      exists (a ++ data f). by eapply arrived_data.
    + exists a. apply (arrived_keep h _ s s' r r); try done.
      * by apply Ho.
      * by rewrite Ht.
      * autorewrite with history. apply psh_data_other. intros Heq.
        by apply (Hother e He Hk).
  - destruct (decide (k = ss_data_tx e)) as [->|Hk]; [|by apply (Hremoved e)].
    exists a. destruct Hrem as [Ht _ Hch _].
    apply (arrived_more h f s); rewrite ?Hch; simpl; auto.
    right. rewrite (rg_sender _ _ _ _ _ Hreg _ _ He). done.
  - destruct (decide (k = ss_data_tx e)) as [->|Hk]; [|by apply (Hremoved e)].
    assert (id = stream_id f) as -> by (by eapply entry_channel).
    exists a. destruct Hrem as [Ht _ Hch _]. pose proof (rg_sender _ _ _ _ _ Hreg _ _ He) as Hs1.
    apply (arrived_more h f s); rewrite ?Hch; simpl; rewrite ?Hs1; auto.
    destruct (ar_end _ _ _ _ _ _ Ha) as [(e' & _ & _ & Hae)|[Hz|[Hz _]]]; [|by left|congruence].
    right; right. split; [done|]. exists (handled h), f, []. done.
  - exists a. by apply (arrived_ignored h f s s').
Qed.

(** A new registration. *)
Lemma arrivals_register h l h1 id s s' r r' :
  registry cfg role h s r -> orderly (h ++ l) ->
  h ++ l = h1 ++ [Registered id (sh_next (s_shared s))] ->
  psh_data id (handled l) = [] -> (forall i, psh_data i (handled l) = []) ->
  (forall k, delivered k l = []) -> registered l = [(id, sh_next (s_shared s))] ->
  handled h1 = handled (h ++ l) ->
  same_streams (register_stream id s).2 s' ->
  Permutation r' (reader_of (fresh_stream id s) :: r) ->
  arrivals h s r -> arrivals (h ++ l) s' r'.
Proof.
  intros Hreg Hord Hsplit _ Hpsh Hdl Hl Hh1 Hss Hr Harr id' k Hin.
  set (k0 := sh_next (s_shared s)) in *.
  assert (Hno : s_streams s !! id = None).
  { destruct (s_streams s !! id) as [e|] eqn:He; [|done]. exfalso.
    apply (rg_entry _ _ _ _ _ Hreg) in He. pose proof (rg_chan _ _ _ _ _ Hreg _ _ He) as Hlt.
    assert (ss_data_tx e = k0); [|unfold k0 in *; lia].
    apply (orderly_channel (h ++ l) id); [done|..]; rewrite registered_app, elem_of_app.
    - by left.
    - right. rewrite Hl. by apply list_elem_of_singleton. }
  destruct (register_new id s Hno) as (Ht & Hn & Hch). destruct Hss as [Ht' Hch' Hn'].
  assert (Hnew : delivered k0 (h ++ l) = []).
  { autorewrite with history. rewrite Hdl, (rg_reads _ _ _ _ _ Hreg) by done. done. }
  rewrite registered_app, Hl in Hin.
  apply elem_of_app in Hin as [Hin|Hin%list_elem_of_singleton].
  - pose proof (rg_chan _ _ _ _ _ Hreg _ _ Hin) as Hlt. fold k0 in Hlt.
    destruct (Harr id' k Hin) as [a Ha]. exists a.
    apply (arrived_keep h l s s' r r'); try done.
    + rewrite Hch', Hch, decide_False; [done|]. fold k0. lia.
    + rewrite Ht', Ht, lookup_insert_ne; [done|]. intros <-.
      assert (k = k0); [|lia].
      apply (orderly_channel (h ++ l) id); [done|..]; rewrite registered_app, elem_of_app.
      * by left.
      * right. rewrite Hl. by apply list_elem_of_singleton.
    + intros st. rewrite Hr, elem_of_cons. intros [->|?] Hk; [|done].
      simpl in Hk. fold k0 in Hk. lia.
  - injection Hin as -> ->. exists [].
    assert (Hall : psh_data id (handled (h ++ l)) = []).
    { rewrite <- Hh1. apply (orderly_first _ Hord h1 [] id k0). done. }
    assert (Hk0 : chan s' k0 = mkChanView [] None 1 1).
    { rewrite Hch', Hch, decide_True by done. done. }
    split; rewrite ?Hall, ?Hnew; try done.
    + intros st. rewrite Hr, elem_of_cons. intros [->|Hst] Hk.
      * assert (Hpend : pending_chunks (reader_of (fresh_stream id s)) (s_shared s') = []).
        { unfold pending_chunks. unfold chan in Hk0. simpl. fold k0. by rewrite Hk0. }
        split; [split; [done|by rewrite Hpend]|]. split; [by rewrite Hk0|].
        unfold unread. by rewrite Hpend.
      * exfalso. destruct (rg_streams _ _ _ _ _ Hreg st Hst) as [Hin _].
        apply (rg_chan _ _ _ _ _ Hreg) in Hin. fold k0 in Hin. lia.
    + left. eexists. rewrite Ht', Ht. split; [by rewrite lookup_insert_eq|done].
Qed.

(** A channel has one reader. *)
Lemma only_reader h s r st r0 :
  registry cfg role h s r -> Permutation r (reader_of st :: r0) ->
  forall st', st' ∈ r0 -> st_data_rx st' = st_data_rx st -> False.
Proof.
  intros Hreg Hr st' Hst' Hk. pose proof (rg_nodup _ _ _ _ _ Hreg) as Hnd. rewrite Hr in Hnd.
  simpl in Hnd. apply NoDup_cons in Hnd as [Hnd _]. apply Hnd.
  apply list_elem_of_fmap. exists st'. by split.
Qed.

(** A reader takes what it is given, and only its own channel changes. *)
Lemma arrivals_read h s st buf r r0 r' :
  registry cfg role h s r -> 0 < remaining buf -> Permutation r (reader_of st :: r0) ->
  let p := poll_read st (s_shared s) buf in
  Permutation r' (reader_of (rp_stream p) :: r0) -> arrivals h s r ->
  arrivals (h ++ [Delivered (st_data_rx st) (drop (length (filled buf)) (filled (rp_buf p)))])
    (set_shared (rp_shared p) s) r'.
Proof.
  intros Hreg Hbuf Hr p Hr' Harr. set (k0 := st_data_rx st).
  set (s' := set_shared (rp_shared p) s).
  assert (Hst : reader_of st ∈ r) by (rewrite Hr; by left).
  destruct (rg_streams _ _ _ _ _ Hreg _ Hst) as (Hk0 & _ & Hrc). simpl in Hk0, Hrc.
  destruct (poll_read_parts st (s_shared s) buf) as (_ & Hk1 & _ & _ & _ & Hch).
  fold p in Hk1, Hch. intros id k Hk.
  set (d := drop (length (filled buf)) (filled (rp_buf p))) in *.
  set (l := [Delivered k0 d]).
  assert (Hhl : handled (h ++ l) = handled h)
    by (autorewrite with history; by rewrite ?app_nil_r).
  assert (Hk' : (id, k) ∈ registered h).
  { autorewrite with history in Hk. by rewrite ?app_nil_r in Hk. }
  destruct (Harr id k Hk') as [a Ha]. exists a.
  destruct (decide (k = k0)) as [->|Hne].
  - destruct Ha as [Hrd Hsent Hun Hend].
    destruct (Hun _ Hst eq_refl) as (Hrdb & Hrec & Hau).
    destruct (poll_read_taken st s buf Hrc) as (Hu & Hrd' & Hse & Hre);
      [by destruct Hrdb|done|]. fold p s' d in Hu, Hrd', Hse, Hre.
    assert (Hdel : delivered k0 (h ++ l) = delivered k0 h ++ d).
    { rewrite delivered_app. unfold l. by rewrite delivered_one, decide_True. }
    change (unread (reader_of st) (s_shared s)) with (unread st (s_shared s)) in Hau.
    split; rewrite ?Hhl, ?Hdel; fold k0 in Hse, Hre; rewrite ?Hse, ?Hre; [|done| |exact Hend].
    + rewrite Hau, Hu, app_assoc. by apply prefix_app_r.
    + intros st'. rewrite Hr', elem_of_cons. intros [->|Hst'] Hk2.
      * split; [by destruct Hrd'|]. split; [done|]. by rewrite Hau, Hu, app_assoc.
      * by destruct (only_reader h s r st r0 Hreg Hr st').
  - apply (arrived_keep h l s s' r r'); try done.
    + unfold chan, s'. simpl. by rewrite Hch.
    + unfold l. by rewrite delivered_one, decide_False.
    + intros st'. rewrite Hr', Hr, !elem_of_cons. intros [->|?] Hk2; [|by right].
      change (st_data_rx (rp_stream p) = k) in Hk2. unfold k0 in Hne. congruence.
Qed.

(** A reader goes away. *)
Lemma arrivals_drop h l s s' st r r' :
  registry cfg role h s r -> inert l -> reader_dropped (st_data_rx st) s s' ->
  Permutation r (reader_of st :: r') -> arrivals h s r -> arrivals (h ++ l) s' r'.
Proof.
  intros Hreg [Hl Hhl Hdl] [Ht Hoth Hse Hre Hnx] Hr Harr id k Hk.
  rewrite registered_app, Hl, app_nil_r in Hk. destruct (Harr id k Hk) as [a Ha]. exists a.
  assert (Hhl' : handled (h ++ l) = handled h)
    by (autorewrite with history; by rewrite Hhl, app_nil_r).
  assert (Hdl' : delivered k (h ++ l) = delivered k h)
    by (autorewrite with history; by rewrite Hdl, app_nil_r).
  destruct (decide (k = st_data_rx st)) as [->|Hne].
  - assert (Hst : reader_of st ∈ r) by (rewrite Hr; by left).
    destruct Ha as [Hrd Hsent Hun Hend]. destruct (Hun _ Hst eq_refl) as (_ & Hrec & _).
    split; rewrite ?Hhl', ?Hdl'; try done.
    + intros st' Hst' Hk2. by destruct (only_reader h s r st r' Hreg Hr st').
    + right; left. rewrite Hre, Hrec. done.
  - apply (arrived_keep h l s s' r r'); try done.
    + by apply Hoth.
    + by rewrite Ht.
    + by rewrite Hhl.
    + intros st' Hst' _. rewrite Hr. by right.
Qed.

Lemma arrivals_inbound h l s s' r r' :
  registry cfg role h s r -> orderly (h ++ l) ->
  inbound s r l s' r' -> arrivals h s r -> arrivals (h ++ l) s' r'.
Proof.
  intros Hreg Hord Hin Harr. pose proof (orderly_prefix _ _ Hord) as Hord0.
  destruct Hin as [s' r' l Hin Hss Hids Hp
    |s' r' id Hnx Hss Hr
    |f s' r' id Hcmd Hpid Hno Hids Hss Hr
    |st buf r0 r' Hbuf Hr p Hr'
    |st l s' r' Hin Hrd Hids Hr
    |f s' Hh Hids].
  - destruct Hin as [Hl Hhl Hdl], Hss as [Ht Hch Hnx]. intros id k Hk.
    rewrite registered_app, Hl, app_nil_r in Hk. destruct (Harr id k Hk) as [a Ha].
    exists a. apply (arrived_keep h l s s' r r'); try done.
    + by rewrite Ht.
    + by rewrite Hhl.
    + intros st. by rewrite Hp.
  - eapply (arrivals_register h [Registered id _] h id); try done.
    autorewrite with history. by rewrite ?app_nil_r.
  - eapply (arrivals_register h _ (h ++ [Handled f]) id); try done.
    + by rewrite <- app_assoc.
    + unfold handled, project. simpl. by apply psh_data_cmd; rewrite Hcmd.
    + intros i. unfold handled, project. simpl. by apply psh_data_cmd; rewrite Hcmd.
    + autorewrite with history. done.
  - by apply (arrivals_read h s st buf r r0 r').
  - by apply (arrivals_drop h l s s' st r r').
  - by apply (arrivals_frame h f s).
Qed.
End preservation.
End arrival.
