(* ===== verification/Emission.v ===== *)
(** * What an endpoint sends

    The invariant of the outgoing side of an endpoint: for every stream identifier, the
    frames put into the frame channel are a SYN if the endpoint opened the stream, then
    data, then at most one FIN; the data is what users wrote; and the frame channel
    holds what was put into it and not taken out. *)

From stdpp Require Import strings.
From S2P Require Import Prelude Crates Errors Config Command Frame Codec Runtime.
From S2P Require Import SessionState Stream StreamSpec Session SessionSpec SessionProps.
From S2P Require Import Handshake Delivery Loops LoopsSpec Endpoint EndpointSpec.
From S2P Require Import EndpointMoves Ownership Arrival.

(** The frames of stream [id] an endpoint has sent. *)
Definition out (id : Z) (h : history) : list Frame := of_stream id (emitted h).

Lemma of_stream_app id fs1 fs2 : of_stream id (fs1 ++ fs2) = of_stream id fs1 ++ of_stream id fs2.
Proof. apply filter_app. Qed.

Lemma out_app id h l : out id (h ++ l) = out id h ++ of_stream id (emitted l).
Proof. unfold out. by rewrite emitted_app, of_stream_app. Qed.

Lemma of_stream_one id f : of_stream id [f] = if decide (stream_id f = id) then [f] else [].
Proof. unfold of_stream. rewrite filter_cons, filter_nil. by case_decide. Qed.

Lemma of_stream_own id fs : Forall (fun f => stream_id f = id) fs -> of_stream id fs = fs.
Proof.
  induction 1 as [|f fs Hf _ IH]; [done|]. unfold of_stream in *.
  by rewrite filter_cons, decide_True, IH.
Qed.

Lemma of_stream_other id id' fs :
  id <> id' -> Forall (fun f => stream_id f = id) fs -> of_stream id' fs = [].
Proof.
  intros Hne. induction 1 as [|f fs Hf _ IH]; [done|]. unfold of_stream in *.
  by rewrite filter_cons, decide_False, IH by congruence.
Qed.

Section emission.
Context {B : BytesCrate} {BL : BytesLaws B}.
Context {F : FlumeCrate} {FL : FlumeLaws F} {N : NotifyCrate} {NL : NotifyLaws N}.
Context {R : ReadBufCrate} {RL : ReadBufLaws R}.
Context {M : Type -> Type} `{FinMap Z M}.
Implicit Types (s : Session M) (v : View M).

(** ** Those who can send

    The streams of a view, with whether they are still on their way to a user: such a
    stream has sent nothing yet. *)
Definition actors v : list (Held * bool) :=
  map (fun hd => (hd, false)) (vw_held v)
  ++ map (fun o => (mkHeld o.1 None, true)) (vw_opening v)
  ++ map (fun st => (mkHeld st None, true)) (vw_queued v).

Definition actor_id (a : Held * bool) : Z := st_stream_id (h_stream a.1).

Lemma readers_actors v : readers v = map (fun a => reader_of (h_stream a.1)) (actors v).
Proof. unfold readers, actors. by rewrite !map_app, !map_map. Qed.

Lemma actors_held hs i hd hd' os qs s s' b :
  hs !! i = Some hd ->
  exists r, Permutation (actors (mkView s hs os qs b)) ((hd, false) :: r) /\
    Permutation (actors (mkView s' (<[i := hd']> hs) os qs b)) ((hd', false) :: r) /\
    Permutation (actors (mkView s' (delete i hs) os qs b)) r.
Proof.
  intros Hi. exists (actors (mkView s (delete i hs) os qs b)).
  unfold actors. cbn [vw_held vw_opening vw_queued]. split; [|split; [|done]].
  - by rewrite (delete_Permutation hs i hd Hi) at 1.
  - assert (Hi' : <[i := hd']> hs !! i = Some hd').
    { apply list_lookup_insert_eq. by eapply lookup_lt_Some. }
    rewrite (delete_Permutation _ i hd' Hi').
    assert (delete i (<[i := hd']> hs) = delete i hs) as ->; [|done].
    rewrite insert_take_drop by (by eapply lookup_lt_Some).
    rewrite <- (length_take_le hs i) at 1.
    + rewrite delete_middle. by rewrite delete_take_drop.
    + apply lookup_lt_Some in Hi. lia.
Qed.

Lemma actors_opening os i o hs qs s s' b :
  os !! i = Some o ->
  Permutation (actors (mkView s hs os qs b))
    ((mkHeld o.1 None, true) :: actors (mkView s' hs (delete i os) qs b)).
Proof.
  intros Hi. unfold actors. cbn [vw_held vw_opening vw_queued].
  rewrite (delete_Permutation os i o Hi) at 1. simpl. symmetry. apply Permutation_middle.
Qed.

Lemma actors_hold s s' hs os qs b st :
  Permutation (actors (mkView s (hs ++ [mkHeld st None]) os qs b))
    ((mkHeld st None, false) :: actors (mkView s' hs os qs b)).
Proof.
  unfold actors. cbn [vw_held vw_opening vw_queued]. rewrite map_app, <- app_assoc. simpl.
  symmetry. apply Permutation_middle.
Qed.

Section grammar.
Variables (cfg : Config) (role : bool).

Definition syn_of (id : Z) : list Frame :=
  if own_id role id then [new_syn (version cfg) id] else [].

(** The frames of a stream: SYN, data, FIN; a stream that was given up before its SYN
    was sent may still have sent a FIN. *)
Definition lifeline (id : Z) (fs : list Frame) : Prop :=
  exists syn ps fin, fs = syn ++ ps ++ fin /\ Forall (is_data_frame id) ps /\
    (fin = [] \/ fin = [new_fin 1 id]) /\ (syn = syn_of id \/ syn = [] /\ ps = []).

Definition actor_ok (h : history) (a : Held * bool) : Prop :=
  let '(hd, pending) := a in
  let id := st_stream_id (h_stream hd) in
  held_ok hd /\ id <> 0 /\
  if pending : bool then
    st_is_write_closed (h_stream hd) = false /\ h_close hd = None /\ out id h = []
  else exists ps fin, out id h = syn_of id ++ ps ++ fin /\ Forall (is_data_frame id) ps /\
    (fin = [] \/ fin = [new_fin 1 id] /\ st_is_write_closed (h_stream hd) = true /\
                h_close hd = None).

Lemma actor_other h l a :
  of_stream (actor_id a) (emitted l) = [] -> actor_ok h a -> actor_ok (h ++ l) a.
Proof.
  destruct a as [hd p]. unfold actor_ok, actor_id. cbn [fst]. intros Hl.
  by rewrite out_app, Hl, app_nil_r.
Qed.

(** Waiting in [open_stream] with the SYN, or on the way to [accept_stream]. *)
Record pending_ok v : Prop := {
  pend_opening : Forall (fun o => own_id role (st_stream_id o.1) = true /\
                                  o.2 = new_syn (version cfg) (st_stream_id o.1))
                   (vw_opening v);
  pend_queued : Forall (fun st => peer_id role (st_stream_id st) = true) (vw_queued v);
}.

(** A step of the outgoing side. *)
Inductive outbound (a : list (Held * bool)) : history -> list (Held * bool) -> Prop :=
| out_quiet a' l :
    emitted l = [] -> registered l = [] -> Permutation a a' -> outbound a l a'
| out_nop l f : emitted l = [f] -> registered l = [] -> stream_id f = 0 -> outbound a l a
| out_new a' l st k :
    emitted l = [] -> registered l = [(st_stream_id st, k)] ->
    st_is_write_closed st = false -> st_stream_id st <> 0 ->
    Permutation a' ((mkHeld st None, true) :: a) -> outbound a l a'
| out_granted a' l st r :
    emitted l = syn_of (st_stream_id st) -> registered l = [] ->
    Permutation a ((mkHeld st None, true) :: r) ->
    Permutation a' ((mkHeld st None, false) :: r) -> outbound a l a'
| out_use a' l hd hd' r sh sh' fs :
    emitted l = fs -> registered l = [] ->
    emits_well (held_life hd sh) (held_life hd' sh') fs ->
    Permutation a ((hd, false) :: r) -> Permutation a' ((hd', false) :: r) ->
    outbound a l a'
| out_drop a' l hd b fin :
    emitted l = fin -> registered l = [] ->
    (fin = [] \/ fin = [new_fin 1 (st_stream_id (h_stream hd))] /\
                 (b = true \/ st_is_write_closed (h_stream hd) = false)) ->
    Permutation a ((hd, b) :: a') -> outbound a l a'.

Lemma moves_outbound v l v' :
  s_config (vw_session v) = cfg -> s_is_client (vw_session v) = role ->
  own_id role (s_next_stream_id (vw_session v)) = true ->
  pending_ok v -> moves v l v' ->
  outbound (actors v) l (actors v') /\ pending_ok v'.
Proof.
  intros Hcfg Hrole Hown [Hpo Hpq] Hm.
  destruct Hm as [s s' hs os os' qs b Hp Hs Hf Hx Hi
    |s s' hs os qs b id Hle Hn Hs Hf Hx
    |s s' hs os qs b i st syn Ho Hs Hf Hx Hi
    |s s' hs os qs b i st syn fs Ho Hrd Hfs Hf Hx Hi
    |s s' hs os st qs b Hs Hf Hx Hi
    |s s' hs os qs b i hd hd' ws fs Hh Hs He Hr Hw1 Hw2 Hw3 Hw4 Hw5 Hw6 Hfit Hf Hx Hi
    |s hs os qs b i st buf Hh Hb p
    |s s' hs os qs b i st fs Hh Hrd Hfs Hf Hx Hi
    |s s' hs os qs b f Hh Hf Hx Hi
    |s s' hs os qs b f id Hc Hp He Hs Hf Hx Hi
    |s s' hs os qs b Hs Hf Hx Hi
    |s s' hs os qs f q Hs Hq Hf Hx Hi
    |s s' hs os qs Hs Hca Hre Hx Hi]; cbn [vw_session vw_opening vw_queued] in *;
    (split; [|split; cbn [vw_opening vw_queued]; try done]).
  - apply out_quiet; try done. unfold actors. cbn [vw_held vw_opening vw_queued].
    by rewrite Hp.
  - by rewrite <- Hp.
  - eapply (out_new _ _ _ (fresh_stream id s)); try done; [by eapply own_id_nonzero|].
    unfold actors. cbn [vw_held vw_opening vw_queued].
    rewrite map_app, <- !app_assoc. simpl. rewrite !app_assoc.
    symmetry. apply Permutation_middle.
  - apply Forall_app. split; [done|]. constructor; [|done]. simpl. by rewrite Hcfg.
  - rewrite Forall_lookup in Hpo. destruct (Hpo i _ Ho) as [Hid Hsyn]. simpl in Hid, Hsyn.
    eapply (out_granted _ _ _ st); [|done|apply (actors_opening os i _ hs qs s s' b Ho)
      |by rewrite (actors_hold _ s')].
    unfold syn_of, emitted, project. simpl. by rewrite Hid, Hsyn.
  - by apply Forall_delete.
  - eapply (out_drop _ _ _ (mkHeld st None) true fs); [by rewrite emitted_emits
      |by rewrite registered_emits| |apply (actors_opening os i _ hs qs s s' b Ho)].
    destruct Hfs as [->| ->]; auto.
  - by apply Forall_delete.
  - apply Forall_cons in Hpq as [Hid Hpq].
    eapply (out_granted _ _ _ st _); [|done| |by rewrite (actors_hold _ s')].
    + unfold syn_of. destruct (own_id role (st_stream_id st)) eqn:Ho; [|done].
      apply own_not_peer in Ho. congruence.
    + unfold actors. cbn [vw_held vw_opening vw_queued]. simpl. rewrite !app_assoc.
      symmetry. apply Permutation_middle.
  - by apply Forall_cons in Hpq as [_ ?].
  - destruct (actors_held hs i hd hd' os qs s s' b Hh) as (r & Hr1 & Hr2 & _).
    eapply out_use; [| |exact He|exact Hr1|exact Hr2]; autorewrite with history;
      rewrite ?Hw1, ?Hw2; done.
  - destruct (actors_held hs i _ (mkHeld (rp_stream p) None) os qs s
      (set_shared (rp_shared p) s) b Hh) as (r & Hr1 & Hr2 & _).
    destruct (poll_read_unwritten st (s_shared s) buf) as (_ & Hi & Hw & _).
    eapply (out_use _ _ _ _ _ r (s_shared s) (rp_shared p) []); try done.
    split; [|split; [done|exact Hi]].
    constructor; unfold life_closed; simpl; [|done]. unfold p. by rewrite Hw.
  - destruct (actors_held hs i _ (mkHeld st None) os qs s s' b Hh) as (r & Hr1 & _ & Hr2).
    eapply (out_drop _ _ _ (mkHeld st None) false fs); [by rewrite emitted_emits
      |by rewrite registered_emits| |by rewrite Hr1, Hr2].
    destruct Hfs as [->|[-> Hw]]; auto.
  - by apply out_quiet.
  - eapply (out_new _ _ _ (fresh_stream id s)); try done; [by eapply peer_id_nonzero|].
    unfold actors. cbn [vw_held vw_opening vw_queued]. rewrite map_app, !app_assoc. simpl.
    symmetry. apply Permutation_cons_append.
  - apply Forall_app. split; [done|]. constructor; [|done]. simpl. by rewrite <- Hrole.
  - by eapply out_nop.
  - by apply out_quiet.
  - by apply out_quiet.
Qed.

(** ** The invariant *)
Record emission (h : history) (a : list (Held * bool)) : Prop := {
  em_line id : id <> 0 -> lifeline id (out id h);
  em_fresh id : id <> 0 -> (forall k, (id, k) ∉ registered h) -> out id h = [];
  em_actors : Forall (actor_ok h) a;
}.

Lemma emission_new : emission [] [].
Proof.
  split; [|done|constructor]. intros id _. exists [], [], [].
  split; [done|]. split; [constructor|]. split; [by left|by right].
Qed.

Lemma syn_of_own id : Forall (fun f => stream_id f = id) (syn_of id).
Proof. unfold syn_of. destruct (own_id role id); by repeat constructor. Qed.

Lemma emits_own (x y : Life) fs :
  emits x y fs -> Forall (fun f => stream_id f = life_id x) fs.
Proof. by intros [? ?|f [d ->] ?|? ? ?]; repeat constructor. Qed.

(** The frames of one actor: the others are not concerned. *)
Lemma emission_one h l a x r fs :
  emission h a -> NoDup (map actor_id a) -> Permutation a (x :: r) ->
  emitted l = fs -> Forall (fun f => stream_id f = actor_id x) fs ->
  (exists k, (actor_id x, k) ∈ registered h) ->
  lifeline (actor_id x) (out (actor_id x) h ++ fs) ->
  (forall id, id <> 0 -> lifeline id (out id (h ++ l))) /\
  (forall id, id <> 0 -> (forall k, (id, k) ∉ registered (h ++ l)) -> out id (h ++ l) = []) /\
  Forall (actor_ok (h ++ l)) r.
Proof.
  intros [Hline Hfresh Hact] Hnd Hp Hl Hfs [k Hk] Hnew. split; [|split].
  - intros id Hid. rewrite out_app, Hl. destruct (decide (id = actor_id x)) as [->|Hne].
    + by rewrite of_stream_own.
    + rewrite (of_stream_other (actor_id x)), app_nil_r by done. by apply Hline.
  - intros id Hid Hno. rewrite out_app, Hl.
    assert (Hne : id <> actor_id x).
    { intros ->. apply (Hno k). rewrite registered_app, elem_of_app. by left. }
    rewrite (of_stream_other (actor_id x)), app_nil_r by done. apply Hfresh; [done|].
    intros k' Hk'. apply (Hno k'). rewrite registered_app, elem_of_app. by left.
  - rewrite Hp in Hnd, Hact. simpl in Hnd. apply NoDup_cons in Hnd as [Hnd _].
    apply Forall_cons in Hact as [_ Hact]. rewrite Forall_forall in Hact |- *.
    intros y Hy. apply actor_other; [|by apply Hact]. rewrite Hl.
    apply (of_stream_other (actor_id x)); [|done]. intros Heq. apply Hnd.
    rewrite Heq. apply list_elem_of_fmap. by exists y.
Qed.

Lemma emission_silent h l a a' :
  emission h a -> emitted l = [] \/ (exists f, emitted l = [f] /\ stream_id f = 0) ->
  Forall (fun x => x ∈ a) a' -> emission (h ++ l) a'.
Proof.
  intros [Hline Hfresh Hact] Hl Ha.
  assert (Hout : forall id, id <> 0 -> of_stream id (emitted l) = []).
  { intros id Hid. destruct Hl as [->|(f & -> & Hf)]; [done|].
    by rewrite of_stream_one, decide_False by congruence. }
  split.
  - intros id Hid. rewrite out_app, Hout, app_nil_r by done. by apply Hline.
  - intros id Hid Hno. rewrite out_app, Hout, app_nil_r by done. apply Hfresh; [done|].
    intros k Hk. apply (Hno k). rewrite registered_app, elem_of_app. by left.
  - rewrite Forall_forall in Hact, Ha |- *. intros x Hx. pose proof (Hact x (Ha x Hx)) as Hok.
    apply actor_other; [|done]. apply Hout. destruct x as [hd p]. apply Hok.
Qed.

(** What a held stream has sent, once it has sent [fs] more. *)
Lemma actor_emits hd hd' sh sh' fs id o :
  emits (held_life hd sh) (held_life hd' sh') fs -> id = st_stream_id (h_stream hd) ->
  (exists ps fin, o = syn_of id ++ ps ++ fin /\ Forall (is_data_frame id) ps /\
     (fin = [] \/ fin = [new_fin 1 id] /\ st_is_write_closed (h_stream hd) = true /\
        h_close hd = None)) ->
  exists ps fin, o ++ fs = syn_of id ++ ps ++ fin /\ Forall (is_data_frame id) ps /\
    (fin = [] \/ fin = [new_fin 1 id] /\ st_is_write_closed (h_stream hd') = true /\
       h_close hd' = None).
Proof.
  intros He -> (ps & fin & -> & Hps & Hfin). destruct He as [Hk1 Hk2|f Hf Hc|Hc Hc1 Hc2].
  - exists ps, fin. rewrite app_nil_r. split; [done|]. split; [done|].
    destruct Hfin as [->|(-> & Hw & Hcl)]; [by left|]. right.
    split; [done|]. split; [by apply Hk1|by apply Hk2].
  - destruct Hfin as [->|(-> & Hw & _)].
    2: { unfold life_closed in Hc. simpl in Hc. congruence. }
    exists (ps ++ [f]), []. rewrite !app_nil_r, <- app_assoc. split; [done|].
    split; [|by left]. apply Forall_app. split; [done|]. by constructor.
  - destruct Hfin as [->|(-> & Hw & Hcl)].
    2: { unfold life_closed in Hc. simpl in Hc. destruct Hc; congruence. }
    exists ps, [new_fin 1 (st_stream_id (h_stream hd))].
    rewrite app_nil_r, <- app_assoc. split; [done|]. split; [done|]. right. done.
Qed.

(** What a stream leaves behind when it is dropped. *)
Lemma actor_leaves h hd b fin id :
  id = st_stream_id (h_stream hd) -> lifeline id (out id h) -> actor_ok h (hd, b) ->
  (fin = [] \/ fin = [new_fin 1 id] /\ (b = true \/ st_is_write_closed (h_stream hd) = false)) ->
  lifeline id (out id h ++ fin).
Proof.
  intros -> Hline (_ & Hid & Hok) [->|[-> Hw]]; [by rewrite app_nil_r|]. destruct b.
  - destruct Hok as (_ & _ & ->). exists [], [], [new_fin 1 (st_stream_id (h_stream hd))].
    split; [done|]. split; [constructor|]. auto.
  - destruct Hw as [?|Hw]; [done|]. destruct Hok as (ps & fin & -> & Hps & Hf).
    destruct Hf as [->|(_ & Hw' & _)]; [|congruence].
    eexists _, ps, [_]. rewrite app_nil_r, <- app_assoc. split; [done|]. auto.
Qed.

Lemma emission_outbound h l a a' :
  NoDup (map actor_id a) ->
  (forall x, x ∈ a -> exists k, (actor_id x, k) ∈ registered h) ->
  (forall id k k', registered l = [(id, k)] -> (id, k') ∉ registered h) ->
  outbound a l a' -> emission h a -> emission (h ++ l) a'.
Proof.
  intros Hnd Hreg Hnewreg Ho Hem.
  destruct Ho as [a' l Hl Hr Hp|l f Hl Hr Hf|a' l st k Hl Hr Hw Hid Hp
    |a' l st r Hl Hr Hp Hp'|a' l hd hd' r sh sh' fs Hl Hr He Hp Hp'|a' l hd b fin Hl Hr Hfin Hp].
  - eapply emission_silent; [done|by left|]. apply Forall_forall. intros x. by rewrite Hp.
  - eapply emission_silent; [done|right; eauto|]. apply Forall_forall. done.
  - assert (Hs : emission (h ++ l) a).
    { eapply emission_silent; [done|by left|]. by apply Forall_forall. }
    destruct Hs as [Hline Hfresh Hact]. split; [done|done|].
    rewrite Hp. constructor; [|done]. split; [done|]. split; [done|]. simpl.
    split; [done|]. split; [done|]. rewrite out_app, Hl, app_nil_r.
    apply (em_fresh _ _ Hem); [done|]. intros k'. by apply (Hnewreg _ k).
  - set (x := (mkHeld st None, true)) in *.
    assert (Hx : x ∈ a) by (rewrite Hp; by left).
    pose proof (em_actors _ _ Hem) as Hact. rewrite Forall_forall in Hact.
    destruct (Hact x Hx) as (Hh & Hid & Hw & _ & Hout). simpl in Hid, Hw, Hout.
    destruct (emission_one h l a x r (syn_of (st_stream_id st)) Hem Hnd Hp)
      as (Hline & Hfresh & Hrest); [done|apply syn_of_own|by apply Hreg| |].
    { unfold actor_id. simpl. rewrite Hout. exists (syn_of (st_stream_id st)), [], [].
      rewrite app_nil_r. split; [done|]. split; [constructor|]. split; [by left|by left]. }
    split; [done|done|]. rewrite Hp'. constructor; [|done].
    split; [done|]. split; [done|]. simpl. exists [], [].
    rewrite out_app, Hl, Hout, of_stream_own by apply syn_of_own.
    rewrite app_nil_r. split; [done|]. split; [constructor|by left].
  - set (x := (hd, false)) in *.
    assert (Hx : x ∈ a) by (rewrite Hp; by left).
    pose proof (em_actors _ _ Hem) as Hact. rewrite Forall_forall in Hact.
    destruct (Hact x Hx) as (Hh & Hid & Hsent).
    destruct He as (He & Hok & Hsame). unfold life_id in Hsame. simpl in Hsame.
    pose proof (emits_own _ _ _ He) as Hown. unfold life_id in Hown. simpl in Hown.
    pose proof (actor_emits _ _ _ _ _ _ _ He eq_refl Hsent) as Hnew.
    destruct (emission_one h l a x r fs Hem Hnd Hp) as (Hline & Hfresh & Hrest);
      [done|done|by apply Hreg| |].
    { unfold actor_id. simpl. destruct Hnew as (ps' & fin' & -> & Hps' & Hfin').
      exists (syn_of (st_stream_id (h_stream hd))), ps', fin'. split; [done|].
      split; [done|]. split; [destruct Hfin' as [->|[-> _]]; auto|by left]. }
    split; [done|done|]. rewrite Hp'. constructor; [|done].
    split; [done|]. simpl. rewrite Hsame. split; [done|].
    rewrite out_app, Hl, of_stream_own by done. exact Hnew.
  - set (x := (hd, b)) in *.
    assert (Hx : x ∈ a) by (rewrite Hp; by left).
    pose proof (em_actors _ _ Hem) as Hact. rewrite Forall_forall in Hact.
    pose proof (Hact x Hx) as Hok.
    destruct (emission_one h l a x a' fin Hem Hnd Hp) as (Hline & Hfresh & Hrest);
      [done| |by apply Hreg| |done].
    { destruct Hfin as [->|[-> _]]; by repeat constructor. }
    eapply actor_leaves; [done| |exact Hok|done]. apply (em_line _ _ Hem). apply Hok.
Qed.
End grammar.
End emission.
