(* ===== verification/EndpointInv.v ===== *)
(** * The invariant of an endpoint

    Everything that holds in every state an endpoint reaches, whatever its users, its
    tasks and the other side do; and, as long as the frames that come in are orderly,
    the invariants of Arrival.v and Emission.v. *)

From stdpp Require Import strings.
From S2P Require Import Prelude Crates Errors Config Command Frame Codec CodecSpec Runtime.
From S2P Require Import SessionState Stream StreamSpec Session SessionSpec SessionProps.
From S2P Require Import Handshake Delivery Loops LoopsSpec Endpoint EndpointSpec.
From S2P Require Import EndpointMoves Ownership Arrival Emission.

(** A configuration whose frames can be encoded, and whose frame channel has room. *)
Record usable (cfg : Config) : Prop := {
  us_valid : config_valid cfg;
  us_typed : config_typed cfg;
  us_size : HEADER_SIZE < max_frame_size cfg <= HEADER_SIZE + u16_MAX;
  us_channel : 1 <= max_receive_channel_buffer_size cfg;
}.

Lemma usable_default : usable config_default.
Proof. split; eauto with smux; vm_compute; try split; congruence. Qed.

(** ** The frames of an endpoint can be encoded *)
Section typing.
Context {B : BytesCrate} {BL : BytesLaws B}.
Context {F : FlumeCrate} {FL : FlumeLaws F} {N : NotifyCrate} {NL : NotifyLaws N}.

Lemma usable_version cfg : usable cfg -> is_u8 (version cfg) /\ version cfg <> 0.
Proof. intros [Hv Ht _ _]. split; [apply Ht|apply Hv]. Qed.

Lemma syn_encodable cfg id :
  usable cfg -> is_u32 id -> id <> 0 -> encodable (max_frame_size cfg) (new_syn (version cfg) id).
Proof.
  intros Hu Hi H0. destruct (usable_version cfg Hu) as [Hv Hv0].
  pose proof (us_size _ Hu) as Hs. split; [by split|apply new_syn_valid; lia| |];
    change (frame_payload (new_syn (version cfg) id)) with (@nil byte); rewrite blen_nil;
    unfold u16_MAX in *; lia.
Qed.

Lemma fin_encodable cfg id :
  usable cfg -> is_u32 id -> id <> 0 -> encodable (max_frame_size cfg) (new_fin 1 id).
Proof.
  intros Hu Hi H0. pose proof (us_size _ Hu) as Hs.
  split; [by split|apply new_fin_valid; lia| |];
    change (frame_payload (new_fin 1 id)) with (@nil byte); rewrite blen_nil;
    unfold u16_MAX in *; lia.
Qed.

Lemma nop_encodable cfg :
  usable cfg -> encodable (max_frame_size cfg) (new_nop (version cfg)).
Proof.
  intros Hu. destruct (usable_version cfg Hu) as [Hv Hv0].
  pose proof (us_size _ Hu) as Hs. split; [by split|apply new_nop_valid; lia| |];
    change (frame_payload (new_nop (version cfg))) with (@nil byte); rewrite blen_nil;
    unfold u16_MAX in *; lia.
Qed.

Lemma psh_encodable cfg id d :
  usable cfg -> is_u32 id -> id <> 0 -> fits_frame cfg (new_psh 1 id d) ->
  encodable (max_frame_size cfg) (new_psh 1 id d).
Proof.
  intros Hu Hi H0 Hd. pose proof (us_size _ Hu) as Hs.
  unfold fits_frame, saturating_sub in Hd. simpl in Hd.
  split; [by split|apply new_psh_valid; lia| |];
    change (frame_payload (new_psh 1 id d)) with d; unfold u16_MAX in *; lia.
Qed.
End typing.

(** ** The invariant on views *)
Section views.
Context {B : BytesCrate} {BL : BytesLaws B}.
Context {F : FlumeCrate} {FL : FlumeLaws F} {N : NotifyCrate} {NL : NotifyLaws N}.
Context {R : ReadBufCrate} {RL : ReadBufLaws R}.
Context {M : Type -> Type} `{FinMap Z M}.
Implicit Types (s : Session M) (v : View M).
Variables (cfg : Config) (role : bool).

(** The frame channel: what was put into it, less what was taken out. *)
Definition channel_link (h : history) v : Prop :=
  (vw_sending v = true /\ receivers (frames_view (vw_session v)) = 1%nat /\
   emitted h = taken h ++ queue (frames_view (vw_session v))) \/
  (vw_sending v = false /\ receivers (frames_view (vw_session v)) = 0%nat /\
   taken h `prefix_of` emitted h).

Record setup (h : history) v : Prop := {
  su_config : s_config (vw_session v) = cfg;
  su_role : s_is_client (vw_session v) = role;
  su_capacity : capacity (frames_view (vw_session v))
                = Some (max_receive_channel_buffer_size cfg);
  su_link : channel_link h v;
  su_held : Forall held_ok (vw_held v);
  su_pending : pending_ok cfg role v;
  su_wrote id : wrote id h = psh_data id (emitted h);
  su_registry : registry cfg role h (vw_session v) (readers v);
}.

Lemma setup_taken h v : setup h v -> taken h `prefix_of` emitted h.
Proof.
  intros Hs. destruct (su_link _ _ Hs) as [(_ & _ & ->)|(_ & _ & Hp)]; [|done].
  by apply prefix_app_r.
Qed.

(** A move that appends to the frame channel, and takes nothing. *)
Lemma link_grows h v s' hs os qs l fs :
  channel_link h v -> grows fs (frames_view (vw_session v)) (frames_view s') ->
  emitted l = fs -> taken l = [] ->
  channel_link (h ++ l) (mkView s' hs os qs (vw_sending v)).
Proof.
  intros Hlink [Hq _ Hr Ho] Hl Ht. unfold channel_link. cbn [vw_session vw_sending].
  autorewrite with history. rewrite Hl, Ht, Hr, Hq, app_nil_r.
  destruct Hlink as [(? & ? & ->)|(? & ? & ?)].
  - left. by rewrite app_assoc.
  - right. split; [done|]. split; [done|]. by apply prefix_app_r.
Qed.

Lemma moves_link h v l v' :
  moves v l v' -> channel_link h v -> channel_link (h ++ l) v'.
Proof.
  intros Hm Hlink.
  destruct Hm; cbn [vw_session] in *;
    try (eapply (link_grows h (mkView _ _ _ _ _)); [exact Hlink|eassumption|..];
         by autorewrite with history).
  - eapply (link_grows h (mkView _ _ _ _ _)); [exact Hlink|eassumption|..];
      autorewrite with history;
      repeat match goal with Hx : _ = @nil _ |- _ => rewrite Hx end; done.
  - eapply (link_grows h (mkView _ _ _ _ _)); [exact Hlink|apply grows_view|done..].
    unfold frames_view, p. simpl. by rewrite (proj1 (poll_read_unwritten _ _ _)).
  - unfold channel_link in *. cbn [vw_session vw_sending] in *. autorewrite with history.
    destruct Hlink as [(_ & Hr & He)|(? & _)]; [|done]. left. split; [done|].
    match goal with Hv : frames_view _ = with_queue _ _ |- _ => rewrite Hv end.
    simpl. split; [done|]. rewrite He.
    match goal with Hq : queue (frames_view _) = _ :: _ |- _ => rewrite Hq end.
    unfold emitted, taken, project. simpl. by rewrite <- app_assoc, ?app_nil_r.
  - unfold channel_link in *. cbn [vw_session vw_sending] in *. autorewrite with history.
    destruct Hlink as [(_ & Hr & He)|(? & _)]; [|done]. right. split; [done|].
    match goal with Hv : receivers _ = pred _ |- _ => rewrite Hv, Hr end.
    split; [done|]. rewrite He. by apply prefix_app_r.
Qed.

Lemma moves_held v l v' : moves v l v' -> Forall held_ok (vw_held v) -> Forall held_ok (vw_held v').
Proof.
  intros Hm Hh. destruct Hm; cbn [vw_held] in *; try done.
  - apply Forall_app. split; [done|]. by constructor.
  - apply Forall_app. split; [done|]. by constructor.
  - apply Forall_insert; [done|]. by match goal with He : emits_well _ _ _ |- _ => apply He end.
  - by apply Forall_insert.
  - by apply Forall_delete.
Qed.

Lemma moves_wrote h v l v' :
  pending_ok cfg role v -> moves v l v' ->
  (forall id, wrote id h = psh_data id (emitted h)) ->
  forall id, wrote id (h ++ l) = psh_data id (emitted (h ++ l)).
Proof.
  intros [Hpo _] Hm Hw id. autorewrite with history. rewrite psh_data_app, Hw. f_equal.
  destruct Hm; try done; autorewrite with history.
  - rewrite Forall_lookup in Hpo.
    match goal with Ho : _ !! _ = Some _ |- _ => destruct (Hpo _ _ Ho) as [_ Hs] end.
    simpl in Hs. rewrite Hs. symmetry. by apply psh_data_cmd.
  - match goal with Hf : fs = [] \/ _ |- _ => destruct Hf as [->| ->] end; [done|].
    symmetry. by apply psh_data_cmd.
  - repeat match goal with Hx : _ = @nil _ |- _ => rewrite Hx end. simpl. auto.
  - match goal with Hf : fs = [] \/ _ |- _ => destruct Hf as [->|[-> _]] end; [done|].
    symmetry. by apply psh_data_cmd.
Qed.

Lemma moves_fixed v l v' :
  moves v l v' ->
  s_config (vw_session v') = s_config (vw_session v) /\
  s_is_client (vw_session v') = s_is_client (vw_session v) /\
  capacity (frames_view (vw_session v')) = capacity (frames_view (vw_session v)).
Proof.
  intros Hm. destruct Hm; cbn [vw_session];
    repeat match goal with
    | Hx : same_fixed _ _ |- _ => destruct Hx as [-> ->]
    | Hx : grows _ _ _ |- _ => destruct Hx as [_ -> _ _]
    | Hx : frames_view _ = with_queue _ _ |- _ => rewrite Hx
    end; try done.
  - unfold frames_view, p. simpl. by rewrite (proj1 (poll_read_unwritten _ _ _)).
Qed.

Lemma setup_moves h v l v' : moves v l v' -> setup h v -> setup (h ++ l) v'.
Proof.
  intros Hm [Hc Hr Hca Hlink Hh Hp Hw Hreg].
  destruct (moves_fixed v l v' Hm) as (Hc' & Hr' & Hca').
  assert (Hown : own_id role (s_next_stream_id (vw_session v)) = true).
  { rewrite (rg_next _ _ _ _ _ Hreg). apply initial_own. }
  split; try congruence.
  - by eapply moves_link.
  - by eapply moves_held.
  - by eapply moves_outbound.
  - by eapply moves_wrote.
  - eapply registry_inbound; [exact Hc|exact Hr|by apply moves_inbound|done].
Qed.

Lemma setup_all h v l v' : moves_all v l v' -> setup h v -> setup (h ++ l) v'.
Proof.
  intros Hm Hs. induction Hm as [|h1 v1 h2 v2 Hm IH Hm2]; [by rewrite app_nil_r|].
  rewrite app_assoc. by eapply setup_moves.
Qed.

(** *** With orderly frames: the two sides *)
Record flows (h : history) v : Prop := {
  fl_arrivals : arrivals h (vw_session v) (readers v);
  fl_emission : emission cfg role h (actors v);
}.

(** The streams of a view have different identifiers. *)
Lemma actors_distinct h v :
  setup h v -> orderly h -> NoDup (map actor_id (actors v)).
Proof.
  intros Hs Hord. pose proof (su_registry _ _ Hs) as Hreg.
  pose proof (rg_nodup _ _ _ _ _ Hreg) as Hnd. rewrite readers_actors in Hnd.
  rewrite map_map in Hnd. simpl in Hnd.
  assert (Hin : forall a, a ∈ actors v ->
            (actor_id a, st_data_rx (h_stream a.1)) ∈ registered h).
  { intros a Ha. destruct (rg_streams _ _ _ _ _ Hreg (reader_of (h_stream a.1))) as [Hk _];
      [|done]. rewrite readers_actors. apply list_elem_of_fmap. by exists a. }
  apply NoDup_alt. intros i j id Hi Hj.
  change (map actor_id (actors v)) with (actor_id <$> actors v) in Hi, Hj.
  apply list_lookup_fmap_Some in Hi as (a & -> & Ha).
  apply list_lookup_fmap_Some in Hj as (a' & Heq & Ha').
  assert (Hrx : st_data_rx (h_stream a'.1) = st_data_rx (h_stream a.1)).
  { apply (orderly_channel h (actor_id a)); [done| |].
    - rewrite Heq. apply Hin. by eapply list_elem_of_lookup_2.
    - apply Hin. by eapply list_elem_of_lookup_2. }
  set (g := fun a : Held * bool => st_data_rx (h_stream a.1)).
  change (NoDup (g <$> actors v)) in Hnd.
  apply (NoDup_lookup _ i j (g a) Hnd); rewrite list_lookup_fmap, ?Ha, ?Ha'; [done|].
  simpl. unfold g. by rewrite Hrx.
Qed.

Lemma flows_moves h v l v' :
  moves v l v' -> setup h v -> orderly (h ++ l) -> flows h v -> flows (h ++ l) v'.
Proof.
  intros Hm Hs Hord [Ha He]. pose proof (orderly_prefix _ _ Hord) as Hord0.
  pose proof (su_registry _ _ Hs) as Hreg.
  assert (Hown : own_id role (s_next_stream_id (vw_session v)) = true).
  { rewrite (rg_next _ _ _ _ _ Hreg). apply initial_own. }
  split.
  - eapply arrivals_inbound; [exact Hreg|done|by apply moves_inbound|done].
  - eapply emission_outbound; [by eapply actors_distinct| | | |exact He].
    + intros a Hin. exists (st_data_rx (h_stream a.1)).
      destruct (rg_streams _ _ _ _ _ Hreg (reader_of (h_stream a.1))) as [Hk _]; [|done].
      rewrite readers_actors. apply list_elem_of_fmap. by exists a.
    + intros id k k' Hl Hk. destruct Hord as [Hnd _].
      rewrite registered_app, Hl, map_app in Hnd. apply NoDup_app in Hnd as (_ & Hnd & _).
      apply (Hnd id); [|by left]. apply list_elem_of_fmap. by exists (id, k').
    + eapply moves_outbound; [apply Hs|apply Hs|done|apply Hs|done].
Qed.

Lemma flows_all h v l v' :
  moves_all v l v' -> setup h v -> orderly (h ++ l) -> flows h v -> flows (h ++ l) v'.
Proof.
  intros Hm Hs Hord Hf. induction Hm as [|h1 v1 h2 v2 Hm IH Hm2]; [by rewrite app_nil_r|].
  rewrite app_assoc in *. eapply flows_moves; [done|by eapply setup_all|done|].
  apply IH. by eapply orderly_prefix.
Qed.

(** *** The frames can be encoded *)
Definition good_ids (h : history) : Prop :=
  forall id k, (id, k) ∈ registered h -> is_u32 id /\ id <> 0.

Lemma good_ids_setup h v :
  setup h v -> Forall frame_typed (handled h) ->
  initial_id role + 2 * Z.of_nat (opens role h) <= u32_MAX -> good_ids h.
Proof.
  intros Hs Ht Hmax id k Hin. pose proof (su_registry _ _ Hs) as Hreg.
  destruct (rg_kind _ _ _ _ _ Hreg id k Hin) as [[Ho [Hz Hlt]]|(Hp & f & Hf & _ & <-)].
  - rewrite (rg_next _ _ _ _ _ Hreg) in Hlt. unfold is_u32, u32_MAX in *. split; lia.
  - rewrite Forall_forall in Ht. split; [by apply Ht|by eapply peer_id_nonzero].
Qed.

Lemma emitted_moves h v l v' :
  usable cfg -> setup h v -> good_ids h -> moves v l v' ->
  Forall (encodable (max_frame_size cfg)) (emitted l).
Proof.
  intros Hu Hs Hids Hm. pose proof (su_registry _ _ Hs) as Hreg.
  assert (Hst : forall st, reader_of st ∈ readers v ->
    is_u32 (st_stream_id st) /\ st_stream_id st <> 0 /\ st_config st = cfg).
  { intros st Hin. destruct (rg_streams _ _ _ _ _ Hreg _ Hin) as (Hk & Hcfg & _).
    destruct (Hids _ _ Hk). auto. }
  assert (Hact : forall a, a ∈ actors v -> reader_of (h_stream a.1) ∈ readers v).
  { intros a Ha. rewrite readers_actors. apply list_elem_of_fmap. by exists a. }
  pose proof (su_config _ _ Hs) as Hcfg. pose proof (su_pending _ _ Hs) as [Hpo _].
  assert (Hop : forall s hs os qs b i o, v = mkView s hs os qs b -> os !! i = Some o ->
            reader_of o.1 ∈ readers v).
  { intros s hs os qs b i o -> Ho. apply (Hact (mkHeld o.1 None, true)).
    rewrite (actors_opening os i o hs qs s s b Ho). by left. }
  assert (Hhd : forall s hs os qs b i hd, v = mkView s hs os qs b -> hs !! i = Some hd ->
            reader_of (h_stream hd) ∈ readers v).
  { intros s hs os qs b i hd -> Hi. apply (Hact (hd, false)).
    destruct (actors_held hs i hd hd os qs s s b Hi) as (r & -> & _). by left. }
  destruct Hm as [s s' hs os os' qs b Hp Hss Hf Hx Hi
    |s s' hs os qs b id Hle Hn Hss Hf Hx
    |s s' hs os qs b i st syn Ho Hss Hf Hx Hi
    |s s' hs os qs b i st syn fs Ho Hrd Hfs Hf Hx Hi
    |s s' hs os st qs b Hss Hf Hx Hi
    |s s' hs os qs b i hd hd' ws fs Hh Hss He Hr Hw1 Hw2 Hw3 Hw4 Hw5 Hw6 Hfit Hf Hx Hi
    |s hs os qs b i st buf Hh Hb p
    |s s' hs os qs b i st fs Hh Hrd Hfs Hf Hx Hi
    |s s' hs os qs b f Hh Hf Hx Hi
    |s s' hs os qs b f id Hc Hp He Hss Hf Hx Hi
    |s s' hs os qs b Hss Hf Hx Hi
    |s s' hs os qs f q Hss Hq Hf Hx Hi
    |s s' hs os qs Hss Hca Hre Hx Hi]; cbn [vw_session vw_opening] in *; try done;
    autorewrite with history.
  - rewrite Forall_lookup in Hpo. destruct (Hpo i _ Ho) as [_ Hsyn]. simpl in Hsyn.
    destruct (Hst _ (Hop _ _ _ _ _ _ _ eq_refl Ho)) as (Hi32 & Hi0 & _).
    constructor; [|constructor]. rewrite Hsyn. by apply syn_encodable.
  - destruct (Hst _ (Hop _ _ _ _ _ _ _ eq_refl Ho)) as (Hi32 & Hi0 & _). simpl in Hi32, Hi0.
    destruct Hfs as [->| ->]; constructor; [|constructor]. by apply fin_encodable.
  - rewrite Hw2. simpl.
    destruct (Hst _ (Hhd _ _ _ _ _ _ _ eq_refl Hh)) as (Hi32 & Hi0 & Hc).
    destruct He as [He _]. unfold life_id in He. simpl in He.
    inversion He as [? ? E|f [d Hd] ? E|? ? ? E]; subst fs;
      [constructor|constructor; [|constructor]..].
    + unfold life_id in Hd. simpl in Hd. subst f. apply psh_encodable; try done.
      apply Forall_cons in Hfit as [Hfit _]. by rewrite Hc in Hfit.
    + by apply fin_encodable.
  - destruct (Hst _ (Hhd _ _ _ _ _ _ _ eq_refl Hh)) as (Hi32 & Hi0 & _). simpl in Hi32, Hi0.
    destruct Hfs as [->|[-> _]]; constructor; [|constructor]. by apply fin_encodable.
  - constructor; [|constructor]. rewrite Hcfg. by apply nop_encodable.
Qed.

Lemma emitted_all h v l v' :
  usable cfg -> setup h v -> good_ids (h ++ l) -> moves_all v l v' ->
  Forall (encodable (max_frame_size cfg)) (emitted l).
Proof.
  intros Hu Hs Hids Hm. induction Hm as [|h1 v1 h2 v2 Hm IH Hm2]; [constructor|].
  assert (Hids1 : good_ids (h ++ h1)).
  { intros id k Hin. apply (Hids id k). rewrite app_assoc, registered_app, elem_of_app.
    by left. }
  autorewrite with history. apply Forall_app. split; [by apply IH|].
  eapply emitted_moves; [done|by eapply setup_all|done|done].
Qed.
End views.

(** ** The invariant of endpoints *)
Section endpoints.
Context {B : BytesCrate} {BL : BytesLaws B}.
Context {F : FlumeCrate} {FL : FlumeLaws F} {N : NotifyCrate} {NL : NotifyLaws N}.
Context {R : ReadBufCrate} {RL : ReadBufLaws R}.
Context {D : FramedCrate} {DL : FramedLaws D} {T : IntervalCrate}.
Context {M : Type -> Type} `{FinMap Z M}.
Implicit Types e : Endpoint M.
Variables (cfg : Config) (role : bool).

Record ep_inv (h : history) e : Prop := {
  ei_trace : exists src k r, system_trace (system_new cfg role src k) r (ep_system e);
  ei_tokens : max_receive_buffer cfg <= tokens (session_state (ep_session e))
              <= max_receive_buffer cfg + load h;
  ei_waits : recv_waits_for_accept (sys_recv (ep_system e));
  ei_ping : ping_ok (sys_keep_alive (ep_system e)) (ep_session e);
  ei_setup : setup cfg role h (view_of e);
}.

(** The counters have not run out: less than 2^63 bytes, less than 2^31 streams. *)
Record within_limits (h : history) : Prop := {
  lim_bytes : max_receive_buffer cfg + load h < 2 ^ 63;
  lim_ids : initial_id role + 2 * Z.of_nat (opens role h) <= u32_MAX - 2;
}.

Lemma within_prefix h l : within_limits (h ++ l) -> within_limits h.
Proof.
  intros [Hb Hi]. rewrite load_app in Hb. rewrite opens_app in Hi.
  pose proof (load_nonneg l). split; lia.
Qed.

Lemma usable_buffer : usable cfg -> 0 < max_receive_buffer cfg.
Proof.
  intros Hu. pose proof (us_size _ Hu). pose proof (valid_receive_buffer _ (us_valid _ Hu)).
  unfold HEADER_SIZE in *. lia.
Qed.

Lemma ep_inv_new src k :
  usable cfg -> within_limits [] -> ep_inv [] (ep_new cfg role src k).
Proof.
  intros Hu Hl. pose proof (usable_buffer Hu) as Hb. destruct Hl as [Hl _]. simpl in Hl.
  split.
  - exists src, k, 0. apply system_start.
  - simpl. rewrite as_i64_id by (unfold is_i64; lia). lia.
  - done.
  - done.
  - pose proof (us_channel _ Hu) as Hch.
    split; cbn [vw_session view_of]; try done.
    + unfold frames_view. simpl. by rewrite bounded_view by lia.
    + left. split; [done|]. unfold frames_view. simpl. by rewrite bounded_view by lia.
    + split; [constructor|]. unfold view_of, ep_queued. simpl.
      rewrite bounded_view by lia. constructor.
    + assert (readers (view_of (ep_new cfg role src k)) = []) as ->.
      { unfold readers, view_of, ep_queued. simpl. by rewrite bounded_view by lia. }
      apply registry_new.
Qed.

Lemma ep_inv_fit h e :
  usable cfg -> within_limits h -> ep_inv h e -> ep_fit e.
Proof.
  intros Hu Hl [(src & k & r & Htr) Ht Hw Hp Hs]. split; try done.
  - destruct (system_trace_session cfg role src k r _ Htr) as [Htt _].
    by eapply token_trace_wf.
  - pose proof (usable_buffer Hu). lia.
  - pose proof (su_capacity _ _ _ _ Hs) as Hc. unfold frames_view in Hc. simpl in Hc.
    unfold buffered. rewrite Hc. apply Hu.
  - apply (su_held _ _ _ _ Hs).
Qed.

(** One operation. *)
Lemma ep_inv_run h op e :
  usable cfg -> roomy op -> within_limits (h ++ (ep_run op e).2) -> ep_inv h e ->
  ep_inv (h ++ (ep_run op e).2) (ep_run op e).1 /\
  moves_all (view_of e) (ep_run op e).2 (view_of (ep_run op e).1).
Proof.
  intros Hu Hroom Hlim Hinv. pose proof (within_prefix _ _ Hlim) as Hlim0.
  pose proof (ep_inv_fit h e Hu Hlim0 Hinv) as Hfit.
  destruct Hinv as [(src & k & r & Htr) Ht Hw Hp Hs].
  assert (Hm : moves_all (view_of e) (ep_run op e).2 (view_of (ep_run op e).1)).
  { apply ep_run_moves; [done|done|]. destruct op; try done.
    pose proof (rg_next _ _ _ _ _ (su_registry _ _ _ _ Hs)) as Hn. simpl in Hn |- *.
    rewrite Hn. destruct Hlim0 as [_ Hids]. unfold initial_id in *. destruct role; lia. }
  split; [|done].
  pose proof (fit_wf _ Hfit) as Hwf. pose proof (fit_tokens _ Hfit) as Htok.
  pose proof (ep_run_system op e) as Hstep.
  split.
  - exists src, k. destruct Hstep as [->|[n Hstep]]; [by exists r|].
    exists (r + n). by eapply system_steps.
  - rewrite load_app. destruct Hlim as [Hb _]. rewrite load_app in Hb.
    pose proof (load_nonneg (ep_run op e).2).
    destruct (ep_run_tokens op e Htok Hw) as [->|(c & Hc & ->)]; [lia|].
    rewrite return_tokens_tokens, as_i64_id; [lia|]. unfold is_i64. lia.
  - destruct Hstep as [->|[n Hstep]]; [done|].
    inversion Hstep as [n' s' Hus E1 E2|cf E1 E2|cf E1 E2|start now E1 E2|src' E1 E2].
    + done.
    + unfold run_recv.
      pose proof (recv_step_waits cf (sys_recv (ep_system e)) (ep_session e)
        (sys_source (ep_system e)) Hwf Htok Hw) as Hw'. unfold ep_session in *.
      by destruct (recv_step _ _ _ _) as [[task s'] src'].
    + unfold run_send. by destruct (send_step _ _ _ _) as [[? ?] ?].
    + unfold run_keep_alive. by destruct (keep_alive_step _ _ _ _) as [? ?].
    + done.
  - assert (Hcfg : s_config (ep_session (ep_run op e).1) = s_config (ep_session e)).
    { pose proof (su_config _ _ _ _ (setup_all _ _ _ _ _ _ Hm Hs)) as H1'.
      pose proof (su_config _ _ _ _ Hs) as H2'. simpl in H1', H2'. congruence. }
    destruct Hstep as [Heq|[n Hstep]].
    + unfold ping_ok, ep_session in *. by rewrite Heq.
    + unfold ping_ok in *. rewrite Hcfg. unfold ep_session in *.
      inversion Hstep as [n' s' Hus E1 E2|cf E1 E2|cf E1 E2|start now E1 E2|src' E1 E2].
      * exact Hp.
      * unfold run_recv. destruct (recv_step _ _ _ _) as [[? ?] ?]. exact Hp.
      * unfold run_send. destruct (send_step _ _ _ _) as [[? ?] ?]. exact Hp.
      * rewrite <- E2 in Hcfg. unfold run_keep_alive in *.
        destruct (keep_alive_step_moves [] [] [] start now (sys_keep_alive (ep_system e))
          (ep_session e) true (fit_buffered _ Hfit) Hp) as [_ Hp'].
        unfold ep_session in *. destruct (keep_alive_step _ _ _ _) as [task s'].
        simpl in *. unfold ping_ok in Hp'. by rewrite Hcfg in Hp'.
      * exact Hp.
  - by eapply setup_all.
Qed.

(** Bytes that arrive change nothing but the source. *)
Definition set_source (src : source) e : Endpoint M :=
  set_system (with_source src (ep_system e)) e.

Lemma ep_inv_source h src e : ep_inv h e -> ep_inv h (set_source src e).
Proof.
  intros [(src0 & k & r & Htr) Ht Hw Hp Hs]. split; try done.
  exists src0, k, (r + 0). eapply system_steps; [done|apply step_arrives].
Qed.
End endpoints.
