(* ===== verification/Duplex.v ===== *)
(** * Two endpoints and the connection between them

    A client and a server joined by a connection that carries bytes both ways.  The
    connection keeps no bytes of its own: what one side has written ([wr_out]) and the
    other side has not been given yet is on its way.  It delivers any part of it at any
    moment, and may break at any moment.  A run is a schedule: the operations of both
    endpoints and the deliveries, in the order in which they happen. *)

From stdpp Require Import strings.
From S2P Require Import Prelude Crates Errors Config Command Frame Codec CodecSpec Runtime.
From S2P Require Import SessionState Stream StreamSpec Session SessionSpec SessionProps.
From S2P Require Import Handshake Delivery Loops LoopsSpec Endpoint EndpointSpec.
From S2P Require Import EndpointMoves Ownership Arrival Emission EndpointInv.

Section duplex.
Context {B : BytesCrate} {F : FlumeCrate} {FL : FlumeLaws F} {N : NotifyCrate}.
Context {R : ReadBufCrate} {RL : ReadBufLaws R}.
Context {D : FramedCrate} {DL : FramedLaws D} {T : IntervalCrate}.
Context {M : Type -> Type} `{FinMap Z M}.
Implicit Types e : Endpoint M.

(** A side: an endpoint, its history, and how much of its output the other side got. *)
Record Side : Type := mkSide {
  sd_endpoint : Endpoint M;
  sd_history : history;
  sd_sent : nat;
}.

Record Duplex : Type := mkDuplex { dx_client : Side; dx_server : Side }.

Definition side_out (x : Side) : bytes :=
  wr_out (writer (sys_sink (ep_system (sd_endpoint x)))).

Definition side_source (x : Side) : source := sys_source (ep_system (sd_endpoint x)).

Definition side_run (op : Op) (x : Side) : Side :=
  let '(e, l) := ep_run op (sd_endpoint x) in mkSide e (sd_history x ++ l) (sd_sent x).

(** At most [n] bytes go from [x] to [y], and the connection may end behind them.  A
    connection that has ended carries nothing more. *)
Definition carry (n : nat) (eof : bool) (x y : Side) : Side * Side :=
  if rd_eof (reader (side_source y)) then (x, y)
  else
    let c := take n (drop (sd_sent x) (side_out x)) in
    (mkSide (sd_endpoint x) (sd_history x) (sd_sent x + length c),
     mkSide (set_source (deliver c eof (side_source y)) (sd_endpoint y)) (sd_history y)
       (sd_sent y)).

Inductive Happens : Type :=
| AtClient (op : Op)
| AtServer (op : Op)
| ToServer (n : nat) (eof : bool)
| ToClient (n : nat) (eof : bool).

Definition dx_step (a : Happens) (d : Duplex) : Duplex :=
  match a with
  | AtClient op => mkDuplex (side_run op (dx_client d)) (dx_server d)
  | AtServer op => mkDuplex (dx_client d) (side_run op (dx_server d))
  | ToServer n eof =>
      let '(c, s) := carry n eof (dx_client d) (dx_server d) in mkDuplex c s
  | ToClient n eof =>
      let '(s, c) := carry n eof (dx_server d) (dx_client d) in mkDuplex c s
  end.

Definition dx_run (schedule : list Happens) (d : Duplex) : Duplex :=
  fold_left (fun d a => dx_step a d) schedule d.

(** A new connection. *)
Definition dx_new (cfg_c cfg_s : Config) (src_c src_s : source) (k_c k_s : sink) : Duplex :=
  mkDuplex (mkSide (ep_new cfg_c true src_c k_c) [] 0)
    (mkSide (ep_new cfg_s false src_s k_s) [] 0).

Definition happens_roomy (a : Happens) : Prop :=
  match a with AtClient op | AtServer op => roomy op | _ => True end.
End duplex.

Arguments Duplex {F N D T} M.
Arguments Side {F N D T} M.

(** ** From one side to the other *)
Section link.
Context {B : BytesCrate} {BL : BytesLaws B}.
Context {F : FlumeCrate} {FL : FlumeLaws F} {N : NotifyCrate} {NL : NotifyLaws N}.
Context {R : ReadBufCrate} {RL : ReadBufLaws R}.
Context {D : FramedCrate} {DL : FramedLaws D} {T : IntervalCrate}.
Context {M : Type -> Type} `{FinMap Z M}.
Implicit Types (e : Endpoint M) (x y : Side M).

Definition side_send_task x : SendTask := sys_send (ep_system (sd_endpoint x)).
Definition side_recv_task x : RecvTask := sys_recv (ep_system (sd_endpoint x)).

(** The sender: what it has written is the frames it took from its channel, as far as
    it got. *)
Record sends_ok (cfg : Config) x : Prop := {
  so_out : side_out x `prefix_of` wire (taken (sd_history x));
  so_sent : (sd_sent x <= length (side_out x))%nat;
  so_task : send_alive (side_send_task x) ->
    send_inv cfg (side_send_task x) (sys_sink (ep_system (sd_endpoint x)))
      (wire (taken (sd_history x)));
}.

(** The receiver: it has handled the first frames, and what it has not decoded, with
    what is on its way, is the others. *)
Definition receives_ok (cfg : Config) x y : Prop :=
  exists rest, taken (sd_history x) = handled (sd_history y) ++ rest /\
    (recv_alive (side_recv_task y) ->
       rd_codec (reader (side_source y)) = codec_new cfg /\
       undecoded (side_source y) ++ drop (sd_sent x) (wire (taken (sd_history x)))
       = wire rest).

(** *** The sender *)
Lemma send_poll_out cfg s k out :
  send_inv cfg SendSending k out ->
  wr_out (writer (send_poll (M := M) s k).2) `prefix_of` out /\
  wr_out (writer k) `prefix_of` wr_out (writer (send_poll (M := M) s k).2).
Proof.
  intros (Hc & Ho & _ & Hf). unfold send_poll.
  assert (Hk : wr_out (writer k) `prefix_of` out).
  { rewrite <- Ho. unfold committed. by apply prefix_app_r. }
  pose proof (poll_send_writer k) as Hs. destruct (poll_send k) as [r k']. simpl in Hs.
  assert (Hw : wr_out (writer k') `prefix_of` out /\
               wr_out (writer k) `prefix_of` wr_out (writer k')).
  { inversion Hs as [E1 Ew|er E1 Ew|f dst r' Hsl He Hr Er Ew|f er dst Hsl He Er Ew|Hsl Er Ew];
      try done.
    - rewrite Hc, encode_encodable in He by (by apply Hf). injection He as <-.
      simpl. split; [|by apply prefix_app_r].
      rewrite <- Ho. unfold committed. by rewrite Hsl.
    - rewrite Hc, encode_encodable in He by (by apply Hf). done. }
  destruct r as [[[]|er|]|]; simpl; try done.
Qed.

Lemma send_step_out cfg cf task s k out :
  send_inv cfg task k out -> send_alive task ->
  Forall (encodable (max_frame_size cfg)) (send_takes (M := M) cf task s) ->
  let k' := (send_step cf task s k).2 in
  wr_out (writer k') `prefix_of` out ++ wire (send_takes cf task s) /\
  wr_out (writer k) `prefix_of` wr_out (writer k').
Proof.
  intros Hinv Ha. cbv zeta.
  assert (Hk : wr_out (writer k) `prefix_of` out).
  { destruct Hinv as (_ & <- & _). unfold committed. by apply prefix_app_r. }
  destruct (send_listens task s) as [close|] eqn:Hl.
  - rewrite (send_step_select _ _ _ _ _ Hl). unfold send_takes. rewrite Hl.
    destruct Hinv as (Hc & Ho & Hs & Hf).
    assert (Hsl : wr_slot (writer k) = None) by (apply Hs; by destruct task).
    assert (Hsame : wr_out (writer k) `prefix_of` out ++ wire [] /\
                    wr_out (writer k) `prefix_of` wr_out (writer k)).
    { unfold wire. simpl. by rewrite app_nil_r. }
    unfold send_select. destruct (_ && _); [done|].
    destruct (recv_async _) as [r c]. simpl fst.
    destruct r as [[f|u|]|]; simpl; try done.
    + intros Hen. apply Forall_cons in Hen as [Hen _].
      destruct (send_poll_out cfg (set_shared (set_frames c (s_shared s)) s)
        (start_send f k) (out ++ wire [f])) as [Hp1 Hp2].
      { unfold send_inv, committed in *. rewrite start_send_writer by done. simpl.
        rewrite Hsl, app_nil_r in Ho. subst out. unfold wire. simpl. rewrite app_nil_r.
        split; [done|]. split; [done|]. split; [done|]. by intros f' [= <-]. }
      split; [done|]. by rewrite start_send_writer in Hp2 by done.
    + intros _. by destruct (is_notified _ _).
  - unfold send_takes. rewrite Hl. intros _. unfold wire; simpl. rewrite app_nil_r.
    destruct task; simpl in Hl, Ha; try done. by apply (send_poll_out cfg).
Qed.

Lemma sends_ok_send cfg cf x :
  sends_ok cfg x ->
  Forall (encodable (max_frame_size cfg))
    (send_takes cf (side_send_task x) (ep_session (sd_endpoint x))) ->
  sends_ok cfg (side_run (OpSend cf) x).
Proof.
  intros [Hout Hsent Htask] Hen.
  assert (Ht : taken (sd_history (side_run (OpSend cf) x))
    = taken (sd_history x) ++ send_takes cf (side_send_task x) (ep_session (sd_endpoint x))).
  { unfold side_run. cbn [ep_run sd_history]. rewrite taken_app. f_equal.
    apply taken_takes. }
  assert (Hk : sys_sink (ep_system (sd_endpoint (side_run (OpSend cf) x)))
    = (send_step cf (side_send_task x) (ep_session (sd_endpoint x))
         (sys_sink (ep_system (sd_endpoint x)))).2 /\
    side_send_task (side_run (OpSend cf) x)
    = (send_step cf (side_send_task x) (ep_session (sd_endpoint x))
         (sys_sink (ep_system (sd_endpoint x)))).1.1).
  { unfold side_run, side_send_task. cbn [ep_run sd_endpoint ep_system set_system].
    unfold run_send, ep_session. by destruct (send_step _ _ _ _) as [[? ?] ?]. }
  destruct Hk as [Hk Htk].
  assert (send_alive (side_send_task x) \/ ~ send_alive (side_send_task x)) as [Ha|Hna]
    by (destruct (side_send_task x); simpl; tauto).
  - destruct (send_step_out cfg cf _ _ _ _ (Htask Ha) Ha Hen) as [Hp1 Hp2].
    pose proof (send_step_inv cfg cf _ _ _ _ (Htask Ha) Ha Hen) as Hinv.
    split.
    + unfold side_out. by rewrite Hk, Ht, wire_app.
    + unfold side_out in *. rewrite Hk. apply prefix_length in Hp2.
      change (sd_sent (side_run (OpSend cf) x)) with (sd_sent x). lia.
    + rewrite Hk, Htk, Ht, wire_app. intros Ha'.
      destruct (send_step _ _ _ _) as [[task' s'] k']. by apply Hinv.
  - assert (Hd : send_step cf (side_send_task x) (ep_session (sd_endpoint x))
                   (sys_sink (ep_system (sd_endpoint x)))
                 = (side_send_task x, ep_session (sd_endpoint x),
                    sys_sink (ep_system (sd_endpoint x))) /\
                 send_takes cf (side_send_task x) (ep_session (sd_endpoint x)) = [])
      by (by destruct (side_send_task x); simpl in Hna).
    destruct Hd as [Hd Hno]. rewrite Hd in Hk, Htk. rewrite Hno, app_nil_r in Ht.
    split; unfold side_out in *; rewrite ?Hk, ?Htk, ?Ht; done.
Qed.

(** Other operations do not touch what the sender depends on. *)
Lemma new_frames_takes s s' : taken (new_frames (M := M) s s') = [].
Proof. apply taken_emits. Qed.

Lemma new_frames_handles s s' : handled (new_frames (M := M) s s') = [].
Proof. apply handled_emits. Qed.

Lemma new_channel_silent id s s' :
  taken (new_channel (M := M) id s s') = [] /\ handled (new_channel (M := M) id s s') = [].
Proof. unfold new_channel. by destruct (Nat.eqb _ _). Qed.

Lemma ep_run_silent op e :
  (match op with OpSend _ => False | _ => True end ->
     sys_sink (ep_system (ep_run op e).1) = sys_sink (ep_system e) /\
     sys_send (ep_system (ep_run op e).1) = sys_send (ep_system e) /\
     taken (ep_run op e).2 = []) /\
  (match op with OpRecv _ => False | _ => True end ->
     sys_source (ep_system (ep_run op e).1) = sys_source (ep_system e) /\
     sys_recv (ep_system (ep_run op e).1) = sys_recv (ep_system e) /\
     handled (ep_run op e).2 = []).
Proof.
  assert (Hdone : forall e' l, ep_system e' = ep_system e \/
      (exists s, ep_system e' = with_session s (ep_system e)) ->
    taken l = [] -> handled l = [] ->
    (sys_sink (ep_system e') = sys_sink (ep_system e) /\
     sys_send (ep_system e') = sys_send (ep_system e) /\ taken l = []) /\
    (sys_source (ep_system e') = sys_source (ep_system e) /\
     sys_recv (ep_system e') = sys_recv (ep_system e) /\ handled l = [])).
  { intros e' l [->|[s ->]]; done. }
  destruct op; unfold ep_run, close_held; op_enabled; cbn [fst snd];
    try (assert (Hskip := Hdone e [] (or_introl eq_refl) eq_refl eq_refl); tauto).
  - destruct (open_stream _ _) as [[r fut] s']. cbn [fst snd].
    edestruct (Hdone (settle_open r fut (set_session s' e))) as [Ht Hh];
      [right; exists s'; by rewrite settle_open_system| | |split; intros _; [exact Ht|exact Hh]];
      rewrite ?taken_app, ?handled_app, ?new_frames_takes, ?new_frames_handles;
      rewrite ?(proj1 (new_channel_silent _ _ _)), ?(proj2 (new_channel_silent _ _ _)); done.
  - destruct (open_stream _ _) as [[r fut] s']. cbn [fst snd].
    edestruct (Hdone (settle_open r fut (set_session s'
        (set_opening (delete i (ep_opening e)) e)))) as [Ht Hh];
      [right; exists s'; by rewrite settle_open_system| | |split; intros _; [exact Ht|exact Hh]];
      by rewrite ?new_frames_takes, ?new_frames_handles.
  - edestruct (Hdone (set_ep_shared (stream_drop st (s_shared (ep_session e)))
        (set_opening (delete i (ep_opening e)) e))) as [Ht Hh];
      [right; by eexists| | |split; intros _; [exact Ht|exact Hh]];
      by rewrite ?new_frames_takes, ?new_frames_handles.
  - destruct (accept_stream _ _ _) as [[r fut'] s']. cbn [fst snd].
    edestruct (Hdone (settle_accept r (set_session s' e))) as [Ht Hh];
      [right; exists s'; by rewrite settle_accept_system| | |split; intros _; [exact Ht|exact Hh]];
      by rewrite ?new_frames_takes, ?new_frames_handles.
  - split; intros _; (split; [done|split; [done|]]);
      rewrite ?taken_app, ?handled_app, ?new_frames_takes, ?new_frames_handles, app_nil_r;
      by destruct (wp_result _) as [[]|].
  - split; intros _; (split; [done|split; [done|]]); apply new_frames_takes || apply new_frames_handles.
  - destruct (close_poll _ _ _) as [[[r fut] st'] sh'].
    split; intros _; (split; [done|split; [done|]]); apply new_frames_takes || apply new_frames_handles.
  - destruct (close_poll _ _ _) as [[[r fut'] st'] sh'].
    split; intros _; (split; [done|split; [done|]]); apply new_frames_takes || apply new_frames_handles.
  - split; intros _; (split; [done|split; [done|]]); apply new_frames_takes || apply new_frames_handles.
  - split; intros Hop; [|done]. unfold run_recv.
    destruct (recv_step _ _ _ _) as [[task s'] src']. split; [done|]. split; [done|].
    rewrite !taken_app, taken_handles, new_frames_takes, app_nil_r. simpl.
    destruct (recv_takes _ _ _ _); [done|]. apply new_channel_silent.
  - split; intros Hop; [done|]. unfold run_send.
    destruct (send_step _ _ _ _) as [[task s'] k']. split; [done|]. split; [done|].
    apply handled_takes.
  - unfold run_keep_alive. destruct (keep_alive_step _ _ _ _) as [task s'].
    split; intros _; (split; [done|split; [done|]]); apply new_frames_takes || apply new_frames_handles.
Qed.
End link.
