(* ===== verification/DuplexSpec.v ===== *)
(** * The invariant of a connection

    In every state of every schedule: each side handles exactly the first frames the
    other side has sent; all frames can be encoded and decoded; and the frames are
    orderly, so that the invariants of both endpoints hold. *)

From stdpp Require Import strings.
From S2P Require Import Prelude Crates Errors Config Command Frame Codec CodecSpec Runtime.
From S2P Require Import SessionState Stream StreamSpec Session SessionSpec SessionProps.
From S2P Require Import Handshake Delivery Loops LoopsSpec Endpoint EndpointSpec.
From S2P Require Import EndpointMoves Ownership Arrival Emission EndpointInv Duplex.

(** ** Lifelines *)
Section lifelines.
Context {B : BytesCrate} {BL : BytesLaws B}.
Context {F : FlumeCrate} {FL : FlumeLaws F} {N : NotifyCrate} {NL : NotifyLaws N}.
Context {R : ReadBufCrate} {RL : ReadBufLaws R}.

Lemma data_frame_cmd id fs f : Forall (is_data_frame id) fs -> f ∈ fs -> cmd f = Psh.
Proof. rewrite Forall_forall. intros Hf Hin. by destruct (Hf f Hin) as [d ->]. Qed.

(** Only the first frame is a SYN, and only the last one a FIN. *)
Lemma lifeline_syn cfg role id fs p f q :
  lifeline cfg role id fs -> fs = p ++ f :: q -> cmd f = Syn ->
  p = [] /\ own_id role id = true.
Proof.
  intros (syn & ps & fin & -> & Hps & Hfin & Hsyn) Heq Hc.
  assert (Hno : f ∉ ps ++ fin).
  { rewrite elem_of_app. intros [Hin|Hin]; [apply (data_frame_cmd _ _ _ Hps) in Hin; congruence|].
    destruct Hfin as [->| ->]; [by apply elem_of_nil in Hin|].
    apply list_elem_of_singleton in Hin. by subst f. }
  destruct Hsyn as [->|[-> ->]]; unfold syn_of in *.
  - destruct (own_id role id).
    + destruct p as [|f' p]; [done|]. simpl in Heq. injection Heq as _ Heq.
      exfalso. apply Hno. rewrite Heq, elem_of_app. right. by left.
    + exfalso. apply Hno. simpl in Heq. rewrite Heq, elem_of_app. right. by left.
  - exfalso. apply Hno. simpl in Heq |- *. rewrite Heq, elem_of_app. right. by left.
Qed.

Lemma lifeline_fin cfg role id fs p f q :
  lifeline cfg role id fs -> fs = p ++ f :: q -> cmd f = Fin -> q = [].
Proof.
  intros (syn & ps & fin & -> & Hps & Hfin & Hsyn) Heq Hc.
  assert (Hno : f ∉ syn ++ ps).
  { rewrite elem_of_app. intros [Hin|Hin]; [|apply (data_frame_cmd _ _ _ Hps) in Hin; congruence].
    destruct Hsyn as [->|[-> _]]; [|by apply elem_of_nil in Hin]. unfold syn_of in Hin.
    destruct (own_id role id); [|by apply elem_of_nil in Hin].
    apply list_elem_of_singleton in Hin. by subst f. }
  rewrite app_assoc in Heq. destruct Hfin as [->| ->].
  - rewrite app_nil_r in Heq. exfalso. apply Hno. rewrite Heq, elem_of_app. right. by left.
  - destruct (exists_last (l := f :: q)) as (q' & g & Hq); [done|].
    rewrite Hq, app_assoc in Heq. apply app_inj_tail in Heq as [Heq <-].
    destruct q' as [|f' q']; [by injection Hq as _ ->|]. injection Hq as <- ->.
    exfalso. apply Hno. rewrite Heq, elem_of_app. right. by left.
Qed.

(** The frames of a stream in a prefix. *)
Lemma of_stream_in id f fs : f ∈ fs -> stream_id f = id -> f ∈ of_stream id fs.
Proof. intros Hin Hid. by apply list_elem_of_filter. Qed.

Lemma psh_data_of_stream id fs : psh_data id (of_stream id fs) = psh_data id fs.
Proof.
  induction fs as [|f fs IH]; [done|]. change (f :: fs) with ([f] ++ fs).
  rewrite of_stream_app, !psh_data_app, IH, of_stream_one. case_decide as Hid; [done|].
  by rewrite psh_data_other.
Qed.

Lemma psh_data_nonempty id fs : psh_data id fs <> [] -> exists f, f ∈ fs /\ is_psh_of id f.
Proof.
  induction fs as [|f fs IH]; [done|]. change (f :: fs) with ([f] ++ fs).
  rewrite psh_data_app, psh_data_one. case_decide as Hf; intros Hne.
  - exists f. split; [by left|done].
  - destruct (IH Hne) as (g & Hg & Hp). exists g. split; [by right|done].
Qed.

Lemma out_syn h f : f ∈ emitted h -> f ∈ out (stream_id f) h.
Proof. intros Hin. by apply of_stream_in. Qed.

Lemma out_registered cfg role h a f :
  emission cfg role h a -> f ∈ emitted h -> stream_id f <> 0 ->
  exists k, (stream_id f, k) ∈ registered h.
Proof.
  intros He Hf Hid. destruct (decide (stream_id f ∈ map fst (registered h))) as [Hin|Hno].
  - apply list_elem_of_fmap in Hin as ([id k] & -> & Hin). eauto.
  - apply out_syn in Hf. rewrite (em_fresh _ _ _ _ He) in Hf; [by apply elem_of_nil in Hf|done|].
    intros k Hk. apply Hno. apply list_elem_of_fmap. by exists (stream_id f, k).
Qed.
End lifelines.

(** ** Frames that come from an endpoint are orderly *)
Section order.
Context {B : BytesCrate} {BL : BytesLaws B}.
Context {F : FlumeCrate} {FL : FlumeLaws F} {N : NotifyCrate} {NL : NotifyLaws N}.
Context {R : ReadBufCrate} {RL : ReadBufLaws R}.
Context {M : Type -> Type} `{FinMap Z M}.
Implicit Types (v w : View M).
Variables (cfg cfg' : Config) (role : bool).

(** The other endpoint: its history [g] and its view [w]. *)
Variables (g : history) (w : View M).
Hypothesis Hsetup : setup cfg' (negb role) g w.
Hypothesis Hflows : flows cfg' (negb role) g w.

Lemma prefix_frame (l1 l2 : list Frame) f : l1 `prefix_of` l2 -> f ∈ l1 -> f ∈ l2.
Proof. intros [k ->] Hin. apply elem_of_app. by left. Qed.

(** A frame handled for an identifier of this endpoint: the endpoint has registered
    it. *)
Lemma handled_own_registered h v f :
  flows cfg role h v -> handled h `prefix_of` emitted g -> handled g `prefix_of` emitted h ->
  f ∈ handled h -> own_id role (stream_id f) = true ->
  exists k, (stream_id f, k) ∈ registered h.
Proof.
  intros Hfl Hhg Hgh Hf Hown. pose proof (own_id_nonzero _ _ Hown) as Hid.
  destruct (out_registered _ _ _ _ _ (fl_emission _ _ _ _ Hflows)
    (prefix_frame _ _ _ Hhg Hf) Hid) as [k Hk].
  destruct (rg_kind _ _ _ _ _ (su_registry _ _ _ _ Hsetup) _ _ Hk)
    as [[Ho _]|(_ & f' & Hf' & _ & Heq)].
  - unfold own_id in Ho, Hown. rewrite negb_involutive in Ho.
    pose proof (own_not_peer role (stream_id f) Hown). congruence.
  - rewrite <- Heq in Hid |- *.
    by apply (out_registered _ _ _ _ _ (fl_emission _ _ _ _ Hfl) (prefix_frame _ _ _ Hgh Hf')).
Qed.

Lemma orderly_register h l1 id k :
  orderly h -> (forall k', (id, k') ∉ registered h) ->
  psh_data id (handled (h ++ l1)) = [] -> registered l1 = [] ->
  orderly (h ++ l1 ++ [Registered id k]).
Proof.
  intros [Ho Hf] Hno Hpsh Hl1. split.
  - rewrite !registered_app, Hl1, map_app. apply NoDup_app. split; [done|].
    split; [|apply NoDup_singleton]. intros i Hi Hi'. simpl in Hi'.
    apply list_elem_of_singleton in Hi'. subst i.
    apply list_elem_of_fmap in Hi as ([id' k'] & Heq & Hi). simpl in Heq. subst id'.
    by apply (Hno k').
  - intros h1 h2 id' k' Heq. rewrite app_assoc in Heq.
    destruct h2 as [|e h2 _] using rev_ind.
    + apply app_inj_tail in Heq as [<- Heq]. by injection Heq as -> ->.
    + change (Registered id' k' :: h2 ++ [e]) with ((Registered id' k' :: h2) ++ [e]) in Heq.
      rewrite app_assoc in Heq. apply app_inj_tail in Heq as [Heq _].
      assert (Hin : (id', k') ∈ registered l1 \/ exists h2', h = h1 ++ Registered id' k' :: h2').
      { apply app_eq_app in Heq as (x & [[Hh Hx]|[Hh Hx]]).
        - destruct x as [|e' x].
          + simpl in Hx. left. rewrite <- Hx, registered_app || rewrite <- Hx.
            change (Registered id' k' :: h2) with ([Registered id' k'] ++ h2).
            rewrite registered_app. by left.
          + right. injection Hx as -> ->. by exists x.
        - left. rewrite Hx, registered_app. apply elem_of_app. right.
          change (Registered id' k' :: h2) with ([Registered id' k'] ++ h2).
          rewrite registered_app. by left. }
      destruct Hin as [Hin|[h2' Hh]]; [rewrite Hl1 in Hin; by apply elem_of_nil in Hin|].
      by apply (Hf h1 h2' id' k').
Qed.

Lemma orderly_silent h l : orderly h -> registered l = [] -> orderly (h ++ l).
Proof.
  intros [Ho Hf] Hl. split; [by rewrite registered_app, Hl, app_nil_r|].
  intros h1 h2 id k Heq.
  apply app_eq_app in Heq as (x & [[Hh Hx]|[Hh Hx]]).
  - destruct x as [|e x].
    + simpl in Hx. exfalso. rewrite <- Hx in Hl. by discriminate Hl.
    + injection Hx as <- Hx. by apply (Hf h1 x id k).
  - exfalso. rewrite Hx, registered_app in Hl. apply app_eq_nil in Hl as [_ Hl].
    by discriminate Hl.
Qed.

Lemma orderly_moves h v l v' :
  moves v l v' -> setup cfg role h v -> flows cfg role h v -> orderly h ->
  handled (h ++ l) `prefix_of` emitted g -> handled g `prefix_of` emitted h ->
  orderly (h ++ l).
Proof.
  intros Hm Hs Hfl Hord Hhg Hgh. pose proof (su_registry _ _ _ _ Hs) as Hreg.
  apply moves_inbound in Hm.
  assert (Hhg0 : handled h `prefix_of` emitted g).
  { rewrite handled_app in Hhg. etransitivity; [|exact Hhg]. by apply prefix_app_r. }
  assert (Hpsh : forall id fs, (forall f, f ∈ fs -> is_psh_of id f -> False) ->
            psh_data id fs = []).
  { intros id fs Hno. destruct (psh_data id fs) as [|b d] eqn:E; [done|]. exfalso.
    destruct (psh_data_nonempty id fs) as (f & Hf & Hp); [congruence|]. by apply (Hno f). }
  destruct Hm as [s' r' l Hin Hss Hids Hp
    |s' r' id Hnx Hss Hr
    |f s' r' id Hcmd Hpid Hno Hids Hss Hr
    |st buf r0 r' Hbuf Hr p Hr'
    |st l s' r' Hin Hrd Hids Hr
    |f s' Hh Hids].
  - apply orderly_silent; [done|apply Hin].
  - assert (Hown : own_id role id = true).
    { unfold id. rewrite (rg_next _ _ _ _ _ Hreg). apply initial_own. }
    assert (Hnew : forall k, (id, k) ∉ registered h).
    { intros k Hk. destruct (rg_kind _ _ _ _ _ Hreg _ _ Hk) as [[_ Hlt]|[Hp _]].
      - unfold id in Hlt. lia.
      - apply own_not_peer in Hown. congruence. }
    apply (orderly_register h [] id); [done|done| |done]. rewrite app_nil_r.
    apply Hpsh. intros f Hf [_ Hid].
    destruct (handled_own_registered h v f Hfl Hhg0 Hgh Hf) as [k Hk]; [by rewrite Hid|].
    rewrite Hid in Hk. by apply (Hnew k).
  - (* the SYN is the first frame of its stream *)
    rewrite (su_role _ _ _ _ Hs) in Hpid.
    assert (Hid0 : id <> 0) by (by eapply peer_id_nonzero).
    assert (Hh : handled (h ++ [Handled f; Registered id (sh_next (s_shared (vw_session v)))])
                 = handled h ++ [f]) by (by autorewrite with history).
    rewrite Hh in Hhg. destruct Hhg as [k0 Hk0].
    pose proof (em_line _ _ _ _ (fl_emission _ _ _ _ Hflows) id Hid0) as Hline.
    assert (Hout : out id g = of_stream id (handled h) ++ f :: of_stream id k0).
    { unfold out. rewrite Hk0, !of_stream_app, of_stream_one, decide_True by done.
      by rewrite <- app_assoc. }
    destruct (lifeline_syn _ _ _ _ _ _ _ Hline Hout Hcmd) as [Hfirst _].
    apply (orderly_register h [Handled f] id); [done| | |done].
    + intros k Hk. destruct (rg_kind _ _ _ _ _ Hreg _ _ Hk)
        as [[Ho _]|(_ & f' & Hf' & _ & Heq)].
      * apply own_not_peer in Ho. congruence.
      * apply (of_stream_in id) in Hf'; [|done]. rewrite Hfirst in Hf'.
        by apply elem_of_nil in Hf'.
    + rewrite handled_app, <- psh_data_of_stream, of_stream_app, Hfirst.
      unfold handled, project. simpl. rewrite of_stream_one, decide_True by done.
      by apply psh_data_cmd; rewrite Hcmd.
  - by apply orderly_silent.
  - apply orderly_silent; [done|apply Hin].
  - by apply orderly_silent.
Qed.

Lemma orderly_all h v l v' :
  moves_all v l v' -> setup cfg role h v -> flows cfg role h v -> orderly h ->
  handled (h ++ l) `prefix_of` emitted g -> handled g `prefix_of` emitted h ->
  orderly (h ++ l).
Proof.
  intros Hm Hs Hfl Hord. induction Hm as [|h1 v1 h2 v2 Hm IH Hm2]; intros Hhg Hgh;
    [by rewrite app_nil_r|].
  rewrite app_assoc in *.
  assert (Hord1 : orderly (h ++ h1)).
  { apply IH; [|done]. rewrite handled_app in Hhg. etransitivity; [|exact Hhg].
    by apply prefix_app_r. }
  eapply orderly_moves; [exact Hm2|by eapply setup_all|by eapply flows_all|done|done|].
  etransitivity; [exact Hgh|]. rewrite emitted_app. by apply prefix_app_r.
Qed.
End order.
