(* ===== verification/DuplexInv.v ===== *)
(** * The invariant of a connection, in every schedule

    [receives_ok] through the steps of both sides and the deliveries between them, the
    joint invariant [pair_inv], and its preservation by whole schedules. *)

From stdpp Require Import strings.
From S2P Require Import Prelude Crates Errors Config Command Frame Codec CodecSpec Runtime.
From S2P Require Import SessionState Stream StreamSpec Session SessionSpec SessionProps.
From S2P Require Import Handshake Delivery Loops LoopsSpec Endpoint EndpointSpec.
From S2P Require Import EndpointMoves Ownership Arrival Emission EndpointInv Duplex DuplexSpec.

Section receiver.
Context {B : BytesCrate} {BL : BytesLaws B}.
Context {F : FlumeCrate} {FL : FlumeLaws F} {N : NotifyCrate} {NL : NotifyLaws N}.
Context {R : ReadBufCrate} {RL : ReadBufLaws R}.
Context {D : FramedCrate} {DL : FramedLaws D} {T : IntervalCrate}.
Context {M : Type -> Type} `{FinMap Z M}.
Implicit Types (e : Endpoint M) (x y : Side M).

(** ** The receiver *)
Lemma side_run_history op x :
  sd_history (side_run op x) = sd_history x ++ (ep_run op (sd_endpoint x)).2.
Proof. unfold side_run. by destruct (ep_run op _). Qed.

Lemma side_run_endpoint op x : sd_endpoint (side_run op x) = (ep_run op (sd_endpoint x)).1.
Proof. unfold side_run. by destruct (ep_run op _). Qed.

Lemma side_run_sent op x : sd_sent (side_run op x) = sd_sent x.
Proof. unfold side_run. by destruct (ep_run op _). Qed.

Lemma sends_ok_wire cfg x :
  sends_ok cfg x -> (sd_sent x <= length (wire (taken (sd_history x))))%nat.
Proof. intros [Ho Hs _]. apply prefix_length in Ho. lia. Qed.

(** The sender takes more frames. *)
Lemma receives_ok_sender cfg cfg' op x y :
  sends_ok cfg x -> receives_ok cfg' x y -> receives_ok cfg' (side_run op x) y.
Proof.
  intros Hs (rest & Htk & Hun). pose proof (sends_ok_wire _ _ Hs) as Hlen.
  exists (rest ++ taken (ep_run op (sd_endpoint x)).2).
  rewrite side_run_history, side_run_sent, taken_app, Htk, app_assoc. split; [done|].
  intros Ha. destruct (Hun Ha) as [Hc Hu]. split; [done|].
  rewrite <- Htk, !wire_app, drop_app_le by done. by rewrite app_assoc, Hu.
Qed.

(** The receiver handles frames. *)
Lemma receives_ok_receiver cfg op x y :
  Forall (encodable (max_frame_size cfg)) (taken (sd_history x)) ->
  receives_ok cfg x y -> receives_ok cfg x (side_run op y).
Proof.
  intros Hen (rest & Htk & Hun).
  assert ((exists cf, op = OpRecv cf) \/ match op with OpRecv _ => False | _ => True end)
    as [[cf ->]|Hop] by (destruct op; eauto).
  - set (t := side_recv_task y). set (s := ep_session (sd_endpoint y)).
    set (src := side_source y).
    assert (Hh : handled (sd_history (side_run (OpRecv cf) y))
                 = handled (sd_history y) ++ recv_takes cf t s src).
    { rewrite side_run_history, handled_app. f_equal. cbn [ep_run snd].
      rewrite !handled_app, handled_handles, new_frames_handles, app_nil_r.
      change (sys_recv _) with t. change (sys_source _) with src.
      change (ep_session (sd_endpoint y)) with s.
      destruct (recv_takes cf t s src) as [|f fs]; [done|].
      by rewrite (proj2 (new_channel_silent _ _ _)), app_nil_r. }
    assert (Hk : side_source (side_run (OpRecv cf) y) = (recv_step cf t s src).2 /\
                 side_recv_task (side_run (OpRecv cf) y) = (recv_step cf t s src).1.1).
    { unfold side_source, side_recv_task. rewrite side_run_endpoint. cbn [ep_run fst].
      unfold run_recv, t, s, src, side_source, side_recv_task, ep_session.
      by destruct (recv_step _ _ _ _) as [[? ?] ?]. }
    destruct Hk as [Hsrc Htask].
    rewrite Htk in Hen. apply Forall_app in Hen as [_ Hen].
    assert (recv_alive t \/ ~ recv_alive t) as [Ha|Hna] by (destruct t; simpl; tauto).
    + destruct (Hun Ha) as [Hc Hu].
      pose proof (recv_step_stream cfg cf t s src _ rest Hc Hen Hu) as Hstep.
      destruct (recv_step cf t s src) as [[t' s'] src']. simpl in Hsrc, Htask.
      destruct Hstep as (rest' & -> & Hstep). exists rest'.
      rewrite Hh, Hsrc, Htask, <- app_assoc. split; [done|]. intros Ha'.
      by destruct (Hstep Ha').
    + exists rest. rewrite Hh, Htask.
      assert (Hno : recv_takes cf t s src = [] /\ (recv_step cf t s src).1.1 = t)
        by (unfold recv_takes; by destruct t; simpl in Hna).
      destruct Hno as [-> ->]. rewrite app_nil_r. done.
  - destruct (proj2 (ep_run_silent op (sd_endpoint y)) Hop) as (Hsrc & Htask & Hh).
    exists rest. unfold side_source, side_recv_task in *.
    rewrite side_run_endpoint, side_run_history, handled_app, Hh, app_nil_r, Hsrc, Htask.
    done.
Qed.

(** ** Deliveries *)
Lemma carry_history n eof x y :
  sd_history (carry n eof x y).1 = sd_history x /\
  sd_history (carry n eof x y).2 = sd_history y.
Proof. unfold carry. by destruct (rd_eof _). Qed.

(** What does not depend on the bytes on their way. *)
Lemma carry_other n eof x y :
  sd_endpoint (carry n eof x y).1 = sd_endpoint x /\
  (sd_endpoint (carry n eof x y).2 = sd_endpoint y \/
   exists src, sd_endpoint (carry n eof x y).2 = set_source src (sd_endpoint y)) /\
  sd_sent (carry n eof x y).2 = sd_sent y.
Proof. unfold carry. destruct (rd_eof _); simpl; eauto. Qed.

Lemma set_source_same src e :
  view_of (set_source src e) = view_of e /\
  sys_sink (ep_system (set_source src e)) = sys_sink (ep_system e) /\
  sys_send (ep_system (set_source src e)) = sys_send (ep_system e) /\
  sys_recv (ep_system (set_source src e)) = sys_recv (ep_system e).
Proof. by destruct e as [[] ? ?]. Qed.

Lemma sends_ok_carry cfg n eof x y :
  sends_ok cfg x -> sends_ok cfg (carry n eof x y).1.
Proof.
  intros Hs. unfold carry. destruct (rd_eof _); [done|]. destruct Hs as [Ho Hl Ht].
  split; try done. simpl. rewrite length_take, length_drop. unfold side_out in *. simpl in *.
  lia.
Qed.

Lemma sends_ok_given cfg n eof x y :
  sends_ok cfg y -> sends_ok cfg (carry n eof x y).2.
Proof. unfold carry. by destruct (rd_eof _); [|intros []]. Qed.

Lemma receives_ok_carry cfg cfg' n eof x y :
  sends_ok cfg x -> receives_ok cfg' x y ->
  receives_ok cfg' (carry n eof x y).1 (carry n eof x y).2.
Proof.
  intros Hs (rest & Htk & Hun). unfold carry.
  destruct (rd_eof _) eqn:He; [by exists rest|].
  exists rest. split; [done|]. cbn [fst snd]. intros Ha.
  assert (Ha0 : recv_alive (side_recv_task y)) by done. destruct (Hun Ha0) as [Hc Hu].
  unfold side_source. cbn [sd_endpoint sd_sent sd_history set_source set_system ep_system
    with_source sys_source].
  rewrite deliver_reader by done. cbn [rd_codec]. split; [done|].
  rewrite <- Hu. unfold undecoded. rewrite deliver_reader by done. cbn [rd_buffer rd_input].
  rewrite concat_app. simpl. rewrite app_nil_r, <- !app_assoc. do 2 f_equal.
  destruct (so_out _ _ Hs) as [k Hk]. rewrite Hk. pose proof (so_sent _ _ Hs) as Hl.
  rewrite !drop_app_le by (rewrite ?length_take, ?length_drop; lia).
  rewrite app_assoc. f_equal. rewrite length_take, length_drop, <- drop_drop.
  transitivity (take n (drop (sd_sent x) (side_out x))
                ++ drop n (drop (sd_sent x) (side_out x))); [|apply take_drop].
  f_equal. destruct (decide (n <= length (side_out x) - sd_sent x)%nat) as [Hn|Hn].
  - by rewrite Nat.min_l.
  - rewrite Nat.min_r by lia. rewrite !drop_ge; [done|..]; rewrite length_drop; lia.
Qed.

Lemma receives_ok_given cfg n eof x y :
  receives_ok cfg y x -> receives_ok cfg (carry n eof x y).2 (carry n eof x y).1.
Proof. unfold carry. destruct (rd_eof _); [done|]. by intros (rest & Htk & Hun); exists rest. Qed.
End receiver.

(** ** The joint invariant *)
Section pair.
Context {B : BytesCrate} {BL : BytesLaws B}.
Context {F : FlumeCrate} {FL : FlumeLaws F} {N : NotifyCrate} {NL : NotifyLaws N}.
Context {R : ReadBufCrate} {RL : ReadBufLaws R}.
Context {D : FramedCrate} {DL : FramedLaws D} {T : IntervalCrate}.
Context {M : Type -> Type} `{FinMap Z M}.
Implicit Types (e : Endpoint M) (x y : Side M).

(** What holds of one side [x], and of the way from it to the other side [y], which is
    configured with [cfg']. *)
Record half (cfg : Config) (role : bool) (cfg' : Config) x y : Prop := {
  ha_ep : ep_inv cfg role (sd_history x) (sd_endpoint x);
  ha_sends : sends_ok cfg x;
  ha_encodable : Forall (encodable (max_frame_size cfg)) (emitted (sd_history x));
  ha_orderly : orderly (sd_history x);
  ha_flows : flows cfg role (sd_history x) (view_of (sd_endpoint x));
  ha_receives : receives_ok cfg' x y;
}.

(** Two sides that understand each other. *)
Record pair_inv (cfg : Config) (role : bool) (cfg' : Config) x y : Prop := {
  pi_there : half cfg role cfg' x y;
  pi_back : half cfg' (negb role) cfg y x;
}.

Lemma pair_inv_sym cfg role cfg' x y :
  pair_inv cfg role cfg' x y -> pair_inv cfg' (negb role) cfg y x.
Proof. intros [Hx Hy]. split; rewrite ?negb_involutive; done. Qed.

Lemma half_taken cfg role cfg' x y :
  half cfg role cfg' x y ->
  taken (sd_history x) `prefix_of` emitted (sd_history x) /\
  handled (sd_history y) `prefix_of` emitted (sd_history x).
Proof.
  intros Hh. pose proof (setup_taken _ _ _ _ (ei_setup _ _ _ _ (ha_ep _ _ _ _ _ Hh))) as Ht.
  split; [done|]. etransitivity; [|exact Ht].
  destruct (ha_receives _ _ _ _ _ Hh) as (rest & -> & _). by apply prefix_app_r.
Qed.

Lemma prefix_Forall {A} (P : A -> Prop) l1 l2 : l1 `prefix_of` l2 -> Forall P l2 -> Forall P l1.
Proof. intros [k ->] Hf. by apply Forall_app in Hf as [? _]. Qed.

Lemma encodable_typed max fs : Forall (encodable max) fs -> Forall frame_typed fs.
Proof. intros Hf. eapply Forall_impl; [exact Hf|]. by intros f []. Qed.

(** What the send loop takes is in the history. *)
Lemma side_sends cfg role cfg' op x y :
  half cfg role cfg' x y ->
  Forall (encodable (max_frame_size cfg)) (taken (sd_history (side_run op x))) ->
  sends_ok cfg (side_run op x).
Proof.
  intros Hx Hen. pose proof (ha_sends _ _ _ _ _ Hx) as Hs.
  assert ((exists cf, op = OpSend cf) \/ match op with OpSend _ => False | _ => True end)
    as [[cf ->]|Hop] by (destruct op; eauto).
  - apply sends_ok_send; [done|]. rewrite side_run_history, taken_app in Hen.
    apply Forall_app in Hen as [_ Hen]. cbn [ep_run snd] in Hen. by rewrite taken_takes in Hen.
  - destruct (proj1 (ep_run_silent op (sd_endpoint x)) Hop) as (Hk & Ht & Htk).
    destruct Hs as [Ho Hl Ha]. unfold side_out, side_send_task in *.
    split; unfold side_out, side_send_task;
      rewrite ?side_run_history, ?side_run_endpoint, ?side_run_sent, ?taken_app, ?Htk, ?Hk,
        ?Ht, ?app_nil_r; done.
Qed.

Section step.
Variables (cfg : Config) (role : bool) (cfg' : Config).
Hypothesis Husable : usable cfg.
Hypothesis Hsize : max_frame_size cfg = max_frame_size cfg'.

(** One operation of one side. *)
Lemma pair_inv_run op x y :
  roomy op -> within_limits cfg role (sd_history (side_run op x)) ->
  pair_inv cfg role cfg' x y -> pair_inv cfg role cfg' (side_run op x) y.
Proof.
  intros Hroom Hlim [Hx Hy].
  destruct (half_taken _ _ _ _ _ Hx) as [_ Hyx]. destruct (half_taken _ _ _ _ _ Hy) as [Hty _].
  pose proof (ha_encodable _ _ _ _ _ Hy) as Heny. rewrite <- Hsize in Heny.
  (* the frames handled come from the other side *)
  assert (Hback : receives_ok cfg y (side_run op x)).
  { apply receives_ok_receiver; [by eapply prefix_Forall|apply (ha_receives _ _ _ _ _ Hy)]. }
  assert (Hh : handled (sd_history (side_run op x)) `prefix_of` emitted (sd_history y)).
  { etransitivity; [|exact Hty]. destruct Hback as (rest & -> & _). by apply prefix_app_r. }
  rewrite side_run_history in Hlim, Hh. pose proof (ha_ep _ _ _ _ _ Hx) as Hep.
  destruct (ep_inv_run cfg role _ op _ Husable Hroom Hlim Hep) as [Hep' Hm].
  pose proof (ei_setup _ _ _ _ Hep) as Hsx. pose proof (ei_setup _ _ _ _ Hep') as Hsx'.
  pose proof (ei_setup _ _ _ _ (ha_ep _ _ _ _ _ Hy)) as Hsy.
  pose proof (ha_flows _ _ _ _ _ Hx) as Hfx. pose proof (ha_flows _ _ _ _ _ Hy) as Hfy.
  set (l := (ep_run op (sd_endpoint x)).2) in *.
  assert (Hord : orderly (sd_history x ++ l)).
  { eapply (orderly_all cfg cfg' role); [exact Hsy|exact Hfy|exact Hm|done..|
      apply (ha_orderly _ _ _ _ _ Hx)|done|done]. }
  assert (Hids : good_ids (sd_history x ++ l)).
  { eapply good_ids_setup; [exact Hsx'| |destruct Hlim; lia].
    eapply encodable_typed, prefix_Forall; done. }
  assert (Henx : Forall (encodable (max_frame_size cfg)) (emitted (sd_history x ++ l))).
  { rewrite emitted_app. apply Forall_app. split; [apply (ha_encodable _ _ _ _ _ Hx)|].
    exact (emitted_all cfg role _ _ _ _ Husable Hsx Hids Hm). }
  split.
  - split; rewrite ?side_run_history, ?side_run_endpoint; try done.
    + eapply side_sends; [exact Hx|]. rewrite side_run_history.
      eapply prefix_Forall; [|exact Henx]. eapply setup_taken; exact Hsx'.
    + by eapply flows_all.
    + eapply receives_ok_sender; [exact (ha_sends _ _ _ _ _ Hx)|].
      apply (ha_receives _ _ _ _ _ Hx).
  - destruct Hy. by split.
Qed.

(** A delivery. *)
Lemma pair_inv_carry n eof x y :
  pair_inv cfg role cfg' x y ->
  pair_inv cfg role cfg' (carry n eof x y).1 (carry n eof x y).2.
Proof.
  intros [Hx Hy]. destruct (carry_history n eof x y) as [Hhx Hhy].
  destruct (carry_other n eof x y) as (Hex & Hey & _). split.
  - destruct Hx. split; rewrite ?Hhx, ?Hex; try done.
    + by apply sends_ok_carry.
    + by eapply receives_ok_carry.
  - destruct Hy as [Hep Hs Hen Hord Hfl Hrc]. split; rewrite ?Hhy; try done.
    + destruct Hey as [->|[src ->]]; [done|]. by apply ep_inv_source.
    + by apply sends_ok_given.
    + destruct Hey as [->|[src ->]]; [done|].
      by rewrite (proj1 (set_source_same src (sd_endpoint y))).
    + by apply receives_ok_given.
Qed.
End step.

(** *** Whole schedules *)
Definition pair_ok (cfg_c cfg_s : Config) (d : Duplex M) : Prop :=
  pair_inv cfg_c true cfg_s (dx_client d) (dx_server d).

(** Nothing has happened on a transport yet. *)
Definition fresh_source (cfg : Config) (src : source) : Prop :=
  rd_codec (reader src) = codec_new cfg /\ undecoded src = [].

Definition fresh_sink (cfg : Config) (k : sink) : Prop :=
  writer k = mkWriter (codec_new cfg) None [].

Lemma half_new cfg role cfg' src k src' k' :
  usable cfg -> within_limits cfg role [] -> fresh_sink cfg k -> fresh_source cfg' src' ->
  half cfg role cfg' (mkSide (ep_new (M := M) cfg role src k) [] 0)
    (mkSide (ep_new cfg' (negb role) src' k') [] 0).
Proof.
  intros Hu Hl Hk [Hsc Hsu]. pose proof (ep_inv_new cfg role src k Hu Hl) as Hep.
  pose proof (us_channel _ Hu) as Hch.
  assert (Hv : readers (view_of (ep_new (M := M) cfg role src k)) = [] /\
               actors (view_of (ep_new (M := M) cfg role src k)) = []).
  { unfold readers, actors, view_of, ep_queued. simpl. by rewrite bounded_view by lia. }
  destruct Hv as [Hr Ha]. split; try done.
  - split; unfold side_out; cbn; rewrite ?Hk; try done.
    intros _. unfold send_inv, committed. rewrite Hk.
    split; [done|]. split; [done|]. split; [done|]. intros f Hf. by rewrite Hk in Hf.
  - apply orderly_new.
  - split; [by intros id c Hin%elem_of_nil|]. cbn [sd_history sd_endpoint]. rewrite Ha.
    apply emission_new.
  - exists []. split; [done|]. intros _. split; [done|]. cbn. rewrite app_nil_r. exact Hsu.
Qed.

(** Histories only grow. *)
Lemma dx_step_grows a (d : Duplex M) :
  (exists l, sd_history (dx_client (dx_step a d)) = sd_history (dx_client d) ++ l) /\
  (exists l, sd_history (dx_server (dx_step a d)) = sd_history (dx_server d) ++ l).
Proof.
  destruct a as [op|op|n eof|n eof]; simpl; rewrite ?side_run_history.
  - split; [by eexists|exists []; by rewrite app_nil_r].
  - split; [exists []; by rewrite app_nil_r|by eexists].
  - pose proof (carry_history n eof (dx_client d) (dx_server d)) as [<- <-].
    destruct (carry _ _ _ _). split; exists []; by rewrite app_nil_r.
  - pose proof (carry_history n eof (dx_server d) (dx_client d)) as [<- <-].
    destruct (carry _ _ _ _). split; exists []; by rewrite app_nil_r.
Qed.

Lemma dx_run_grows sched (d : Duplex M) :
  (exists l, sd_history (dx_client (dx_run sched d)) = sd_history (dx_client d) ++ l) /\
  (exists l, sd_history (dx_server (dx_run sched d)) = sd_history (dx_server d) ++ l).
Proof.
  revert d. induction sched as [|a sched IH]; intros d; simpl.
  - split; exists []; by rewrite app_nil_r.
  - destruct (IH (dx_step a d)) as [[l1 ->] [l2 ->]].
    destruct (dx_step_grows a d) as [[l3 ->] [l4 ->]].
    split; eexists; by rewrite <- app_assoc.
Qed.

Section schedules.
Variables (cfg_c cfg_s : Config).
Hypothesis Hclient : usable cfg_c.
Hypothesis Hserver : usable cfg_s.
Hypothesis Hsize : max_frame_size cfg_c = max_frame_size cfg_s.

Definition duplex_limits (d : Duplex M) : Prop :=
  within_limits cfg_c true (sd_history (dx_client d)) /\
  within_limits cfg_s false (sd_history (dx_server d)).

Lemma duplex_limits_before sched d : duplex_limits (dx_run sched d) -> duplex_limits d.
Proof.
  destruct (dx_run_grows sched d) as [[l1 Hc] [l2 Hs]]. unfold duplex_limits.
  rewrite Hc, Hs. intros [Hlc Hls]. split; by eapply within_prefix.
Qed.

Lemma pair_ok_step a d :
  happens_roomy a -> duplex_limits (dx_step a d) -> pair_ok cfg_c cfg_s d ->
  pair_ok cfg_c cfg_s (dx_step a d).
Proof.
  intros Hroom [Hlc Hls] Hp. unfold pair_ok in *.
  assert (Hback : forall c s, pair_inv cfg_s false cfg_c s c -> pair_inv cfg_c true cfg_s c s)
    by (intros c s; apply pair_inv_sym).
  pose proof (pair_inv_sym _ _ _ _ _ Hp) as Hp'.
  destruct a as [op|op|n eof|n eof]; simpl in *.
  - by apply pair_inv_run.
  - apply Hback. by apply pair_inv_run.
  - pose proof (pair_inv_carry cfg_c true cfg_s n eof _ _ Hp) as Hc. by destruct (carry _ _ _ _).
  - apply Hback. pose proof (pair_inv_carry cfg_s false cfg_c n eof _ _ Hp') as Hc.
    by destruct (carry _ _ _ _).
Qed.

Lemma pair_ok_run sched d :
  Forall happens_roomy sched -> duplex_limits (dx_run sched d) -> pair_ok cfg_c cfg_s d ->
  pair_ok cfg_c cfg_s (dx_run sched d).
Proof.
  revert d. induction sched as [|a sched IH]; intros d Hroom Hl Hp; [done|].
  apply Forall_cons in Hroom as [Ha Hroom]. simpl in *. apply IH; [done|done|].
  apply pair_ok_step; [done| |done]. by eapply duplex_limits_before.
Qed.

Lemma pair_ok_new src_c src_s k_c k_s :
  duplex_limits (dx_new (M := M) cfg_c cfg_s src_c src_s k_c k_s) ->
  fresh_source cfg_c src_c -> fresh_source cfg_s src_s ->
  fresh_sink cfg_c k_c -> fresh_sink cfg_s k_s ->
  pair_ok cfg_c cfg_s (dx_new cfg_c cfg_s src_c src_s k_c k_s).
Proof.
  intros [Hlc Hls] Hsc Hss Hkc Hks. split.
  - by apply (half_new cfg_c true).
  - by apply (half_new cfg_s false).
Qed.
End schedules.
End pair.
