(* ===== verification/DuplexProps.v ===== *)
(** * What a connection of two endpoints guarantees

    The properties of two endpoints of this library that talk to each other over a
    connection that carries bytes in order, loses none before it breaks, and breaks at
    any moment.  They hold for every schedule of users, tasks and deliveries in which reads
    give room, as long as the counters have not run out, between endpoints whose
    configurations are compatible. *)

From stdpp Require Import strings.
From S2P Require Import Prelude Crates Errors Config Command Frame Codec CodecSpec Runtime.
From S2P Require Import SessionState Stream StreamSpec Session SessionSpec SessionProps.
From S2P Require Import Handshake Delivery Loops LoopsSpec Endpoint EndpointSpec.
From S2P Require Import EndpointMoves Ownership Arrival Emission EndpointInv Duplex DuplexSpec.
From S2P Require Import DuplexInv.

(** ** Reachable connections *)
Section facing.
Context {B : BytesCrate} {F : FlumeCrate} {FL : FlumeLaws F} {N : NotifyCrate}.
Context {R : ReadBufCrate} {RL : ReadBufLaws R}.
Context {D : FramedCrate} {DL : FramedLaws D} {T : IntervalCrate}.
Context {M : Type -> Type} `{FinMap Z M}.

(** Two configurations that understand each other: each side accepts the frames of the
    other. *)
Record compatible (cfg_c cfg_s : Config) : Prop := {
  co_client : usable cfg_c;
  co_server : usable cfg_s;
  co_size : max_frame_size cfg_c = max_frame_size cfg_s;
}.

(** What some schedule makes of a new connection, within the limits of the counters. *)
Definition reachable (cfg_c cfg_s : Config) (d : Duplex M) : Prop :=
  exists src_c src_s k_c k_s sched,
    fresh_source cfg_c src_c /\ fresh_source cfg_s src_s /\
    fresh_sink cfg_c k_c /\ fresh_sink cfg_s k_s /\
    Forall happens_roomy sched /\ duplex_limits cfg_c cfg_s d /\
    d = dx_run sched (dx_new cfg_c cfg_s src_c src_s k_c k_s).

(** A connection that has just been made. *)
Definition new_connection (cfg_c cfg_s : Config) (d : Duplex M) : Prop :=
  exists src_c src_s k_c k_s,
    fresh_source cfg_c src_c /\ fresh_source cfg_s src_s /\
    fresh_sink cfg_c k_c /\ fresh_sink cfg_s k_s /\
    d = dx_new cfg_c cfg_s src_c src_s k_c k_s.

(** Every read of the schedule, of any stream at either side, gives room: a read without
    room can lose bytes ([empty_read_discards_chunk]). *)
Definition reads_give_room (sched : list Happens) : Prop := Forall happens_roomy sched.

(** The connection after the schedule: its counters have not run out. *)
Definition counters_last (cfg_c cfg_s : Config) (sched : list Happens) (d0 : Duplex M) : Prop :=
  duplex_limits cfg_c cfg_s (dx_run sched d0).

Lemma run_reachable cfg_c cfg_s sched d0 :
  new_connection cfg_c cfg_s d0 -> reads_give_room sched ->
  counters_last cfg_c cfg_s sched d0 -> reachable cfg_c cfg_s (dx_run sched d0).
Proof.
  intros (src_c & src_s & k_c & k_s & ? & ? & ? & ? & ->) Hr Hl.
  by exists src_c, src_s, k_c, k_s, sched.
Qed.

(** [x], of role [role], and the side [y] it talks to. *)
Definition facing (d : Duplex M) (role : bool) (x y : Side M) : Prop :=
  if role then x = dx_client d /\ y = dx_server d
  else x = dx_server d /\ y = dx_client d.
End facing.

(** ** Nothing on its way

    The send loop of [x] has taken every frame of its channel, all the bytes are with
    [y], and the receive loop of [y] waits for more. *)
Section resting.
Context {B : BytesCrate} {F : FlumeCrate} {FL : FlumeLaws F} {N : NotifyCrate}.
Context {R : ReadBufCrate} {RL : ReadBufLaws R}.
Context {D : FramedCrate} {DL : FramedLaws D} {T : IntervalCrate}.
Context {M : Type -> Type} `{FinMap Z M}.

Record resting (x y : Side M) : Prop := {
  re_sending : sending (side_send_task x) = true;
  re_queue : frame_queue (ep_session (sd_endpoint x)) = [];
  re_sent : sd_sent x = length (wire (taken (sd_history x)));
  re_receiving : recv_alive (side_recv_task y);
  re_decoded : undecoded (side_source y) = [];
}.
End resting.

(** ** Shared lemmas *)
Section lemmas.
Context {B : BytesCrate} {BL : BytesLaws B}.
Context {F : FlumeCrate} {FL : FlumeLaws F} {N : NotifyCrate} {NL : NotifyLaws N}.
Context {R : ReadBufCrate} {RL : ReadBufLaws R}.
Context {D : FramedCrate} {DL : FramedLaws D} {T : IntervalCrate}.
Context {M : Type -> Type} `{FinMap Z M}.
Implicit Types (e : Endpoint M) (x y : Side M) (d : Duplex M).

Lemma reachable_pair cfg_c cfg_s d :
  compatible cfg_c cfg_s -> reachable cfg_c cfg_s d -> pair_ok cfg_c cfg_s d.
Proof.
  intros [Hc Hs Hsz] (src_c & src_s & k_c & k_s & sched & Hsc & Hss & Hkc & Hks & Hroom & Hl & ->).
  apply pair_ok_run; try done. apply pair_ok_new; try done.
  by eapply duplex_limits_before.
Qed.

Lemma facing_pair cfg_c cfg_s d role x y :
  compatible cfg_c cfg_s -> reachable cfg_c cfg_s d -> facing d role x y ->
  exists cfg cfg', pair_inv cfg role cfg' x y /\ usable cfg /\
    max_frame_size cfg = max_frame_size cfg'.
Proof.
  intros Hco Hr Hf. pose proof (reachable_pair _ _ _ Hco Hr) as Hp.
  destruct Hco as [Hc Hs Hsz].
  destruct role; destruct Hf as [-> ->]; [by exists cfg_c, cfg_s|].
  exists cfg_s, cfg_c. split; [|done]. by apply (pair_inv_sym cfg_c true).
Qed.

(** A handler accepts its frame, unless it is a SYN it has to refuse. *)
Lemma handle_frame_accepts f (s : Session M) :
  session_wf s -> 0 < tokens (session_state s) ->
  (cmd f = Syn -> peer_id (s_is_client s) (stream_id f) = true /\
     s_streams s !! stream_id f = None) ->
  (handle_frame f s).1 = Done (Ok tt) \/ exists fut, (handle_frame f s).1 = Await fut.
Proof.
  intros Hwf Ht Hsyn. unfold handle_frame. destruct (cmd f) eqn:Hc; try (by left).
  - destruct (Hsyn eq_refl) as [Hp Hno]. pose proof (handle_syn_spec f s Hwf Hc) as Hs.
    destruct (handle_syn_frame f s) as [h s']. destruct Hs as [Ha _]. unfold answers, spec_result in Ha.
    rewrite Hc, Hp in Ha. unfold inbox in Ha. rewrite Hno in Ha. simpl in Ha |- *.
    destruct Ha as [->|(_ & _ & st & ->)]; eauto.
  - unfold handle_fin_frame. destruct (_ !! _); by left.
  - pose proof (handle_psh_spec f s Hwf Hc Ht) as Hs.
    destruct (handle_psh_frame f s) as [h s']. destruct Hs as [Ha _]. unfold answers, spec_result in Ha.
    rewrite Hc in Ha. destruct Ha as [->|(Hc' & _)]; [by left|done].
Qed.

Section sides.
Variables (cfg cfg' : Config) (role : bool) (x y : Side M).
Hypothesis Hpair : pair_inv cfg role cfg' x y.


Lemma side_setup :
  setup cfg role (sd_history x) (view_of (sd_endpoint x)) /\
  setup cfg' (negb role) (sd_history y) (view_of (sd_endpoint y)).
Proof. destruct Hpair as [[] []]. split; by eapply ei_setup. Qed.

Lemma side_handled : handled (sd_history x) `prefix_of` emitted (sd_history y).
Proof. destruct Hpair as [_ Hy]. by apply (half_taken _ _ _ _ _ Hy). Qed.

(** Data that has arrived was written by the other side. *)
Lemma arrived_written id : psh_data id (handled (sd_history x)) `prefix_of` wrote id (sd_history y).
Proof.
  destruct side_setup as [_ Hsy]. rewrite (su_wrote _ _ _ _ Hsy).
  destruct side_handled as [l ->]. rewrite psh_data_app. by apply prefix_app_r.
Qed.

Lemma registered_nonzero id k : (id, k) ∈ registered (sd_history x) -> id <> 0.
Proof.
  intros Hin. destruct side_setup as [Hsx _].
  destruct (rg_kind _ _ _ _ _ (su_registry _ _ _ _ Hsx) id k Hin) as [[Ho _]|[Hp _]].
  - by eapply own_id_nonzero.
  - by eapply peer_id_nonzero.
Qed.

(** What came before the FIN is everything. *)
Lemma fin_complete id p f q :
  id <> 0 -> handled (sd_history x) = p ++ f :: q -> cmd f = Fin -> stream_id f = id ->
  psh_data id p = wrote id (sd_history y).
Proof.
  intros Hid Hh Hc Hf. destruct side_setup as [_ Hsy]. rewrite (su_wrote _ _ _ _ Hsy).
  destruct side_handled as [l Hl]. rewrite Hh, <- app_assoc in Hl. simpl in Hl.
  destruct Hpair as [_ [_ _ _ _ [_ He] _]].
  pose proof (em_line _ _ _ _ He id Hid) as Hline.
  assert (Hout : out id (sd_history y) = of_stream id p ++ f :: of_stream id (q ++ l)).
  { unfold out. rewrite Hl. change (f :: q ++ l) with ([f] ++ (q ++ l)).
    by rewrite !of_stream_app, of_stream_one, decide_True by done. }
  pose proof (lifeline_fin _ _ _ _ _ _ _ Hline Hout Hc) as Hnil.
  rewrite <- (psh_data_of_stream id p), <- (psh_data_of_stream id (emitted (sd_history y))).
  fold (out id (sd_history y)). rewrite Hout, Hnil, psh_data_app, psh_data_cmd by (by rewrite Hc).
  by rewrite app_nil_r.
Qed.

(** A SYN is the first frame of its stream, and comes from the side that opens it. *)
Lemma syn_first p f q :
  (p ++ f :: q) `prefix_of` emitted (sd_history y) -> cmd f = Syn ->
  stream_id f <> 0 /\ of_stream (stream_id f) p = [] /\
  peer_id role (stream_id f) = true.
Proof.
  intros [l Hl] Hc. rewrite <- app_assoc in Hl. simpl in Hl.
  destruct Hpair as [_ [_ _ Hen _ [_ He] _]].
  assert (Hid : stream_id f <> 0).
  { rewrite Forall_forall in Hen. destruct (Hen f) as [_ Hv _ _].
    { rewrite Hl, elem_of_app. right. by left. }
    intros H0'. apply (valid_stream_id _ _ Hv) in H0'. congruence. }
  pose proof (em_line _ _ _ _ He _ Hid) as Hline.
  assert (Hout : out (stream_id f) (sd_history y)
                 = of_stream (stream_id f) p ++ f :: of_stream (stream_id f) (q ++ l)).
  { unfold out. rewrite Hl. change (f :: q ++ l) with ([f] ++ (q ++ l)).
    by rewrite !of_stream_app, of_stream_one, decide_True by done. }
  destruct (lifeline_syn _ _ _ _ _ _ _ Hline Hout Hc) as [-> Hown].
  split; [done|]. split; [done|]. unfold own_id in Hown. by rewrite negb_involutive in Hown.
Qed.

(** A stream a user of [x] holds: its arrivals, and what it can still read. *)
Lemma held_arrived i st :
  free_stream i (sd_endpoint x) = Some st ->
  let s := ep_session (sd_endpoint x) in
  (st_stream_id st, st_data_rx st) ∈ registered (sd_history x) /\
  exists a, arrived (sd_history x) s (readers (view_of (sd_endpoint x))) (st_stream_id st)
              (st_data_rx st) a /\
    readable st (s_shared s) /\ receivers (chan s (st_data_rx st)) = 1%nat /\
    st_is_read_closed st = false /\
    a = delivered (st_data_rx st) (sd_history x) ++ unread st (s_shared s).
Proof.
  intros Hfree s. apply free_stream_held in Hfree as Hheld.
  assert (Hin : reader_of st ∈ readers (view_of (sd_endpoint x))).
  { rewrite readers_actors. apply list_elem_of_fmap. exists (mkHeld st None, false).
    split; [done|]. unfold actors. apply elem_of_app. left. apply list_elem_of_fmap.
    exists (mkHeld st None). split; [done|]. by eapply list_elem_of_lookup_2. }
  destruct side_setup as [Hsx _].
  destruct (rg_streams _ _ _ _ _ (su_registry _ _ _ _ Hsx) _ Hin) as (Hk & _ & Hrc).
  simpl in Hk, Hrc. split; [done|].
  destruct Hpair as [[_ _ _ _ [Ha _] _] _].
  destruct (Ha _ _ Hk) as [a Har]. exists a. split; [done|].
  destruct (ar_unread _ _ _ _ _ _ Har (reader_of st) Hin eq_refl) as (Hrd & Hrec & Heq).
  split; [by destruct Hrd|]. split; [done|]. split; [done|]. exact Heq.
Qed.

(** The frame the receive loop takes next comes from the other side. *)
Lemma takes_from_peer cf :
  max_frame_size cfg = max_frame_size cfg' ->
  handled (sd_history x) ++ recv_takes cf (side_recv_task x) (ep_session (sd_endpoint x))
                  (side_source x) `prefix_of` emitted (sd_history y).
Proof.
  intros Hsz. destruct Hpair as [_ Hy]. destruct (half_taken _ _ _ _ _ Hy) as [Ht _].
  assert (Hen : Forall (encodable (max_frame_size cfg)) (taken (sd_history y))).
  { rewrite Hsz. eapply prefix_Forall; [exact Ht|]. apply Hy. }
  etransitivity; [|exact Ht].
  destruct (receives_ok_receiver cfg (OpRecv cf) y x Hen (ha_receives _ _ _ _ _ Hy))
    as (rest & -> & _).
  rewrite side_run_history, handled_app. cbn [ep_run snd].
  rewrite !handled_app, handled_handles, new_frames_handles, app_nil_r.
  change (sys_recv _) with (side_recv_task x). change (sys_source _) with (side_source x).
  destruct (recv_takes _ _ _ _) as [|f fs]; [rewrite !app_nil_r; by apply prefix_app_r|].
  rewrite (proj2 (new_channel_silent _ _ _)), app_nil_r. by apply prefix_app_r.
Qed.

(** Nothing on its way: everything has been handled. *)
Lemma resting_handled : resting y x -> handled (sd_history x) = emitted (sd_history y).
Proof.
  intros [Hsend Hq Hsent Ha Hd]. destruct side_setup as [_ Hsy].
  destruct (pi_back _ _ _ _ _ Hpair) as [_ _ _ _ _ (rest & Htk & Hun)].
  destruct (Hun Ha) as [_ Hw]. rewrite Hd, Hsent, drop_all in Hw. simpl in Hw.
  assert (rest = []) as ->.
  { destruct rest as [|f rest]; [done|]. rewrite wire_cons in Hw.
    pose proof (blen_frame_bytes f) as Hl. apply (f_equal blen) in Hw.
    rewrite blen_app in Hw. pose proof (blen_nonneg (wire rest)). rewrite blen_nil in Hw.
    pose proof (blen_nonneg (frame_payload f)). unfold HEADER_SIZE in *. lia. }
  rewrite app_nil_r in Htk. rewrite <- Htk.
  destruct (su_link _ _ _ _ Hsy) as [(_ & _ & He)|(Hno & _)].
  - rewrite He. unfold frames_view.
    change (queue _) with (frame_queue (ep_session (sd_endpoint y))).
    by rewrite Hq, app_nil_r.
  - change (vw_sending _) with (sending (side_send_task y)) in Hno. congruence.
Qed.

Lemma resting_delivered i st :
  resting y x -> free_stream i (sd_endpoint x) = Some st ->
  delivered (st_data_rx st) (sd_history x)
    ++ unread st (s_shared (ep_session (sd_endpoint x)))
  = wrote (st_stream_id st) (sd_history y).
Proof.
  intros Hrest Hfree. pose proof (resting_handled Hrest) as Hall.
  destruct side_setup as [_ Hsy].
  destruct (held_arrived i st Hfree) as (Hin & a & Har & Hrd & Hrec & Hrc & Ha).
  rewrite <- Ha.
  destruct (ar_end _ _ _ _ _ _ Har) as [(e & _ & _ & ->)|[Hz|(_ & p & f & q & Hh & Hc & Hid & ->)]].
  - rewrite Hall. by rewrite (su_wrote _ _ _ _ Hsy).
  - congruence.
  - eapply fin_complete; [by eapply registered_nonzero|done..].
Qed.

(** A stream a user of [x] holds can be read in order. *)
Lemma held_readable i st :
  free_stream i (sd_endpoint x) = Some st ->
  readable st (s_shared (ep_session (sd_endpoint x))) /\ st_is_read_closed st = false.
Proof.
  intros Hfree. by destruct (held_arrived i st Hfree) as (_ & a & _ & Hrd & _ & Hrc & _).
Qed.
End sides.
End lemmas.

(** ** Properties *)
Section properties.
Context {B : BytesCrate} {BL : BytesLaws B}.
Context {F : FlumeCrate} {FL : FlumeLaws F} {N : NotifyCrate} {NL : NotifyLaws N}.
Context {R : ReadBufCrate} {RL : ReadBufLaws R}.
Context {D : FramedCrate} {DL : FramedLaws D} {T : IntervalCrate}.
Context {M : Type -> Type} `{FinMap Z M}.
Variables (cfg_c cfg_s : Config) (d : Duplex M) (role : bool) (x y : Side M).

(** C9: the frames one side has handled are the first frames the other side has sent, in
    the order in which it sent them: none is lost, changed, repeated or overtaken before
    the connection breaks.  What a side has written to the connection is the encoding of
    the first frames it has queued. *)
Theorem connection_in_order :
  compatible cfg_c cfg_s -> reachable cfg_c cfg_s d -> facing d role x y ->
  handled (sd_history x) `prefix_of` emitted (sd_history y) /\
  taken (sd_history y) `prefix_of` emitted (sd_history y) /\
  side_out y `prefix_of` wire (taken (sd_history y)).
Proof.
  intros Hco Hr Hf. destruct (facing_pair _ _ _ _ _ _ Hco Hr Hf) as (cfg & cfg' & Hp & _ & _).
  destruct (pi_back _ _ _ _ _ Hp). split; [by eapply side_handled|].
  split; [|by apply so_out with cfg']. eapply setup_taken. by eapply ei_setup.
Qed.

(** C12: every stream the other side opened exists there: a stream that is registered for a
    peer's identifier was registered by the peer under the same identifier before, which
    is one of the peer's own; and no side registers an identifier twice. *)
Theorem streams_are_matched id k :
  compatible cfg_c cfg_s -> reachable cfg_c cfg_s d -> facing d role x y ->
  (id, k) ∈ registered (sd_history x) ->
  NoDup (map fst (registered (sd_history x))) /\
  (own_id role id = true \/
   own_id (negb role) id = true /\ exists k', (id, k') ∈ registered (sd_history y)).
Proof.
  intros Hco Hr Hf Hin. destruct (facing_pair _ _ _ _ _ _ Hco Hr Hf) as (cfg & cfg' & Hp & _ & _).
  split; [apply (ha_orderly _ _ _ _ _ (pi_there _ _ _ _ _ Hp))|].
  destruct (side_setup _ _ _ _ _ Hp) as [Hsx _].
  destruct (rg_kind _ _ _ _ _ (su_registry _ _ _ _ Hsx) id k Hin)
    as [[Ho _]|(Hpid & f & Hfh & _ & <-)]; [by left|right].
  split; [unfold own_id; by rewrite negb_involutive|].
  eapply out_registered; [apply (ha_flows _ _ _ _ _ (pi_back _ _ _ _ _ Hp))| |].
  - eapply prefix_frame; [by eapply side_handled|done].
  - by eapply registered_nonzero.
Qed.

(** C10: two endpoints never find fault with each other.  Each frame that comes in is
    handled without an error (a SYN may wait for room in the accept queue), and the codec
    never fails on what comes in: only the transport itself can. *)
Theorem no_protocol_errors cf :
  compatible cfg_c cfg_s -> reachable cfg_c cfg_s d -> facing d role x y ->
  let s := ep_session (sd_endpoint x) in
  (forall f, recv_takes cf (side_recv_task x) s (side_source x) = [f] ->
     let h := (handle_frame f (update_state mark_data_received s)).1 in
     h = Done (Ok tt) \/ exists fut, h = Await fut) /\
  (forall e, recv_alive (side_recv_task x) ->
     (poll_next (side_source x)).1 = Ready (Some (Err e)) -> exists io, e = Io io).
Proof.
  intros Hco Hr Hf s.
  destruct (facing_pair _ _ _ _ _ _ Hco Hr Hf) as (cfg & cfg' & Hp & Hu & Hsz). split.
  - intros f Htk h. pose proof (takes_from_peer _ _ _ _ _ Hp cf Hsz) as Hpre.
    fold s in Hpre. rewrite Htk in Hpre.
    destruct (side_setup _ _ _ _ _ Hp) as [Hsx _].
    destruct (ei_trace _ _ _ _ (ha_ep _ _ _ _ _ (pi_there _ _ _ _ _ Hp)))
      as (src & k & n & Htr).
    destruct (system_trace_session _ _ _ _ _ _ Htr) as [Htt _].
    pose proof (token_trace_wf _ _ _ _ Htt) as Hwf. change (sys_session _) with s in Hwf.
    apply handle_frame_accepts; [by apply update_state_wf| |].
    + destruct (ei_tokens _ _ _ _ (ha_ep _ _ _ _ _ (pi_there _ _ _ _ _ Hp))) as [Hlow _].
      fold s in Hlow. pose proof (usable_buffer cfg Hu).
      change (0 < tokens (session_state s)). lia.
    + intros Hc. destruct (syn_first _ _ _ _ _ Hp _ f [] Hpre Hc) as (Hid & Hfirst & Hpid).
      pose proof (su_role _ _ _ _ Hsx) as Hrole. change (vw_session _) with s in Hrole.
      change (s_is_client _) with (s_is_client s). rewrite Hrole. split; [done|].
      change (s_streams _) with (s_streams s).
      destruct (s_streams s !! stream_id f) as [e|] eqn:He; [exfalso|done].
      pose proof (rg_entry _ _ _ _ _ (su_registry _ _ _ _ Hsx) _ e He) as Hin.
      destruct (rg_kind _ _ _ _ _ (su_registry _ _ _ _ Hsx) _ _ Hin)
        as [[Ho _]|(_ & f' & Hf' & _ & Hid')].
      * apply own_not_peer in Ho. congruence.
      * apply (of_stream_in (stream_id f)) in Hf'; [|done]. rewrite Hfirst in Hf'.
        by apply elem_of_nil in Hf'.
  - intros e Ha He. destruct (pi_back _ _ _ _ _ Hp) as [Hep _ Hen _ _ (rest & Htk & Hun)].
    destruct (Hun Ha) as [Hc Hu'].
    assert (Hrest : Forall (encodable (max_frame_size cfg)) rest).
    { rewrite Hsz. eapply (prefix_Forall _ (taken (sd_history y))) in Hen;
        [|eapply setup_taken; by eapply ei_setup].
      rewrite Htk in Hen. by apply Forall_app in Hen as [_ ?]. }
    pose proof (poll_next_stream cfg _ _ _ Hc Hrest Hu') as Hp'.
    destruct (poll_next (side_source x)) as [r src']. simpl in He. subst r.
    destruct Hp' as [(f & fs' & ? & _)|[(? & _)|([?|[io Hio]] & _)]]; try done.
    exists io. congruence.
Qed.

(** C11: the frames an endpoint sends are well typed, valid, and short enough for its own
    codec and its peer's; so are those it handles.  For each stream they are a SYN, if the
    endpoint opened the stream, then data, then at most one FIN: a stream is not reused,
    data never comes before the SYN or after the FIN. *)
Theorem frames_well_typed id :
  compatible cfg_c cfg_s -> reachable cfg_c cfg_s d -> facing d role x y ->
  let cfg := if role then cfg_c else cfg_s in
  Forall (encodable (max_frame_size cfg)) (emitted (sd_history x)) /\
  Forall (encodable (max_frame_size cfg)) (handled (sd_history x)) /\
  (id <> 0 -> lifeline cfg role id (of_stream id (emitted (sd_history x)))).
Proof.
  intros Hco Hr Hf cfg. pose proof (reachable_pair _ _ _ Hco Hr) as Hp.
  assert (exists cfg', pair_inv cfg role cfg' x y /\ max_frame_size cfg = max_frame_size cfg')
    as (cfg' & Hp' & Hsz).
  { pose proof (co_size _ _ Hco) as Hsz. subst cfg.
    destruct role; destruct Hf as [-> ->]; [by exists cfg_s|]. exists cfg_c.
    split; [|done]. by apply (pair_inv_sym cfg_c true). }
  split; [apply Hp'|]. split.
  - eapply prefix_Forall; [by eapply side_handled|]. rewrite Hsz. apply Hp'.
  - intros Hid. destruct Hp' as [[_ _ _ _ [_ He] _] _]. by apply (em_line _ _ _ _ He).
Qed.
End properties.

(** ** Delivery, over every schedule

    A new connection of compatible endpoints, run by any schedule of users, tasks and
    deliveries in which the reads give room, within the limits of the counters. *)
Section delivery.
Context {B : BytesCrate} {BL : BytesLaws B}.
Context {F : FlumeCrate} {FL : FlumeLaws F} {N : NotifyCrate} {NL : NotifyLaws N}.
Context {R : ReadBufCrate} {RL : ReadBufLaws R}.
Context {D : FramedCrate} {DL : FramedLaws D} {T : IntervalCrate}.
Context {M : Type -> Type} `{FinMap Z M}.
Variables (cfg_c cfg_s : Config) (d0 : Duplex M) (sched : list Happens).
Variables (role : bool) (x y : Side M).

(** C1: what the reader of a stream has got, over all its reads, is the beginning of what
    the writer at the other end has had accepted for that stream, over all its writes:
    the same bytes in the same order, for every stream separately, however the streams,
    the tasks and the deliveries interleave.  The conditions: the configurations are
    compatible, every read of the schedule gives room, and the counters have not run
    out. *)
Theorem stream_integrity id k :
  compatible cfg_c cfg_s -> new_connection cfg_c cfg_s d0 -> reads_give_room sched ->
  counters_last cfg_c cfg_s sched d0 -> facing (dx_run sched d0) role x y ->
  (id, k) ∈ registered (sd_history x) ->
  delivered k (sd_history x) `prefix_of` wrote id (sd_history y).
Proof.
  intros Hco Hnew Hroom Hlim Hf Hin. pose proof (run_reachable _ _ _ _ Hnew Hroom Hlim) as Hr.
  destruct (facing_pair _ _ _ _ _ _ Hco Hr Hf) as (cfg & cfg' & Hp & _ & _).
  destruct (fl_arrivals _ _ _ _ (ha_flows _ _ _ _ _ (pi_there _ _ _ _ _ Hp)) _ _ Hin) as [a Ha].
  etransitivity; [apply (ar_read _ _ _ _ _ _ Ha)|].
  etransitivity; [apply (ar_sent _ _ _ _ _ _ Ha)|]. by eapply arrived_written.
Qed.

(** C2: end of file means that everything has been read.  When a read of an open session,
    with room in its buffer, returns without having copied anything, what the reader has
    got over all its reads is exactly what the writer at the other end has written.  The
    conditions are those of [stream_integrity]: among them, every earlier read of the
    schedule gave room too. *)
Theorem eof_is_complete i st buf :
  compatible cfg_c cfg_s -> new_connection cfg_c cfg_s d0 -> reads_give_room sched ->
  counters_last cfg_c cfg_s sched d0 -> facing (dx_run sched d0) role x y ->
  free_stream i (sd_endpoint x) = Some st ->
  let s := ep_session (sd_endpoint x) in
  session_is_closed s = false -> 0 < remaining buf ->
  rp_result (poll_read st (s_shared s) buf) = Ready (Ok tt) ->
  filled (rp_buf (poll_read st (s_shared s) buf)) = filled buf ->
  delivered (st_data_rx st) (sd_history x) = wrote (st_stream_id st) (sd_history y).
Proof.
  intros Hco Hnew Hroom Hlim Hf Hfree s Hcl Hbuf Hres Hfill.
  pose proof (run_reachable _ _ _ _ Hnew Hroom Hlim) as Hr.
  destruct (facing_pair _ _ _ _ _ _ Hco Hr Hf) as (cfg & cfg' & Hp & _ & _).
  destruct (held_arrived _ _ _ _ _ Hp i st Hfree) as (Hin & a & Har & Hrd & Hrec & Hrc & Ha).
  fold s in Hrd, Hrec, Ha, Har.
  assert (Hopen : read_open st (s_shared s)) by done.
  assert (Hun : unread st (s_shared s) = []).
  { destruct (decide (unread st (s_shared s) = [])) as [|Hne]; [done|].
    destruct (poll_read_delivers st _ buf Hopen Hrd Hbuf Hne) as (d' & Hd & _ & Hdel).
    rewrite (del_filled _ _ _ _ _ Hdel) in Hfill.
    apply (f_equal length) in Hfill. rewrite length_app in Hfill.
    by destruct d'; [|simpl in Hfill; lia]. }
  destruct (unread_nil _ _ Hrd Hun) as [Hch Hq].
  assert (Hno : ~ peer_open st (s_shared s)).
  { intros Hpo. destruct (poll_read_empty st _ buf Hopen Hch Hq Hpo) as [Hpend _]. congruence. }
  rewrite Hun, app_nil_r in Ha. rewrite <- Ha.
  destruct (ar_end _ _ _ _ _ _ Har) as [(e & He & Hk & _)|[Hz|(_ & p & f & q & Hh & Hc & Hid & ->)]].
  - destruct (side_setup _ _ _ _ _ Hp) as [Hsx _].
    pose proof (rg_sender _ _ _ _ _ (su_registry _ _ _ _ Hsx) _ e He) as Hone.
    exfalso. apply Hno. unfold peer_open. change (senders (chan s (st_data_rx st)) <> 0%nat).
    rewrite <- Hk. cbn [vw_session view_of] in Hone. fold s in Hone. by rewrite Hone.
  - congruence.
  - eapply fin_complete; [exact Hp|by eapply registered_nonzero|done..].
Qed.

(** C3: nothing is lost on a connection that does not break.  When the frame channel of one
    side is empty, its bytes are all with the other side, and the other side's receive
    loop waits for more, every frame has been handled.  What a stream's reader there has
    got, with what is buffered for it, is then all that has been written; and if the
    session there is open, it can have the rest without waiting: any reads with room, as
    many as bytes are buffered, bring it exactly that.  The conditions are those of
    [stream_integrity]. *)
Theorem resting_means_delivered :
  compatible cfg_c cfg_s -> new_connection cfg_c cfg_s d0 -> reads_give_room sched ->
  counters_last cfg_c cfg_s sched d0 -> facing (dx_run sched d0) role x y ->
  resting y x ->
  handled (sd_history x) = emitted (sd_history y) /\
  forall i st, free_stream i (sd_endpoint x) = Some st ->
    let s := ep_session (sd_endpoint x) in
    let got := delivered (st_data_rx st) (sd_history x) in
    let written := wrote (st_stream_id st) (sd_history y) in
    got ++ unread st (s_shared s) = written /\
    forall bufs, session_is_closed s = false -> Forall fresh_buf bufs ->
      blen (unread st (s_shared s)) <= Z.of_nat (length bufs) ->
      got ++ received (read_all bufs st (s_shared s)).1.1 = written.
Proof.
  intros Hco Hnew Hroom Hlim Hf Hrest. pose proof (run_reachable _ _ _ _ Hnew Hroom Hlim) as Hr.
  destruct (facing_pair _ _ _ _ _ _ Hco Hr Hf) as (cfg & cfg' & Hp & _ & _).
  split; [by eapply resting_handled|]. intros i st Hfree s got written.
  assert (Hall : got ++ unread st (s_shared s) = written) by (by eapply resting_delivered).
  split; [done|]. intros bufs Hopen Hbufs Hlen. rewrite <- Hall. f_equal.
  destruct (held_readable _ _ _ _ _ Hp i st Hfree) as [Hread Hrc]. fold s in Hread.
  by apply read_all_everything.
Qed.
End delivery.

(** ** A sample connection

    The client opens a stream, writes five bytes in two frames and shuts the stream down;
    the server accepts the stream and reads until the end.  The SYN arrives in two
    pieces. *)
Section sample.
Definition sample_endpoint_source : source :=
  mkReader (codec_new small_config) [] [] false.

Definition sample_start : Duplex (gmap Z) :=
  dx_new small_config small_config sample_endpoint_source sample_endpoint_source
    (mkWriter (codec_new small_config) None [], false)
    (mkWriter (codec_new small_config) None [], false).

Definition sample_schedule : list Happens :=
  [ AtClient OpOpen; AtClient (OpSend false); ToServer 3 false; AtServer (OpRecv true);
    ToServer 100 false; AtServer (OpRecv false); AtServer (OpAccept false AcceptStart);
    AtClient (OpWrite 0 b5); AtClient (OpWrite 0 (drop 4 b5));
    AtClient (OpSend false); AtClient (OpSend false); ToServer 100 false;
    AtServer (OpRecv false); AtServer (OpRead 0 (empty_buf 3)); AtServer (OpRecv false);
    AtServer (OpRead 0 (empty_buf 8)); AtServer (OpRead 0 (empty_buf 8));
    AtClient (OpShutdown 0); AtClient (OpSend false); ToServer 100 false;
    AtServer (OpRecv false) ].

Definition sample_duplex (n : nat) : Duplex (gmap Z) := dx_run (take n sample_schedule) sample_start.

Lemma small_compatible : compatible small_config small_config.
Proof.
  assert (usable small_config); [|by split].
  split; [apply config_validate_valid; reflexivity|split; repeat split; vm_compute; congruence
         |vm_compute; split; congruence|vm_compute; congruence].
Qed.

Lemma sample_new_connection : new_connection small_config small_config sample_start.
Proof.
  by exists sample_endpoint_source, sample_endpoint_source,
    (mkWriter (codec_new small_config) None [], false),
    (mkWriter (codec_new small_config) None [], false).
Qed.

Lemma sample_roomy n : reads_give_room (take n sample_schedule).
Proof. apply Forall_take. repeat constructor; vm_compute; congruence. Qed.

Lemma sample_counters n :
  counters_last small_config small_config (take n sample_schedule) sample_start.
Proof.
  apply (duplex_limits_before _ _ (drop n sample_schedule)).
  unfold dx_run at 1 2. rewrite <- fold_left_app, take_drop.
  split; split; vm_compute; congruence.
Qed.

Lemma sample_reachable n : reachable small_config small_config (sample_duplex n).
Proof. exact (run_reachable _ _ _ _ sample_new_connection (sample_roomy n) (sample_counters n)). Qed.

Lemma connection_in_order_witness :
  emitted (sd_history (dx_client (sample_duplex 11)))
    = [new_syn 1 1; new_psh 1 1 (take 4 b5); new_psh 1 1 (drop 4 b5)] /\
  handled (sd_history (dx_server (sample_duplex 11)))
    `prefix_of` emitted (sd_history (dx_client (sample_duplex 11))).
Proof.
  split; [vm_compute; reflexivity|].
  apply (connection_in_order small_config small_config (sample_duplex 11) false
           (dx_server (sample_duplex 11)) (dx_client (sample_duplex 11)) small_compatible
           (sample_reachable 11) (conj eq_refl eq_refl)).
Defined.

Lemma stream_integrity_witness :
  delivered 0 (sd_history (dx_server (sample_duplex 14))) = take 3 b5 /\
  delivered 0 (sd_history (dx_server (sample_duplex 14)))
    `prefix_of` wrote 1 (sd_history (dx_client (sample_duplex 14))).
Proof.
  split; [vm_compute; reflexivity|].
  apply (stream_integrity small_config small_config sample_start (take 14 sample_schedule) false
           (dx_server (sample_duplex 14)) (dx_client (sample_duplex 14)) 1 0 small_compatible
           sample_new_connection (sample_roomy 14) (sample_counters 14) (conj eq_refl eq_refl)).
  vm_compute. left.
Defined.

Definition sample_held (d : Duplex (gmap Z)) : Stream :=
  match free_stream 0 (sd_endpoint (dx_server d)) with
  | Some st => st
  | None => stream_new 0 0 small_config
  end.

Lemma eof_is_complete_witness :
  delivered 0 (sd_history (dx_server (sample_duplex 21)))
    = wrote 1 (sd_history (dx_client (sample_duplex 21))) /\
  wrote 1 (sd_history (dx_client (sample_duplex 21))) = b5.
Proof.
  split; [|vm_compute; reflexivity].
  apply (eof_is_complete small_config small_config sample_start (take 21 sample_schedule) false
           (dx_server (sample_duplex 21)) (dx_client (sample_duplex 21)) 0
           (sample_held (sample_duplex 21)) (empty_buf 8) small_compatible
           sample_new_connection (sample_roomy 21) (sample_counters 21) (conj eq_refl eq_refl)); vm_compute; reflexivity.
Defined.

Lemma streams_are_matched_witness :
  exists k', (1, k') ∈ registered (sd_history (dx_client (sample_duplex 6))).
Proof.
  destruct (streams_are_matched small_config small_config (sample_duplex 6) false
           (dx_server (sample_duplex 6)) (dx_client (sample_duplex 6)) 1 0 small_compatible
           (sample_reachable 6) (conj eq_refl eq_refl)) as [_ [Ho|[_ Hk]]].
  - vm_compute. left.
  - vm_compute in Ho. discriminate.
  - exact Hk.
Defined.

Lemma no_protocol_errors_witness :
  let s := ep_session (sd_endpoint (dx_server (sample_duplex 5))) in
  let h := (handle_frame (new_syn 1 1) (update_state mark_data_received s)).1 in
  h = Done (Ok tt) \/ exists fut, h = Await fut.
Proof.
  apply (no_protocol_errors small_config small_config (sample_duplex 5) false
           (dx_server (sample_duplex 5)) (dx_client (sample_duplex 5)) false small_compatible
           (sample_reachable 5) (conj eq_refl eq_refl)).
  vm_compute. reflexivity.
Defined.

(** Three of five bytes have been read, and two are buffered. *)
Lemma resting_means_delivered_witness :
  let s := ep_session (sd_endpoint (dx_server (sample_duplex 15))) in
  let rest := received (read_all [empty_buf 8; empty_buf 8] (sample_held (sample_duplex 15))
                          (s_shared s)).1.1 in
  delivered 0 (sd_history (dx_server (sample_duplex 15))) = take 3 b5 /\
  delivered 0 (sd_history (dx_server (sample_duplex 15))) ++ rest
    = wrote 1 (sd_history (dx_client (sample_duplex 15))) /\
  handled (sd_history (dx_server (sample_duplex 15)))
    = emitted (sd_history (dx_client (sample_duplex 15))).
Proof.
  split; [vm_compute; reflexivity|].
  destruct (resting_means_delivered small_config small_config sample_start
              (take 15 sample_schedule) false
              (dx_server (sample_duplex 15)) (dx_client (sample_duplex 15)) small_compatible
              sample_new_connection (sample_roomy 15) (sample_counters 15)
              (conj eq_refl eq_refl)) as [Hall Hread].
  - split; vm_compute; reflexivity || exact I.
  - split; [|exact Hall].
    destruct (Hread 0%nat (sample_held (sample_duplex 15))) as [_ Hrest];
      [vm_compute; reflexivity|].
    apply (Hrest [empty_buf 8; empty_buf 8]).
    + vm_compute. reflexivity.
    + repeat constructor.
    + vm_compute. congruence.
Defined.

Lemma frames_well_typed_witness :
  lifeline small_config true 1
    (of_stream 1 (emitted (sd_history (dx_client (sample_duplex 21))))).
Proof.
  apply (frames_well_typed small_config small_config (sample_duplex 21) true
           (dx_client (sample_duplex 21)) (dx_server (sample_duplex 21)) 1 small_compatible
           (sample_reachable 21) (conj eq_refl eq_refl)).
  congruence.
Defined.
End sample.
