(* ===== verification/DuplexDrain.v ===== *)
(** * A connection never gets stuck

    From every state of a connection that is still up, with room in the accept queue, the
    tasks alone bring everything that was sent to the other side: the send loop empties
    the frame channel, the transport delivers the bytes, the receive loop handles the
    frames. *)

From stdpp Require Import strings.
From S2P Require Import Prelude Crates Errors Config Command Frame Codec CodecSpec Runtime.
From S2P Require Import SessionState Stream StreamSpec Session SessionSpec SessionProps.
From S2P Require Import Handshake Delivery Loops LoopsSpec Endpoint EndpointSpec.
From S2P Require Import EndpointMoves Ownership Arrival Emission EndpointInv Duplex DuplexSpec.
From S2P Require Import DuplexInv DuplexProps.

(** A transport that takes what it is given, as long as its state is [good]. *)
Definition prompt {B : BytesCrate} {D : FramedCrate} (good : sink -> Prop) : Prop :=
  forall k, good k ->
    (forall f, good (start_send f k)) /\ good (poll_send k).2 /\
    (poll_send k).1 <> Pending /\ (forall e, (poll_send k).1 <> Ready (Err (Io e))).

(** ** The send loop *)
Section drain_sends.
Context {B : BytesCrate} {BL : BytesLaws B}.
Context {F : FlumeCrate} {FL : FlumeLaws F} {N : NotifyCrate} {NL : NotifyLaws N}.
Context {R : ReadBufCrate} {RL : ReadBufLaws R}.
Context {D : FramedCrate} {DL : FramedLaws D} {T : IntervalCrate}.
Context {M : Type -> Type} `{FinMap Z M}.
Implicit Types (x y : Side M) (s : Session M).
Variable good : sink -> Prop.
Hypothesis Hprompt : prompt good.

Definition side_good y : Prop := good (sys_sink (ep_system (sd_endpoint y))).
Definition side_queue y : list Frame := frame_queue (ep_session (sd_endpoint y)).

(** What a send loop has to do: the frames of its channel, and the one it is sending. *)
Definition sending_now (task : SendTask) : nat :=
  match task with SendSending => 1 | _ => 0 end.
Definition to_send y : nat := sending_now (side_send_task y) + length (side_queue y).

Lemma send_poll_prompt cfg s k out :
  send_inv cfg SendSending k out -> good k ->
  send_poll (M := M) s k = (SendLoop, s, (poll_send k).2) /\ good (poll_send k).2.
Proof.
  intros (Hc & _ & _ & Hf) Hk. destruct (Hprompt k Hk) as (_ & Hg & Hp & Hio).
  split; [|done]. pose proof (poll_send_writer k) as Hs. unfold send_poll.
  destruct (poll_send k) as [r k']. simpl in *. clear Hg.
  inversion Hs as [E1 E2|er E1 E2|f dst r' Hsl He Hr E1 E2|f er dst Hsl He E1 E2|Hsl E1 E2];
    subst; try done.
  - by destruct (Hio er).
  - destruct Hr as [->|[->|[er ->]]]; [done|done|by destruct (Hio er)].
  - rewrite Hc, encode_encodable in He by (by apply Hf). done.
Qed.

(** One poll, when there is something to do: the loop gets on with it. *)
Lemma send_once cfg task s k out :
  send_inv cfg task k out -> send_alive task -> good k ->
  (0 < sending_now task + length (frame_queue s))%nat ->
  Forall (encodable (max_frame_size cfg)) (frame_queue s) ->
  let '(task', s', k') := send_step false task s k in
  task' = SendLoop /\ good k' /\
  length (frame_queue s') = pred (sending_now task + length (frame_queue s)).
Proof.
  intros Hinv Ha Hk Hn Hen.
  destruct (send_listens task s) as [close|] eqn:Hl.
  - assert (Hz : sending_now task = 0%nat) by (by destruct task).
    rewrite (send_step_select _ _ _ _ _ Hl), Hz in *. unfold send_select. simpl andb.
    destruct (frame_queue s) as [|f q] eqn:Hq; [simpl in Hn; lia|].
    destruct (recv_async_ok _ f q _ Hq) as [Hr Hv].
    destruct (recv_async _) as [r c]. simpl in Hr, Hv. subst r.
    set (s1 := set_shared (set_frames c (s_shared s)) s).
    destruct (Hprompt k Hk) as (Hstart & _).
    assert (Hinv' : send_inv cfg SendSending (start_send f k) (out ++ wire [f])).
    { destruct Hinv as (Hc & Ho & Hs & _).
      assert (Hsl : wr_slot (writer k) = None) by (apply Hs; by destruct task).
      unfold send_inv, committed in *. rewrite start_send_writer by done. simpl.
      rewrite Hsl, app_nil_r in Ho. subst out. unfold wire. simpl. rewrite app_nil_r.
      split; [done|]. split; [done|]. split; [done|].
      intros f' [= <-]. by apply Forall_cons in Hen as [? _]. }
    destruct (send_poll_prompt cfg s1 _ _ Hinv' (Hstart f)) as [-> Hg].
    split; [done|]. split; [done|]. unfold frame_queue, s1. simpl. by rewrite Hv.
  - destruct task; simpl in Hl, Ha; try done. cbn [send_step].
    destruct (send_poll_prompt cfg s k out Hinv Hk) as [-> Hg]. done.
Qed.

(** [n] polls of the send loop. *)
Definition sends_n (n : nat) y : Side M := Nat.iter n (side_run (OpSend false)) y.

Lemma takes_silent fs :
  load (map Taken fs) = 0 /\ registered (map Taken fs) = [] /\ emitted (map Taken fs) = [].
Proof. induction fs as [|f fs IH]; [done|exact IH]. Qed.

Lemma within_takes cfg role h fs :
  within_limits cfg role h -> within_limits cfg role (h ++ map Taken fs).
Proof.
  intros [Hb Hi].
  destruct (takes_silent fs) as (Hload & Hr & _).
  split; [rewrite load_app; lia|]. rewrite opens_app. unfold opens at 2. rewrite Hr.
  rewrite Nat.add_0_r. exact Hi.
Qed.

(** The sides as they are after polling the send loop. *)
Lemma side_run_send cfg role cfg' x y :
  usable cfg -> max_frame_size cfg = max_frame_size cfg' ->
  pair_inv cfg role cfg' y x -> within_limits cfg role (sd_history y) ->
  let y' := side_run (OpSend false) y in
  pair_inv cfg role cfg' y' x /\ within_limits cfg role (sd_history y') /\
  emitted (sd_history y') = emitted (sd_history y).
Proof.
  intros Hu Hsz Hp Hl y'.
  assert (Hh : sd_history y' = sd_history y
    ++ map Taken (send_takes false (side_send_task y) (ep_session (sd_endpoint y))))
    by (unfold y'; by rewrite side_run_history).
  assert (Hl' : within_limits cfg role (sd_history y')) by (rewrite Hh; by apply within_takes).
  split; [by apply pair_inv_run|]. split; [done|]. rewrite Hh, emitted_app.
  by rewrite (proj2 (proj2 (takes_silent _))), app_nil_r.
Qed.

Lemma drain_sends cfg role cfg' n x y :
  usable cfg -> max_frame_size cfg = max_frame_size cfg' ->
  pair_inv cfg role cfg' y x -> within_limits cfg role (sd_history y) ->
  send_alive (side_send_task y) -> side_good y -> to_send y = n ->
  let y' := sends_n n y in
  pair_inv cfg role cfg' y' x /\ within_limits cfg role (sd_history y') /\
  emitted (sd_history y') = emitted (sd_history y) /\
  send_alive (side_send_task y') /\ to_send y' = 0%nat.
Proof.
  intros Hu Hsz. revert y. induction n as [|n IH]; intros y Hp Hl Ha Hg Hn; [done|].
  cbv zeta. unfold sends_n. rewrite Nat.iter_succ_r. fold (sends_n n (side_run (OpSend false) y)).
  destruct (side_run_send _ _ _ _ _ Hu Hsz Hp Hl) as (Hp' & Hl' & He).
  pose proof (ha_sends _ _ _ _ _ (pi_there _ _ _ _ _ Hp)) as Hs.
  destruct (side_setup _ _ _ _ _ Hp) as [Hsy _].
  assert (Hen : Forall (encodable (max_frame_size cfg)) (side_queue y)).
  { pose proof (ha_encodable _ _ _ _ _ (pi_there _ _ _ _ _ Hp)) as Hen.
    destruct (su_link _ _ _ _ Hsy) as [(_ & _ & Hq)|(Hno & _)].
    - rewrite Hq in Hen. by apply Forall_app in Hen as [_ ?].
    - change (vw_sending _) with (sending (side_send_task y)) in Hno.
      by destruct (side_send_task y). }
  pose proof (send_once cfg _ (ep_session (sd_endpoint y)) _ _ (so_task _ _ Hs Ha) Ha Hg) as Hone.
  assert (Hk : forall t s' k', send_step false (side_send_task y) (ep_session (sd_endpoint y))
      (sys_sink (ep_system (sd_endpoint y))) = (t, s', k') ->
    side_send_task (side_run (OpSend false) y) = t /\
    ep_session (sd_endpoint (side_run (OpSend false) y)) = s' /\
    sys_sink (ep_system (sd_endpoint (side_run (OpSend false) y))) = k').
  { intros t s' k' Heq. unfold side_send_task, ep_session. rewrite side_run_endpoint.
    cbn [ep_run fst set_system ep_system]. unfold run_send.
    unfold side_send_task, ep_session in Heq. by rewrite Heq. }
  destruct (send_step _ _ _ _) as [[t s'] k'].
  destruct (Hk t s' k' eq_refl) as (Ht & Hss & Hkk).
  unfold to_send, side_queue in Hn. destruct Hone as (-> & Hg' & Hlen); [lia|done|].
  edestruct (IH (side_run (OpSend false) y)) as (Hp2 & Hl2 & He2 & Ha2 & Hn2); try done.
  - by rewrite Ht.
  - unfold side_good. by rewrite Hkk.
  - unfold to_send, side_queue. rewrite Ht, Hss. simpl. lia.
  - rewrite He in He2. done.
Qed.
End drain_sends.

(** ** The receive loop *)
Section drain_receives.
Context {B : BytesCrate} {BL : BytesLaws B}.
Context {F : FlumeCrate} {FL : FlumeLaws F} {N : NotifyCrate} {NL : NotifyLaws N}.
Context {R : ReadBufCrate} {RL : ReadBufLaws R}.
Context {D : FramedCrate} {DL : FramedLaws D} {T : IntervalCrate}.
Context {M : Type -> Type} `{FinMap Z M}.
Implicit Types (x y : Side M) (s : Session M).

(** The loop waits for the transport. *)
Definition recv_waits (task : RecvTask) : Prop :=
  match task with RecvLoop | RecvSelect _ => True | _ => False end.

Definition receives_n (n : nat) x : Side M := Nat.iter n (side_run (OpRecv false)) x.

(** One poll, when the bytes of the next frame are there. *)
Lemma recv_once cfg task s src f fs :
  recv_waits task -> rd_codec (reader src) = codec_new cfg ->
  Forall (encodable (max_frame_size cfg)) (f :: fs) -> undecoded src = wire (f :: fs) ->
  session_wf s -> 0 < tokens (session_state s) -> waiting s + is_syn f <= 16 ->
  let '(task', s', src') := recv_step false task s src in
  recv_takes false task s src = [f] /\ task' = RecvLoop /\ undecoded src' = wire fs /\
  rd_eof (reader src') = rd_eof (reader src) /\ waiting s' <= waiting s + is_syn f.
Proof.
  intros Ht Hc Hen Hu Hwf Htok Hw.
  assert (exists close, recv_listens task s = Some close) as [close Hl]
    by (destruct task; try done; by eexists).
  pose proof (poll_next_stream cfg src [] _ Hc Hen) as Hp. rewrite app_nil_r in Hp.
  specialize (Hp Hu). rewrite (recv_step_select _ _ _ _ _ Hl). unfold recv_takes, recv_select.
  rewrite Hl. simpl andb. cbv iota. destruct (poll_next src) as [r src'].
  destruct Hp as [(f' & fs' & -> & Heq & Hu' & _ & He)|[(_ & _ & _ & _ & _ & Hend)|(_ & _ & Hend)]];
    [|by discriminate (Hend eq_refl)|by discriminate (Hend eq_refl)].
  injection Heq as <- <-. rewrite app_nil_r in Hu'.
  set (s1 := update_state mark_data_received s).
  assert (Hwf1 : session_wf s1) by (by apply update_state_wf).
  destruct (handle_frame_room f s1 Hwf1 Htok Hw) as [(r & Hr & Hno) Hw1].
  destruct (handle_frame f s1) as [h s2]. simpl in Hr, Hw1. subst h.
  split; [done|]. split; [by destruct r|]. done.
Qed.

(** What a poll of the receive loop adds to a history. *)
Lemma recv_history x f :
  session_wf (ep_session (sd_endpoint x)) ->
  0 < tokens (session_state (ep_session (sd_endpoint x))) ->
  recv_waits_for_accept (side_recv_task x) ->
  recv_takes false (side_recv_task x) (ep_session (sd_endpoint x)) (side_source x) = [f] ->
  exists l, sd_history (side_run (OpRecv false) x) = sd_history x ++ Handled f :: l /\
    (l = [] \/ exists k, l = [Registered (stream_id f) k] /\
       peer_id (s_is_client (ep_session (sd_endpoint x))) (stream_id f) = true).
Proof.
  intros Hwf Ht Hw Htk. rewrite side_run_history. cbn [ep_run snd].
  change (sys_recv _) with (side_recv_task x). change (sys_source _) with (side_source x).
  pose proof (recv_step_pieces false _ _ (side_source x) Hwf Ht Hw) as Hp.
  rewrite Htk in *. simpl map.
  set (s := ep_session (sd_endpoint x)) in *.
  assert (Hs : ep_session (set_system (run_recv false (ep_system (sd_endpoint x)))
            (sd_endpoint x)) = (recv_step false (side_recv_task x) s (side_source x)).1.2).
  { unfold ep_session, s, set_system, run_recv, side_recv_task, side_source, ep_session.
    cbn [ep_system]. by destruct (recv_step _ _ _ _) as [[? ?] ?]. }
  rewrite Hs. clear Hs. destruct (recv_step _ _ _ _) as [[t' s'] src'].
  destruct Hp as [Hq [_ Hp]]. cbn [fst snd]. rewrite (new_frames_quiet _ _ Hq), app_nil_r.
  eexists. split; [done|].
  assert (Hsame : sh_next (s_shared s') = sh_next (s_shared s) ->
            new_channel (stream_id f) s s' = []).
  { intros Hn. unfold new_channel. by rewrite Hn, Nat.eqb_refl. }
  destruct Hp as [[Hh _]|(_ & Hpid & _)].
  - left. apply Hsame.
    destruct Hh as [e _ _ _ _ _ Hn|e _ _ _ Hn|e _ _ Hn|_ _ Hn]; try apply Hn; done.
  - unfold new_channel. destruct (Nat.eqb _ _); [by left|]. right. by eexists.
Qed.

Lemma within_receives cfg role h f l :
  max_receive_buffer cfg + load h + data_len f < 2 ^ 63 ->
  within_limits cfg role h ->
  (l = [] \/ exists k, l = [Registered (stream_id f) k] /\ peer_id role (stream_id f) = true) ->
  within_limits cfg role (h ++ Handled f :: l) /\
  load (h ++ Handled f :: l) = load h + data_len f.
Proof.
  intros Hb [_ Hi] Hl.
  assert (Hload : load (h ++ Handled f :: l) = load h + data_len f).
  { rewrite load_app. by destruct Hl as [->|(k & -> & _)]; simpl; rewrite Z.add_0_r. }
  split; [|done]. split; [lia|]. rewrite opens_app.
  assert (opens role (Handled f :: l) = 0%nat) as ->; [|by rewrite Nat.add_0_r].
  destruct Hl as [->|(k & -> & Hp)]; [done|].
  rewrite (opens_one _ _ (stream_id f) k) by done.
  destruct (own_id role (stream_id f)) eqn:Ho; [|done].
  apply own_not_peer in Ho. congruence.
Qed.

Lemma drain_receives cfg role cfg' rest x y :
  usable cfg -> max_frame_size cfg = max_frame_size cfg' ->
  pair_inv cfg role cfg' x y -> within_limits cfg role (sd_history x) ->
  taken (sd_history y) = handled (sd_history x) ++ rest ->
  undecoded (side_source x) = wire rest -> recv_waits (side_recv_task x) ->
  waiting (ep_session (sd_endpoint x)) + syns rest <= 16 ->
  max_receive_buffer cfg + load (sd_history x) + volume rest < 2 ^ 63 ->
  let x' := receives_n (length rest) x in
  pair_inv cfg role cfg' x' y /\ within_limits cfg role (sd_history x') /\
  undecoded (side_source x') = [] /\ recv_waits (side_recv_task x') /\
  ep_held (sd_endpoint x') = ep_held (sd_endpoint x) /\
  (forall k, delivered k (sd_history x') = delivered k (sd_history x)).
Proof.
  intros Hu Hsz. revert x.
  induction rest as [|f rest IH]; intros x Hp Hl Htk Hun Ha Hw Hv; [done|].
  cbv zeta. simpl length. unfold receives_n. rewrite Nat.iter_succ_r.
  fold (receives_n (length rest) (side_run (OpRecv false) x)).
  pose proof (ha_ep _ _ _ _ _ (pi_there _ _ _ _ _ Hp)) as Hep.
  pose proof (ep_inv_fit cfg role _ _ Hu Hl Hep) as [Hwf Htok Hacc _ _ _].
  pose proof (pi_back _ _ _ _ _ Hp) as Hy. destruct (half_taken _ _ _ _ _ Hy) as [Hpre _].
  assert (Hen : Forall (encodable (max_frame_size cfg)) (f :: rest)).
  { rewrite Hsz. pose proof (prefix_Forall _ _ _ Hpre (ha_encodable _ _ _ _ _ Hy)) as Hen.
    rewrite Htk in Hen. by apply Forall_app in Hen as [_ ?]. }
  assert (Hc : rd_codec (reader (side_source x)) = codec_new cfg).
  { destruct (ha_receives _ _ _ _ _ Hy) as (rest' & _ & Hrc). apply Hrc.
    by destruct (side_recv_task x). }
  simpl in Hw, Hv. pose proof (syns_nonneg rest). pose proof (volume_nonneg rest).
  pose proof (recv_once cfg _ _ _ f rest Ha Hc Hen Hun Hwf Htok) as Hone.
  assert (Hk : forall t s' src', recv_step false (side_recv_task x)
      (ep_session (sd_endpoint x)) (side_source x) = (t, s', src') ->
    side_recv_task (side_run (OpRecv false) x) = t /\
    ep_session (sd_endpoint (side_run (OpRecv false) x)) = s' /\
    side_source (side_run (OpRecv false) x) = src').
  { intros t s' src' Heq. unfold side_recv_task, side_source, ep_session.
    rewrite side_run_endpoint. cbn [ep_run fst set_system ep_system]. unfold run_recv.
    unfold side_recv_task, side_source, ep_session in Heq. by rewrite Heq. }
  destruct (recv_step _ _ _ _) as [[t s'] src'].
  destruct (Hk t s' src' eq_refl) as (Ht & Hs & Hsrc).
  destruct Hone as (Htakes & -> & Hun' & _ & Hw'); [lia|].
  destruct (recv_history x f Hwf Htok Hacc Htakes) as (l & Hh & Hlist).
  assert (Hrole : s_is_client (ep_session (sd_endpoint x)) = role)
    by exact (su_role _ _ _ _ (ei_setup _ _ _ _ Hep)).
  rewrite Hrole in Hlist.
  destruct (within_receives cfg role (sd_history x) f l) as [Hl' Hload]; [lia|done|done|].
  rewrite <- Hh in Hl', Hload.
  assert (Hheld : ep_held (sd_endpoint (side_run (OpRecv false) x)) = ep_held (sd_endpoint x))
    by (by rewrite side_run_endpoint).
  assert (Hdel : forall k, delivered k (sd_history (side_run (OpRecv false) x))
                           = delivered k (sd_history x)).
  { intros k. rewrite Hh, delivered_app.
    destruct Hlist as [->|(k' & -> & _)]; apply app_nil_r. }
  destruct (IH (side_run (OpRecv false) x)) as (Hp2 & Hl2 & Hu2 & Ha2 & Hh2 & Hd2).
  - by apply pair_inv_run.
  - done.
  - rewrite Hh, handled_app, Htk.
    assert (handled (Handled f :: l) = [f]) as ->.
    { by destruct Hlist as [->|(k & -> & _)]. }
    by rewrite <- app_assoc.
  - by rewrite Hsrc.
  - by rewrite Ht.
  - rewrite Hs. lia.
  - rewrite Hload. lia.
  - split_and!; [done..|by rewrite Hh2|]. intros k. by rewrite Hd2, Hdel.
Qed.
End drain_receives.

(** ** The connection *)
Section drain.
Context {B : BytesCrate} {BL : BytesLaws B}.
Context {F : FlumeCrate} {FL : FlumeLaws F} {N : NotifyCrate} {NL : NotifyLaws N}.
Context {R : ReadBufCrate} {RL : ReadBufLaws R}.
Context {D : FramedCrate} {DL : FramedLaws D} {T : IntervalCrate}.
Context {M : Type -> Type} `{FinMap Z M}.
Implicit Types (x y : Side M) (d : Duplex M).

(** All the bytes are delivered. *)
Lemma carry_all cfg role cfg' x y :
  pair_inv cfg role cfg' x y -> send_alive (side_send_task y) ->
  side_send_task y <> SendSending -> recv_alive (side_recv_task x) ->
  rd_eof (reader (side_source x)) = false ->
  let '(y', x') := carry (length (side_out y)) false y x in
  pair_inv cfg role cfg' x' y' /\
  sd_sent y' = length (wire (taken (sd_history y'))) /\
  sd_endpoint y' = sd_endpoint y /\ sd_history y' = sd_history y /\
  sd_history x' = sd_history x /\ ep_session (sd_endpoint x') = ep_session (sd_endpoint x) /\
  ep_held (sd_endpoint x') = ep_held (sd_endpoint x) /\
  side_recv_task x' = side_recv_task x /\
  exists rest, taken (sd_history y') = handled (sd_history x') ++ rest /\
    undecoded (side_source x') = wire rest.
Proof.
  intros Hp Ha Hno Hra He.
  assert (Hout : side_out y = wire (taken (sd_history y))).
  { destruct (pi_back _ _ _ _ _ Hp) as [_ [_ _ Hs] _ _ _ _].
    destruct (Hs Ha) as (_ & Hc & Hsl & _). rewrite <- Hc. unfold committed, side_out.
    by rewrite (Hsl Hno), app_nil_r. }
  pose proof (pair_inv_carry _ _ _ (length (side_out y)) false _ _ (pair_inv_sym _ _ _ _ _ Hp))
    as Hp'.
  pose proof (pi_back _ _ _ _ _ Hp) as [_ [_ Hl _] _ _ _ _].
  destruct (carry _ _ _ _) as [y' x'] eqn:Hcarry. unfold carry in Hcarry.
  rewrite He in Hcarry. injection Hcarry as <- <-.
  apply pair_inv_sym in Hp'. rewrite negb_involutive in Hp'. simpl in Hp'.
  assert (Hsent : (sd_sent y + length (take (length (side_out y))
            (drop (sd_sent y) (side_out y))))%nat = length (wire (taken (sd_history y)))).
  { rewrite length_take, length_drop, <- Hout. lia. }
  split; [done|]. split; [exact Hsent|]. do 6 (split; [done|]).
  destruct (ha_receives _ _ _ _ _ (pi_back _ _ _ _ _ Hp')) as (rest & Htk & Hun).
  exists rest. split; [exact Htk|]. destruct (Hun Hra) as [_ Hu].
  cbn [sd_sent sd_history] in Hu. rewrite Hsent, drop_all, app_nil_r in Hu. exact Hu.
Qed.

(** The schedule: only tasks and deliveries. *)
Definition background (a : Happens) : Prop :=
  match a with
  | AtClient (OpRecv _) | AtClient (OpSend _) | AtServer (OpRecv _) | AtServer (OpSend _)
  | ToServer _ _ | ToClient _ _ => True
  | _ => False
  end.

Definition at_side (role : bool) (op : Op) : Happens :=
  if role then AtClient op else AtServer op.

Definition toward (role : bool) (n : nat) : Happens :=
  if role then ToClient n false else ToServer n false.

Definition drain_schedule (role : bool) (sends bytes receives : nat) : list Happens :=
  repeat (at_side (negb role) (OpSend false)) sends ++ [toward role bytes]
  ++ repeat (at_side role (OpRecv false)) receives.

Definition join (role : bool) x y : Duplex M := if role then mkDuplex x y else mkDuplex y x.

Lemma facing_join d role x y : facing d role x y <-> d = join role x y.
Proof.
  unfold facing, join. destruct d as [c s], role; simpl; split;
    (intros [-> ->] || intros [= -> ->]); done.
Qed.

Lemma run_app l1 l2 d : dx_run (l1 ++ l2) d = dx_run l2 (dx_run l1 d).
Proof. apply fold_left_app. Qed.

Lemma run_repeat role op n x y :
  dx_run (repeat (at_side role op) n) (join role x y)
  = join role (Nat.iter n (side_run op) x) y.
Proof.
  revert x. induction n as [|n IH]; intros x; [done|].
  rewrite Nat.iter_succ_r, <- IH. by destruct role.
Qed.

Lemma join_negb role x y : join (negb role) y x = join role x y.
Proof. by destruct role. Qed.

Lemma run_toward role n x y y' x' :
  carry n false y x = (y', x') -> dx_run [toward role n] (join role x y) = join role x' y'.
Proof. intros Hc. destruct role; simpl; by rewrite Hc. Qed.

Lemma drain_schedule_background role a b c :
  Forall background (drain_schedule role a b c) /\
  Forall happens_roomy (drain_schedule role a b c).
Proof.
  assert (Hrep : forall (P : Happens -> Prop) h n, P h -> Forall P (repeat h n))
    by (intros P h n Hh; by induction n; constructor).
  unfold drain_schedule.
  split; (apply Forall_app; split; [|constructor]); try apply Hrep; by destruct role.
Qed.

(** The frames of [y] that [x] has not handled. *)
Definition in_flight x y : list Frame :=
  drop (length (handled (sd_history x))) (emitted (sd_history y)).

Lemma reachable_run cfg_c cfg_s d sched :
  reachable cfg_c cfg_s d -> Forall happens_roomy sched ->
  duplex_limits cfg_c cfg_s (dx_run sched d) -> reachable cfg_c cfg_s (dx_run sched d).
Proof.
  intros (src_c & src_s & k_c & k_s & sched0 & Hsc & Hss & Hkc & Hks & Hroom & _ & ->) Hr Hl.
  exists src_c, src_s, k_c, k_s, (sched0 ++ sched). split_and!; try done.
  - by apply Forall_app.
  - by rewrite run_app.
Qed.

Lemma facing_limits cfg_c cfg_s d role x y :
  facing d role x y ->
  duplex_limits cfg_c cfg_s d <->
  within_limits (if role then cfg_c else cfg_s) role (sd_history x) /\
  within_limits (if role then cfg_s else cfg_c) (negb role) (sd_history y).
Proof. unfold facing, duplex_limits. destruct role; intros [-> ->]; simpl; tauto. Qed.

Lemma facing_pair_inv cfg_c cfg_s d role x y :
  compatible cfg_c cfg_s -> reachable cfg_c cfg_s d -> facing d role x y ->
  let cfg := if role then cfg_c else cfg_s in
  let cfg' := if role then cfg_s else cfg_c in
  pair_inv cfg role cfg' x y /\ usable cfg /\ usable cfg' /\
  max_frame_size cfg = max_frame_size cfg'.
Proof.
  intros Hco Hr Hf. pose proof (reachable_pair _ _ _ Hco Hr) as Hp. destruct Hco.
  destruct role; destruct Hf as [-> ->]; [done|]. split; [|done].
  by apply (pair_inv_sym cfg_c true).
Qed.

(** The two sides: the send loop empties the channel, the transport delivers, the
    receive loop handles. *)
Lemma drain_sides cfg role cfg' good x y :
  usable cfg -> usable cfg' -> max_frame_size cfg = max_frame_size cfg' ->
  pair_inv cfg role cfg' x y -> within_limits cfg role (sd_history x) ->
  within_limits cfg' (negb role) (sd_history y) ->
  prompt good -> side_good good y -> send_alive (side_send_task y) ->
  recv_waits (side_recv_task x) -> rd_eof (reader (side_source x)) = false ->
  waiting (ep_session (sd_endpoint x)) + syns (in_flight x y) <= 16 ->
  max_receive_buffer cfg + load (sd_history x) + volume (in_flight x y) < 2 ^ 63 ->
  exists a b c x' y',
    dx_run (drain_schedule role a b c) (join role x y) = join role x' y' /\
    pair_inv cfg role cfg' x' y' /\ within_limits cfg role (sd_history x') /\
    within_limits cfg' (negb role) (sd_history y') /\ resting y' x' /\
    emitted (sd_history y') = emitted (sd_history y) /\
    ep_held (sd_endpoint x') = ep_held (sd_endpoint x) /\
    (forall k, delivered k (sd_history x') = delivered k (sd_history x)).
Proof.
  intros Hu Hu' Hsz Hp Hlx Hly Hpr Hg Ha Hra He Hw Hv.
  (* the send loop *)
  destruct (drain_sends good Hpr cfg' (negb role) cfg (to_send y) x y Hu' (eq_sym Hsz)
    (pair_inv_sym _ _ _ _ _ Hp) Hly Ha Hg eq_refl) as (Hp1 & Hly1 & Hem & Ha1 & Hz).
  set (y1 := sends_n (to_send y) y) in *.
  apply pair_inv_sym in Hp1. rewrite negb_involutive in Hp1.
  assert (Hidle : side_send_task y1 <> SendSending /\ side_queue y1 = []).
  { unfold to_send in Hz. split; [by intros Hs; rewrite Hs in Hz|].
    apply length_zero_iff_nil. lia. }
  destruct Hidle as [Hidle Hq1].
  (* the transport *)
  assert (Hra' : recv_alive (side_recv_task x)) by (by destruct (side_recv_task x)).
  pose proof (carry_all _ _ _ _ _ Hp1 Ha1 Hidle Hra' He) as Hcarry.
  destruct (carry (length (side_out y1)) false y1 x) as [y2 x2] eqn:Ec.
  destruct Hcarry as (Hp2 & Hsent & Hey & Hhy & Hhx & Hsx & Hheld & Htx & rest & Htk & Hun).
  assert (Hall : taken (sd_history y2) = emitted (sd_history y)).
  { destruct (side_setup _ _ _ _ _ Hp1) as [_ Hsy].
    destruct (su_link _ _ _ _ Hsy) as [(_ & _ & Hlink)|(Hno & _)].
    - rewrite <- Hem, Hlink, Hhy. change (queue _) with (side_queue y1).
      by rewrite Hq1, app_nil_r.
    - change (vw_sending _) with (sending (side_send_task y1)) in Hno.
      by destruct (side_send_task y1). }
  assert (Hrest : in_flight x y = rest).
  { unfold in_flight. by rewrite <- Hall, Htk, Hhx, drop_app_length. }
  rewrite Hrest in Hw, Hv.
  (* the receive loop *)
  destruct (drain_receives cfg role cfg' rest x2 y2) as (Hp3 & Hlx3 & Hun3 & Hra3 & Hheld3 & Hdel3);
    try done; rewrite ?Hhx, ?Htx, ?Hsx; try done.
  set (x3 := receives_n (length rest) x2) in *.
  exists (to_send y), (length (side_out y1)), (length rest), x3, y2. split.
  { unfold drain_schedule. rewrite !run_app.
    rewrite <- join_negb, run_repeat, join_negb. rewrite (run_toward _ _ _ _ _ _ Ec).
    apply run_repeat. }
  split; [done|]. split; [done|]. split; [by rewrite Hhy|]. split.
  { split; [| |done| |done].
    - assert (Hs : forall t, send_alive t -> sending t = true) by (by intros []).
      apply Hs. unfold side_send_task in *. by rewrite Hey.
    - unfold side_queue in Hq1. by rewrite Hey.
    - by destruct (side_recv_task x3). }
  split; [by rewrite Hhy|]. split; [by rewrite Hheld3|]. intros k. by rewrite Hdel3, Hhx.
Qed.

(** C4: a connection never gets stuck.  In any reachable state in which the connection is
    up (the send loop of [y] runs over a transport that takes its bytes, the receive loop
    of [x] waits for more) and the accept queue of [x] has room for the streams on their
    way, the tasks and the transport alone reach a state where [x] has handled everything
    [y] has sent, and the readers at [x], with what is buffered for them, have all that
    was written at [y]. *)
Theorem connection_drains cfg_c cfg_s d role x y good :
  compatible cfg_c cfg_s -> reachable cfg_c cfg_s d -> facing d role x y ->
  prompt good -> side_good good y -> send_alive (side_send_task y) ->
  recv_waits (side_recv_task x) -> rd_eof (reader (side_source x)) = false ->
  waiting (ep_session (sd_endpoint x)) + syns (in_flight x y) <= 16 ->
  max_receive_buffer (if role then cfg_c else cfg_s) + load (sd_history x)
    + volume (in_flight x y) < 2 ^ 63 ->
  exists sched x' y', Forall background sched /\
    reachable cfg_c cfg_s (dx_run sched d) /\ facing (dx_run sched d) role x' y' /\
    handled (sd_history x') = emitted (sd_history y) /\
    forall i st, free_stream i (sd_endpoint x) = Some st ->
      delivered (st_data_rx st) (sd_history x)
        ++ unread st (s_shared (ep_session (sd_endpoint x')))
      = wrote (st_stream_id st) (sd_history y).
Proof.
  intros Hco Hr Hf Hpr Hg Ha Hra He Hw Hv.
  destruct (facing_pair_inv _ _ _ _ _ _ Hco Hr Hf) as (Hp & Hu & Hu' & Hsz).
  assert (Hl : duplex_limits cfg_c cfg_s d) by (by destruct Hr as (?&?&?&?&?&?&?&?&?&?&?&?)).
  apply (facing_limits _ _ _ _ _ _ Hf) in Hl as [Hlx Hly].
  set (cfg := if role then cfg_c else cfg_s) in *.
  set (cfg' := if role then cfg_s else cfg_c) in *.
  destruct (drain_sides cfg role cfg' good x y) as (a & b & c & x' & y' & Hrun & Hp' & Hlx' & Hly'
    & Hresting & Hem & Hheld & Hdel); try done.
  apply facing_join in Hf. rewrite <- Hf in Hrun.
  assert (Hf' : facing (dx_run (drain_schedule role a b c) d) role x' y') by (by apply facing_join).
  destruct (drain_schedule_background role a b c) as [Hback Hroom].
  exists (drain_schedule role a b c), x', y'. split; [done|]. split.
  { apply reachable_run; [done|done|]. by apply (facing_limits _ _ _ _ _ _ Hf'). }
  split; [done|]. split; [by rewrite (resting_handled _ _ _ _ _ Hp' Hresting)|].
  intros i st Hfree.
  assert (Hfree' : free_stream i (sd_endpoint x') = Some st)
    by (unfold free_stream in *; by rewrite Hheld).
  rewrite <- Hdel, (resting_delivered _ _ _ _ _ Hp' i st Hresting Hfree').
  destruct (side_setup _ _ _ _ _ Hp) as [_ Hsy]. destruct (side_setup _ _ _ _ _ Hp') as [_ Hsy'].
  by rewrite (su_wrote _ _ _ _ Hsy'), (su_wrote _ _ _ _ Hsy), Hem.
Qed.
End drain.

(** ** The sample connection of DuplexProps.v, with both writes still queued *)
Section sample.
Lemma encode_not_io codec f dst e : (encode codec f dst).1 <> Err (Io e).
Proof.
  unfold encode. assert (Hv : validate f (codec_config codec) <> Err (Io e)).
  { unfold validate, validate_stream_id. repeat (split_goal_match; try done). }
  destruct (validate f (codec_config codec)); simpl; try congruence.
  repeat (split_goal_match; simpl; try done).
Qed.

Definition not_stalled (k : sink) : Prop := k.2 = false.

Lemma not_stalled_prompt : prompt not_stalled.
Proof.
  intros [w b] Hb. unfold not_stalled in *. simpl in Hb. subst b. split; [done|].
  cbn [poll_send framed_ref fst snd]. unfold send_ref. destruct (wr_slot w) as [f|]; [|done].
  pose proof (encode_not_io (wr_codec w) f (wr_out w)) as Hio.
  destruct (encode _ _ _) as [r dst]. simpl in *. split; [done|]. split; [done|].
  intros e [= ->]. by apply (Hio e).
Qed.

Lemma connection_drains_witness :
  in_flight (dx_server (sample_duplex 9)) (dx_client (sample_duplex 9))
    = [new_psh 1 1 (take 4 b5); new_psh 1 1 (drop 4 b5)] /\
  exists sched, Forall background sched /\
    exists x' y', facing (dx_run sched (sample_duplex 9)) false x' y' /\
      unread (sample_held (sample_duplex 9)) (s_shared (ep_session (sd_endpoint x'))) = b5.
Proof.
  split; [vm_compute; reflexivity|].
  destruct (connection_drains small_config small_config (sample_duplex 9) false
    (dx_server (sample_duplex 9)) (dx_client (sample_duplex 9)) not_stalled small_compatible
    (sample_reachable 9) (conj eq_refl eq_refl) not_stalled_prompt)
    as (sched & x' & y' & Hb & _ & Hf & _ & Hd);
    [vm_compute; reflexivity|exact I|exact I|vm_compute; reflexivity|vm_compute; congruence
    |vm_compute; reflexivity|].
  exists sched. split; [exact Hb|]. exists x', y'. split; [exact Hf|].
  specialize (Hd 0%nat (sample_held (sample_duplex 9)) eq_refl).
  assert (Hnone : delivered (st_data_rx (sample_held (sample_duplex 9)))
            (sd_history (dx_server (sample_duplex 9))) = []) by (vm_compute; reflexivity).
  assert (Hw : wrote (st_stream_id (sample_held (sample_duplex 9)))
            (sd_history (dx_client (sample_duplex 9))) = b5) by (vm_compute; reflexivity).
  rewrite Hnone, Hw in Hd. exact Hd.
Defined.
End sample.
