(* ===== verification/Tests.v ===== *)
(** * The unit tests of the crate: values and codec

    The [#[cfg(test)]] modules of [error.rs], [command.rs], [config.rs], [frame.rs] and
    [codec.rs], as executable definitions over the model: a test is a computation that
    panics where an assertion of the Rust test fails.  TestsSession.v has those of
    [stream.rs] and [session.rs]. *)

From stdpp Require Import strings pretty.
From S2P Require Import Prelude Crates Errors Config Command Frame Codec.

(** ** Tests

    A failed assertion and an [unwrap] of an error are panics. *)
Definition test : Type := Result unit.

Definition assert_true (b : bool) : test := if b then Ok tt else Panic.

Definition unwrap {E A} (r : result E A) : Result A :=
  match r with Ok a => Ok a | _ => Panic end.

Definition unwrap_some {A} (o : option A) : Result A :=
  match o with Some a => Ok a | None => Panic end.

Definition is_ok {E A} (r : result E A) : bool := match r with Ok _ => true | _ => false end.
Definition is_err {E A} (r : result E A) : bool := match r with Err _ => true | _ => false end.
Definition is_none {A} (o : option A) : bool := match o with None => true | _ => false end.

Notation "'ensure' b ; k" := (result_bind (assert_true b) (fun _ => k))
  (at level 100, b at next level, right associativity) : smux_scope.
Notation "'equal' a b ; k" := (result_bind (assert_true (bool_decide (a = b))) (fun _ => k))
  (at level 100, a at level 9, b at level 9, right associativity) : smux_scope.
Notation "x <-! r ; k" := (result_bind (unwrap r) (fun x => k))
  (at level 100, r at next level, right associativity) : smux_scope.

(** A byte string literal. *)
Definition lit (s : string) : bytes := list_byte_of_string s.

(** ** [error.rs] *)
Definition test_error_display : test :=
  equal (error_to_string (InvalidProtocol 2)) "Invalid protocol version: 2"%string;
  equal (error_to_string (FrameTooLarge 1024 512))
    "Frame too large: 1024 bytes (max: 512)"%string;
  equal (error_to_string (ConfigError "Invalid setting"))
    "Configuration error: Invalid setting"%string;
  Ok tt.

(** [io_err.into()] is the [#[from]] of the [Io] variant. *)
Definition test_io_error_conversion : test :=
  let io_err := mkIoError UnexpectedEof "Connection lost" in
  let smux_err := Io io_err in
  match smux_err with Io _ => Ok tt | _ => Panic end.

Definition test_is_recoverable : test :=
  ensure (is_recoverable (Io (mkIoError WouldBlock "")));
  ensure (is_recoverable (Io (mkIoError Interrupted "")));
  ensure (is_recoverable Timeout);
  ensure (is_recoverable BufferOverflow);
  ensure (negb (is_recoverable SessionClosed));
  ensure (negb (is_recoverable (InvalidProtocol 2)));
  ensure (negb (is_recoverable (ConfigError "Invalid")));
  ensure (negb (is_recoverable (FrameTooLarge 1024 512)));
  ensure (negb (is_recoverable (Io (mkIoError UnexpectedEof ""))));
  Ok tt.

(** ** [command.rs] *)
Fixpoint test_conversions (commands : list Command) : test :=
  match commands with
  | [] => Ok tt
  | c :: commands =>
      restored <-! from_byte (to_byte c);
      _ <-? match c, restored with
            | Upd _ _, Upd _ _ => Ok tt
            | a, b => assert_true (bool_decide (a = b))
            end;
      test_conversions commands
  end.

Definition test_command_byte_conversion : test :=
  test_conversions [Syn; Fin; Psh; Nop; Upd 100 200].

Definition test_invalid_command_byte : test :=
  ensure (is_err (from_byte 255));
  ensure (is_err (from_byte 5));
  Ok tt.

Definition test_command_properties : test :=
  ensure (is_control Syn);
  ensure (is_control Fin);
  ensure (is_control Nop);
  ensure (is_control (Upd 0 0));
  ensure (negb (is_control Psh));
  ensure (can_carry_data Psh);
  ensure (negb (can_carry_data Syn));
  ensure (negb (can_carry_data Fin));
  ensure (negb (can_carry_data Nop));
  ensure (negb (can_carry_data (Upd 0 0)));
  ensure (requires_v2 (Upd 0 0));
  ensure (negb (requires_v2 Syn));
  ensure (negb (requires_v2 Fin));
  ensure (negb (requires_v2 Psh));
  ensure (negb (requires_v2 Nop));
  Ok tt.

Definition test_upd_command_values : test :=
  let c := Upd 123 456 in
  equal (consumed c) (Some 123);
  equal (window c) (Some 456);
  equal (consumed Syn) (@None Z);
  equal (window Syn) (@None Z);
  Ok tt.

(** ** [config.rs] *)
Section config_tests.
Import ConfigBuilder.

(** [Config { field: v, ..Default::default() }]. *)
Definition default_with (f : ConfigBuilder -> ConfigBuilder) : Config := config (f new).

Definition test_default_config_is_valid : test :=
  let config := config_default in
  ensure (is_ok (config_validate config));
  Ok tt.

Definition test_config_validation : test :=
  let config := default_with (set_version 0) in
  ensure (is_err (config_validate config));
  let config := default_with (fun b =>
    set_keep_alive_interval (from_secs 10) (set_keep_alive_timeout (from_secs 5) b)) in
  ensure (is_err (config_validate config));
  let config := default_with (fun b =>
    set_enable_keep_alive false (set_keep_alive_interval (from_secs 10)
      (set_keep_alive_timeout (from_secs 5) b))) in
  ensure (is_ok (config_validate config));
  let config := default_with (set_max_frame_size 0) in
  ensure (is_err (config_validate config));
  let config := default_with (set_max_frame_size (20 * 1024 * 1024)) in
  ensure (is_err (config_validate config));
  let config := default_with (fun b => set_max_frame_size 2048 (set_max_receive_buffer 1024 b)) in
  ensure (is_err (config_validate config));
  let config := default_with (set_max_stream_buffer 0) in
  ensure (is_err (config_validate config));
  Ok tt.

Definition test_config_builder : test :=
  let builder := set_version 2 new in
  let builder := set_keep_alive_interval (from_secs 5) builder in
  let builder := set_keep_alive_timeout (from_secs 15) builder in
  let builder := set_max_frame_size (64 * 1024) builder in
  let builder := set_max_receive_buffer (8 * 1024 * 1024) builder in
  let builder := set_max_stream_buffer (128 * 1024) builder in
  let builder := set_enable_keep_alive false builder in
  config <-! build builder;
  equal (version config) 2;
  equal (keep_alive_interval config) (from_secs 5);
  equal (keep_alive_timeout config) (from_secs 15);
  equal (max_frame_size config) (64 * 1024);
  equal (max_receive_buffer config) (8 * 1024 * 1024);
  equal (max_stream_buffer config) (128 * 1024);
  ensure (negb (enable_keep_alive config));
  Ok tt.

Definition test_config_builder_validation_failure : test :=
  let result := build (set_version 0 new) in
  ensure (is_err result);
  Ok tt.

Definition test_keep_alive_validation_when_disabled : test :=
  let builder := set_keep_alive_interval (from_secs 20) new in
  let builder := set_keep_alive_timeout (from_secs 10) builder in
  let builder := set_enable_keep_alive false builder in
  ensure (is_ok (build builder));
  Ok tt.
End config_tests.

(** ** [frame.rs] *)
Definition test_frame_creation : test :=
  let d := lit "hello" in
  let frame := frame_new 1 Psh 123 d in
  equal (frame_version frame) 1;
  equal (cmd frame) Psh;
  equal (stream_id frame) 123;
  equal (data frame) d;
  Ok tt.

Definition test_frame_constructors : test :=
  let syn_frame := new_syn 1 123 in
  equal (cmd syn_frame) Syn;
  equal (stream_id syn_frame) 123;
  equal (data syn_frame) (@nil byte);
  let fin_frame := new_fin 1 123 in
  equal (cmd fin_frame) Fin;
  equal (stream_id fin_frame) 123;
  equal (data fin_frame) (@nil byte);
  let d := lit "test" in
  let psh_frame := new_psh 1 123 d in
  equal (cmd psh_frame) Psh;
  equal (stream_id psh_frame) 123;
  equal (data psh_frame) d;
  let nop_frame := new_nop 1 in
  equal (cmd nop_frame) Nop;
  equal (stream_id nop_frame) 0;
  equal (data nop_frame) (@nil byte);
  let upd_frame := new_upd 2 123 100 200 in
  equal (cmd upd_frame) (Upd 100 200);
  equal (stream_id upd_frame) 123;
  equal (data upd_frame) (@nil byte);
  Ok tt.

Definition test_frame_size_calculation : test :=
  let empty_frame := new_syn 1 123 in
  equal (total_size empty_frame) HEADER_SIZE;
  equal (data_len empty_frame) 0;
  ensure (is_empty empty_frame);
  let data_frame := new_psh 1 123 (lit "hello") in
  equal (total_size data_frame) (HEADER_SIZE + 5);
  equal (data_len data_frame) 5;
  ensure (negb (is_empty data_frame));
  Ok tt.

Definition test_frame_validation : test :=
  let config := config_default in
  ensure (is_ok (validate (new_syn 1 123) config));
  ensure (is_ok (validate (new_psh 1 123 (lit "data")) config));
  ensure (is_ok (validate (new_nop 1) config));
  let invalid_version := frame_new 0 Syn 123 [] in
  ensure (is_err (validate invalid_version config));
  let upd_v1 := new_upd 1 123 100 200 in
  ensure (is_err (validate upd_v1 config));
  let upd_v2 := new_upd 2 123 100 200 in
  ensure (is_ok (validate upd_v2 config));
  Ok tt.

(** [vec![0u8; n]]. *)
Definition zeros (n : nat) : bytes := repeat Byte.x00 n.

Definition test_frame_size_validation : test :=
  let config := default_with (ConfigBuilder.set_max_frame_size 100) in
  let large_frame := new_psh 1 123 (zeros 200) in
  ensure (is_err (validate large_frame config));
  let small_frame := new_psh 1 123 (zeros 50) in
  ensure (is_ok (validate small_frame config));
  Ok tt.

Definition test_control_frames_with_data : test :=
  let config := config_default in
  let d := lit "invalid" in
  ensure (is_err (validate (frame_new 1 Syn 123 d) config));
  ensure (is_err (validate (frame_new 1 Fin 123 d) config));
  ensure (is_err (validate (frame_new 1 Nop 0 d) config));
  ensure (is_err (validate (frame_new 2 (Upd 0 0) 123 d) config));
  Ok tt.

Definition test_stream_id_validation : test :=
  let config := config_default in
  ensure (is_err (validate (frame_new 1 Nop 123 []) config));
  ensure (is_err (validate (frame_new 1 Syn 0 []) config));
  ensure (is_err (validate (frame_new 1 Psh 0 (lit "data")) config));
  Ok tt.

Definition test_upd_frame_values : test :=
  let upd_frame := new_upd 2 123 100 200 in
  equal (frame_consumed upd_frame) (Some 100);
  equal (frame_window upd_frame) (Some 200);
  let syn_frame := new_syn 1 123 in
  equal (frame_consumed syn_frame) (@None Z);
  equal (frame_window syn_frame) (@None Z);
  Ok tt.

(** ** [codec.rs]

    The codec over the reference [BytesMut]. *)
Section codec_tests.

(** The common body of the round trips: encode, decode, compare. *)
Definition test_round_trip (frame : Frame) : test :=
  let codec := codec_new config_default in
  let '(r, buf) := encode codec frame [] in
  _ <-! r;
  let '(r, buf) := decode codec buf in
  o <-! r;
  decoded <-? unwrap_some o;
  equal frame decoded;
  Ok tt.

Definition test_codec_round_trip_syn : test := test_round_trip (new_syn 1 123).
Definition test_codec_round_trip_fin : test := test_round_trip (new_fin 1 123).
Definition test_codec_round_trip_psh : test :=
  let data := lit "hello world" in test_round_trip (new_psh 1 123 data).
Definition test_codec_round_trip_nop : test := test_round_trip (new_nop 1).
Definition test_codec_round_trip_upd : test := test_round_trip (new_upd 2 123 100 200).

Definition test_decode_partial_header : test :=
  let codec := codec_new config_default in
  let frame := new_syn 1 123 in
  let '(r, buf) := encode codec frame [] in
  _ <-! r;
  let partial := take 4 buf in
  let '(r, partial) := decode codec partial in
  result <-! r;
  ensure (is_none result);
  Ok tt.

Definition test_decode_partial_data : test :=
  let codec := codec_new config_default in
  let data := lit "hello world" in
  let frame := new_psh 1 123 data in
  let '(r, buf) := encode codec frame [] in
  _ <-! r;
  let partial := take (Z.to_nat (HEADER_SIZE + 5)) buf in
  let '(r, partial) := decode codec partial in
  result <-! r;
  ensure (is_none result);
  Ok tt.

Definition test_decode_multiple_frames : test :=
  let codec := codec_new config_default in
  let frame1 := new_syn 1 123 in
  let frame2 := new_fin 1 456 in
  let '(r, buf) := encode codec frame1 [] in
  _ <-! r;
  let '(r, buf) := encode codec frame2 buf in
  _ <-! r;
  let '(r, buf) := decode codec buf in
  o <-! r;
  decoded1 <-? unwrap_some o;
  equal frame1 decoded1;
  let '(r, buf) := decode codec buf in
  o <-! r;
  decoded2 <-? unwrap_some o;
  equal frame2 decoded2;
  let '(r, buf) := decode codec buf in
  o <-! r;
  ensure (is_none o);
  Ok tt.

Definition test_decode_oversized_frame : test :=
  let config := default_with (ConfigBuilder.set_max_frame_size 100) in
  let codec := codec_new config in
  let large_data := zeros 200 in
  let frame := new_psh 1 123 large_data in
  ensure (is_err (encode codec frame []).1);
  Ok tt.

Definition test_decode_invalid_protocol_version : test :=
  let codec := codec_new config_default in
  let buf := put_u8 0 [] in
  let buf := put_u8 SYN buf in
  let buf := put_u16_le 0 buf in
  let buf := put_u32_le 123 buf in
  let '(result, buf) := decode codec buf in
  ensure (is_err result);
  Ok tt.

Definition test_decode_invalid_command : test :=
  let codec := codec_new config_default in
  let buf := put_u8 1 [] in
  let buf := put_u8 255 buf in
  let buf := put_u16_le 0 buf in
  let buf := put_u32_le 123 buf in
  let '(result, buf) := decode codec buf in
  ensure (is_err result);
  Ok tt.

(** [uN::from_le_bytes] of the [n] bytes from index [i]; indexing out of range panics. *)
Definition from_le_bytes (i n : nat) (buf : bytes) : Result Z :=
  if (i + n <=? length buf)%nat then Ok (le_combine (take n (drop i buf))) else Panic.

Definition test_upd_frame_encoding : test :=
  let codec := codec_new config_default in
  let frame := new_upd 2 123 100 200 in
  let '(r, buf) := encode codec frame [] in
  _ <-! r;
  equal (blen buf) (HEADER_SIZE + 8);
  b0 <-? from_le_bytes 0 1 buf;
  equal b0 2;
  b1 <-? from_le_bytes 1 1 buf;
  equal b1 UPD;
  len <-? from_le_bytes 2 2 buf;
  equal len 8;
  id <-? from_le_bytes 4 4 buf;
  equal id 123;
  consumed <-? from_le_bytes 8 4 buf;
  window <-? from_le_bytes 12 4 buf;
  equal consumed 100;
  equal window 200;
  Ok tt.

Definition test_invalid_upd_data_length : test :=
  let codec := codec_new config_default in
  let buf := put_u8 2 [] in
  let buf := put_u8 UPD buf in
  let buf := put_u16_le 4 buf in
  let buf := put_u32_le 123 buf in
  let buf := put_u32_le 100 buf in
  let '(result, buf) := decode codec buf in
  ensure (is_err result);
  Ok tt.
End codec_tests.

(** ** The tests pass *)
Definition value_tests : list test :=
  [ test_error_display; test_io_error_conversion; test_is_recoverable;
    test_command_byte_conversion; test_invalid_command_byte; test_command_properties;
    test_upd_command_values;
    test_default_config_is_valid; test_config_validation; test_config_builder;
    test_config_builder_validation_failure; test_keep_alive_validation_when_disabled;
    test_frame_creation; test_frame_constructors; test_frame_size_calculation;
    test_frame_validation; test_frame_size_validation; test_control_frames_with_data;
    test_stream_id_validation; test_upd_frame_values ].

Definition codec_tests : list test :=
  [ test_codec_round_trip_syn; test_codec_round_trip_fin; test_codec_round_trip_psh;
    test_codec_round_trip_nop; test_codec_round_trip_upd; test_decode_partial_header;
    test_decode_partial_data; test_decode_multiple_frames; test_decode_oversized_frame;
    test_decode_invalid_protocol_version; test_decode_invalid_command;
    test_upd_frame_encoding; test_invalid_upd_data_length ].

Lemma value_tests_pass : Forall (fun t => t = Ok tt) value_tests.
Proof. unfold value_tests. repeat constructor; vm_compute; reflexivity. Qed.

Lemma codec_tests_pass : Forall (fun t => t = Ok tt) codec_tests.
Proof. unfold codec_tests. repeat constructor; vm_compute; reflexivity. Qed.
