(* ===== verification/TestsSession.v ===== *)
(** * The unit tests of the crate: streams and sessions

    The [#[cfg(test)]] modules of [stream.rs] and [session.rs], over the reference
    crates.  A test that awaits a stream or a session of its own polls once: nobody else
    runs, so a poll that is pending would never end.  In the tests over a duplex
    transport, [sleep] lets the tasks of both sides run, one of the many schedules the
    runtime may choose; properties that hold for all of them are in DuplexProps.v. *)

From stdpp Require Import strings.
From S2P Require Import Prelude Crates Errors Config Command Frame Codec Runtime.
From S2P Require Import SessionState Stream Session Loops LoopsSpec Endpoint EndpointSpec.
From S2P Require Import StreamSpec EndpointMoves EndpointInv Duplex Tests.

(** ** [stream.rs] *)
Section streams.

(** [flume::bounded(1)] for the frames and [flume::unbounded()] for the data; [_] in the
    pattern drops that end at once. *)
Definition test_shared (frame_rx data_tx : bool) : Shared :=
  mkShared (session_state_new 65536)
    (if frame_rx then bounded 1 else receiver_drop (bounded 1))
    {[ 0%nat := if data_tx then unbounded else sender_drop unbounded ]} 1.

Definition test_stream : Stream := stream_new 123 0 config_default.

(** [data_tx.send(d).unwrap()]. *)
Definition send_data (d : bytes) (sh : Shared) : Result Shared :=
  let '(r, c) := try_send d (data_channel 0 sh) in
  _ <-! r;
  Ok (set_data_channel 0 c sh).

(** [stream.read(&mut [0u8; n]).await]: the bytes read. *)
Definition read (n : nat) (st : Stream) (sh : Shared) : Result bytes * Stream * Shared :=
  let p := poll_read st sh (empty_buf n) in
  (match rp_result p with
   | Ready (Ok _) => Ok (filled (rp_buf p))
   | Ready (Err e) => Err (Io e)
   | _ => Panic
   end, rp_stream p, rp_shared p).

(** [stream.write(d).await]. *)
Definition write (d : bytes) (st : Stream) (sh : Shared) : result IoError Z * Stream * Shared :=
  let p := poll_write st sh d in
  (match wp_result p with Ready r => r | Pending => Panic end, wp_stream p, wp_shared p).

(** [frame_rx.recv_async().await.unwrap()]. *)
Definition recv_frame (sh : Shared) : Result Frame :=
  match (recv_async (sh_frames sh)).1 with Ready r => unwrap r | Pending => Panic end.

Definition test_stream_creation : test :=
  let stream := test_stream in
  equal (st_stream_id stream) 123;
  ensure (negb (is_read_closed stream));
  ensure (negb (is_write_closed stream));
  ensure (negb (stream_is_closed stream));
  Ok tt.

Definition test_stream_read_with_data : test :=
  let test_data := lit "hello world" in
  sh <-? send_data test_data (test_shared false true);
  let '(r, _, _) := read 20 test_stream sh in
  got <-! r;
  equal got test_data;
  Ok tt.

Definition test_stream_read_eof : test :=
  let sh := test_shared false true in
  let sh := set_data_channel 0 (sender_drop (data_channel 0 sh)) sh in
  let '(r, _, _) := read 20 test_stream sh in
  got <-! r;
  equal (blen got) 0;
  Ok tt.

Definition test_stream_write : test :=
  let test_data := lit "hello world" in
  let '(r, _, sh) := write test_data test_stream (test_shared true false) in
  n <-! r;
  equal n (blen test_data);
  frame <-? recv_frame sh;
  equal (cmd frame) Psh;
  equal (stream_id frame) 123;
  equal (data frame) test_data;
  Ok tt.

Definition test_stream_shutdown : test :=
  let p := poll_shutdown test_stream (test_shared true false) in
  _ <-! match wp_result p with Ready r => r | Pending => Panic end;
  ensure (is_write_closed (wp_stream p));
  frame <-? recv_frame (wp_shared p);
  equal (cmd frame) Fin;
  equal (stream_id frame) 123;
  Ok tt.

Definition test_stream_close : test :=
  let '(r, _, stream, sh) := close_poll CloseStart test_stream (test_shared true false) in
  _ <-! match r with Ready r => r | Pending => Panic end;
  ensure (is_write_closed stream);
  frame <-? recv_frame sh;
  equal (cmd frame) Fin;
  equal (stream_id frame) 123;
  Ok tt.

Definition test_stream_multiple_reads : test :=
  sh <-? send_data (lit "hello ") (test_shared false true);
  sh <-? send_data (lit "world") sh;
  let '(r, stream, sh) := read 20 test_stream sh in
  got1 <-! r;
  let '(r, _, _) := read (20 - length got1) stream sh in
  got2 <-! r;
  let expected := lit "hello world" in
  equal (blen got1 + blen got2) (blen expected);
  equal (got1 ++ got2) expected;
  Ok tt.

Definition test_stream_drop_sends_fin : test :=
  let sh := stream_drop test_stream (test_shared true false) in
  frame <-! (try_recv (sh_frames sh)).1;
  equal (cmd frame) Fin;
  equal (stream_id frame) 123;
  Ok tt.

(** [err.to_string().contains("Session is closed")]: the error displays as its text. *)
Definition test_stream_immediate_close_on_session_closed : test :=
  let sh := test_shared true true in
  ensure (negb (is_closed (sh_state sh)));
  sh <-? send_data (lit "test data") sh;
  let '(r, stream, sh) := read 10 test_stream sh in
  got <-! r;
  equal (blen got) 9;
  equal got (lit "test data");
  let '(r, stream, sh) := write (lit "hello") stream sh in
  ensure (is_ok r);
  let sh := set_state (state_close (sh_state sh)) sh in
  let '(r, stream, sh) := read 10 stream sh in
  ensure (is_err r);
  let '(r, _, _) := write (lit "should fail") stream sh in
  match r with
  | Err err =>
      equal (kind err) BrokenPipe;
      equal (io_message err) "Session is closed"%string;
      Ok tt
  | _ => Panic
  end.
End streams.

(** ** [session.rs]: without a peer *)
Section sessions.
Abbreviation Sess := (Session (gmap Z)).

(** [session.open_stream().await]. *)
Definition open (s : Sess) : Result Stream * Sess :=
  let '(r, _, s) := open_stream OpenStart s in
  (match r with Ready r => r | Pending => Panic end, s).

Definition test_session_creation : test :=
  let session : Sess := session_client config_default in
  ensure (negb (session_is_closed session));
  Ok tt.

Definition test_session_open_stream : test :=
  let session : Sess := session_client config_default in
  let '(r, _) := open session in
  stream <-! r;
  equal (st_stream_id stream mod 2) 1;
  Ok tt.

Definition test_session_close : test :=
  let session : Sess := session_client config_default in
  ensure (negb (session_is_closed session));
  let '(r, session) := session_close session in
  _ <-! r;
  ensure (session_is_closed session);
  match (accept_stream false AcceptStart session).1.1 with
  | Ready result => ensure (is_err result); Ok tt
  | Pending => Panic
  end.

Definition test_client_server_stream_ids : test :=
  let client_session : Sess := session_client config_default in
  let server_session : Sess := session_server config_default in
  client_stream <-! (open client_session).1;
  server_stream <-! (open server_session).1;
  equal (st_stream_id client_stream mod 2) 1;
  equal (st_stream_id server_stream mod 2) 0;
  Ok tt.

Definition test_multiple_streams : test :=
  let session : Sess := session_client config_default in
  let '(r, session) := open session in
  stream1 <-! r;
  let '(r, session) := open session in
  stream2 <-! r;
  let '(r, session) := open session in
  stream3 <-! r;
  equal (st_stream_id stream1) 1;
  equal (st_stream_id stream2) 3;
  equal (st_stream_id stream3) 5;
  Ok tt.

(** The [SessionInner] literal of the tests: of each channel only one end is kept. *)
Definition test_inner (next_id : Z) (client : bool) : Sess :=
  mkSession ∅ config_default (sender_drop (receiver_drop (bounded 1))) next_id client
    (mkShared (session_state_new 1024) (receiver_drop (bounded 1)) ∅ 0).

Fixpoint equal_ids (ids : list Z) (inner : Sess) : test :=
  match ids with
  | [] => Ok tt
  | expected :: ids =>
      let '(r, inner) := next_stream_id inner in
      id <-! r;
      equal id expected;
      equal_ids ids inner
  end.

Definition test_client_stream_id_generation : test := equal_ids [1; 3; 5] (test_inner 1 true).
Definition test_server_stream_id_generation : test := equal_ids [2; 4; 6] (test_inner 2 false).

Definition test_stream_id_overflow : test :=
  let inner := test_inner (u32_MAX - 1) true in
  ensure (is_err (next_stream_id inner).1);
  Ok tt.

Definition test_peer_stream_id_validation : test :=
  let client_inner := test_inner 1 true in
  let server_inner := test_inner 2 false in
  ensure (is_ok (validate_peer_stream_id client_inner 2));
  ensure (is_err (validate_peer_stream_id client_inner 1));
  ensure (is_ok (validate_peer_stream_id server_inner 1));
  ensure (is_err (validate_peer_stream_id server_inner 2));
  ensure (is_err (validate_peer_stream_id client_inner 0));
  ensure (is_err (validate_peer_stream_id server_inner 0));
  Ok tt.

(** [n] calls: the identifiers of those that succeed.  [fetch_add] is atomic, so the
    calls of the twenty tasks are calls one after the other, in some order. *)
Fixpoint generate_ids (n : nat) (inner : Sess) : list Z :=
  match n with
  | O => []
  | S n =>
      match next_stream_id inner with
      | (Ok id, inner) => id :: generate_ids n inner
      | (_, inner) => generate_ids n inner
      end
  end.

Definition test_concurrent_id_generation : test :=
  let session : Sess := session_client config_default in
  let all_ids := generate_ids (20 * 50) session in
  ensure (forallb (fun id => id mod 2 =? 1) all_ids);
  let unique_ids : gset Z := list_to_set all_ids in
  equal (size unique_ids) (length all_ids);
  ensure (1000 <=? length all_ids)%nat;
  Ok tt.
End sessions.

(** ** Over a duplex transport

    [Session::client(client_transport, config)] and its peer; [dx_client] and
    [dx_server] are the two sessions with what the test holds of them. *)
Section duplex_tests.
Abbreviation Conn := (Duplex (gmap Z)).

Definition connect (config : Config) : Conn :=
  let src := mkReader (codec_new config) [] [] false in
  let sink := (mkWriter (codec_new config) None [], false) in
  dx_new config config src src sink sink.

(** Every task of both sides is polled once at time [now], and the transport carries
    what there is. *)
Definition both (now : Z) : list Happens :=
  [ AtClient (OpKeepAlive PingBranch now); AtServer (OpKeepAlive PingBranch now);
    AtClient (OpSend false); AtServer (OpSend false);
    ToServer 1024 false; ToClient 1024 false;
    AtClient (OpRecv false); AtServer (OpRecv false) ].

(** The same with nobody at the other end of the transport. *)
Definition alone (now : Z) : list Happens :=
  [ AtClient (OpKeepAlive PingBranch now); AtClient (OpSend false); AtClient (OpRecv false) ].

(** [tokio::time::sleep] from millisecond [start], for [n] milliseconds. *)
Definition sleep (tasks : Z -> list Happens) (start n : nat) (d : Conn) : Conn :=
  dx_run (concat (map (fun ms => tasks (from_millis (Z.of_nat ms))) (seq start n))) d.

Definition client_closed (d : Conn) : bool :=
  session_is_closed (ep_session (sd_endpoint (dx_client d))).
Definition server_closed (d : Conn) : bool :=
  session_is_closed (ep_session (sd_endpoint (dx_server d))).

(** The stream the test holds at a side. *)
Definition held_stream (x : Side (gmap Z)) : Result Stream :=
  unwrap_some (free_stream 0 (sd_endpoint x)).

Definition test_stream_integration_with_session : test :=
  let d := connect config_default in
  let d := dx_step (AtClient OpOpen) d in
  client_stream <-? held_stream (dx_client d);
  let d := sleep both 0 10 d in
  let d := dx_step (AtServer (OpAccept false AcceptStart)) d in
  server_stream <-? held_stream (dx_server d);
  equal (st_stream_id client_stream) (st_stream_id server_stream);
  let id := st_stream_id client_stream in
  let test_data := lit "Hello from client!" in
  let d := dx_step (AtClient (OpWrite 0 test_data)) d in
  equal (wrote id (sd_history (dx_client d))) test_data;
  let d := sleep both 10 10 d in
  let d := dx_step (AtServer (OpRead 0 (empty_buf 64))) d in
  equal (delivered (st_data_rx server_stream) (sd_history (dx_server d))) test_data;
  let response_data := lit "Hello from server!" in
  let d := dx_step (AtServer (OpWrite 0 response_data)) d in
  equal (wrote id (sd_history (dx_server d))) response_data;
  let d := sleep both 20 10 d in
  let d := dx_step (AtClient (OpRead 0 (empty_buf 64))) d in
  equal (delivered (st_data_rx client_stream) (sd_history (dx_client d))) response_data;
  let d := dx_step (AtClient (OpShutdown 0)) d in
  let d := dx_step (AtServer (OpShutdown 0)) d in
  client_stream <-? held_stream (dx_client d);
  server_stream <-? held_stream (dx_server d);
  ensure (is_write_closed client_stream);
  ensure (is_write_closed server_stream);
  Ok tt.

(** [Config { keep_alive_interval, keep_alive_timeout, ..Default::default() }]. *)
Definition keep_alive_config (interval timeout : Z) : Config :=
  default_with (fun b => ConfigBuilder.set_keep_alive_timeout (from_millis timeout)
    (ConfigBuilder.set_keep_alive_interval (from_millis interval) b)).

Definition test_keep_alive_sends_nop_frames : test :=
  let d := connect (keep_alive_config 100 500) in
  let d := sleep both 0 150 d in
  ensure (negb (client_closed d));
  ensure (negb (server_closed d));
  let d := sleep both 150 200 d in
  ensure (negb (client_closed d));
  ensure (negb (server_closed d));
  Ok tt.

(** [while !client_session.is_closed() && retries < 10]. *)
Fixpoint retry (retries ms : nat) (d : Conn) : Conn :=
  match retries with
  | O => d
  | S retries => if client_closed d then d else retry retries (ms + 50) (sleep alone ms 50 d)
  end.

Definition test_keep_alive_timeout_closes_session : test :=
  let d := connect (keep_alive_config 50 100) in
  ensure (negb (client_closed d));
  let d := sleep alone 0 150 d in
  let d := retry 10 150 d in
  ensure (client_closed d);
  Ok tt.

Definition test_keep_alive_with_active_communication : test :=
  let d := connect (keep_alive_config 100 200) in
  let d := dx_step (AtClient OpOpen) d in
  client_stream <-? held_stream (dx_client d);
  let d := sleep both 0 1 d in
  let d := dx_step (AtServer (OpAccept false AcceptStart)) d in
  let d := sleep both 1 299 d in
  ensure (negb (client_closed d));
  Ok tt.

Definition stream_tests : list test :=
  [ test_stream_creation; test_stream_read_with_data; test_stream_read_eof;
    test_stream_write; test_stream_shutdown; test_stream_close; test_stream_multiple_reads;
    test_stream_drop_sends_fin; test_stream_integration_with_session;
    test_stream_immediate_close_on_session_closed ].

Definition session_tests : list test :=
  [ test_session_creation; test_session_open_stream; test_session_close;
    test_client_server_stream_ids; test_multiple_streams; test_client_stream_id_generation;
    test_server_stream_id_generation; test_stream_id_overflow;
    test_peer_stream_id_validation; test_concurrent_id_generation;
    test_keep_alive_sends_nop_frames; test_keep_alive_timeout_closes_session;
    test_keep_alive_with_active_communication ].

Lemma stream_tests_pass : Forall (fun t => t = Ok tt) stream_tests.
Proof. unfold stream_tests. repeat constructor; vm_compute; reflexivity. Qed.

Lemma session_tests_pass : Forall (fun t => t = Ok tt) session_tests.
Proof. unfold session_tests. repeat constructor; vm_compute; reflexivity. Qed.
End duplex_tests.
